(** * InnoDB redo log (storage/innobase/log/log0log.cc, include/log0log.h)

    A shallow embedding of the redo log of the storage engine: the circular
    data file of [redo::redo_t], the in-memory log buffer of [log_t], the
    capacity thresholds, the group-commit write/flush protocol and the
    checkpoint writer, followed by the properties the specification states
    about them.

    Conventions.
    - Unsigned machine integers ([ulint], [ulong], [lsn_t], [os_offset_t],
      [size_t]: 64 bits; [uint32_t], [unsigned]: 32 bits) are values of [Z];
      every arithmetic result that the C++ code stores in such a type is
      wrapped explicitly with [u64] or [u32].
    - A byte is a [Z] in [0, 256); byte strings are [list byte]; the log
      buffer is a [memory], a map from byte addresses to bytes.
    - Debug-only assertions ([ut_ad]) are not part of the behaviour. The
      always-on assertion [ut_a] and [ib::fatal] end the process: outcome
      [Aborted].
    - Mutexes are not modelled: each function is the code one thread runs,
      started in an arbitrary state. A thread that has to wait for a
      group-commit lock held by another thread stops with the outcome
      [Blocked]; [log_write_up_to_blocked] shows that nothing else gives
      that outcome. [log_write_up_to_run] gives the same call of
      [log_write_up_to] step by step, with the steps of other threads
      between its own and while it is queued.
    - Statistics counters of other modules ([srv_stats], [MONITOR_INC]),
      debug printing and service-manager notifications are left out.
    - Modelled: [redo_t::append_wrapped], [append_mtr_data],
      [append_checkpoint_durable], [append_file_operations_durable],
      [read_wrapped], [flush_data]; [log_reserve_and_open],
      [log_write_low], [log_close], [log_buffer_extend],
      [log_set_capacity], [log_margin_checkpoint_age], [log_write] with
      [log_buffer_switch] and [log_write_buf], [log_write_up_to] with its
      callers [log_buffer_flush_to_disk], [log_buffer_sync_in_background]
      and [log_flush_margin], [log_checkpoint] and [get_log_file_path].
      Start-up, shutdown, the creation of the files and the preflush of
      the buffer pool ([log_checkpoint_margin], [log_make_checkpoint])
      depend on modules that are not among the sources and are not
      modelled. *)

From Stdlib Require Import ZArith List Bool Lia.
Import ListNotations.
Local Open Scope Z_scope.

(** ** Machine integers, bytes and memory *)

Definition u64 (x : Z) : Z := x mod 2 ^ 64.
Definition u32 (x : Z) : Z := x mod 2 ^ 32.
Definition u8 (x : Z) : Z := x mod 2 ^ 8.

Definition byte : Type := Z.

Definition zlen {A : Type} (l : list A) : Z := Z.of_nat (length l).

(** [span::subspan(offset, count)]. *)
Definition subspan {A : Type} (offset count : Z) (l : list A) : list A :=
  firstn (Z.to_nat count) (skipn (Z.to_nat offset) l).

(** [ut_2pow_round(n, m)], [ut_align_down], [ut_uint64_align_down]:
    [n & ~(m - 1)] for a power of two [m]. *)
Definition ut_2pow_round (n m : Z) : Z := Z.land n (Z.lnot (m - 1)).

(** [ut_calc_align(n, m)], [ut_uint64_align_up]:
    [(n + m - 1) & ~(m - 1)] for a power of two [m]. *)
Definition ut_calc_align (n m : Z) : Z :=
  Z.land (u64 (n + m - 1)) (Z.lnot (m - 1)).

Definition memory : Type := Z -> byte.

Definition in_range (a lo n : Z) : bool := (lo <=? a) && (a <? lo + n).

(** [memcpy(dst, src, |src|)] from a byte string. *)
Definition memcpy (m : memory) (dst : Z) (src : list byte) : memory :=
  fun a => if in_range a dst (zlen src)
           then nth (Z.to_nat (a - dst)) src 0
           else m a.

(** [memset(dst, c, n)]. *)
Definition memset (m : memory) (dst : Z) (c : byte) (n : Z) : memory :=
  fun a => if in_range a dst n then c else m a.

(** The [n] bytes starting at [addr]. *)
Definition mem_read (m : memory) (addr : Z) (n : nat) : list byte :=
  map (fun i => m (addr + Z.of_nat i)) (seq 0 n).

(** Modelled from the spec: mach0data.ic is not among the sources; the
    specification fixes the multi-byte fields as big-endian. [mach_write_to
    n v] is the [n] bytes that [mach_write_to_N] stores for [v], most
    significant first; [mach_read_from] is the value [mach_read_from_N]
    rebuilds from them. *)
Fixpoint mach_write_to (n : nat) (v : Z) : list byte :=
  match n with
  | O => []
  | S m => (v / 256 ^ Z.of_nat m) mod 256 :: mach_write_to m v
  end.

Fixpoint mach_read_acc (bs : list byte) (acc : Z) : Z :=
  match bs with
  | [] => acc
  | b :: rest => mach_read_acc rest (acc * 256 + b)
  end.

Definition mach_read_from (bs : list byte) : Z := mach_read_acc bs 0.

Definition mem_write_to (n : nat) (m : memory) (addr v : Z) : memory :=
  memcpy m addr (mach_write_to n v).

Definition mem_read_from (n : nat) (m : memory) (addr : Z) : Z :=
  mach_read_from (mem_read m addr n).

(** ** Results *)

Inductive dberr_t : Type :=
| DB_SUCCESS
| DB_ERROR.

(** How a call ends: it returns, it waits for another thread, or the
    process is terminated. *)
Inductive outcome (A : Type) : Type :=
| Returned (a : A)
| Blocked
| Aborted.

Arguments Returned {A} a.
Arguments Blocked {A}.
Arguments Aborted {A}.

Definition bind {A B : Type} (c : outcome A) (k : A -> outcome B)
  : outcome B :=
  match c with
  | Returned a => k a
  | Blocked => Blocked
  | Aborted => Aborted
  end.

Notation "x <- c ;; k" := (bind c (fun x => k))
  (at level 61, c at next level, right associativity).

(** ** CRC-32C

    Modelled from the spec: ut0crc32 is not among the sources; the
    specification names the checksum as CRC-32C, the reflected CRC with
    the Castagnoli polynomial [0x82F63B78], initial value and final
    complement [0xFFFFFFFF]. *)

Fixpoint crc32c_shift (n : nat) (crc : Z) : Z :=
  match n with
  | O => crc
  | S m =>
      crc32c_shift m
        (if Z.testbit crc 0
         then Z.lxor (Z.shiftr crc 1) 0x82F63B78
         else Z.shiftr crc 1)
  end.

Definition crc32c_update (crc : Z) (b : byte) : Z :=
  crc32c_shift 8 (Z.lxor crc b).

Definition ut_crc32 (buf : list byte) : Z :=
  Z.lxor (fold_left crc32c_update buf 0xFFFFFFFF) 0xFFFFFFFF.

(** ** Collaborators that are not among the sources

    [FILE_CHECKPOINT] is a record-type constant of mtr0types.h,
    [mlog_encode_varint] the variable-length integer encoder of mtr0log.h
    (here: the bytes it stores) and [log_crypt] the frame transform of
    log0crypt applied to [size] bytes at [addr] of the log buffer. The
    specification does not define them; they are parameters. *)
Class Collaborators : Type := {
  FILE_CHECKPOINT : Z;
  mlog_encode_varint : Z -> list byte;
  log_crypt : memory -> Z -> Z -> Z -> memory
}.

(** ** Files ([file_io], [log_file_t])

    A file is the chronological list of the operations that reached it.
    The outcome of each coming system call is decided by [f_faults]: the
    head is consumed by the next call, [true] makes it fail, and an empty
    list means that every further call succeeds. A failed call leaves no
    operation behind. *)

Inductive file_op : Type :=
| Op_write (offset : Z) (data : list byte)
| Op_flush_data.

Record log_file_t : Type := mk_log_file {
  m_durable_writes : bool;
  f_ops : list file_op;
  f_faults : list bool
}.

Module File.

Definition next_call_fails (f : log_file_t) : bool :=
  match f_faults f with
  | b :: _ => b
  | [] => false
  end.

Definition consume (f : log_file_t) : log_file_t :=
  mk_log_file (m_durable_writes f) (f_ops f) (tl (f_faults f)).

Definition record (op : file_op) (f : log_file_t) : log_file_t :=
  mk_log_file (m_durable_writes f) (f_ops f ++ [op]) (f_faults f).

(** [log_file_t::write]. *)
Definition write (offset : Z) (data : list byte) (f : log_file_t)
  : dberr_t * log_file_t :=
  if next_call_fails f then (DB_ERROR, consume f)
  else (DB_SUCCESS, record (Op_write offset data) (consume f)).

(** [log_file_t::flush_data_only]. *)
Definition flush_data_only (f : log_file_t) : dberr_t * log_file_t :=
  if next_call_fails f then (DB_ERROR, consume f)
  else (DB_SUCCESS, record Op_flush_data (consume f)).

(** [log_file_t::writes_are_durable]. *)
Definition writes_are_durable (f : log_file_t) : bool := m_durable_writes f.

(** The bytes written, in order, whatever their offsets. *)
Fixpoint written (ops : list file_op) : list byte :=
  match ops with
  | [] => []
  | Op_write _ d :: rest => d ++ written rest
  | Op_flush_data :: rest => written rest
  end.

End File.

(** ** The circular data file ([namespace redo], [redo_t]) *)

Record redo_t : Type := mk_redo {
  m_main_file : log_file_t;
  m_main_file_size : Z;
  m_data_file : log_file_t;
  m_data_file_position : Z;
  m_data_file_size : Z;
  m_sequence_bit : Z
}.

(** [mtr_buf_t]: the blocks of a mini-transaction's record buffer. *)
Definition mtr_buf_t : Type := list (list byte).

Module Redo.

Definition CHECKPOINT_SIZE : Z := 1 + 8 + 6 + 4.

Definition set_main_file (f : log_file_t) (r : redo_t) : redo_t :=
  mk_redo f (m_main_file_size r) (m_data_file r) (m_data_file_position r)
          (m_data_file_size r) (m_sequence_bit r).

Definition set_main_file_size (n : Z) (r : redo_t) : redo_t :=
  mk_redo (m_main_file r) n (m_data_file r) (m_data_file_position r)
          (m_data_file_size r) (m_sequence_bit r).

Definition set_data_file (f : log_file_t) (r : redo_t) : redo_t :=
  mk_redo (m_main_file r) (m_main_file_size r) f (m_data_file_position r)
          (m_data_file_size r) (m_sequence_bit r).

Definition set_data_file_position (p : Z) (r : redo_t) : redo_t :=
  mk_redo (m_main_file r) (m_main_file_size r) (m_data_file r) p
          (m_data_file_size r) (m_sequence_bit r).

Definition set_sequence_bit (b : Z) (r : redo_t) : redo_t :=
  mk_redo (m_main_file r) (m_main_file_size r) (m_data_file r)
          (m_data_file_position r) (m_data_file_size r) b.

(** [void flip_sequence_bit() { m_sequence_bit= ~m_sequence_bit; }] on
    the one-bit field [unsigned m_sequence_bit : 1]. *)
Definition flip_sequence_bit (r : redo_t) : redo_t :=
  set_sequence_bit (Z.land (Z.lnot (m_sequence_bit r)) 1) r.

(** The end of [append_wrapped], after the [if]: one write at the cursor,
    the cursor advanced, and reset when it reaches the end of the file. *)
Definition append_at_cursor (buf : list byte) (r : redo_t)
  : dberr_t * redo_t :=
  let '(err, f) := File.write (m_data_file_position r) buf (m_data_file r) in
  match err with
  | DB_ERROR => (DB_ERROR, set_data_file f r)
  | DB_SUCCESS =>
      let r1 := set_data_file f r in
      let r2 :=
        set_data_file_position (u64 (m_data_file_position r1 + zlen buf)) r1 in
      if m_data_file_position r2 =? m_data_file_size r2
      then (DB_SUCCESS, set_data_file_position 0 r2)
      else (DB_SUCCESS, r2)
  end.

(** [redo_t::append_wrapped]. *)
Definition append_wrapped (buf : list byte) (r : redo_t)
  : dberr_t * redo_t :=
  if u64 (m_data_file_position r + zlen buf) >? m_data_file_size r then
    let tail_length := u64 (m_data_file_size r - m_data_file_position r) in
    let '(err, f) :=
      File.write (m_data_file_position r) (subspan 0 tail_length buf)
                 (m_data_file r) in
    match err with
    | DB_ERROR => (DB_ERROR, set_data_file f r)
    | DB_SUCCESS =>
        let buf' := subspan tail_length (u64 (zlen buf - tail_length)) buf in
        let r1 := set_data_file_position 0 (set_data_file f r) in
        let r2 := flip_sequence_bit r1 in
        append_at_cursor buf' r2
    end
  else append_at_cursor buf r.

(** [mtr_functor_t] run by [for_each_block]: the blocks one after the
    other. *)
Definition for_each_block (payload : mtr_buf_t) : list byte :=
  concat payload.

(** [mtr_buf_t::size()]. *)
Definition payload_size (payload : mtr_buf_t) : Z :=
  zlen (for_each_block payload).

(** [mlog_encode_varint(v.data(), i)] on a vector that already holds
    bytes: the encoding replaces the first bytes of [v]. *)
Definition overwrite_front (enc v : list byte) : list byte :=
  enc ++ skipn (length enc) v.

Section WithCollaborators.
Context {C : Collaborators}.

(** [redo_t::append_checkpoint_durable_impl]: the 19 bytes of a
    checkpoint record. *)
Definition checkpoint_record (lsn data_file_offset sequence_bit : Z)
  : list byte :=
  let head :=
    [Z.lor FILE_CHECKPOINT (8 + 6)]
      ++ mach_write_to 8 lsn
      ++ mach_write_to 6
           (Z.lor (u64 (Z.shiftl sequence_bit 47)) data_file_offset) in
  head ++ mach_write_to 4 (ut_crc32 head).

Definition append_checkpoint_durable_impl
  (file : log_file_t) (tail lsn data_file_offset sequence_bit : Z)
  : dberr_t * log_file_t :=
  let buf := checkpoint_record lsn data_file_offset sequence_bit in
  let '(err, f1) := File.write tail buf file in
  match err with
  | DB_ERROR => (DB_ERROR, f1)
  | DB_SUCCESS =>
      if File.writes_are_durable f1 then (DB_SUCCESS, f1)
      else File.flush_data_only f1
  end.

(** [redo_t::append_checkpoint_durable]. *)
Definition append_checkpoint_durable (lsn : Z) (r : redo_t)
  : dberr_t * redo_t :=
  let '(err, f) :=
    append_checkpoint_durable_impl (m_main_file r) (m_main_file_size r) lsn
      (m_data_file_position r) (m_sequence_bit r) in
  match err with
  | DB_ERROR => (DB_ERROR, set_main_file f r)
  | DB_SUCCESS =>
      (DB_SUCCESS,
       set_main_file_size (u64 (m_main_file_size r + CHECKPOINT_SIZE))
         (set_main_file f r))
  end.

(** The vector [v] that [redo_t::append_mtr_data] builds before taking
    the mutex: the header encoded without skip and sequence bits, the
    payload, and the checksum of the two. *)
Definition mtr_record_unsequenced (payload : mtr_buf_t) : list byte :=
  let size := u32 (payload_size payload + 4) in
  let header := mlog_encode_varint (u32 (Z.shiftl size 2)) in
  let v := header ++ for_each_block payload in
  v ++ mach_write_to 4 (ut_crc32 v).

(** The header value encoded under the mutex:
    [size << 2 | skip_bit << 1 | m_sequence_bit] with [skip_bit = 0]. *)
Definition mtr_header_value (payload : mtr_buf_t) (sequence_bit : Z) : Z :=
  let size := u32 (payload_size payload + 4) in
  let skip_bit := 0 in
  Z.lor (Z.lor (u32 (Z.shiftl size 2)) (Z.shiftl skip_bit 1)) sequence_bit.

(** The bytes handed to [append_wrapped]. *)
Definition mtr_record (payload : mtr_buf_t) (sequence_bit : Z) : list byte :=
  overwrite_front
    (mlog_encode_varint (mtr_header_value payload sequence_bit))
    (mtr_record_unsequenced payload).

(** [redo_t::append_mtr_data]. *)
Definition append_mtr_data (payload : mtr_buf_t) (r : redo_t)
  : dberr_t * redo_t :=
  append_wrapped (mtr_record payload (m_sequence_bit r)) r.

End WithCollaborators.

(** [redo_t::flush_data]. *)
Definition flush_data (r : redo_t) : dberr_t * redo_t :=
  let '(err, f) := File.flush_data_only (m_data_file r) in
  (err, set_data_file f r).

End Redo.

(** ** Log blocks (log0log.h, the block codec) *)

Definition OS_FILE_LOG_BLOCK_SIZE : Z := 512.
Definition LOG_BLOCK_HDR_NO : Z := 0.
Definition LOG_BLOCK_FLUSH_BIT_MASK : Z := 0x80000000.
Definition LOG_BLOCK_HDR_DATA_LEN : Z := 4.
Definition LOG_BLOCK_FIRST_REC_GROUP : Z := 6.
Definition LOG_BLOCK_CHECKPOINT_NO : Z := 8.
Definition LOG_BLOCK_HDR_SIZE : Z := 12.
Definition LOG_BLOCK_KEY : Z := 4.
Definition LOG_BLOCK_CHECKSUM : Z := 4.

Definition FORMAT_10_4 : Z := 104.
Definition FORMAT_ENCRYPTED : Z := Z.shiftl 1 31.
Definition FORMAT_ENC_10_4 : Z := Z.lor FORMAT_10_4 FORMAT_ENCRYPTED.
Definition FORMAT_10_5 : Z := 0x50485953.

Module LogBlock.

(** Modelled from the spec: log0log.ic, which defines the accessors of
    the block header, is not among the sources. The specification gives
    the fields (32-bit block number whose top bit is the flush bit, 16-bit
    data length, 16-bit first-record-group offset, 32 low bits of the
    checkpoint number, CRC-32C trailer over the bytes before it) and
    log0log.h gives their offsets. *)
Definition log_block_set_hdr_no (m : memory) (block n : Z) : memory :=
  mem_write_to 4 m (block + LOG_BLOCK_HDR_NO) n.

Definition log_block_get_hdr_no (m : memory) (block : Z) : Z :=
  Z.land (Z.lnot LOG_BLOCK_FLUSH_BIT_MASK)
         (mem_read_from 4 m (block + LOG_BLOCK_HDR_NO)).

Definition log_block_set_flush_bit (m : memory) (block : Z) (val : bool)
  : memory :=
  let field := mem_read_from 4 m (block + LOG_BLOCK_HDR_NO) in
  let field' :=
    if val then Z.lor field LOG_BLOCK_FLUSH_BIT_MASK
    else Z.land field (Z.lnot LOG_BLOCK_FLUSH_BIT_MASK) in
  mem_write_to 4 m (block + LOG_BLOCK_HDR_NO) field'.

Definition log_block_set_data_len (m : memory) (block n : Z) : memory :=
  mem_write_to 2 m (block + LOG_BLOCK_HDR_DATA_LEN) n.

Definition log_block_get_data_len (m : memory) (block : Z) : Z :=
  mem_read_from 2 m (block + LOG_BLOCK_HDR_DATA_LEN).

Definition log_block_set_first_rec_group (m : memory) (block n : Z)
  : memory :=
  mem_write_to 2 m (block + LOG_BLOCK_FIRST_REC_GROUP) n.

Definition log_block_get_first_rec_group (m : memory) (block : Z) : Z :=
  mem_read_from 2 m (block + LOG_BLOCK_FIRST_REC_GROUP).

Definition log_block_set_checkpoint_no (m : memory) (block no : Z)
  : memory :=
  mem_write_to 4 m (block + LOG_BLOCK_CHECKPOINT_NO) no.

Definition log_block_get_checkpoint_no (m : memory) (block : Z) : Z :=
  mem_read_from 4 m (block + LOG_BLOCK_CHECKPOINT_NO).

Definition log_block_calc_checksum_crc32 (m : memory) (block : Z) : Z :=
  ut_crc32
    (mem_read m block (Z.to_nat (OS_FILE_LOG_BLOCK_SIZE - LOG_BLOCK_CHECKSUM))).

Definition log_block_set_checksum (m : memory) (block c : Z) : memory :=
  mem_write_to 4 m (block + OS_FILE_LOG_BLOCK_SIZE - LOG_BLOCK_CHECKSUM) c.

(** [log_block_store_checksum] (log0log.cc). *)
Definition log_block_store_checksum (m : memory) (block : Z) : memory :=
  log_block_set_checksum m block (log_block_calc_checksum_crc32 m block).

(** Modelled from the spec: the block number of an lsn is
    [1 + (lsn / 512) mod 2^31]. *)
Definition log_block_convert_lsn_to_no (lsn : Z) : Z :=
  1 + (lsn / OS_FILE_LOG_BLOCK_SIZE) mod 2 ^ 31.

(** Modelled from the spec: [log_block_init] of log0log.ic initialises
    the header of a block from the lsn of a byte in it: the block number,
    a data length of the header alone, and no first record group (the
    state [log_close] tests for with [first_rec_group == 0]). *)
Definition log_block_init (m : memory) (block lsn : Z) : memory :=
  let m1 := log_block_set_hdr_no m block (log_block_convert_lsn_to_no lsn) in
  let m2 := log_block_set_data_len m1 block LOG_BLOCK_HDR_SIZE in
  log_block_set_first_rec_group m2 block 0.

End LogBlock.

(** ** Group-commit locks

    Modelled from the spec: log0sync.h, which defines [group_commit_lock],
    is not among the sources. The specification gives [acquire],
    [set_pending], [release] and [value]: [acquire(lsn)] returns as covered
    when the committed LSN is already at least [lsn], otherwise the caller
    becomes the sole writer, unless another thread is the writer: then the
    caller is queued and blocks until the committed LSN reaches [lsn]. *)

Record group_commit_lock : Type := mk_group_commit_lock {
  m_value : Z;
  m_pending_value : Z;
  m_lock : bool
}.

Inductive lock_return_code : Type :=
| ACQUIRED
| WAITING_COVERED.

Module GroupCommit.

Definition value (l : group_commit_lock) : Z := m_value l.

(** [None]: the caller is queued behind the current writer. *)
Definition acquire (num : Z) (l : group_commit_lock)
  : option (lock_return_code * group_commit_lock) :=
  if num <=? value l then Some (WAITING_COVERED, l)
  else if m_lock l then None
  else
    Some (ACQUIRED,
          mk_group_commit_lock (m_value l) (m_pending_value l) true).

Definition set_pending (num : Z) (l : group_commit_lock) : group_commit_lock :=
  mk_group_commit_lock (m_value l) num (m_lock l).

Definition release (num : Z) (l : group_commit_lock) : group_commit_lock :=
  mk_group_commit_lock num (m_pending_value l) false.

End GroupCommit.

(** ** The log system ([log_t]) and what surrounds it *)

(** [log_t::file]. The private fields [lsn] and [lsn_offset] are
    [file_lsn] and [file_lsn_offset] here. *)
Record log_t_file : Type := mk_log_t_file {
  format : Z;
  key_version : Z;
  file_size : Z;
  file_lsn : Z;
  file_lsn_offset : Z;
  data_fd : log_file_t
}.

(** [log_t]: the fields the modelled functions read or write. [buf_mem] is
    the memory of the doubled log buffer, addressed from its start, and
    [buf] is the offset in it of the half in use. *)
Record log_t : Type := mk_log_t {
  lsn : Z;
  buf_free : Z;
  buf_mem : memory;
  buf : Z;
  first_in_use : bool;
  max_buf_free : Z;
  check_flush_or_checkpoint : bool;
  log : log_t_file;
  buf_next_to_write : Z;
  write_lsn : Z;
  flushed_to_disk_lsn : Z;
  pending_flushes : Z;
  flushes : Z;
  n_log_ios : Z;
  log_capacity : Z;
  max_modified_age_async : Z;
  max_modified_age_sync : Z;
  max_checkpoint_age_async : Z;
  max_checkpoint_age : Z;
  next_checkpoint_no : Z;
  last_checkpoint_lsn : Z;
  next_checkpoint_lsn : Z;
  n_pending_checkpoint_writes : Z
}.

Inductive srv_flush_t : Type :=
| SRV_FSYNC
| SRV_O_DSYNC
| SRV_NOSYNC.

(** Globals of other modules that the log reads: recovery flags, server
    configuration, the buffer pool's answer to
    [buf_pool_get_oldest_modification()] (0 when no page is dirty) and
    the wall clock [time(NULL)]. *)
Record server_t : Type := mk_server {
  recv_no_ibuf_operations : bool;
  recv_recovery_is_on : bool;
  srv_file_flush_method : srv_flush_t;
  srv_log_buffer_size : Z;
  srv_log_write_ahead_size : Z;
  srv_page_size_shift : Z;
  srv_thread_concurrency : Z;
  buf_pool_get_oldest_modification : Z;
  time_now : Z
}.

(** What the log asks of the outside, in order. *)
Inductive event : Type :=
| Ev_error_margin (margin capacity : Z)
| Ev_error_log_too_small (concurrency : Z)
| Ev_sleep (microseconds : Z)
| Ev_recv_apply_hashed_log_recs
| Ev_fil_flush_file_spaces
| Ev_log_notify (lsn : Z).

Record world : Type := mk_world {
  log_sys : log_t;
  write_lock : group_commit_lock;
  flush_lock : group_commit_lock;
  new_redo : redo_t;
  log_has_printed_chkp_margine_warning : bool;
  log_last_margine_warning_time : Z;
  srv : server_t;
  trace : list event
}.

Definition set_file_lsn (v : Z) (f : log_t_file) : log_t_file :=
  mk_log_t_file (format f) (key_version f) (file_size f) v
    (file_lsn_offset f) (data_fd f) .

Definition set_file_lsn_offset (v : Z) (f : log_t_file) : log_t_file :=
  mk_log_t_file (format f) (key_version f) (file_size f) (file_lsn f) v
    (data_fd f) .

Definition set_data_fd (v : log_file_t) (f : log_t_file) : log_t_file :=
  mk_log_t_file (format f) (key_version f) (file_size f) (file_lsn f)
    (file_lsn_offset f) v.

Definition set_lsn (v : Z) (s : log_t) : log_t :=
  mk_log_t v (buf_free s) (buf_mem s) (buf s) (first_in_use s)
    (max_buf_free s) (check_flush_or_checkpoint s) (log s)
    (buf_next_to_write s) (write_lsn s) (flushed_to_disk_lsn s)
    (pending_flushes s) (flushes s) (n_log_ios s) (log_capacity s)
    (max_modified_age_async s) (max_modified_age_sync s)
    (max_checkpoint_age_async s) (max_checkpoint_age s)
    (next_checkpoint_no s) (last_checkpoint_lsn s) (next_checkpoint_lsn s)
    (n_pending_checkpoint_writes s) .

Definition set_buf_free (v : Z) (s : log_t) : log_t :=
  mk_log_t (lsn s) v (buf_mem s) (buf s) (first_in_use s) (max_buf_free s)
    (check_flush_or_checkpoint s) (log s) (buf_next_to_write s)
    (write_lsn s) (flushed_to_disk_lsn s) (pending_flushes s) (flushes s)
    (n_log_ios s) (log_capacity s) (max_modified_age_async s)
    (max_modified_age_sync s) (max_checkpoint_age_async s)
    (max_checkpoint_age s) (next_checkpoint_no s) (last_checkpoint_lsn s)
    (next_checkpoint_lsn s) (n_pending_checkpoint_writes s) .

Definition set_buf_mem (v : memory) (s : log_t) : log_t :=
  mk_log_t (lsn s) (buf_free s) v (buf s) (first_in_use s) (max_buf_free s)
    (check_flush_or_checkpoint s) (log s) (buf_next_to_write s)
    (write_lsn s) (flushed_to_disk_lsn s) (pending_flushes s) (flushes s)
    (n_log_ios s) (log_capacity s) (max_modified_age_async s)
    (max_modified_age_sync s) (max_checkpoint_age_async s)
    (max_checkpoint_age s) (next_checkpoint_no s) (last_checkpoint_lsn s)
    (next_checkpoint_lsn s) (n_pending_checkpoint_writes s) .

Definition set_buf (v : Z) (s : log_t) : log_t :=
  mk_log_t (lsn s) (buf_free s) (buf_mem s) v (first_in_use s)
    (max_buf_free s) (check_flush_or_checkpoint s) (log s)
    (buf_next_to_write s) (write_lsn s) (flushed_to_disk_lsn s)
    (pending_flushes s) (flushes s) (n_log_ios s) (log_capacity s)
    (max_modified_age_async s) (max_modified_age_sync s)
    (max_checkpoint_age_async s) (max_checkpoint_age s)
    (next_checkpoint_no s) (last_checkpoint_lsn s) (next_checkpoint_lsn s)
    (n_pending_checkpoint_writes s) .

Definition set_first_in_use (v : bool) (s : log_t) : log_t :=
  mk_log_t (lsn s) (buf_free s) (buf_mem s) (buf s) v (max_buf_free s)
    (check_flush_or_checkpoint s) (log s) (buf_next_to_write s)
    (write_lsn s) (flushed_to_disk_lsn s) (pending_flushes s) (flushes s)
    (n_log_ios s) (log_capacity s) (max_modified_age_async s)
    (max_modified_age_sync s) (max_checkpoint_age_async s)
    (max_checkpoint_age s) (next_checkpoint_no s) (last_checkpoint_lsn s)
    (next_checkpoint_lsn s) (n_pending_checkpoint_writes s) .

Definition set_check_flush_or_checkpoint (v : bool) (s : log_t) : log_t :=
  mk_log_t (lsn s) (buf_free s) (buf_mem s) (buf s) (first_in_use s)
    (max_buf_free s) v (log s) (buf_next_to_write s) (write_lsn s)
    (flushed_to_disk_lsn s) (pending_flushes s) (flushes s) (n_log_ios s)
    (log_capacity s) (max_modified_age_async s) (max_modified_age_sync s)
    (max_checkpoint_age_async s) (max_checkpoint_age s)
    (next_checkpoint_no s) (last_checkpoint_lsn s) (next_checkpoint_lsn s)
    (n_pending_checkpoint_writes s) .

Definition set_log (v : log_t_file) (s : log_t) : log_t :=
  mk_log_t (lsn s) (buf_free s) (buf_mem s) (buf s) (first_in_use s)
    (max_buf_free s) (check_flush_or_checkpoint s) v (buf_next_to_write s)
    (write_lsn s) (flushed_to_disk_lsn s) (pending_flushes s) (flushes s)
    (n_log_ios s) (log_capacity s) (max_modified_age_async s)
    (max_modified_age_sync s) (max_checkpoint_age_async s)
    (max_checkpoint_age s) (next_checkpoint_no s) (last_checkpoint_lsn s)
    (next_checkpoint_lsn s) (n_pending_checkpoint_writes s) .

Definition set_buf_next_to_write (v : Z) (s : log_t) : log_t :=
  mk_log_t (lsn s) (buf_free s) (buf_mem s) (buf s) (first_in_use s)
    (max_buf_free s) (check_flush_or_checkpoint s) (log s) v (write_lsn s)
    (flushed_to_disk_lsn s) (pending_flushes s) (flushes s) (n_log_ios s)
    (log_capacity s) (max_modified_age_async s) (max_modified_age_sync s)
    (max_checkpoint_age_async s) (max_checkpoint_age s)
    (next_checkpoint_no s) (last_checkpoint_lsn s) (next_checkpoint_lsn s)
    (n_pending_checkpoint_writes s) .

Definition set_write_lsn (v : Z) (s : log_t) : log_t :=
  mk_log_t (lsn s) (buf_free s) (buf_mem s) (buf s) (first_in_use s)
    (max_buf_free s) (check_flush_or_checkpoint s) (log s)
    (buf_next_to_write s) v (flushed_to_disk_lsn s) (pending_flushes s)
    (flushes s) (n_log_ios s) (log_capacity s) (max_modified_age_async s)
    (max_modified_age_sync s) (max_checkpoint_age_async s)
    (max_checkpoint_age s) (next_checkpoint_no s) (last_checkpoint_lsn s)
    (next_checkpoint_lsn s) (n_pending_checkpoint_writes s) .

Definition set_flushed_to_disk_lsn (v : Z) (s : log_t) : log_t :=
  mk_log_t (lsn s) (buf_free s) (buf_mem s) (buf s) (first_in_use s)
    (max_buf_free s) (check_flush_or_checkpoint s) (log s)
    (buf_next_to_write s) (write_lsn s) v (pending_flushes s) (flushes s)
    (n_log_ios s) (log_capacity s) (max_modified_age_async s)
    (max_modified_age_sync s) (max_checkpoint_age_async s)
    (max_checkpoint_age s) (next_checkpoint_no s) (last_checkpoint_lsn s)
    (next_checkpoint_lsn s) (n_pending_checkpoint_writes s) .

Definition set_pending_flushes (v : Z) (s : log_t) : log_t :=
  mk_log_t (lsn s) (buf_free s) (buf_mem s) (buf s) (first_in_use s)
    (max_buf_free s) (check_flush_or_checkpoint s) (log s)
    (buf_next_to_write s) (write_lsn s) (flushed_to_disk_lsn s) v
    (flushes s) (n_log_ios s) (log_capacity s) (max_modified_age_async s)
    (max_modified_age_sync s) (max_checkpoint_age_async s)
    (max_checkpoint_age s) (next_checkpoint_no s) (last_checkpoint_lsn s)
    (next_checkpoint_lsn s) (n_pending_checkpoint_writes s) .

Definition set_flushes (v : Z) (s : log_t) : log_t :=
  mk_log_t (lsn s) (buf_free s) (buf_mem s) (buf s) (first_in_use s)
    (max_buf_free s) (check_flush_or_checkpoint s) (log s)
    (buf_next_to_write s) (write_lsn s) (flushed_to_disk_lsn s)
    (pending_flushes s) v (n_log_ios s) (log_capacity s)
    (max_modified_age_async s) (max_modified_age_sync s)
    (max_checkpoint_age_async s) (max_checkpoint_age s)
    (next_checkpoint_no s) (last_checkpoint_lsn s) (next_checkpoint_lsn s)
    (n_pending_checkpoint_writes s) .

Definition set_n_log_ios (v : Z) (s : log_t) : log_t :=
  mk_log_t (lsn s) (buf_free s) (buf_mem s) (buf s) (first_in_use s)
    (max_buf_free s) (check_flush_or_checkpoint s) (log s)
    (buf_next_to_write s) (write_lsn s) (flushed_to_disk_lsn s)
    (pending_flushes s) (flushes s) v (log_capacity s)
    (max_modified_age_async s) (max_modified_age_sync s)
    (max_checkpoint_age_async s) (max_checkpoint_age s)
    (next_checkpoint_no s) (last_checkpoint_lsn s) (next_checkpoint_lsn s)
    (n_pending_checkpoint_writes s) .

Definition set_log_capacity (v : Z) (s : log_t) : log_t :=
  mk_log_t (lsn s) (buf_free s) (buf_mem s) (buf s) (first_in_use s)
    (max_buf_free s) (check_flush_or_checkpoint s) (log s)
    (buf_next_to_write s) (write_lsn s) (flushed_to_disk_lsn s)
    (pending_flushes s) (flushes s) (n_log_ios s) v
    (max_modified_age_async s) (max_modified_age_sync s)
    (max_checkpoint_age_async s) (max_checkpoint_age s)
    (next_checkpoint_no s) (last_checkpoint_lsn s) (next_checkpoint_lsn s)
    (n_pending_checkpoint_writes s) .

Definition set_max_modified_age_async (v : Z) (s : log_t) : log_t :=
  mk_log_t (lsn s) (buf_free s) (buf_mem s) (buf s) (first_in_use s)
    (max_buf_free s) (check_flush_or_checkpoint s) (log s)
    (buf_next_to_write s) (write_lsn s) (flushed_to_disk_lsn s)
    (pending_flushes s) (flushes s) (n_log_ios s) (log_capacity s) v
    (max_modified_age_sync s) (max_checkpoint_age_async s)
    (max_checkpoint_age s) (next_checkpoint_no s) (last_checkpoint_lsn s)
    (next_checkpoint_lsn s) (n_pending_checkpoint_writes s) .

Definition set_max_modified_age_sync (v : Z) (s : log_t) : log_t :=
  mk_log_t (lsn s) (buf_free s) (buf_mem s) (buf s) (first_in_use s)
    (max_buf_free s) (check_flush_or_checkpoint s) (log s)
    (buf_next_to_write s) (write_lsn s) (flushed_to_disk_lsn s)
    (pending_flushes s) (flushes s) (n_log_ios s) (log_capacity s)
    (max_modified_age_async s) v (max_checkpoint_age_async s)
    (max_checkpoint_age s) (next_checkpoint_no s) (last_checkpoint_lsn s)
    (next_checkpoint_lsn s) (n_pending_checkpoint_writes s) .

Definition set_max_checkpoint_age_async (v : Z) (s : log_t) : log_t :=
  mk_log_t (lsn s) (buf_free s) (buf_mem s) (buf s) (first_in_use s)
    (max_buf_free s) (check_flush_or_checkpoint s) (log s)
    (buf_next_to_write s) (write_lsn s) (flushed_to_disk_lsn s)
    (pending_flushes s) (flushes s) (n_log_ios s) (log_capacity s)
    (max_modified_age_async s) (max_modified_age_sync s) v
    (max_checkpoint_age s) (next_checkpoint_no s) (last_checkpoint_lsn s)
    (next_checkpoint_lsn s) (n_pending_checkpoint_writes s) .

Definition set_max_checkpoint_age (v : Z) (s : log_t) : log_t :=
  mk_log_t (lsn s) (buf_free s) (buf_mem s) (buf s) (first_in_use s)
    (max_buf_free s) (check_flush_or_checkpoint s) (log s)
    (buf_next_to_write s) (write_lsn s) (flushed_to_disk_lsn s)
    (pending_flushes s) (flushes s) (n_log_ios s) (log_capacity s)
    (max_modified_age_async s) (max_modified_age_sync s)
    (max_checkpoint_age_async s) v (next_checkpoint_no s)
    (last_checkpoint_lsn s) (next_checkpoint_lsn s)
    (n_pending_checkpoint_writes s) .

Definition set_last_checkpoint_lsn (v : Z) (s : log_t) : log_t :=
  mk_log_t (lsn s) (buf_free s) (buf_mem s) (buf s) (first_in_use s)
    (max_buf_free s) (check_flush_or_checkpoint s) (log s)
    (buf_next_to_write s) (write_lsn s) (flushed_to_disk_lsn s)
    (pending_flushes s) (flushes s) (n_log_ios s) (log_capacity s)
    (max_modified_age_async s) (max_modified_age_sync s)
    (max_checkpoint_age_async s) (max_checkpoint_age s)
    (next_checkpoint_no s) v (next_checkpoint_lsn s)
    (n_pending_checkpoint_writes s) .

Definition set_next_checkpoint_lsn (v : Z) (s : log_t) : log_t :=
  mk_log_t (lsn s) (buf_free s) (buf_mem s) (buf s) (first_in_use s)
    (max_buf_free s) (check_flush_or_checkpoint s) (log s)
    (buf_next_to_write s) (write_lsn s) (flushed_to_disk_lsn s)
    (pending_flushes s) (flushes s) (n_log_ios s) (log_capacity s)
    (max_modified_age_async s) (max_modified_age_sync s)
    (max_checkpoint_age_async s) (max_checkpoint_age s)
    (next_checkpoint_no s) (last_checkpoint_lsn s) v
    (n_pending_checkpoint_writes s) .

Definition set_n_pending_checkpoint_writes (v : Z) (s : log_t) : log_t :=
  mk_log_t (lsn s) (buf_free s) (buf_mem s) (buf s) (first_in_use s)
    (max_buf_free s) (check_flush_or_checkpoint s) (log s)
    (buf_next_to_write s) (write_lsn s) (flushed_to_disk_lsn s)
    (pending_flushes s) (flushes s) (n_log_ios s) (log_capacity s)
    (max_modified_age_async s) (max_modified_age_sync s)
    (max_checkpoint_age_async s) (max_checkpoint_age s)
    (next_checkpoint_no s) (last_checkpoint_lsn s) (next_checkpoint_lsn s)
    v.

Definition set_log_sys (v : log_t) (w : world) : world :=
  mk_world v (write_lock w) (flush_lock w) (new_redo w)
    (log_has_printed_chkp_margine_warning w)
    (log_last_margine_warning_time w) (srv w) (trace w) .

Definition set_write_lock (v : group_commit_lock) (w : world) : world :=
  mk_world (log_sys w) v (flush_lock w) (new_redo w)
    (log_has_printed_chkp_margine_warning w)
    (log_last_margine_warning_time w) (srv w) (trace w) .

Definition set_flush_lock (v : group_commit_lock) (w : world) : world :=
  mk_world (log_sys w) (write_lock w) v (new_redo w)
    (log_has_printed_chkp_margine_warning w)
    (log_last_margine_warning_time w) (srv w) (trace w) .

Definition set_new_redo (v : redo_t) (w : world) : world :=
  mk_world (log_sys w) (write_lock w) (flush_lock w) v
    (log_has_printed_chkp_margine_warning w)
    (log_last_margine_warning_time w) (srv w) (trace w) .

Definition set_log_has_printed_chkp_margine_warning (v : bool) (w : world)
  : world :=
  mk_world (log_sys w) (write_lock w) (flush_lock w) (new_redo w) v
    (log_last_margine_warning_time w) (srv w) (trace w) .

Definition set_log_last_margine_warning_time (v : Z) (w : world) : world :=
  mk_world (log_sys w) (write_lock w) (flush_lock w) (new_redo w)
    (log_has_printed_chkp_margine_warning w) v (srv w) (trace w) .

Definition set_trace (v : list event) (w : world) : world :=
  mk_world (log_sys w) (write_lock w) (flush_lock w) (new_redo w)
    (log_has_printed_chkp_margine_warning w)
    (log_last_margine_warning_time w) (srv w) v.


Definition upd_log_sys (f : log_t -> log_t) (w : world) : world :=
  set_log_sys (f (log_sys w)) w.

Definition emit (e : event) (w : world) : world :=
  set_trace (trace w ++ [e]) w.

(** *** Block geometry ([log_t::framing_size], [log_t::trailer_offset]) *)

Definition framing_size (s : log_t) : Z :=
  if format (log s) =? FORMAT_ENC_10_4
  then LOG_BLOCK_HDR_SIZE + LOG_BLOCK_KEY + LOG_BLOCK_CHECKSUM
  else LOG_BLOCK_HDR_SIZE + LOG_BLOCK_CHECKSUM.

Definition trailer_offset (s : log_t) : Z :=
  if format (log s) =? FORMAT_ENC_10_4
  then OS_FILE_LOG_BLOCK_SIZE - LOG_BLOCK_CHECKSUM - LOG_BLOCK_KEY
  else OS_FILE_LOG_BLOCK_SIZE - LOG_BLOCK_CHECKSUM.

Definition is_physical (f : log_t_file) : bool := format f =? FORMAT_10_5.

Definition is_encrypted_physical (f : log_t_file) : bool :=
  negb (key_version f =? 0).

Definition is_encrypted_old (f : log_t_file) : bool :=
  negb (Z.land (format f) FORMAT_ENCRYPTED =? 0).

(** [log_buf_pool_get_oldest_modification]. *)
Definition log_buf_pool_get_oldest_modification (w : world) : Z :=
  let l := buf_pool_get_oldest_modification (srv w) in
  if l =? 0 then lsn (log_sys w) else l.

(** *** Appending to the log buffer ([log_write_low]) *)

(** One pass of [part_loop] in [log_write_low]: the rest of the string
    and the new state. *)
Definition log_write_low_part (str : list byte) (s : log_t)
  : list byte * log_t :=
  let str_len := zlen str in
  let data_len := u64 (buf_free s mod OS_FILE_LOG_BLOCK_SIZE + str_len) in
  let fits := data_len <=? trailer_offset s in
  let data_len := if fits then data_len else trailer_offset s in
  let n :=
    if fits then str_len
    else u64 (trailer_offset s - buf_free s mod OS_FILE_LOG_BLOCK_SIZE) in
  let m1 :=
    memcpy (buf_mem s) (buf s + buf_free s) (firstn (Z.to_nat n) str) in
  let rest := skipn (Z.to_nat n) str in
  let log_block := ut_2pow_round (buf s + buf_free s) OS_FILE_LOG_BLOCK_SIZE in
  let m2 := LogBlock.log_block_set_data_len m1 log_block data_len in
  if data_len =? trailer_offset s then
    (* This block became full *)
    let m3 := LogBlock.log_block_set_data_len m2 log_block
                OS_FILE_LOG_BLOCK_SIZE in
    let m4 := LogBlock.log_block_set_checkpoint_no m3 log_block
                (next_checkpoint_no s) in
    let n' := u64 (n + framing_size s) in
    let lsn' := u64 (lsn s + n') in
    (* Initialize the next block header *)
    let m5 := LogBlock.log_block_init m4
                (log_block + OS_FILE_LOG_BLOCK_SIZE) lsn' in
    (rest, set_buf_free (u64 (buf_free s + n'))
             (set_lsn lsn' (set_buf_mem m5 s)))
  else
    (rest, set_buf_free (u64 (buf_free s + n))
             (set_lsn (u64 (lsn s + n)) (set_buf_mem m2 s))).

(** The loop [part_loop: ... if (str_len > 0) goto part_loop;]. *)
Fixpoint log_write_low_loop (fuel : nat) (str : list byte) (s : log_t)
  : option log_t :=
  match fuel with
  | O => None
  | S fuel' =>
      let '(rest, s') := log_write_low_part str s in
      if 0 <? zlen rest then log_write_low_loop fuel' rest s' else Some s'
  end.

(** [log_write_low]. At most one pass copies no byte (the first, when
    the block in use is already full), so [|str| + 2] passes are enough. *)
Definition log_write_low (str : list byte) (s : log_t) : option log_t :=
  log_write_low_loop (length str + 2) str s.

(** *** Capacity ([log_set_capacity]) *)

Definition LOG_CHECKPOINT_FREE_PER_THREAD (v : server_t) : Z :=
  u32 (Z.shiftl 4 (srv_page_size_shift v)).

Definition LOG_CHECKPOINT_EXTRA_FREE (v : server_t) : Z :=
  u32 (Z.shiftl 8 (srv_page_size_shift v)).

Definition LOG_POOL_CHECKPOINT_RATIO_ASYNC : Z := 32.
Definition LOG_POOL_PREFLUSH_RATIO_SYNC : Z := 16.
Definition LOG_POOL_PREFLUSH_RATIO_ASYNC : Z := 8.

(** The local [free] of [log_set_capacity]. *)
Definition capacity_free (v : server_t) : Z :=
  u64 (u64 (LOG_CHECKPOINT_FREE_PER_THREAD v
            * u64 (10 + srv_thread_concurrency v))
       + LOG_CHECKPOINT_EXTRA_FREE v).

(** The local [smallest_capacity] of [log_set_capacity]. *)
Definition capacity_smallest (file_size : Z) : Z :=
  u64 (file_size - file_size / 10).

(** The local [margin] of [log_set_capacity]. *)
Definition capacity_margin (file_size : Z) (v : server_t) : Z :=
  let margin := u64 (capacity_smallest file_size - capacity_free v) in
  u64 (margin - margin / 10).

(** [log_set_capacity]. *)
Definition log_set_capacity (file_size : Z) (w : world) : bool * world :=
  let smallest_capacity := capacity_smallest file_size in
  let free := capacity_free (srv w) in
  if free >=? smallest_capacity / 2 then
    (false, emit (Ev_error_log_too_small (srv_thread_concurrency (srv w))) w)
  else
    let margin := capacity_margin file_size (srv w) in
    let s1 := set_log_capacity smallest_capacity (log_sys w) in
    let s2 :=
      set_max_modified_age_async
        (u64 (margin - margin / LOG_POOL_PREFLUSH_RATIO_ASYNC)) s1 in
    let s3 :=
      set_max_modified_age_sync
        (u64 (margin - margin / LOG_POOL_PREFLUSH_RATIO_SYNC)) s2 in
    let s4 :=
      set_max_checkpoint_age_async
        (u64 (margin - margin / LOG_POOL_CHECKPOINT_RATIO_ASYNC)) s3 in
    let s5 := set_max_checkpoint_age margin s4 in
    (true, set_log_sys s5 w).

(** *** Writing the buffer to the data file *)

(** [log_t::file::calc_lsn_offset]. [2^63 <= l] is [longlong(l) < 0]. *)
Definition calc_lsn_offset (f : log_t_file) (lsn : Z) : Z :=
  let size := file_size f in
  let l := u64 (lsn - file_lsn f) in
  let l :=
    if 2 ^ 63 <=? l
    then u64 (size - u64 (2 ^ 64 - l) mod size)
    else l in
  let l := u64 (l + file_lsn_offset f) in
  l mod size.

(** [log_t::file::set_fields]. *)
Definition set_fields (lsn : Z) (f : log_t_file) : log_t_file :=
  let c_lsn_offset := calc_lsn_offset f lsn in
  set_file_lsn_offset c_lsn_offset (set_file_lsn lsn f).

(** The checksum loop of [log_write_buf] over [n] blocks from [addr]. *)
Definition store_checksums (m : memory) (addr : Z) (n : nat) : memory :=
  fold_left
    (fun m' i =>
       LogBlock.log_block_store_checksum m'
         (addr + Z.of_nat i * OS_FILE_LOG_BLOCK_SIZE))
    (seq 0 n) m.

(** [log_t::file::data_write]: a failed write is fatal. *)
Definition data_write (offset : Z) (data : list byte) (s : log_t)
  : outcome log_t :=
  let '(err, f) := File.write offset data (data_fd (log s)) in
  match err with
  | DB_SUCCESS => Returned (set_log (set_data_fd f (log s)) s)
  | DB_ERROR => Aborted
  end.

(** [log_t::file::data_flush_data_only]: a failed flush is fatal. *)
Definition data_flush_data_only (s : log_t) : outcome log_t :=
  let s1 := set_pending_flushes (u64 (pending_flushes s + 1)) s in
  let '(err, f) := File.flush_data_only (data_fd (log s1)) in
  match err with
  | DB_SUCCESS =>
      let s2 := set_log (set_data_fd f (log s1)) s1 in
      let s3 := set_pending_flushes (u64 (pending_flushes s2 - 1)) s2 in
      Returned (set_flushes (u64 (flushes s3 + 1)) s3)
  | DB_ERROR => Aborted
  end.

(** The loop of [log_write_buf]. A file of size 0 makes the remainder
    [next_offset % file_size] trap. Each pass writes at least one byte,
    so the [len + 1] passes that [log_write_buf] allows are enough
    ([log_write_buf_loop_ends]); a loop that would go on is [Blocked].
    [ut_a((next_offset >> srv_page_size_shift) <= ULINT_MAX)] holds for
    every 64-bit offset. *)
Fixpoint log_write_buf_loop (fuel : nat) (buf_addr len start_lsn : Z)
  (s : log_t) : outcome log_t :=
  if len =? 0 then Returned s
  else
    match fuel with
    | O => Blocked
    | S fuel' =>
        let size := file_size (log s) in
        if size =? 0 then Aborted
        else
          let next_offset := calc_lsn_offset (log s) start_lsn in
          let write_len :=
            if u64 (next_offset mod size + len) >? size
            then u64 (size - next_offset mod size)
            else len in
          let m1 :=
            store_checksums (buf_mem s) buf_addr
              (Z.to_nat (write_len / OS_FILE_LOG_BLOCK_SIZE)) in
          let s1 := set_n_log_ios (u64 (n_log_ios s + 1)) (set_buf_mem m1 s) in
          s2 <- data_write next_offset
                  (mem_read (buf_mem s1) buf_addr (Z.to_nat write_len)) s1 ;;
          if write_len <? len then
            log_write_buf_loop fuel' (buf_addr + write_len)
              (u64 (len - write_len)) (u64 (start_lsn + write_len)) s2
          else Returned s2
    end.

(** [log_write_buf]. [ut_a(len % 512 == 0)], [ut_a(start_lsn % 512 == 0)]. *)
Definition log_write_buf (buf_addr len start_lsn : Z) (s : log_t)
  : outcome log_t :=
  if negb (len mod OS_FILE_LOG_BLOCK_SIZE =? 0) then Aborted
  else if negb (start_lsn mod OS_FILE_LOG_BLOCK_SIZE =? 0) then Aborted
  else log_write_buf_loop (Z.to_nat len + 1) buf_addr len start_lsn s.

(** [log_write_flush_to_disk_low]. *)
Definition log_write_flush_to_disk_low (lsn : Z) (s : log_t)
  : outcome log_t :=
  s1 <- data_flush_data_only s ;;
  if lsn >=? flushed_to_disk_lsn s1
  then Returned (set_flushed_to_disk_lsn lsn s1)
  else Aborted.

(** [log_buffer_switch]. *)
Definition log_buffer_switch (v : server_t) (s : log_t) : log_t :=
  let old_buf := buf s in
  let area_end := ut_calc_align (buf_free s) OS_FILE_LOG_BLOCK_SIZE in
  let s1 :=
    if first_in_use s
    then set_buf (buf s + srv_log_buffer_size v) (set_first_in_use false s)
    else set_buf (buf s - srv_log_buffer_size v) (set_first_in_use true s) in
  (* Copy the last block to new buf *)
  let m1 :=
    memcpy (buf_mem s1) (buf s1)
      (mem_read (buf_mem s1) (old_buf + area_end - OS_FILE_LOG_BLOCK_SIZE)
         (Z.to_nat OS_FILE_LOG_BLOCK_SIZE)) in
  let s2 := set_buf_mem m1 s1 in
  let s3 := set_buf_free (buf_free s2 mod OS_FILE_LOG_BLOCK_SIZE) s2 in
  set_buf_next_to_write (buf_free s3) s3.

Section WithCollaborators.
Context {C : Collaborators}.

(** [log_write]: the "write" part of [log_write_up_to]. *)
Definition log_write (v : server_t) (s : log_t) : outcome log_t :=
  if buf_free s =? buf_next_to_write s then
    (* Nothing to write *)
    Returned s
  else
    let write_ahead_size := srv_log_write_ahead_size v in
    let start_offset := buf_next_to_write s in
    let end_offset := buf_free s in
    let area_start := ut_2pow_round start_offset OS_FILE_LOG_BLOCK_SIZE in
    let area_end := ut_calc_align end_offset OS_FILE_LOG_BLOCK_SIZE in
    let m1 :=
      LogBlock.log_block_set_flush_bit (buf_mem s) (buf s + area_start) true in
    let m2 :=
      LogBlock.log_block_set_checkpoint_no m1
        (buf s + area_end - OS_FILE_LOG_BLOCK_SIZE) (next_checkpoint_no s) in
    let new_write_lsn := lsn s in
    let write_buf := buf s in
    let s1 := log_buffer_switch v (set_buf_mem m2 s) in
    if file_size (log s1) =? 0 then Aborted
    else
      let s2 := set_log (set_fields (write_lsn s1) (log s1)) s1 in
      (* Erase the end of the last log block. *)
      let m3 :=
        memset (buf_mem s2) (write_buf + end_offset) 0
          (Z.land (Z.lnot end_offset) (OS_FILE_LOG_BLOCK_SIZE - 1)) in
      (* Calculate pad_size if needed. *)
      let end_offset_in_unit :=
        calc_lsn_offset (log s2)
          (ut_calc_align new_write_lsn OS_FILE_LOG_BLOCK_SIZE)
        mod write_ahead_size in
      let padded :=
        (write_ahead_size >? OS_FILE_LOG_BLOCK_SIZE)
        && (end_offset_in_unit >? 0)
        && (u64 (area_end - area_start) >? end_offset_in_unit) in
      let pad_size :=
        if padded
        then Z.min (u64 (write_ahead_size - end_offset_in_unit))
                   (u64 (srv_log_buffer_size v - area_end))
        else 0 in
      let m4 :=
        if padded then memset m3 (write_buf + area_end) 0 pad_size else m3 in
      let encrypted :=
        if is_physical (log s2) then is_encrypted_physical (log s2)
        else is_encrypted_old (log s2) in
      let m5 :=
        if encrypted
        then log_crypt m4 (write_buf + area_start) (write_lsn s2)
               (u64 (area_end - area_start))
        else m4 in
      (* Do the write to the log file *)
      s3 <- log_write_buf (write_buf + area_start)
              (u64 (u64 (area_end - area_start) + pad_size))
              (ut_2pow_round (write_lsn s2) OS_FILE_LOG_BLOCK_SIZE)
              (set_buf_mem m5 s2) ;;
      let s4 := set_write_lsn new_write_lsn s3 in
      if File.writes_are_durable (data_fd (log s4))
      then Returned (set_flushed_to_disk_lsn new_write_lsn s4)
      else Returned s4.

(** The middle of [log_write_up_to]: the caller takes the write lock and
    writes the buffer, or finds its lsn covered. *)
Definition log_write_up_to_write (lsn_arg : Z) (w : world) : outcome world :=
  match GroupCommit.acquire lsn_arg (write_lock w) with
  | None => Blocked
  | Some (WAITING_COVERED, _) => Returned w
  | Some (ACQUIRED, l) =>
      let w1 := set_write_lock l w in
      let write_lsn_v := lsn (log_sys w1) in
      let w2 :=
        set_write_lock (GroupCommit.set_pending write_lsn_v (write_lock w1))
          w1 in
      s <- log_write (srv w2) (log_sys w2) ;;
      let w3 := set_log_sys s w2 in
      if write_lsn (log_sys w3) =? write_lsn_v
      then Returned
             (set_write_lock (GroupCommit.release write_lsn_v (write_lock w3))
                w3)
      else Aborted
  end.

(** The end of [log_write_up_to], after [if (!flush_to_disk) return;]:
    flush the highest written lsn. *)
Definition log_write_up_to_flush (w : world) : outcome world :=
  let flush_lsn := GroupCommit.value (write_lock w) in
  let w1 :=
    set_flush_lock (GroupCommit.set_pending flush_lsn (flush_lock w)) w in
  w2 <- (if negb (File.writes_are_durable (data_fd (log (log_sys w1))))
         then
           s <- log_write_flush_to_disk_low flush_lsn (log_sys w1) ;;
           let w' := set_log_sys s w1 in
           Returned (set_new_redo (snd (Redo.flush_data (new_redo w'))) w')
         else Returned w1) ;;
  let w3 :=
    set_flush_lock (GroupCommit.release flush_lsn (flush_lock w2)) w2 in
  Returned (emit (Ev_log_notify flush_lsn) w3).

(** [log_write_up_to]. *)
Definition log_write_up_to (lsn_arg : Z) (flush_to_disk : bool) (w : world)
  : outcome world :=
  if recv_no_ibuf_operations (srv w) then
    (* Recovery is running and no operations on the log files are
       allowed yet *)
    Returned w
  else if flush_to_disk then
    match GroupCommit.acquire lsn_arg (flush_lock w) with
    | None => Blocked
    | Some (WAITING_COVERED, _) => Returned w
    | Some (ACQUIRED, l) =>
        w1 <- log_write_up_to_write lsn_arg (set_flush_lock l w) ;;
        log_write_up_to_flush w1
    end
  else log_write_up_to_write lsn_arg w.

(** *** Checkpoints ([log_checkpoint], [log_margin_checkpoint_age]) *)

(** The start of [log_checkpoint], before the log mutex is taken: pending
    recovery records are applied and the tablespaces are flushed. *)
Definition log_checkpoint_prepare (w : world) : world :=
  let w1 :=
    if recv_recovery_is_on (srv w)
    then emit Ev_recv_apply_hashed_log_recs w else w in
  match srv_file_flush_method (srv w1) with
  | SRV_NOSYNC => w1
  | _ => emit Ev_fil_flush_file_spaces w1
  end.

(** The end of [log_checkpoint]: the checkpoint at [flush_lsn] is written
    and published. *)
Definition log_checkpoint_write (flush_lsn : Z) (w : world) : world :=
  let w1 :=
    upd_log_sys
      (fun s =>
         set_n_pending_checkpoint_writes
           (u64 (n_pending_checkpoint_writes s + 1))
           (set_next_checkpoint_lsn flush_lsn s)) w in
  let w2 :=
    set_new_redo
      (snd (Redo.append_checkpoint_durable flush_lsn (new_redo w1))) w1 in
  upd_log_sys
    (fun s =>
       let s1 :=
         set_n_pending_checkpoint_writes
           (u64 (n_pending_checkpoint_writes s - 1)) s in
       let s2 := set_n_log_ios (u64 (n_log_ios s1 + 1)) s1 in
       set_last_checkpoint_lsn (next_checkpoint_lsn s2) s2) w2.

(** [log_checkpoint]. *)
Definition log_checkpoint (w : world) : outcome (bool * world) :=
  let w2 := log_checkpoint_prepare w in
  let flush_lsn := log_buf_pool_get_oldest_modification w2 in
  let success := flush_lsn =? last_checkpoint_lsn (log_sys w2) in
  if success then
    (* Nothing was logged since the previous checkpoint. *)
    Returned (success, w2)
  else
    w3 <- log_write_up_to flush_lsn true w2 ;;
    let success := last_checkpoint_lsn (log_sys w3) =? flush_lsn in
    if success || negb (n_pending_checkpoint_writes (log_sys w3) =? 0) then
      Returned (success, w3)
    else Returned (true, log_checkpoint_write flush_lsn w3).

(** [difftime] on whole seconds. *)
Definition difftime (time1 time0 : Z) : Z := time1 - time0.

(** [log_margin_checkpoint_age]. *)
Definition log_margin_checkpoint_age (margin : Z) (w : world)
  : outcome world :=
  let s := log_sys w in
  if margin >? log_capacity s then
    (* return with warning output to avoid deadlock *)
    if negb (log_has_printed_chkp_margine_warning w)
       || (difftime (time_now (srv w)) (log_last_margine_warning_time w) >? 15)
    then
      let w1 := set_log_has_printed_chkp_margine_warning true w in
      let w2 := set_log_last_margine_warning_time (time_now (srv w1)) w1 in
      Returned (emit (Ev_error_margin margin (log_capacity (log_sys w2))) w2)
    else Returned w
  else if u64 (u64 (lsn s - last_checkpoint_lsn s) + margin)
          >? log_capacity s then
    (* The log write might overwrite the transaction log after the last
       checkpoint. Makes checkpoint. *)
    let flushed_enough :=
      u64 (u64 (lsn s - log_buf_pool_get_oldest_modification w) + margin)
      <=? log_capacity s in
    let w1 := upd_log_sys (set_check_flush_or_checkpoint true) w in
    let w2 := if flushed_enough then w1 else emit (Ev_sleep 100000) w1 in
    r <- log_checkpoint w2 ;;
    Returned (snd r)
  else Returned w.

End WithCollaborators.

(** ** A concrete choice of the collaborators

    Used to run the model on concrete inputs: [0xf0] for the record type,
    a prefix-coded integer of one to five bytes for the encoder, and no
    encryption. *)

Definition MIN_2BYTE : Z := 2 ^ 7.
Definition MIN_3BYTE : Z := MIN_2BYTE + 2 ^ 14.
Definition MIN_4BYTE : Z := MIN_3BYTE + 2 ^ 21.
Definition MIN_5BYTE : Z := MIN_4BYTE + 2 ^ 28.

Definition encode_varint (i : Z) : list byte :=
  if i <? MIN_2BYTE then [u8 i]
  else if i <? MIN_3BYTE then
    let j := i - MIN_2BYTE in
    [Z.lor 0x80 (u8 (Z.shiftr j 8)); u8 j]
  else if i <? MIN_4BYTE then
    let j := i - MIN_3BYTE in
    [Z.lor 0xc0 (u8 (Z.shiftr j 16)); u8 (Z.shiftr j 8); u8 j]
  else if i <? MIN_5BYTE then
    let j := i - MIN_4BYTE in
    [Z.lor 0xe0 (u8 (Z.shiftr j 24)); u8 (Z.shiftr j 16);
     u8 (Z.shiftr j 8); u8 j]
  else
    let j := i - MIN_5BYTE in
    [0xf0; u8 (Z.shiftr j 24); u8 (Z.shiftr j 16); u8 (Z.shiftr j 8); u8 j].

#[export] Instance example_collaborators : Collaborators := {
  FILE_CHECKPOINT := 0xf0;
  mlog_encode_varint := encode_varint;
  log_crypt := fun m _ _ _ => m
}.

Definition example_file (durable : bool) : log_file_t :=
  mk_log_file durable [] [].

(** A data file of [4 * 512] bytes, the cursor at [pos]. *)
Definition example_redo (pos seq : Z) : redo_t :=
  mk_redo (example_file false) 0 (example_file false) pos 2048 seq.

(** A log system with a buffer of 16 blocks at address 0 filled with
    zeros, the first block in use up to its header, a data file of 64 KiB
    whose offset 0 is lsn 0, and [lsn], [write_lsn], [flushed_to_disk_lsn]
    and [last_checkpoint_lsn] as given. *)
Definition example_log (durable : bool) (lsn0 written flushed checkpoint : Z)
  : log_t :=
  mk_log_t lsn0 LOG_BLOCK_HDR_SIZE (fun _ => 0) 0 true 0 true
    (mk_log_t_file FORMAT_10_5 0 65536 0 0 (example_file durable))
    LOG_BLOCK_HDR_SIZE written flushed 0 0 0 0 0 0 0 0 0 checkpoint 0 0.

Definition example_server (recovery : bool) (oldest now : Z) : server_t :=
  mk_server recovery false SRV_FSYNC 8192 8192 14 0 oldest now.

Definition free_lock (v : Z) : group_commit_lock :=
  mk_group_commit_lock v v false.

Definition example_world (s : log_t) (v : server_t) : world :=
  mk_world s (free_lock (write_lsn s)) (free_lock (flushed_to_disk_lsn s))
    (example_redo 0 1) false 0 v [].

(** The same after three bytes were appended at lsn 8204 and not yet
    written. *)
Definition example_log_appended (durable : bool) : log_t :=
  match log_write_low [1; 2; 3] (example_log durable 8204 8204 8204 8204) with
  | Some s => s
  | None => example_log durable 8204 8204 8204 8204
  end.

(** ** Predicates of the statements *)

(** A redo state as [open_files] and the appends leave it: the cursor
    inside the file and the file no larger than the format allows
    ([srv_log_file_size <= 1ULL << 47]). *)
Definition redo_wf (r : redo_t) : Prop :=
  0 <= m_data_file_position r < m_data_file_size r
  /\ m_data_file_size r <= 2 ^ 47.

(** The sequence bit is a one-bit field. *)
Definition sequence_bit_wf (r : redo_t) : Prop :=
  m_sequence_bit r = 0 \/ m_sequence_bit r = 1.

(** What a successful [append_wrapped] leaves, by the three positions
    of the end of the append relative to the end of the file. *)
Definition appended (buf : list byte) (r r' : redo_t) : Prop :=
  let p := m_data_file_position r in
  let n := m_data_file_size r in
  let s := zlen buf in
  let k := Z.to_nat (n - p) in
  m_data_file_size r' = n
  /\ m_main_file r' = m_main_file r
  /\ m_main_file_size r' = m_main_file_size r
  /\ if p + s >? n then
       f_ops (m_data_file r')
       = f_ops (m_data_file r)
           ++ [Op_write p (firstn k buf); Op_write 0 (skipn k buf)]
       /\ m_sequence_bit r' = Z.land (Z.lnot (m_sequence_bit r)) 1
       /\ m_data_file_position r' = p + s - n
     else
       f_ops (m_data_file r') = f_ops (m_data_file r) ++ [Op_write p buf]
       /\ m_sequence_bit r' = m_sequence_bit r
       /\ m_data_file_position r' = (if p + s =? n then 0 else p + s).

Section SpecifiedRecord.
Context {C : Collaborators}.

(** The record as the specification words it: the header with the
    sequence bit, the payload, and the CRC-32C of these very bytes. *)
Definition record_as_specified (payload : mtr_buf_t) (sequence_bit : Z)
  : list byte :=
  let size := Redo.payload_size payload + 4 in
  let skip_bit := 0 in
  let header :=
    mlog_encode_varint
      (Z.lor (Z.lor (Z.shiftl size 2) (Z.shiftl skip_bit 1)) sequence_bit) in
  let body := header ++ Redo.for_each_block payload in
  body ++ mach_write_to 4 (ut_crc32 body).

End SpecifiedRecord.

(** The thresholds as the specification words them: fractions of the
    capacity, each less a tenth. *)
Definition thresholds_as_specified (s : log_t) : Prop :=
  let capacity := log_capacity s in
  let less_margin := fun x => x - x / 10 in
  max_modified_age_async s = less_margin (capacity - capacity / 8)
  /\ max_modified_age_sync s = less_margin (capacity - capacity / 16)
  /\ max_checkpoint_age_async s = less_margin (capacity - capacity / 32)
  /\ max_checkpoint_age s = less_margin capacity.

(** The fields of [log_t] that writing the buffer to the data file leaves
    alone. *)
Definition stable_fields (s : log_t)
  : Z * Z * Z * Z * Z * Z * bool * Z * Z * Z :=
  (lsn s, last_checkpoint_lsn s, next_checkpoint_lsn s,
   n_pending_checkpoint_writes s, next_checkpoint_no s, log_capacity s,
   m_durable_writes (data_fd (log s)), format (log s), key_version (log s),
   file_size (log s)).

(** The same, with the two positions that [log_write] itself publishes. *)
Definition io_fields (s : log_t)
  : (Z * Z * Z * Z * Z * Z * bool * Z * Z * Z) * Z * Z :=
  (stable_fields s, write_lsn s, flushed_to_disk_lsn s).

(** The group-commit locks agree with the log system: what a lock has
    published is on disk, nothing is on disk or published beyond [lsn],
    and with durable writes what is written is on disk. *)
Definition locks_consistent (w : world) : Prop :=
  let s := log_sys w in
  GroupCommit.value (flush_lock w) <= flushed_to_disk_lsn s
  /\ flushed_to_disk_lsn s <= lsn s
  /\ GroupCommit.value (write_lock w) <= lsn s
  /\ (File.writes_are_durable (data_fd (log s)) = true ->
      GroupCommit.value (write_lock w) <= flushed_to_disk_lsn s
      /\ write_lsn s <= flushed_to_disk_lsn s).

(** The parts of the redo files that a checkpoint reads. *)
Definition checkpoint_view (r : redo_t) : log_file_t * Z * Z * Z * Z :=
  (m_main_file r, m_main_file_size r, m_data_file_position r,
   m_data_file_size r, m_sequence_bit r).

(** The log buffer between two appends: the half in use starts on a
    block boundary and the free offset lies after the header of its block
    and before the trailer. *)
Definition buffer_wf (s : log_t) : Prop :=
  buf s mod OS_FILE_LOG_BLOCK_SIZE = 0
  /\ LOG_BLOCK_HDR_SIZE <= buf_free s mod OS_FILE_LOG_BLOCK_SIZE
     < trailer_offset s.

(** The block that holds the free offset, and the offset in it. *)
Definition free_offset_in_block (s : log_t) : Z :=
  buf_free s mod OS_FILE_LOG_BLOCK_SIZE.

Definition block_in_use (s : log_t) : Z :=
  buf s + buf_free s - free_offset_in_block s.

(** The bytes of payload a block holds. *)
Definition block_payload (s : log_t) : Z :=
  trailer_offset s - LOG_BLOCK_HDR_SIZE.
(** ** Further functions of log0log.cc

    The functions around the ones above: the read side and the
    file-operation append of [redo_t], the calls that open and close an
    append to the log buffer, the extension of the buffer, and the
    background callers of [log_write_up_to]. *)

(** *** Reading a log file ([log_file_t::read], [redo_t::read_wrapped]) *)

(** The bytes of a file once the recorded writes have reached it. The
    file starts as [create_log_file] leaves it: [os_file_set_size] fills
    it with zeros ("the all-zero ib_logdata file"). *)
Definition file_contents (f : log_file_t) : memory :=
  fold_left
    (fun m op =>
       match op with
       | Op_write offset data => memcpy m offset data
       | Op_flush_data => m
       end)
    (f_ops f) (fun _ => 0).

(** [log_file_t::read]: the destination span after the call. A read
    changes no byte of the file, so it leaves no operation behind; what a
    failed read leaves in the span is not defined, the model keeps the
    span as it was. *)
Definition log_file_read (offset : Z) (buf : list byte) (f : log_file_t)
  : dberr_t * list byte * log_file_t :=
  if File.next_call_fails f then (DB_ERROR, buf, File.consume f)
  else
    (DB_SUCCESS, mem_read (file_contents f) offset (length buf),
     File.consume f).

(** [redo_t::read_wrapped]: the destination span after the call. *)
Definition read_wrapped (offset : Z) (buf : list byte) (r : redo_t)
  : dberr_t * list byte * redo_t :=
  if u64 (offset + zlen buf) >? m_data_file_size r then
    let tail_length := u64 (m_data_file_size r - offset) in
    let '(err, head, f) :=
      log_file_read offset (subspan 0 tail_length buf) (m_data_file r) in
    let buf' := subspan tail_length (u64 (zlen buf - tail_length)) buf in
    match err with
    | DB_ERROR => (DB_ERROR, head ++ buf', Redo.set_data_file f r)
    | DB_SUCCESS =>
        let '(err', rest, f') := log_file_read 0 buf' f in
        (err', head ++ rest, Redo.set_data_file f' r)
    end
  else
    let '(err, all, f) := log_file_read offset buf (m_data_file r) in
    (err, all, Redo.set_data_file f r).

(** [redo_t::append_file_operations_durable]. *)
Definition append_file_operations_durable (buf : list byte) (r : redo_t)
  : dberr_t * redo_t :=
  let '(err, f) := File.write (m_main_file_size r) buf (m_main_file r) in
  match err with
  | DB_ERROR => (DB_ERROR, Redo.set_main_file f r)
  | DB_SUCCESS =>
      let '(err', f') :=
        if File.writes_are_durable f then (DB_SUCCESS, f)
        else File.flush_data_only f in
      match err' with
      | DB_ERROR => (DB_ERROR, Redo.set_main_file f' r)
      | DB_SUCCESS =>
          (DB_SUCCESS,
           Redo.set_main_file_size (u64 (m_main_file_size r + zlen buf))
             (Redo.set_main_file f' r))
      end
  end.

(** *** Margins of the log buffer *)

Definition LOG_BUF_WRITE_MARGIN : Z := u32 (4 * OS_FILE_LOG_BLOCK_SIZE).

Definition LOG_BUF_FLUSH_RATIO : Z := 2.

Definition LOG_BUF_FLUSH_MARGIN (v : server_t) : Z :=
  u32 (LOG_BUF_WRITE_MARGIN + u32 (Z.shiftl 4 (srv_page_size_shift v))).

(** [srv_page_size], the global that srv0srv keeps equal to
    [1 << srv_page_size_shift]. *)
Definition srv_page_size (v : server_t) : Z :=
  u64 (Z.shiftl 1 (srv_page_size_shift v)).

Definition set_srv_log_buffer_size (n : Z) (v : server_t) : server_t :=
  mk_server (recv_no_ibuf_operations v) (recv_recovery_is_on v)
    (srv_file_flush_method v) n (srv_log_write_ahead_size v)
    (srv_page_size_shift v) (srv_thread_concurrency v)
    (buf_pool_get_oldest_modification v) (time_now v).

Definition set_max_buf_free (n : Z) (s : log_t) : log_t :=
  mk_log_t (lsn s) (buf_free s) (buf_mem s) (buf s) (first_in_use s) n
    (check_flush_or_checkpoint s) (log s) (buf_next_to_write s) (write_lsn s)
    (flushed_to_disk_lsn s) (pending_flushes s) (flushes s) (n_log_ios s)
    (log_capacity s) (max_modified_age_async s) (max_modified_age_sync s)
    (max_checkpoint_age_async s) (max_checkpoint_age s) (next_checkpoint_no s)
    (last_checkpoint_lsn s) (next_checkpoint_lsn s)
    (n_pending_checkpoint_writes s).

Definition set_srv (v : server_t) (w : world) : world :=
  mk_world (log_sys w) (write_lock w) (flush_lock w) (new_redo w)
    (log_has_printed_chkp_margine_warning w)
    (log_last_margine_warning_time w) v (trace w).

(** The lines that [log_buffer_extend] and [log_close] send to the error
    log. *)
Inductive log_message : Type :=
| Msg_warn_extend (len size : Z)
| Msg_info_extended (size : Z)
| Msg_error_checkpoint_age (age capacity : Z).

(** *** Extending the log buffer ([log_buffer_extend])

    [fresh] is the memory that [ut_malloc_dontdump] returns, whatever it
    holds; the new buffer is addressed from its start. The old buffer is
    freed. *)
Definition log_buffer_extend (len : Z) (fresh : memory) (v : server_t)
  (s : log_t) : list log_message * server_t * log_t :=
  let new_buf_size := ut_calc_align len (srv_page_size v) in
  if len <=? srv_log_buffer_size v then
    (* Already extended enough by the others *)
    ([], v, s)
  else
    let old_buf_begin := buf s in
    let v1 := set_srv_log_buffer_size new_buf_size v in
    let s1 := set_first_in_use true (set_buf 0 s) in
    let m1 :=
      memcpy fresh (buf s1)
        (mem_read (buf_mem s) old_buf_begin (Z.to_nat (buf_free s1))) in
    let s2 := set_buf_mem m1 s1 in
    let s3 :=
      set_max_buf_free
        (u64 (new_buf_size / LOG_BUF_FLUSH_RATIO - LOG_BUF_FLUSH_MARGIN v1))
        s2 in
    ([Msg_warn_extend len (srv_log_buffer_size v);
      Msg_info_extended new_buf_size], v1, s3).

(** *** Closing an append ([log_close]) *)

(** The statics [log_has_printed_chkp_warning] and
    [log_last_warning_time]. *)
Record chkp_warning_t : Type := mk_chkp_warning {
  log_has_printed_chkp_warning : bool;
  log_last_warning_time : Z
}.

(** [log_close]: the lsn it returns, the line it logs, the statics and
    the log system. *)
Definition log_close (v : server_t) (st : chkp_warning_t) (s : log_t)
  : Z * list log_message * chkp_warning_t * log_t :=
  let lsn_v := lsn s in
  let log_block := ut_2pow_round (buf s + buf_free s) OS_FILE_LOG_BLOCK_SIZE in
  let first_rec_group :=
    LogBlock.log_block_get_first_rec_group (buf_mem s) log_block in
  let s1 :=
    if first_rec_group =? 0 then
      (* We initialized a new log block which was not written full by the
         current mtr: the next mtr log record group will start within
         this block at the offset data_len *)
      set_buf_mem
        (LogBlock.log_block_set_first_rec_group (buf_mem s) log_block
           (LogBlock.log_block_get_data_len (buf_mem s) log_block)) s
    else s in
  let s2 :=
    if buf_free s1 >? max_buf_free s1
    then set_check_flush_or_checkpoint true s1 else s1 in
  let checkpoint_age := u64 (lsn_v - last_checkpoint_lsn s2) in
  let warn :=
    (checkpoint_age >=? log_capacity s2)
    && (negb (log_has_printed_chkp_warning st)
        || (difftime (time_now v) (log_last_warning_time st) >? 15)) in
  let st1 := if warn then mk_chkp_warning true (time_now v) else st in
  let msgs :=
    if warn
    then [Msg_error_checkpoint_age checkpoint_age (log_capacity s2)]
    else [] in
  if checkpoint_age <=? max_modified_age_sync s2 then
    (lsn_v, msgs, st1, s2)
  else
    let oldest_lsn := buf_pool_get_oldest_modification v in
    if (oldest_lsn =? 0)
       || (u64 (lsn_v - oldest_lsn) >? max_modified_age_sync s2)
       || (checkpoint_age >? max_checkpoint_age_async s2)
    then (lsn_v, msgs, st1, set_check_flush_or_checkpoint true s2)
    else (lsn_v, msgs, st1, s2).

Section WithCollaborators.
Context {C : Collaborators}.

(** *** Callers of [log_write_up_to] *)

(** [log_buffer_flush_to_disk]; [log_get_lsn] reads [log_sys.lsn]. *)
Definition log_buffer_flush_to_disk (sync : bool) (w : world)
  : outcome world :=
  log_write_up_to (lsn (log_sys w)) sync w.

(** [log_buffer_sync_in_background]. *)
Definition log_buffer_sync_in_background (flush : bool) (w : world)
  : outcome world :=
  let lsn_v := lsn (log_sys w) in
  if flush && (flushed_to_disk_lsn (log_sys w) >=? lsn_v) then
    (* The write + flush will write enough *)
    Returned w
  else log_write_up_to lsn_v flush w.

(** [log_flush_margin]. *)
Definition log_flush_margin (w : world) : outcome world :=
  let lsn_v :=
    if buf_free (log_sys w) >? max_buf_free (log_sys w)
    then
      (* We can write during flush *)
      lsn (log_sys w)
    else 0 in
  if negb (lsn_v =? 0) then log_write_up_to lsn_v false w
  else Returned w.

(** *** Opening an append ([log_reserve_and_open]) *)

(** The local [len_upper_limit] of [log_reserve_and_open]. *)
Definition len_upper_limit (len : Z) (v : server_t) : Z :=
  u64 (u64 (LOG_BUF_WRITE_MARGIN + srv_log_write_ahead_size v)
       + u64 (5 * len) / 4).

(** [log_reserve_and_open]: the lsn it returns. The function goes round
    [loop:] until the buffer has room; [fuel] bounds the rounds, and a
    caller that is still short of room after them goes on waiting for the
    writers ([Blocked]). *)
Fixpoint log_reserve_and_open (fuel : nat) (len : Z) (w : world)
  : outcome (Z * world) :=
  if u64 (buf_free (log_sys w) + len_upper_limit len (srv w))
     >? srv_log_buffer_size (srv w)
  then
    match fuel with
    | O => Blocked
    | S fuel' =>
        (* Not enough free space, do a write of the log buffer *)
        w1 <- log_buffer_sync_in_background false w ;;
        log_reserve_and_open fuel' len w1
    end
  else Returned (lsn (log_sys w), w).

End WithCollaborators.

(** *** Paths of the log files ([get_log_file_path])

    [sep] and [alt] are [OS_PATH_SEPARATOR] and [OS_PATH_SEPARATOR_ALT]
    of os0file.h and [dir] is [srv_log_group_home_dir]; a string is the
    list of its characters. [path.back()] of an empty string is
    undefined: [back_of_empty] is the character that it yields then. *)
Definition get_log_file_path (sep alt back_of_empty : byte)
  (dir filename : list byte) : list byte :=
  let path := map (fun c => if c =? alt then sep else c) dir in
  let path :=
    if negb (last path back_of_empty =? sep) then path ++ [sep] else path in
  path ++ filename.

(** *** Example states *)

(** The example data file after an append of 100 bytes that goes round
    its end: 48 bytes at offset 2000 and 52 at offset 0. *)
Definition example_redo_wrapped : redo_t :=
  snd (Redo.append_wrapped (repeat 7 100) (example_redo 2000 1)).

(** The example world with three bytes appended and not yet written. *)
Definition example_world_appended : world :=
  example_world (example_log_appended false) (example_server false 0 0).

(** A server with a log buffer of 8 blocks and no write-ahead, and a
    world whose buffer is filled up to the fourth block. *)
Definition example_server_small : server_t :=
  mk_server false false SRV_FSYNC 4096 512 14 0 0 0.

Definition example_world_full : world :=
  example_world (set_buf_free 1548 (example_log false 9740 8204 8204 8204))
    example_server_small.

(** The example log after an append of 500 bytes, which completes the
    first block and opens the second. *)
Definition example_log_block_opened : log_t :=
  match log_write_low (repeat 7 500) (example_log false 8204 8204 8204 8204)
  with
  | Some s => s
  | None => example_log false 8204 8204 8204 8204
  end.

(** *** Predicates of the further statements *)

(** A byte string whose elements are bytes. *)
Definition bytes_wf (l : list byte) : Prop :=
  Forall (fun b => 0 <= b < 256) l.

(** A memory region whose elements are bytes. *)
Definition region_wf (m : memory) (addr n : Z) : Prop :=
  forall a, addr <= a < addr + n -> 0 <= m a < 256.

(** Every write of [ops] lies inside a file of [size] bytes. *)
Definition writes_within (size : Z) (ops : list file_op) : Prop :=
  Forall
    (fun op =>
       match op with
       | Op_write offset data => 0 <= offset /\ offset + zlen data <= size
       | Op_flush_data => True
       end)
    ops.

(** The block at [block] carries the checksum of its contents. *)
Definition block_checksum_ok (m : memory) (block : Z) : Prop :=
  mem_read_from 4 m (block + OS_FILE_LOG_BLOCK_SIZE - LOG_BLOCK_CHECKSUM)
  = LogBlock.log_block_calc_checksum_crc32 m block.

(** The write side of the group-commit protocol agrees with the log
    system: what the locks have published has been written, and nothing
    is written beyond [lsn]. *)
Definition write_published (w : world) : Prop :=
  GroupCommit.value (write_lock w) <= write_lsn (log_sys w)
  /\ GroupCommit.value (flush_lock w) <= write_lsn (log_sys w)
  /\ write_lsn (log_sys w) <= lsn (log_sys w).

(** The write-ahead rule of checkpoints: the log is on disk up to the
    lsn of the last checkpoint. *)
Definition checkpoint_durable (w : world) : Prop :=
  last_checkpoint_lsn (log_sys w) <= flushed_to_disk_lsn (log_sys w).

(** The sizes of the log system are multiples of the block size and the
    lsn and the offset of the anchor of the data file agree modulo the
    block size. *)
Definition log_aligned (v : server_t) (s : log_t) : Prop :=
  0 < file_size (log s) < 2 ^ 64
  /\ file_size (log s) mod OS_FILE_LOG_BLOCK_SIZE = 0
  /\ (file_lsn_offset (log s) - file_lsn (log s)) mod OS_FILE_LOG_BLOCK_SIZE
     = 0
  /\ 0 < srv_log_write_ahead_size v
  /\ srv_log_write_ahead_size v mod OS_FILE_LOG_BLOCK_SIZE = 0
  /\ srv_log_buffer_size v mod OS_FILE_LOG_BLOCK_SIZE = 0.

(** A world in which [log_write_up_to] can run: no thread holds a
    group-commit lock, the locks agree with the log system, what is on
    disk has been published by the write lock, a buffer with nothing to
    write has [write_lsn = lsn], the data file takes every call and the
    sizes are aligned. *)
Definition write_up_to_ready (w : world) : Prop :=
  locks_consistent w
  /\ flushed_to_disk_lsn (log_sys w) <= GroupCommit.value (write_lock w)
  /\ (buf_free (log_sys w) = buf_next_to_write (log_sys w) ->
      write_lsn (log_sys w) = lsn (log_sys w))
  /\ m_lock (write_lock w) = false
  /\ m_lock (flush_lock w) = false
  /\ f_faults (data_fd (log (log_sys w))) = []
  /\ log_aligned (srv w) (log_sys w).

(** Between the handles [f] and [f'] the file took [k] calls and answered
    each with success: the [k] next answers of [f] are no failures and are
    used up, and [k] operations were recorded. *)
Definition calls_succeeded (k : nat) (f f' : log_file_t) : Prop :=
  Forall (fun failed => failed = false) (firstn k (f_faults f))
  /\ f_faults f' = skipn k (f_faults f)
  /\ (exists ops, f_ops f' = f_ops f ++ ops /\ length ops = k)
  /\ m_durable_writes f' = m_durable_writes f.

(** Where [log_write_low] puts byte [i] of a string appended to [s]: [i]
    bytes after the free offset, plus the trailer and the header of the
    next block ([framing_size()] bytes) for every block that the bytes
    before it and the byte itself complete. *)
Definition appended_byte_address (s : log_t) (i : Z) : Z :=
  buf s + buf_free s + i
  + framing_size s
    * ((free_offset_in_block s - LOG_BLOCK_HDR_SIZE + i) / block_payload s).

(** *** A call of [log_write_up_to] among other threads

    [log_write_up_to] as the steps of one thread, so that other threads
    can run between them and while the caller is queued on a lock. The
    steps are those of [log_write_up_to] above, cut at its two
    [acquire]s. *)

(** Where the caller stands. *)
Inductive call_point : Type :=
| At_enter        (* before the recovery guard *)
| At_flush_lock   (* at [flush_lock.acquire(lsn)] *)
| At_write_lock   (* at [write_lock.acquire(lsn)] *)
| At_write        (* owner of the write lock, before [log_mutex_enter()] *)
| At_flush        (* at [lsn_t flush_lsn= write_lock.value()] *)
| At_return.

Section CallAmongThreads.
Context {C : Collaborators}.

(** The body of [if (write_lock.acquire(lsn) == ACQUIRED) { ... }]: what
    the owner of the write lock does. *)
Definition log_write_up_to_write_owned (w : world) : outcome world :=
  let write_lsn_v := lsn (log_sys w) in
  let w2 :=
    set_write_lock (GroupCommit.set_pending write_lsn_v (write_lock w)) w in
  s <- log_write (srv w2) (log_sys w2) ;;
  let w3 := set_log_sys s w2 in
  if write_lsn (log_sys w3) =? write_lsn_v
  then Returned
         (set_write_lock (GroupCommit.release write_lsn_v (write_lock w3)) w3)
  else Aborted.

(** One step of the caller. [Blocked]: the caller is queued on the lock
    and cannot step until the lock has changed. *)
Definition call_step (lsn_arg : Z) (flush_to_disk : bool)
  (pc : call_point) (w : world) : outcome (call_point * world) :=
  match pc with
  | At_enter =>
      if recv_no_ibuf_operations (srv w) then Returned (At_return, w)
      else if flush_to_disk then Returned (At_flush_lock, w)
      else Returned (At_write_lock, w)
  | At_flush_lock =>
      match GroupCommit.acquire lsn_arg (flush_lock w) with
      | None => Blocked
      | Some (WAITING_COVERED, _) => Returned (At_return, w)
      | Some (ACQUIRED, l) => Returned (At_write_lock, set_flush_lock l w)
      end
  | At_write_lock =>
      match GroupCommit.acquire lsn_arg (write_lock w) with
      | None => Blocked
      | Some (WAITING_COVERED, _) =>
          Returned (if flush_to_disk then At_flush else At_return, w)
      | Some (ACQUIRED, l) => Returned (At_write, set_write_lock l w)
      end
  | At_write =>
      w1 <- log_write_up_to_write_owned w ;;
      Returned (if flush_to_disk then At_flush else At_return, w1)
  | At_flush =>
      w1 <- log_write_up_to_flush w ;;
      Returned (At_return, w1)
  | At_return => Returned (At_return, w)
  end.

(** [n] steps of the caller with no other thread in between. *)
Fixpoint call_steps (lsn_arg : Z) (flush_to_disk : bool) (n : nat)
  (pc : call_point) (w : world) : outcome (call_point * world) :=
  match n with
  | O => Returned (pc, w)
  | S n' =>
      r <- call_step lsn_arg flush_to_disk pc w ;;
      call_steps lsn_arg flush_to_disk n' (fst r) (snd r)
  end.

(** One step of another thread: it takes a lock that is free and that
    does not cover its lsn; as the owner of the write lock it writes the
    buffer and releases the lock; as the owner of the flush lock it
    flushes and releases the lock; it appends a string to the log buffer
    (the 64-bit lsn not wrapping). The locks do not record their owner:
    a step of an owner is allowed whenever the lock is held. *)
Inductive other_thread_step : world -> world -> Prop :=
| Other_takes_flush_lock (num : Z) (l : group_commit_lock) (w : world) :
    GroupCommit.acquire num (flush_lock w) = Some (ACQUIRED, l) ->
    other_thread_step w (set_flush_lock l w)
| Other_takes_write_lock (num : Z) (l : group_commit_lock) (w : world) :
    GroupCommit.acquire num (write_lock w) = Some (ACQUIRED, l) ->
    other_thread_step w (set_write_lock l w)
| Other_writes (w w1 : world) :
    m_lock (write_lock w) = true ->
    log_write_up_to_write_owned w = Returned w1 ->
    other_thread_step w w1
| Other_flushes (w w1 : world) :
    m_lock (flush_lock w) = true ->
    log_write_up_to_flush w = Returned w1 ->
    other_thread_step w w1
| Other_appends (str : list byte) (s1 : log_t) (w : world) :
    buffer_wf (log_sys w) ->
    0 <= lsn (log_sys w) ->
    lsn (log_sys w) + 2 * zlen str + 32 < 2 ^ 64 ->
    log_write_low str (log_sys w) = Some s1 ->
    other_thread_step w (set_log_sys s1 w).

(** A call of [log_write_up_to] from the point [pc] in the world [w] to
    its return in the world [w'], with any steps of other threads before,
    between and after the steps of the caller. A caller whose step is
    [Blocked] waits for the other threads. *)
Inductive log_write_up_to_run (lsn_arg : Z) (flush_to_disk : bool)
  : call_point -> world -> world -> Prop :=
| Run_returned (w : world) :
    log_write_up_to_run lsn_arg flush_to_disk At_return w w
| Run_caller (pc pc' : call_point) (w w1 w' : world) :
    call_step lsn_arg flush_to_disk pc w = Returned (pc', w1) ->
    log_write_up_to_run lsn_arg flush_to_disk pc' w1 w' ->
    log_write_up_to_run lsn_arg flush_to_disk pc w w'
| Run_others (pc : call_point) (w w1 w' : world) :
    other_thread_step w w1 ->
    log_write_up_to_run lsn_arg flush_to_disk pc w1 w' ->
    log_write_up_to_run lsn_arg flush_to_disk pc w w'.

End CallAmongThreads.

(** What a flushing call for [lsn_arg] has reached at each of its
    points: outside recovery the log has reached the lsn and the locks
    agree with the log system; before the flush the write lock has
    published the lsn; at the return the lsn is on disk. *)
Definition reached (lsn_arg : Z) (pc : call_point) (w : world) : Prop :=
  recv_no_ibuf_operations (srv w) = false
  /\ lsn_arg <= lsn (log_sys w)
  /\ locks_consistent w
  /\ match pc with
     | At_flush => lsn_arg <= GroupCommit.value (write_lock w)
     | At_return => lsn_arg <= flushed_to_disk_lsn (log_sys w)
     | _ => True
     end.

(** The example world while another thread runs a wave: it has taken the
    flush lock, then the write lock, has written the buffer and released
    the write lock, and has flushed and released the flush lock. *)
Definition example_wave_flush_lock : world :=
  set_flush_lock (mk_group_commit_lock 8204 8204 true) example_world_appended.

Definition example_wave_write_lock : world :=
  set_write_lock (mk_group_commit_lock 8204 8204 true) example_wave_flush_lock.

Definition example_wave_written : world :=
  match log_write_up_to_write_owned example_wave_write_lock with
  | Returned w => w
  | Blocked => example_wave_write_lock
  | Aborted => example_wave_write_lock
  end.

Definition example_wave_flushed : world :=
  match log_write_up_to_flush example_wave_written with
  | Returned w => w
  | Blocked => example_wave_written
  | Aborted => example_wave_written
  end.

(** * Properties *)

(** ** Arithmetic and list facts *)

Lemma u64_small (x : Z) : 0 <= x < 2 ^ 64 -> u64 x = x.
Proof. intros H. unfold u64. apply Z.mod_small. exact H. Qed.

Lemma u32_small (x : Z) : 0 <= x < 2 ^ 32 -> u32 x = x.
Proof. intros H. unfold u32. apply Z.mod_small. exact H. Qed.

Lemma zlen_nonneg {A : Type} (l : list A) : 0 <= zlen l.
Proof. unfold zlen. lia. Qed.

Lemma zlen_app {A : Type} (l1 l2 : list A) :
  zlen (l1 ++ l2) = zlen l1 + zlen l2.
Proof. unfold zlen. rewrite length_app. lia. Qed.

Lemma subspan_front {A : Type} (n : Z) (l : list A) :
  subspan 0 n l = firstn (Z.to_nat n) l.
Proof. reflexivity. Qed.

Lemma subspan_back {A : Type} (k : Z) (l : list A) :
  0 <= k <= zlen l ->
  subspan k (zlen l - k) l = skipn (Z.to_nat k) l.
Proof.
  intros H. unfold subspan, zlen in *.
  apply firstn_all2. rewrite length_skipn. lia.
Qed.

Lemma written_app (ops1 ops2 : list file_op) :
  File.written (ops1 ++ ops2) = File.written ops1 ++ File.written ops2.
Proof.
  induction ops1 as [| op ops1 IH]; simpl.
  - reflexivity.
  - destruct op; rewrite IH; [ rewrite app_assoc |]; reflexivity.
Qed.

(** ** The circular data file *)

Ltac redo_simpl :=
  cbn [m_data_file_position m_data_file m_data_file_size m_sequence_bit
       m_main_file m_main_file_size Redo.flip_sequence_bit
       Redo.set_sequence_bit Redo.set_data_file_position Redo.set_data_file
       Redo.set_main_file Redo.set_main_file_size].

Section RedoFacts.

Lemma pow2_47_lt_64 : 2 ^ 47 < 2 ^ 64.
Proof. reflexivity. Qed.

Lemma append_wrapped_success (buf : list byte) (r r' : redo_t) :
  redo_wf r ->
  zlen buf < m_data_file_size r ->
  Redo.append_wrapped buf r = (DB_SUCCESS, r') ->
  appended buf r r'.
Proof.
  intros (Hp & Hn) Hs.
  pose proof (zlen_nonneg buf) as Hs0.
  pose proof pow2_47_lt_64 as H47.
  unfold Redo.append_wrapped, appended.
  rewrite (u64_small (m_data_file_position r + zlen buf)) by lia.
  destruct (m_data_file_position r + zlen buf >? m_data_file_size r) eqn:Hcmp.
  - (* the append crosses the end of the file *)
    apply Z.gtb_lt in Hcmp.
    rewrite (u64_small (m_data_file_size r - m_data_file_position r)) by lia.
    rewrite (u64_small (zlen buf - _)) by lia.
    rewrite subspan_front, subspan_back by lia.
    unfold File.write at 1.
    destruct (File.next_call_fails (m_data_file r)); [discriminate |].
    unfold Redo.append_at_cursor, File.write.
    redo_simpl.
    destruct (File.next_call_fails _); [discriminate |].
    redo_simpl.
    assert (Hl : zlen (skipn (Z.to_nat
                  (m_data_file_size r - m_data_file_position r)) buf)
                 = m_data_file_position r + zlen buf - m_data_file_size r).
    { unfold zlen in *. rewrite length_skipn. lia. }
    rewrite Hl. rewrite u64_small by lia.
    rewrite Z.add_0_l.
    destruct (_ =? m_data_file_size r) eqn:He;
      [apply Z.eqb_eq in He; lia |].
    intros E. injection E as <-.
    cbn. rewrite <- app_assoc. cbn. repeat split; reflexivity || lia.
  - (* the append ends inside the file or exactly at its end *)
    unfold Redo.append_at_cursor, File.write.
    destruct (File.next_call_fails (m_data_file r)); [discriminate |].
    redo_simpl.
    rewrite u64_small by lia.
    destruct (m_data_file_position r + zlen buf =? m_data_file_size r);
      intros E; injection E as <-; cbn; repeat split; reflexivity.
Qed.

Lemma append_wrapped_no_faults (buf : list byte) (r : redo_t) :
  f_faults (m_data_file r) = [] ->
  fst (Redo.append_wrapped buf r) = DB_SUCCESS.
Proof.
  intros Hf.
  unfold Redo.append_wrapped, Redo.append_at_cursor, File.write,
    File.next_call_fails.
  rewrite Hf.
  destruct (_ >? _); cbn; rewrite ?Hf; cbn; destruct (_ =? _); reflexivity.
Qed.

(** The cursor stays inside the file however the append ends. *)
Lemma append_wrapped_position (buf : list byte) (r : redo_t) :
  redo_wf r ->
  zlen buf < m_data_file_size r ->
  let r' := snd (Redo.append_wrapped buf r) in
  0 <= m_data_file_position r' < m_data_file_size r'
  /\ m_data_file_size r' = m_data_file_size r.
Proof.
  intros Hwf Hs r'.
  destruct (Redo.append_wrapped buf r) as [e r1] eqn:E.
  subst r'. cbn [snd].
  destruct e.
  - pose proof (append_wrapped_success buf r r1 Hwf Hs E) as (Hn & _ & _ & H).
    destruct Hwf as (Hp & _).
    pose proof (zlen_nonneg buf).
    rewrite Hn. split; [| reflexivity].
    destruct (_ >? _) eqn:Hcmp.
    + apply Z.gtb_lt in Hcmp. destruct H as (_ & _ & ->). lia.
    + destruct H as (_ & _ & ->).
      destruct (_ =? _) eqn:He; [lia |].
      apply Z.eqb_neq in He.
      assert (~ m_data_file_position r + zlen buf > m_data_file_size r).
      { intros Hgt. apply Z.gt_lt, Z.gtb_lt in Hgt. congruence. }
      lia.
  - (* a write failed *)
    destruct Hwf as (Hp & Hn).
    pose proof (zlen_nonneg buf). pose proof pow2_47_lt_64.
    revert E. unfold Redo.append_wrapped.
    rewrite (u64_small (m_data_file_position r + zlen buf)) by lia.
    destruct (_ >? _).
    + unfold File.write at 1.
      destruct (File.next_call_fails (m_data_file r)).
      * intros E. injection E as <-. cbn. lia.
      * unfold Redo.append_at_cursor, File.write.
        redo_simpl.
        destruct (File.next_call_fails _).
        -- intros E. injection E as <-. cbn. lia.
        -- redo_simpl.
           destruct (_ =? _); discriminate.
    + unfold Redo.append_at_cursor, File.write.
      destruct (File.next_call_fails (m_data_file r)).
      * intros E. injection E as <-. cbn. lia.
      * redo_simpl.
        destruct (_ =? _); discriminate.
Qed.

Lemma flip_bit (b : Z) : b = 0 \/ b = 1 -> Z.land (Z.lnot b) 1 = 1 - b.
Proof. intros [-> | ->]; reflexivity. Qed.

End RedoFacts.

Section RedoClaims.

(** C4. For an append of [s < data_file_size] bytes at a cursor
    [p < data_file_size], [append_wrapped] succeeds when no write fails,
    and when it succeeds: if [p + s > data_file_size] it writes two
    segments, the first at [p] up to the end of the file and the rest at
    offset 0, flips the sequence bit once and leaves the cursor at
    [p + s - data_file_size]; if [p + s = data_file_size] it writes one
    segment, keeps the sequence bit and resets the cursor to 0; if
    [p + s < data_file_size] it writes one segment, keeps the sequence bit
    and advances the cursor to [p + s]. *)
Theorem append_wrapped_three_cases (buf : list byte) (r : redo_t) :
  redo_wf r ->
  sequence_bit_wf r ->
  zlen buf < m_data_file_size r ->
  let p := m_data_file_position r in
  let n := m_data_file_size r in
  let s := zlen buf in
  let k := Z.to_nat (n - p) in
  let r' := snd (Redo.append_wrapped buf r) in
  (f_faults (m_data_file r) = [] ->
   fst (Redo.append_wrapped buf r) = DB_SUCCESS)
  /\ (fst (Redo.append_wrapped buf r) = DB_SUCCESS ->
      (p + s > n ->
       f_ops (m_data_file r')
       = f_ops (m_data_file r)
           ++ [Op_write p (firstn k buf); Op_write 0 (skipn k buf)]
       /\ m_sequence_bit r' = 1 - m_sequence_bit r
       /\ m_sequence_bit r' <> m_sequence_bit r
       /\ m_data_file_position r' = p + s - n)
      /\ (p + s = n ->
          f_ops (m_data_file r') = f_ops (m_data_file r) ++ [Op_write p buf]
          /\ m_sequence_bit r' = m_sequence_bit r
          /\ m_data_file_position r' = 0)
      /\ (p + s < n ->
          f_ops (m_data_file r') = f_ops (m_data_file r) ++ [Op_write p buf]
          /\ m_sequence_bit r' = m_sequence_bit r
          /\ m_data_file_position r' = p + s)).
Proof.
  intros Hwf Hbit Hs p n s k r'.
  split; [apply append_wrapped_no_faults |].
  intros Hok.
  destruct (Redo.append_wrapped buf r) as [e r1] eqn:E.
  cbn [fst] in Hok. subst e. subst r'. cbn [snd].
  pose proof (append_wrapped_success buf r r1 Hwf Hs E) as (_ & _ & _ & H).
  fold p n s k in H.
  destruct (p + s >? n) eqn:Hcmp.
  - apply Z.gtb_lt in Hcmp.
    destruct H as (Hops & Hseq & Hpos).
    rewrite (flip_bit _ Hbit) in Hseq.
    unfold sequence_bit_wf in Hbit.
    repeat split; try lia; try assumption.
  - assert (Hle : p + s <= n).
    { destruct (Z.gtb_spec (p + s) n); [discriminate | assumption]. }
    destruct H as (Hops & Hseq & Hpos).
    repeat split; try lia; try assumption;
      rewrite Hpos; destruct (Z.eqb_spec (p + s) n); reflexivity || lia.
Qed.

(** C9. An append of fewer than [data_file_size] bytes that starts with
    the cursor strictly below [data_file_size] and succeeds leaves the
    cursor strictly below [data_file_size] again; the size of the file is
    unchanged. *)
Theorem append_wrapped_keeps_cursor_inside (buf : list byte) (r : redo_t) :
  0 <= m_data_file_position r < m_data_file_size r ->
  m_data_file_size r <= 2 ^ 47 ->
  zlen buf < m_data_file_size r ->
  fst (Redo.append_wrapped buf r) = DB_SUCCESS ->
  let r' := snd (Redo.append_wrapped buf r) in
  0 <= m_data_file_position r' < m_data_file_size r'
  /\ m_data_file_size r' = m_data_file_size r.
Proof.
  intros Hp Hn Hs _.
  exact (append_wrapped_position buf r (conj Hp Hn) Hs).
Qed.

Context {C : Collaborators}.

Lemma mtr_record_shape (payload : mtr_buf_t) (seq : Z) :
  let h0 :=
    mlog_encode_varint (u32 (Z.shiftl (u32 (Redo.payload_size payload + 4)) 2))
  in
  let h := mlog_encode_varint (Redo.mtr_header_value payload seq) in
  length h = length h0 ->
  Redo.mtr_record payload seq
  = h ++ Redo.for_each_block payload
      ++ mach_write_to 4 (ut_crc32 (h0 ++ Redo.for_each_block payload)).
Proof.
  intros h0 h Hlen.
  unfold Redo.mtr_record, Redo.overwrite_front, Redo.mtr_record_unsequenced.
  fold h h0. rewrite Hlen.
  rewrite <- app_assoc.
  rewrite skipn_app, skipn_all, Nat.sub_diag. reflexivity.
Qed.

(** C8, amended. When [append_mtr_data] succeeds, the data file has
    received, in one or two writes, the varint header encoding
    [(size << 2) | (skip_bit << 1) | sequence_bit], then the payload, then
    the four bytes of a CRC-32C; the checksum is the one of the header as
    first encoded, with skip and sequence bits zero, followed by the
    payload. The two headers are the same when the sequence bit is 0, and
    [size] is the payload length plus 4 below [2^30]. *)
Theorem append_mtr_data_record (payload : mtr_buf_t) (r : redo_t) :
  let seq := m_sequence_bit r in
  let h0 :=
    mlog_encode_varint (u32 (Z.shiftl (u32 (Redo.payload_size payload + 4)) 2))
  in
  let h := mlog_encode_varint (Redo.mtr_header_value payload seq) in
  length h = length h0 ->
  redo_wf r ->
  zlen (Redo.mtr_record payload seq) < m_data_file_size r ->
  fst (Redo.append_mtr_data payload r) = DB_SUCCESS ->
  let r' := snd (Redo.append_mtr_data payload r) in
  File.written (f_ops (m_data_file r'))
  = File.written (f_ops (m_data_file r))
      ++ h ++ Redo.for_each_block payload
      ++ mach_write_to 4 (ut_crc32 (h0 ++ Redo.for_each_block payload))
  /\ (seq = 0 -> h = h0)
  /\ (0 <= Redo.payload_size payload + 4 < 2 ^ 30 ->
      Redo.mtr_header_value payload seq
      = Z.lor (Z.lor (Z.shiftl (Redo.payload_size payload + 4) 2)
                     (Z.shiftl 0 1)) seq).
Proof.
  intros seq h0 h Hlen Hwf Hsize Hok r'.
  split; [| split].
  - unfold Redo.append_mtr_data in *. fold seq in Hok, r'.
    destruct (Redo.append_wrapped (Redo.mtr_record payload seq) r)
      as [e r1] eqn:E.
    cbn [fst] in Hok. subst e. subst r'. cbn [snd].
    pose proof (append_wrapped_success _ r r1 Hwf Hsize E) as (_ & _ & _ & H).
    pose proof (mtr_record_shape payload seq Hlen) as Hshape.
    cbv zeta in Hshape. subst h h0. rewrite <- Hshape.
    destruct (_ >? _); destruct H as (-> & _).
    + rewrite written_app. cbn [File.written].
      rewrite app_nil_r, firstn_skipn. reflexivity.
    + rewrite written_app. cbn [File.written].
      rewrite app_nil_r. reflexivity.
  - intros Hz. subst h h0. unfold Redo.mtr_header_value. rewrite Hz.
    cbn [Z.shiftl]. rewrite !Z.lor_0_r. reflexivity.
  - intros Hp. unfold Redo.mtr_header_value.
    rewrite (u32_small (Redo.payload_size payload + 4)) by lia.
    rewrite u32_small; [reflexivity |].
    rewrite Z.shiftl_mul_pow2 by lia. lia.
Qed.

End RedoClaims.

(** *** The data file on concrete inputs *)

(** A file of four blocks with the cursor at three and a half: an append
    of one block is split, the cursor ends at half a block and the
    sequence bit goes from 1 to 0. *)
Lemma append_wrapped_three_cases_witness :
  redo_wf (example_redo 1792 1)
  /\ sequence_bit_wf (example_redo 1792 1)
  /\ zlen (repeat 0 512) < m_data_file_size (example_redo 1792 1)
  /\ m_data_file_position
       (snd (Redo.append_wrapped (repeat 0 512) (example_redo 1792 1))) = 256
  /\ m_sequence_bit
       (snd (Redo.append_wrapped (repeat 0 512) (example_redo 1792 1))) = 0.
Proof.
  assert (H1 : redo_wf (example_redo 1792 1)) by (unfold redo_wf; cbn; lia).
  assert (H2 : sequence_bit_wf (example_redo 1792 1)) by (right; reflexivity).
  assert (H3 : zlen (repeat 0 512) < m_data_file_size (example_redo 1792 1))
    by (vm_compute; reflexivity).
  refine (conj H1 (conj H2 (conj H3 _))).
  destruct (append_wrapped_three_cases _ _ H1 H2 H3) as [_ H].
  destruct (H eq_refl) as [Hcross _].
  assert (Hgt : m_data_file_position (example_redo 1792 1)
                + zlen (repeat 0 512)
                > m_data_file_size (example_redo 1792 1))
    by (vm_compute; reflexivity).
  destruct (Hcross Hgt) as (_ & Hs & _ & Hp).
  split; [exact Hp | exact Hs].
Defined.

Lemma append_wrapped_keeps_cursor_inside_witness :
  0 <= m_data_file_position (example_redo 1536 1)
     < m_data_file_size (example_redo 1536 1)
  /\ m_data_file_size (example_redo 1536 1) <= 2 ^ 47
  /\ zlen (repeat 0 512) < m_data_file_size (example_redo 1536 1)
  /\ fst (Redo.append_wrapped (repeat 0 512) (example_redo 1536 1))
     = DB_SUCCESS
  /\ 0 <= m_data_file_position
            (snd (Redo.append_wrapped (repeat 0 512) (example_redo 1536 1)))
       < m_data_file_size
           (snd (Redo.append_wrapped (repeat 0 512) (example_redo 1536 1))).
Proof.
  assert (H1 : 0 <= m_data_file_position (example_redo 1536 1)
                 < m_data_file_size (example_redo 1536 1)) by (cbn; lia).
  assert (H2 : m_data_file_size (example_redo 1536 1) <= 2 ^ 47)
    by (cbn; lia).
  assert (H3 : zlen (repeat 0 512) < m_data_file_size (example_redo 1536 1))
    by (vm_compute; reflexivity).
  assert (H4 : fst (Redo.append_wrapped (repeat 0 512) (example_redo 1536 1))
               = DB_SUCCESS) by (vm_compute; reflexivity).
  refine (conj H1 (conj H2 (conj H3 (conj H4 _)))).
  exact (proj1 (append_wrapped_keeps_cursor_inside _ _ H1 H2 H3 H4)).
Defined.

(** C8 as stated fails. A one-byte payload appended while the sequence
    bit is 1: the file receives the header [0x15], but the checksum is the
    one of the header [0x14], not the checksum of the bytes in the file. *)
Lemma append_mtr_data_crc_counterexample :
  fst (Redo.append_mtr_data [[65]] (example_redo 0 1)) = DB_SUCCESS
  /\ File.written
       (f_ops (m_data_file (snd (Redo.append_mtr_data [[65]]
                                   (example_redo 0 1)))))
     = [21; 65; 51; 62; 121; 48]
  /\ [21; 65] ++ mach_write_to 4 (ut_crc32 [20; 65])
     = [21; 65; 51; 62; 121; 48]
  /\ File.written
       (f_ops (m_data_file (snd (Redo.append_mtr_data [[65]]
                                   (example_redo 0 1)))))
     <> record_as_specified [[65]] 1.
Proof.
  repeat split; try (vm_compute; reflexivity).
  vm_compute. discriminate.
Qed.

Lemma append_mtr_data_record_witness :
  length (mlog_encode_varint (Redo.mtr_header_value [[65]] 1))
  = length (mlog_encode_varint
              (u32 (Z.shiftl (u32 (Redo.payload_size [[65]] + 4)) 2)))
  /\ redo_wf (example_redo 0 1)
  /\ zlen (Redo.mtr_record [[65]] 1) < m_data_file_size (example_redo 0 1)
  /\ fst (Redo.append_mtr_data [[65]] (example_redo 0 1)) = DB_SUCCESS
  /\ File.written
       (f_ops (m_data_file (snd (Redo.append_mtr_data [[65]]
                                   (example_redo 0 1)))))
     = [21; 65] ++ mach_write_to 4 (ut_crc32 [20; 65]).
Proof.
  assert (H1 : length (mlog_encode_varint (Redo.mtr_header_value [[65]] 1))
               = length (mlog_encode_varint
                   (u32 (Z.shiftl (u32 (Redo.payload_size [[65]] + 4)) 2))))
    by reflexivity.
  assert (H2 : redo_wf (example_redo 0 1)) by (unfold redo_wf; cbn; lia).
  assert (H3 : zlen (Redo.mtr_record [[65]] 1)
               < m_data_file_size (example_redo 0 1))
    by (vm_compute; reflexivity).
  assert (H4 : fst (Redo.append_mtr_data [[65]] (example_redo 0 1))
               = DB_SUCCESS) by (vm_compute; reflexivity).
  refine (conj H1 (conj H2 (conj H3 (conj H4 _)))).
  exact (proj1 (append_mtr_data_record [[65]] (example_redo 0 1)
                  H1 H2 H3 H4)).
Defined.

(** ** Capacity thresholds *)

Section CapacityFacts.

Lemma capacity_free_value (v : server_t) :
  0 <= srv_page_size_shift v <= 16 ->
  0 <= srv_thread_concurrency v < 2 ^ 32 ->
  capacity_free v
  = 2 ^ srv_page_size_shift v * (4 * (10 + srv_thread_concurrency v) + 8)
  /\ 0 <= capacity_free v < 2 ^ 51.
Proof.
  intros Hs Ht.
  unfold capacity_free, LOG_CHECKPOINT_FREE_PER_THREAD,
    LOG_CHECKPOINT_EXTRA_FREE.
  rewrite !Z.shiftl_mul_pow2 by lia.
  assert (Hp : 1 <= 2 ^ srv_page_size_shift v <= 2 ^ 16).
  { split.
    - apply (Z.pow_le_mono_r 2 0); lia.
    - apply Z.pow_le_mono_r; lia. }
  set (P := 2 ^ srv_page_size_shift v) in *.
  change (2 ^ 16) with 65536 in Hp. change (2 ^ 32) with 4294967296 in Ht.
  rewrite (u32_small (4 * P)) by (change (2 ^ 32) with 4294967296; lia).
  rewrite (u32_small (8 * P)) by (change (2 ^ 32) with 4294967296; lia).
  rewrite (u64_small (10 + _))
    by (change (2 ^ 64) with 18446744073709551616; lia).
  rewrite (u64_small (4 * P * _))
    by (change (2 ^ 64) with 18446744073709551616; nia).
  rewrite u64_small by (change (2 ^ 64) with 18446744073709551616; nia).
  change (2 ^ 51) with 2251799813685248.
  split; nia.
Qed.

(** C6, amended. After a successful [log_set_capacity(file_size)] the
    capacity is the file size less a tenth, and with [free] the space
    reserved for the threads ([4 << srv_page_size_shift] bytes for each of
    [10 + srv_thread_concurrency], and [8 << srv_page_size_shift] more) and
    [margin] the capacity less [free], less a tenth: [max_modified_age_async
    = margin - margin / 8], [max_modified_age_sync = margin - margin / 16],
    [max_checkpoint_age_async = margin - margin / 32] and
    [max_checkpoint_age = margin], in integer arithmetic. *)
Theorem log_set_capacity_thresholds (file_size_arg : Z) (w : world) :
  0 <= file_size_arg < 2 ^ 64 ->
  0 <= srv_page_size_shift (srv w) <= 16 ->
  0 <= srv_thread_concurrency (srv w) < 2 ^ 32 ->
  fst (log_set_capacity file_size_arg w) = true ->
  let s' := log_sys (snd (log_set_capacity file_size_arg w)) in
  let capacity := log_capacity s' in
  let free :=
    2 ^ srv_page_size_shift (srv w)
    * (4 * (10 + srv_thread_concurrency (srv w)) + 8) in
  let margin := (capacity - free) - (capacity - free) / 10 in
  capacity = file_size_arg - file_size_arg / 10
  /\ free < capacity / 2
  /\ max_modified_age_async s' = margin - margin / 8
  /\ max_modified_age_sync s' = margin - margin / 16
  /\ max_checkpoint_age_async s' = margin - margin / 32
  /\ max_checkpoint_age s' = margin.
Proof.
  intros Hf Hshift Hthreads Hok.
  destruct (capacity_free_value (srv w) Hshift Hthreads) as [Hfree Hfb].
  revert Hok. unfold log_set_capacity.
  assert (Hcap : capacity_smallest file_size_arg
                 = file_size_arg - file_size_arg / 10).
  { unfold capacity_smallest. apply u64_small.
    pose proof (Z.div_pos file_size_arg 10).
    pose proof (Z.div_le_upper_bound file_size_arg 10 file_size_arg).
    lia. }
  destruct (capacity_free (srv w) >=? capacity_smallest file_size_arg / 2)
    eqn:Hcmp; [discriminate |].
  intros _. cbn [snd fst].
  assert (Hlt : capacity_free (srv w) < capacity_smallest file_size_arg / 2).
  { destruct (Z.geb_spec (capacity_free (srv w))
                (capacity_smallest file_size_arg / 2)); [discriminate | lia]. }
  cbn [log_sys set_log_sys log_capacity max_modified_age_async
       max_modified_age_sync max_checkpoint_age_async max_checkpoint_age
       set_log_capacity set_max_modified_age_async set_max_modified_age_sync
       set_max_checkpoint_age_async set_max_checkpoint_age].
  rewrite <- Hfree.
  set (c := capacity_smallest file_size_arg) in *.
  assert (Hc : 0 <= c < 2 ^ 64).
  { rewrite Hcap.
    pose proof (Z.div_pos file_size_arg 10).
    pose proof (Z.div_le_upper_bound file_size_arg 10 file_size_arg).
    lia. }
  assert (Hhalf : c / 2 <= c)
    by (apply Z.div_le_upper_bound; lia).
  assert (Hm0 : capacity_margin file_size_arg (srv w)
                = (c - capacity_free (srv w))
                  - (c - capacity_free (srv w)) / 10).
  { unfold capacity_margin. fold c.
    rewrite (u64_small (c - _)) by lia.
    apply u64_small.
    pose proof (Z.div_pos (c - capacity_free (srv w)) 10).
    pose proof (Z.div_le_upper_bound (c - capacity_free (srv w)) 10
                  (c - capacity_free (srv w))).
    lia. }
  rewrite Hm0.
  set (m := (c - capacity_free (srv w)) - (c - capacity_free (srv w)) / 10).
  assert (Hm : 0 <= m < 2 ^ 64).
  { subst m.
    pose proof (Z.div_pos (c - capacity_free (srv w)) 10).
    pose proof (Z.div_le_upper_bound (c - capacity_free (srv w)) 10
                  (c - capacity_free (srv w))).
    lia. }
  assert (Hdiv : forall d, 0 < d -> u64 (m - m / d) = m - m / d).
  { intros d Hd. apply u64_small.
    pose proof (Z.div_pos m d).
    pose proof (Z.div_le_upper_bound m d m).
    nia. }
  unfold LOG_POOL_PREFLUSH_RATIO_ASYNC, LOG_POOL_PREFLUSH_RATIO_SYNC,
    LOG_POOL_CHECKPOINT_RATIO_ASYNC.
  rewrite !Hdiv by lia.
  repeat split; try reflexivity; assumption.
Qed.

Lemma log_set_capacity_thresholds_witness :
  0 <= 2000000 < 2 ^ 64
  /\ 0 <= srv_page_size_shift (example_server false 0 0) <= 16
  /\ 0 <= srv_thread_concurrency (example_server false 0 0) < 2 ^ 32
  /\ fst (log_set_capacity 2000000
            (example_world (example_log false 1 1 1 1)
               (example_server false 0 0))) = true
  /\ max_checkpoint_age
       (log_sys (snd (log_set_capacity 2000000
                        (example_world (example_log false 1 1 1 1)
                           (example_server false 0 0))))) = 912212.
Proof.
  assert (H1 : 0 <= 2000000 < 2 ^ 64) by lia.
  assert (H2 : 0 <= srv_page_size_shift (example_server false 0 0) <= 16)
    by (cbn; lia).
  assert (H3 : 0 <= srv_thread_concurrency (example_server false 0 0)
               < 2 ^ 32) by (cbn; lia).
  assert (H4 : fst (log_set_capacity 2000000
                      (example_world (example_log false 1 1 1 1)
                         (example_server false 0 0))) = true)
    by (vm_compute; reflexivity).
  refine (conj H1 (conj H2 (conj H3 (conj H4 _)))).
  destruct (log_set_capacity_thresholds 2000000
              (example_world (example_log false 1 1 1 1)
                 (example_server false 0 0)) H1 H2 H3 H4)
    as (_ & _ & _ & _ & _ & Hmax).
  rewrite Hmax. vm_compute. reflexivity.
Defined.

(** C6 as stated fails. A log file of 2,000,000 bytes with 16 KiB pages
    and no concurrency limit: the capacity is 1,800,000, but
    [max_checkpoint_age] is 912,212, about half of it, because 786,432
    bytes are first set aside for the threads. *)
Lemma log_set_capacity_counterexample :
  fst (log_set_capacity 2000000
         (example_world (example_log false 1 1 1 1)
            (example_server false 0 0))) = true
  /\ log_capacity
       (log_sys (snd (log_set_capacity 2000000
                        (example_world (example_log false 1 1 1 1)
                           (example_server false 0 0))))) = 1800000
  /\ max_checkpoint_age
       (log_sys (snd (log_set_capacity 2000000
                        (example_world (example_log false 1 1 1 1)
                           (example_server false 0 0))))) = 912212
  /\ ~ thresholds_as_specified
         (log_sys (snd (log_set_capacity 2000000
                          (example_world (example_log false 1 1 1 1)
                             (example_server false 0 0))))).
Proof.
  repeat split; try (vm_compute; reflexivity).
  intros (_ & _ & _ & H). vm_compute in H. discriminate.
Qed.

End CapacityFacts.

(** ** The margin check and the recovery guard *)

Section GuardFacts.
Context {C : Collaborators}.

(** C7. When [margin > log_sys.log_capacity],
    [log_margin_checkpoint_age(margin)] returns at once: the log system,
    the group-commit locks, the redo files and the server state are
    unchanged, and nothing is asked of the outside (no checkpoint, no
    sleep) but at most one error line naming the margin. The line is
    printed, and its time recorded, exactly when none was printed before
    or the last one is more than 15 seconds old; otherwise the whole state
    is unchanged. *)
Theorem log_margin_checkpoint_age_over_capacity (margin : Z) (w : world) :
  margin > log_capacity (log_sys w) ->
  exists w',
    log_margin_checkpoint_age margin w = Returned w'
    /\ log_sys w' = log_sys w
    /\ write_lock w' = write_lock w
    /\ flush_lock w' = flush_lock w
    /\ new_redo w' = new_redo w
    /\ srv w' = srv w
    /\ ((log_has_printed_chkp_margine_warning w = false
         \/ time_now (srv w) - log_last_margine_warning_time w > 15) ->
        trace w'
        = trace w ++ [Ev_error_margin margin (log_capacity (log_sys w))]
        /\ log_has_printed_chkp_margine_warning w' = true
        /\ log_last_margine_warning_time w' = time_now (srv w))
    /\ (log_has_printed_chkp_margine_warning w = true ->
        time_now (srv w) - log_last_margine_warning_time w <= 15 ->
        w' = w).
Proof.
  intros Hm.
  unfold log_margin_checkpoint_age, difftime.
  apply Z.gt_lt, Z.gtb_lt in Hm. rewrite Hm.
  destruct (log_has_printed_chkp_margine_warning w) eqn:Hprinted;
    cbn [negb orb].
  - destruct (Z.gtb_spec (time_now (srv w) - log_last_margine_warning_time w)
                15) as [Hold | Hrecent].
    + eexists. split; [reflexivity |].
      do 5 (split; [reflexivity |]).
      split; [intros _; repeat split | intros _ Hle; lia].
    + exists w. split; [reflexivity |].
      do 5 (split; [reflexivity |]).
      split; [intros [Hf | Hgt]; [discriminate | lia] | reflexivity].
  - eexists. split; [reflexivity |].
    do 5 (split; [reflexivity |]).
    split; [intros _; repeat split | intros Hf; discriminate].
Qed.

(** C10. While [recv_no_ibuf_operations] is set, [log_write_up_to(lsn,
    flush_to_disk)] returns at once for every [lsn] and either value of
    [flush_to_disk], and the whole state is the one before the call: no
    field of [log_sys] changes, [write_lsn] and [flushed_to_disk_lsn]
    among them, no lock is taken, and no file receives a write or a
    flush. *)
Theorem log_write_up_to_during_recovery
  (lsn_arg : Z) (flush_to_disk : bool) (w : world) :
  recv_no_ibuf_operations (srv w) = true ->
  log_write_up_to lsn_arg flush_to_disk w = Returned w.
Proof.
  intros Hrecv. unfold log_write_up_to. rewrite Hrecv. reflexivity.
Qed.

End GuardFacts.

Lemma log_margin_checkpoint_age_over_capacity_witness :
  5000 > log_capacity
           (log_sys (example_world (example_log false 1 1 1 1)
                       (example_server false 0 100)))
  /\ exists w',
       log_margin_checkpoint_age 5000
         (example_world (example_log false 1 1 1 1)
            (example_server false 0 100)) = Returned w'
       /\ trace w' = [Ev_error_margin 5000 0].
Proof.
  assert (H1 : 5000 > log_capacity
                        (log_sys (example_world (example_log false 1 1 1 1)
                                    (example_server false 0 100))))
    by (cbn; lia).
  split; [exact H1 |].
  destruct (log_margin_checkpoint_age_over_capacity 5000 _ H1)
    as (w' & Hret & _ & _ & _ & _ & _ & Hwarn & _).
  exists w'. split; [exact Hret |].
  destruct (Hwarn (or_introl eq_refl)) as (Htrace & _).
  exact Htrace.
Defined.

Lemma log_write_up_to_during_recovery_witness :
  recv_no_ibuf_operations
    (srv (example_world (example_log false 100 1 1 1)
            (example_server true 0 0))) = true
  /\ log_write_up_to 100 true
       (example_world (example_log false 100 1 1 1) (example_server true 0 0))
     = Returned (example_world (example_log false 100 1 1 1)
                   (example_server true 0 0)).
Proof.
  split; [reflexivity |].
  exact (log_write_up_to_during_recovery 100 true
           (example_world (example_log false 100 1 1 1)
              (example_server true 0 0)) eq_refl).
Defined.


(** ** Writing and flushing up to an lsn *)

Section WriteUpToFacts.
Context {C : Collaborators}.

Lemma data_write_fields (offset : Z) (data : list byte) (s s' : log_t) :
  data_write offset data s = Returned s' -> io_fields s' = io_fields s.
Proof.
  unfold data_write, File.write.
  destruct (File.next_call_fails _); [discriminate |].
  intros E. injection E as <-. reflexivity.
Qed.

Lemma log_write_buf_loop_fields (fuel : nat) :
  forall (buf_addr n start_lsn : Z) (s s' : log_t),
    log_write_buf_loop fuel buf_addr n start_lsn s = Returned s' ->
    io_fields s' = io_fields s.
Proof.
  induction fuel as [| fuel IH]; intros buf_addr n start_lsn s s';
    cbn [log_write_buf_loop].
  - destruct (n =? 0); [| discriminate].
    intros E. injection E as <-. reflexivity.
  - destruct (n =? 0).
    { intros E. injection E as <-. reflexivity. }
    destruct (file_size (log s) =? 0); [discriminate |].
    unfold bind.
    destruct (data_write _ _ _) as [s2 | |] eqn:Ew; try discriminate.
    apply data_write_fields in Ew.
    destruct (_ <? n).
    + intros E. apply IH in E. rewrite E, Ew. reflexivity.
    + intros E. injection E as <-. rewrite Ew. reflexivity.
Qed.

Lemma log_write_buf_fields (buf_addr n start_lsn : Z) (s s' : log_t) :
  log_write_buf buf_addr n start_lsn s = Returned s' ->
  io_fields s' = io_fields s.
Proof.
  unfold log_write_buf.
  destruct (negb _); [discriminate |].
  destruct (negb _); [discriminate |].
  apply log_write_buf_loop_fields.
Qed.

Lemma log_buffer_switch_fields (v : server_t) (s : log_t) :
  io_fields (log_buffer_switch v s) = io_fields s.
Proof.
  unfold log_buffer_switch. destruct (first_in_use s); reflexivity.
Qed.

Lemma io_fields_inv (s s' : log_t) :
  io_fields s' = io_fields s ->
  stable_fields s' = stable_fields s
  /\ write_lsn s' = write_lsn s
  /\ flushed_to_disk_lsn s' = flushed_to_disk_lsn s.
Proof.
  intros H.
  split; [exact (f_equal (fun p => fst (fst p)) H) |].
  split; [exact (f_equal (fun p => snd (fst p)) H) | exact (f_equal snd H)].
Qed.

Lemma stable_fields_inv (s s' : log_t) :
  stable_fields s' = stable_fields s ->
  lsn s' = lsn s
  /\ last_checkpoint_lsn s' = last_checkpoint_lsn s
  /\ next_checkpoint_lsn s' = next_checkpoint_lsn s
  /\ n_pending_checkpoint_writes s' = n_pending_checkpoint_writes s
  /\ File.writes_are_durable (data_fd (log s'))
     = File.writes_are_durable (data_fd (log s)).
Proof.
  unfold stable_fields, File.writes_are_durable.
  intros H. injection H. intros. repeat split; assumption.
Qed.

(** What [log_write] publishes: nothing when the buffer holds nothing
    new, and otherwise [write_lsn = lsn], and [flushed_to_disk_lsn = lsn]
    as well when writes to the data file are durable. *)
Lemma log_write_result (v : server_t) (s s' : log_t) :
  log_write v s = Returned s' ->
  stable_fields s' = stable_fields s
  /\ ((buf_free s = buf_next_to_write s /\ s' = s)
      \/ (write_lsn s' = lsn s
          /\ flushed_to_disk_lsn s'
             = if File.writes_are_durable (data_fd (log s))
               then lsn s else flushed_to_disk_lsn s)).
Proof.
  unfold log_write.
  destruct (Z.eqb_spec (buf_free s) (buf_next_to_write s)) as [Heq | Hne].
  { intros E. injection E as <-. split; [reflexivity | left; split; auto]. }
  destruct (file_size (log (log_buffer_switch v _)) =? 0); [discriminate |].
  unfold bind.
  destruct (log_write_buf _ _ _ _) as [s3 | |] eqn:Ew; try discriminate.
  apply log_write_buf_fields, io_fields_inv in Ew.
  destruct Ew as (Hst & _ & Hfl).
  match type of Hst with
  | _ = stable_fields
          (set_buf_mem _ (set_log _ (log_buffer_switch ?v' ?s0))) =>
      pose proof (log_buffer_switch_fields v' s0) as Hsw;
      change (stable_fields s3 = stable_fields (log_buffer_switch v' s0))
        in Hst;
      change (flushed_to_disk_lsn s3
              = flushed_to_disk_lsn (log_buffer_switch v' s0)) in Hfl
  end.
  apply io_fields_inv in Hsw. destruct Hsw as (Hst' & _ & Hfl').
  rewrite Hst' in Hst. rewrite Hfl' in Hfl.
  change (stable_fields s3 = stable_fields s) in Hst.
  change (flushed_to_disk_lsn s3 = flushed_to_disk_lsn s) in Hfl.
  pose proof (stable_fields_inv _ _ Hst) as (_ & _ & _ & _ & Hd).
  change (File.writes_are_durable
            (data_fd (log (set_write_lsn (lsn s) s3))))
    with (File.writes_are_durable (data_fd (log s3))).
  rewrite Hd.
  destruct (File.writes_are_durable (data_fd (log s)));
    intros E; injection E as <-;
    (split; [exact Hst | right]);
    (split; [reflexivity | assumption || reflexivity]).
Qed.

(** The write phase: the caller finds its lsn covered and changes
    nothing, or it owns the write and publishes [lsn] as written. *)
Lemma log_write_up_to_write_result (lsn_arg : Z) (w w' : world) :
  log_write_up_to_write lsn_arg w = Returned w' ->
  stable_fields (log_sys w') = stable_fields (log_sys w)
  /\ flush_lock w' = flush_lock w
  /\ new_redo w' = new_redo w
  /\ srv w' = srv w
  /\ trace w' = trace w
  /\ ((lsn_arg <= GroupCommit.value (write_lock w) /\ w' = w)
      \/ (GroupCommit.value (write_lock w') = lsn (log_sys w)
          /\ write_lsn (log_sys w') = lsn (log_sys w)
          /\ ((log_sys w' = log_sys w)
              \/ flushed_to_disk_lsn (log_sys w')
                 = if File.writes_are_durable (data_fd (log (log_sys w)))
                   then lsn (log_sys w)
                   else flushed_to_disk_lsn (log_sys w)))).
Proof.
  unfold log_write_up_to_write, GroupCommit.acquire.
  destruct (Z.leb_spec lsn_arg (GroupCommit.value (write_lock w)))
    as [Hcov | Hnot].
  { intros E. injection E as <-. repeat split; try reflexivity.
    left. split; [assumption | reflexivity]. }
  destruct (m_lock (write_lock w)); [discriminate |].
  unfold bind. cbn [log_sys srv set_write_lock write_lock].
  destruct (log_write (srv w) (log_sys w)) as [s | |] eqn:Ew;
    try discriminate.
  cbn [log_sys set_log_sys set_write_lock write_lock].
  destruct (Z.eqb_spec (write_lsn s) (lsn (log_sys w))) as [Hpub | Hne];
    [| discriminate].
  intros E. injection E as <-.
  apply log_write_result in Ew. destruct Ew as (Hst & Hres).
  cbn. repeat split; try assumption; try reflexivity.
  right. repeat split; try assumption.
  destruct Hres as [(_ & ->) | (_ & Hfl)]; [left; reflexivity |].
  right. assumption.
Qed.

(** The flush phase: the highest written lsn is flushed, unless writes
    are durable, and published by the flush lock. *)
Lemma log_write_up_to_flush_result (w w' : world) :
  log_write_up_to_flush w = Returned w' ->
  let flush_lsn := GroupCommit.value (write_lock w) in
  let durable := File.writes_are_durable (data_fd (log (log_sys w))) in
  write_lock w' = write_lock w
  /\ GroupCommit.value (flush_lock w') = flush_lsn
  /\ stable_fields (log_sys w') = stable_fields (log_sys w)
  /\ write_lsn (log_sys w') = write_lsn (log_sys w)
  /\ flushed_to_disk_lsn (log_sys w')
     = (if durable then flushed_to_disk_lsn (log_sys w) else flush_lsn)
  /\ (durable = false -> flushed_to_disk_lsn (log_sys w) <= flush_lsn)
  /\ checkpoint_view (new_redo w') = checkpoint_view (new_redo w)
  /\ srv w' = srv w
  /\ trace w' = trace w ++ [Ev_log_notify flush_lsn].
Proof.
  unfold log_write_up_to_flush.
  cbn [log_sys set_flush_lock].
  destruct (File.writes_are_durable (data_fd (log (log_sys w)))) eqn:Hd;
    cbn [negb bind].
  - intros E. injection E as <-. cbn.
    repeat split; try reflexivity. intros Hf. discriminate.
  - unfold log_write_flush_to_disk_low, data_flush_data_only,
      File.flush_data_only, bind.
    cbn [log data_fd set_pending_flushes].
    destruct (File.next_call_fails (data_fd (log (log_sys w))));
      [discriminate |].
    cbn [flushed_to_disk_lsn set_flushes set_pending_flushes set_log].
    destruct (Z.geb_spec (GroupCommit.value (write_lock w))
                (flushed_to_disk_lsn (log_sys w))) as [Hge | Hlt];
      [| discriminate].
    intros E. injection E as <-.
    unfold Redo.flush_data, File.flush_data_only.
    cbn [new_redo set_log_sys].
    destruct (File.next_call_fails (m_data_file (new_redo w)));
      cbn; repeat split; try reflexivity; try assumption; lia.
Qed.

(** What [log_write_up_to] never touches. *)
Lemma log_write_up_to_frame
  (lsn_arg : Z) (flush_to_disk : bool) (w w' : world) :
  log_write_up_to lsn_arg flush_to_disk w = Returned w' ->
  stable_fields (log_sys w') = stable_fields (log_sys w)
  /\ checkpoint_view (new_redo w') = checkpoint_view (new_redo w)
  /\ srv w' = srv w.
Proof.
  unfold log_write_up_to.
  destruct (recv_no_ibuf_operations (srv w)).
  { intros E. injection E as <-. repeat split. }
  destruct flush_to_disk.
  - unfold GroupCommit.acquire.
    destruct (lsn_arg <=? _).
    { intros E. injection E as <-. repeat split. }
    destruct (m_lock (flush_lock w)); [discriminate |].
    unfold bind.
    destruct (log_write_up_to_write _ _) as [w1 | |] eqn:Ew; try discriminate.
    intros Ef.
    apply log_write_up_to_write_result in Ew.
    destruct Ew as (Hst & _ & Hr & Hs & _).
    apply log_write_up_to_flush_result in Ef.
    destruct Ef as (_ & _ & Hst' & _ & _ & _ & Hr' & Hs' & _).
    rewrite Hst', Hr', Hs', Hst, Hr, Hs. repeat split.
  - intros Ew.
    apply log_write_up_to_write_result in Ew.
    destruct Ew as (Hst & _ & Hr & Hs & _).
    rewrite Hst, Hr, Hs. repeat split.
Qed.

(** Outside recovery, for an lsn that the log has reached and
    group-commit locks that agree with [log_sys], a call
    [log_write_up_to(lsn, flush_to_disk=true)] that returns without
    waiting leaves [flushed_to_disk_lsn >= lsn]. *)
Lemma log_write_up_to_returned_flushes (lsn_arg : Z) (w w' : world) :
  recv_no_ibuf_operations (srv w) = false ->
  lsn_arg <= lsn (log_sys w) ->
  locks_consistent w ->
  log_write_up_to lsn_arg true w = Returned w' ->
  lsn_arg <= flushed_to_disk_lsn (log_sys w').
Proof.
  intros Hrecv Hreached (Hflush & _ & _ & Hdur).
  unfold log_write_up_to. rewrite Hrecv.
  unfold GroupCommit.acquire.
  destruct (Z.leb_spec lsn_arg (GroupCommit.value (flush_lock w)))
    as [Hcov | Hnot].
  { (* covered by an earlier flush *)
    intros E. injection E as <-. lia. }
  destruct (m_lock (flush_lock w)); [discriminate |].
  unfold bind.
  destruct (log_write_up_to_write _ _) as [w1 | |] eqn:Ew; try discriminate.
  intros Ef.
  apply log_write_up_to_write_result in Ew.
  destruct Ew as (Hst & _ & _ & _ & _ & Hw).
  apply log_write_up_to_flush_result in Ef.
  destruct Ef as (_ & _ & _ & _ & Hfl & _).
  pose proof (stable_fields_inv _ _ Hst) as (_ & _ & _ & _ & Hd).
  cbn [log_sys set_flush_lock write_lock] in *.
  rewrite Hfl, Hd.
  destruct (File.writes_are_durable (data_fd (log (log_sys w)))) eqn:Hdw.
  - (* durable writes: nothing to flush *)
    destruct (Hdur eq_refl) as (Hwl & Hwr).
    destruct Hw as [(Hcov & ->) | (Hval & Hpub & Hfl1)].
    + cbn [log_sys set_flush_lock write_lock]. lia.
    + destruct Hfl1 as [Hsame | Hnew].
      * (* the buffer held nothing new: what is written is on disk *)
        rewrite Hsame in *. lia.
      * rewrite Hnew. lia.
  - (* the flush publishes the highest written lsn *)
    destruct Hw as [(Hcov & ->) | (Hval & _)].
    + cbn [write_lock set_flush_lock]. lia.
    + lia.
Qed.

End WriteUpToFacts.

Section WriteUpToInvariant.
Context {C : Collaborators}.

(** [log_write_up_to] keeps the locks and the log system in agreement. *)
Lemma log_write_up_to_consistent
  (lsn_arg : Z) (flush_to_disk : bool) (w w' : world) :
  locks_consistent w ->
  log_write_up_to lsn_arg flush_to_disk w = Returned w' ->
  locks_consistent w'.
Proof.
  intros Hinv.
  assert (Hwrite : forall l w1,
             log_write_up_to_write lsn_arg (set_flush_lock l w) = Returned w1 ->
             GroupCommit.value l = GroupCommit.value (flush_lock w) ->
             locks_consistent w1 /\ flush_lock w1 = l).
  { intros l w1 Ew Hl.
    apply log_write_up_to_write_result in Ew.
    destruct Ew as (Hst & Hfl & _ & _ & _ & Hw).
    pose proof (stable_fields_inv _ _ Hst) as (Hlsn & _ & _ & _ & Hd).
    cbn [log_sys set_flush_lock flush_lock write_lock] in *.
    split; [| assumption].
    destruct Hinv as (H1 & H2 & H3 & H4).
    unfold locks_consistent. rewrite Hfl, Hlsn, Hd.
    destruct Hw as [(_ & ->) | (Hval & Hpub & Hres)].
    - cbn [log_sys set_flush_lock flush_lock write_lock].
      rewrite Hl. repeat split; try assumption; apply H4; assumption.
    - rewrite Hval, Hpub, Hl.
      destruct Hres as [Hsame | Hnew].
      + rewrite Hsame in *.
        repeat split; try lia; destruct (H4 H); lia.
      + rewrite Hnew.
        destruct (File.writes_are_durable (data_fd (log (log_sys w)))).
        * repeat split; lia.
        * repeat split; try lia; discriminate. }
  unfold log_write_up_to.
  destruct (recv_no_ibuf_operations (srv w)).
  { intros E. injection E as <-. assumption. }
  destruct flush_to_disk.
  - unfold GroupCommit.acquire.
    destruct (lsn_arg <=? _).
    { intros E. injection E as <-. assumption. }
    destruct (m_lock (flush_lock w)); [discriminate |].
    unfold bind.
    destruct (log_write_up_to_write _ _) as [w1 | |] eqn:Ew; try discriminate.
    intros Ef.
    destruct (Hwrite _ _ Ew eq_refl) as ((H1 & H2 & H3 & H4) & _).
    apply log_write_up_to_flush_result in Ef.
    destruct Ef as (Hwl & Hval & Hst & Hwr & Hfl & Hge & _).
    pose proof (stable_fields_inv _ _ Hst) as (Hlsn & _ & _ & _ & Hd).
    unfold locks_consistent. rewrite Hwl, Hval, Hlsn, Hd, Hwr, Hfl.
    destruct (File.writes_are_durable (data_fd (log (log_sys w1)))).
    + destruct (H4 eq_refl). repeat split; lia.
    + repeat split; try lia; discriminate.
  - intros Ew.
    assert (Hsame : set_flush_lock (flush_lock w) w = w)
      by (destruct w; reflexivity).
    rewrite <- Hsame in Ew.
    exact (proj1 (Hwrite _ _ Ew eq_refl)).
Qed.

(** A caller that waited for the write lock resumes, once its lsn is
    covered, with the flush phase: it leaves [flushed_to_disk_lsn] at or
    beyond the lsn as well. *)
Lemma log_write_up_to_flush_covers (lsn_arg : Z) (w w' : world) :
  locks_consistent w ->
  lsn_arg <= GroupCommit.value (write_lock w) ->
  log_write_up_to_flush w = Returned w' ->
  lsn_arg <= flushed_to_disk_lsn (log_sys w').
Proof.
  intros (_ & _ & _ & Hdur) Hcov Ef.
  apply log_write_up_to_flush_result in Ef.
  destruct Ef as (_ & _ & _ & _ & Hfl & _).
  rewrite Hfl.
  destruct (File.writes_are_durable (data_fd (log (log_sys w)))).
  - destruct (Hdur eq_refl). lia.
  - assumption.
Qed.

(** A caller that waited for the flush lock resumes once its lsn is
    covered: the lock has published it, so it is on disk. *)
Lemma flush_lock_covers (lsn_arg : Z) (w : world) :
  locks_consistent w ->
  lsn_arg <= GroupCommit.value (flush_lock w) ->
  lsn_arg <= flushed_to_disk_lsn (log_sys w).
Proof. intros (Hflush & _) Hcov. lia. Qed.

End WriteUpToInvariant.

(** *** Which calls wait *)

Section WriteUpToEnds.
Context {C : Collaborators}.

Lemma stable_fields_file_size (s s' : log_t) :
  stable_fields s' = stable_fields s ->
  file_size (log s') = file_size (log s).
Proof. intros H. exact (f_equal snd H). Qed.

Lemma data_write_file_size (offset : Z) (data : list byte) (s s' : log_t) :
  data_write offset data s = Returned s' ->
  file_size (log s') = file_size (log s).
Proof.
  intros E. apply data_write_fields, io_fields_inv in E.
  destruct E as (Hst & _). exact (stable_fields_file_size _ _ Hst).
Qed.

Lemma data_write_not_blocked (offset : Z) (data : list byte) (s : log_t) :
  data_write offset data s <> Blocked.
Proof.
  unfold data_write, File.write.
  destruct (File.next_call_fails _); discriminate.
Qed.

(** The loop of [log_write_buf] ends: with [len + 1] passes allowed it
    never runs out of them. *)
Lemma log_write_buf_loop_ends (fuel : nat) :
  forall (buf_addr n start_lsn : Z) (s : log_t),
    0 <= n < 2 ^ 64 ->
    0 <= file_size (log s) < 2 ^ 64 ->
    (Z.to_nat n < fuel)%nat ->
    log_write_buf_loop fuel buf_addr n start_lsn s <> Blocked.
Proof.
  induction fuel as [| fuel IH]; intros buf_addr n start_lsn s Hn Hsize Hfuel;
    [lia |].
  cbn [log_write_buf_loop].
  destruct (Z.eqb_spec n 0) as [_ | Hnz]; [discriminate |].
  destruct (Z.eqb_spec (file_size (log s)) 0) as [_ | Hsz]; [discriminate |].
  set (size := file_size (log s)) in *.
  set (next_offset := calc_lsn_offset (log s) start_lsn).
  pose proof (Z.mod_pos_bound next_offset size ltac:(lia)) as Hmod.
  unfold bind.
  destruct (data_write _ _ _) as [s2 | |] eqn:Ew;
    [| exfalso; exact (data_write_not_blocked _ _ _ Ew) | discriminate].
  apply data_write_file_size in Ew. cbn [log set_n_log_ios set_buf_mem] in Ew.
  destruct (u64 (next_offset mod size + n) >? size).
  - rewrite (u64_small (size - next_offset mod size)) by lia.
    destruct (Z.ltb_spec (size - next_offset mod size) n) as [Hlt | _];
      [| discriminate].
    apply IH.
    + rewrite u64_small by lia. lia.
    + rewrite Ew. exact Hsize.
    + rewrite u64_small by lia. lia.
  - rewrite Z.ltb_irrefl. discriminate.
Qed.

Lemma log_write_buf_ends (buf_addr n start_lsn : Z) (s : log_t) :
  0 <= n < 2 ^ 64 ->
  0 <= file_size (log s) < 2 ^ 64 ->
  log_write_buf buf_addr n start_lsn s <> Blocked.
Proof.
  intros Hn Hsize. unfold log_write_buf.
  destruct (negb _); [discriminate |].
  destruct (negb _); [discriminate |].
  apply log_write_buf_loop_ends; [assumption | assumption | lia].
Qed.

Lemma u64_range (x : Z) : 0 <= u64 x < 2 ^ 64.
Proof. unfold u64. apply Z.mod_pos_bound. reflexivity. Qed.

(** [log_write] never waits. *)
Lemma log_write_ends (v : server_t) (s : log_t) :
  0 <= file_size (log s) < 2 ^ 64 ->
  log_write v s <> Blocked.
Proof.
  intros Hsize. unfold log_write.
  destruct (buf_free s =? buf_next_to_write s); [discriminate |].
  destruct (file_size (log (log_buffer_switch v _)) =? 0); [discriminate |].
  unfold bind.
  destruct (log_write_buf _ _ _ _) as [s3 | |] eqn:Ew.
  - destruct (File.writes_are_durable _); discriminate.
  - exfalso. revert Ew. apply log_write_buf_ends; [apply u64_range |].
    match goal with
    | |- _ <= file_size
               (log (set_buf_mem _ (set_log _ (log_buffer_switch ?v' ?s0))))
         < _ =>
        pose proof (log_buffer_switch_fields v' s0) as Hsw;
        change (0 <= file_size (log (log_buffer_switch v' s0)) < 2 ^ 64)
    end.
    apply io_fields_inv in Hsw. destruct Hsw as (Hst & _).
    rewrite (stable_fields_file_size _ _ Hst). exact Hsize.
  - discriminate.
Qed.

(** A call of [log_write_up_to] waits only for a lock that another thread
    holds. *)
Lemma log_write_up_to_blocked
  (lsn_arg : Z) (flush_to_disk : bool) (w : world) :
  0 <= file_size (log (log_sys w)) < 2 ^ 64 ->
  log_write_up_to lsn_arg flush_to_disk w = Blocked ->
  m_lock (flush_lock w) = true \/ m_lock (write_lock w) = true.
Proof.
  intros Hsize.
  assert (Hwrite : forall l,
             log_write_up_to_write lsn_arg (set_flush_lock l w) = Blocked ->
             m_lock (write_lock w) = true).
  { intros l. unfold log_write_up_to_write, GroupCommit.acquire.
    cbn [write_lock set_flush_lock].
    destruct (lsn_arg <=? _); [discriminate |].
    destruct (m_lock (write_lock w)); [reflexivity |].
    unfold bind. cbn [log_sys srv set_write_lock set_flush_lock].
    destruct (log_write (srv w) (log_sys w)) as [s | |] eqn:Ew.
    - destruct (_ =? _); discriminate.
    - exfalso. exact (log_write_ends _ _ Hsize Ew).
    - discriminate. }
  unfold log_write_up_to.
  destruct (recv_no_ibuf_operations (srv w)); [discriminate |].
  destruct flush_to_disk.
  - unfold GroupCommit.acquire.
    destruct (lsn_arg <=? _); [discriminate |].
    destruct (m_lock (flush_lock w)); [left; reflexivity |].
    unfold bind.
    destruct (log_write_up_to_write _ _) as [w1 | |] eqn:Ew.
    + intros Ef. exfalso. revert Ef.
      unfold log_write_up_to_flush, log_write_flush_to_disk_low,
        data_flush_data_only, File.flush_data_only, bind.
      destruct (negb _); [| discriminate].
      destruct (File.next_call_fails _); [discriminate |].
      destruct (_ >=? _); discriminate.
    + intros _. right. exact (Hwrite _ Ew).
    + discriminate.
  - intros Ew. right.
    assert (Hsame : set_flush_lock (flush_lock w) w = w)
      by (destruct w; reflexivity).
    rewrite <- Hsame in Ew. exact (Hwrite _ Ew).
Qed.

End WriteUpToEnds.

(** ** Checkpoints *)

Section CheckpointFacts.
Context {C : Collaborators}.

Lemma log_checkpoint_prepare_frame (w : world) :
  log_sys (log_checkpoint_prepare w) = log_sys w
  /\ srv (log_checkpoint_prepare w) = srv w
  /\ new_redo (log_checkpoint_prepare w) = new_redo w
  /\ write_lock (log_checkpoint_prepare w) = write_lock w
  /\ flush_lock (log_checkpoint_prepare w) = flush_lock w.
Proof.
  unfold log_checkpoint_prepare.
  destruct (recv_recovery_is_on (srv w));
    cbn [srv emit set_trace];
    destruct (srv_file_flush_method (srv w)); repeat split.
Qed.

(** The lsn [log_checkpoint] selects: the oldest modification in the
    buffer pool, or [log_sys.lsn] when no page is dirty. *)
Lemma log_checkpoint_selects (w : world) :
  log_buf_pool_get_oldest_modification (log_checkpoint_prepare w)
  = log_buf_pool_get_oldest_modification w.
Proof.
  unfold log_buf_pool_get_oldest_modification.
  destruct (log_checkpoint_prepare_frame w) as (-> & -> & _).
  reflexivity.
Qed.

(** The three ways [log_checkpoint] returns. *)
Lemma log_checkpoint_returns (w : world) (b : bool) (w' : world) :
  log_checkpoint w = Returned (b, w') ->
  let flush_lsn := log_buf_pool_get_oldest_modification w in
  let s := log_sys w in
  (flush_lsn = last_checkpoint_lsn s
   /\ b = true /\ w' = log_checkpoint_prepare w)
  \/ (flush_lsn <> last_checkpoint_lsn s
      /\ n_pending_checkpoint_writes s <> 0
      /\ b = false
      /\ log_write_up_to flush_lsn true (log_checkpoint_prepare w)
         = Returned w')
  \/ (flush_lsn <> last_checkpoint_lsn s
      /\ n_pending_checkpoint_writes s = 0
      /\ b = true
      /\ exists w3,
          log_write_up_to flush_lsn true (log_checkpoint_prepare w)
          = Returned w3
          /\ w' = log_checkpoint_write flush_lsn w3).
Proof.
  unfold log_checkpoint. cbv zeta. rewrite log_checkpoint_selects.
  destruct (log_checkpoint_prepare_frame w) as (Hs & _).
  rewrite Hs.
  set (flush_lsn := log_buf_pool_get_oldest_modification w).
  destruct (Z.eqb_spec flush_lsn (last_checkpoint_lsn (log_sys w)))
    as [Heq | Hne].
  { intros E. injection E as <- <-. left. repeat split. assumption. }
  unfold bind.
  destruct (log_write_up_to flush_lsn true (log_checkpoint_prepare w))
    as [w3 | |] eqn:Ew; try discriminate.
  pose proof (log_write_up_to_frame _ _ _ _ Ew) as (Hst & _).
  apply stable_fields_inv in Hst.
  destruct Hst as (_ & Hlast & _ & Hpend & _).
  rewrite Hs in Hlast, Hpend. rewrite Hlast, Hpend.
  destruct (Z.eqb_spec (last_checkpoint_lsn (log_sys w)) flush_lsn)
    as [Heq | _]; [congruence |].
  cbn [orb].
  destruct (Z.eqb_spec (n_pending_checkpoint_writes (log_sys w)) 0)
    as [Hz | Hnz]; cbn [negb]; intros E; injection E as <- <-.
  - right. right. repeat split; try assumption. exists w3. split; reflexivity.
  - right. left. repeat split; assumption.
Qed.

Lemma log_checkpoint_write_result (flush_lsn : Z) (w : world) :
  let w' := log_checkpoint_write flush_lsn w in
  last_checkpoint_lsn (log_sys w') = flush_lsn
  /\ next_checkpoint_lsn (log_sys w') = flush_lsn
  /\ new_redo w'
     = snd (Redo.append_checkpoint_durable flush_lsn (new_redo w)).
Proof. repeat split. Qed.

(** The record that reaches the main file when no call on it fails. *)
Lemma append_checkpoint_durable_ops (flush_lsn : Z) (r : redo_t) :
  f_faults (m_main_file r) = [] ->
  f_ops (m_main_file (snd (Redo.append_checkpoint_durable flush_lsn r)))
  = f_ops (m_main_file r)
      ++ Op_write (m_main_file_size r)
           (Redo.checkpoint_record flush_lsn (m_data_file_position r)
              (m_sequence_bit r))
         :: (if File.writes_are_durable (m_main_file r)
             then [] else [Op_flush_data]).
Proof.
  intros Hf.
  unfold Redo.append_checkpoint_durable, Redo.append_checkpoint_durable_impl,
    File.write, File.flush_data_only, File.next_call_fails,
    File.writes_are_durable.
  rewrite Hf. cbn.
  destruct (m_durable_writes (m_main_file r)); cbn; rewrite ?Hf; cbn.
  - reflexivity.
  - rewrite <- app_assoc. reflexivity.
Qed.

(** C2, amended. The lsn [log_checkpoint] selects is the oldest
    modification lsn of the buffer pool when a page is dirty and
    [log_sys.lsn] otherwise (not the larger of the two). When the call
    returns and that lsn differs from [last_checkpoint_lsn] and no
    checkpoint write is pending, it has written a checkpoint at that lsn:
    it returns true with [last_checkpoint_lsn] equal to it, and, when no
    call on the main file fails, the main file has received the
    checkpoint record of that lsn. Otherwise no checkpoint is written and
    [last_checkpoint_lsn] is unchanged. *)
Theorem log_checkpoint_lsn (w : world) (b : bool) (w' : world) :
  log_checkpoint w = Returned (b, w') ->
  let s := log_sys w in
  let oldest := buf_pool_get_oldest_modification (srv w) in
  let flush_lsn := if oldest =? 0 then lsn s else oldest in
  let r := new_redo w in
  (flush_lsn <> last_checkpoint_lsn s ->
   n_pending_checkpoint_writes s = 0 ->
   b = true
   /\ last_checkpoint_lsn (log_sys w') = flush_lsn
   /\ (f_faults (m_main_file r) = [] ->
       f_ops (m_main_file (new_redo w'))
       = f_ops (m_main_file r)
           ++ Op_write (m_main_file_size r)
                (Redo.checkpoint_record flush_lsn (m_data_file_position r)
                   (m_sequence_bit r))
              :: (if File.writes_are_durable (m_main_file r)
                  then [] else [Op_flush_data])))
  /\ ((flush_lsn = last_checkpoint_lsn s
       \/ n_pending_checkpoint_writes s <> 0) ->
      last_checkpoint_lsn (log_sys w') = last_checkpoint_lsn s
      /\ checkpoint_view (new_redo w') = checkpoint_view r).
Proof.
  intros E s oldest flush_lsn r.
  apply log_checkpoint_returns in E.
  change (log_buf_pool_get_oldest_modification w) with flush_lsn in E.
  fold s in E.
  destruct (log_checkpoint_prepare_frame w) as (Hps & _ & Hpr & _).
  destruct E as [(Heq & -> & ->) | [(Hne & Hpend & -> & Ew)
                                   | (Hne & Hpend & -> & w3 & Ew & ->)]].
  - split; [intros Hne; contradiction |].
    intros _. rewrite Hps, Hpr. split; reflexivity.
  - split; [intros _ Hz; contradiction |].
    intros _.
    apply log_write_up_to_frame in Ew. destruct Ew as (Hst & Hview & _).
    apply stable_fields_inv in Hst. destruct Hst as (_ & Hlast & _).
    rewrite Hlast, Hview, Hps, Hpr. split; reflexivity.
  - split; [| intros [Heq | Hnz]; contradiction].
    intros _ _.
    apply log_write_up_to_frame in Ew. destruct Ew as (_ & Hview & _).
    rewrite Hpr in Hview. fold r in Hview.
    destruct (log_checkpoint_write_result flush_lsn w3) as (Hlast & _ & Hr).
    split; [reflexivity |]. split; [exact Hlast |].
    intros Hf. rewrite Hr.
    unfold checkpoint_view in Hview.
    injection Hview as Hmf Hms Hpos _ Hseq.
    rewrite append_checkpoint_durable_ops by (rewrite Hmf; exact Hf).
    rewrite Hmf, Hms, Hpos, Hseq. reflexivity.
Qed.

(** C3, amended. A call of [log_checkpoint] that returns gives false
    exactly when the selected lsn differs from [last_checkpoint_lsn] and a
    checkpoint write is pending; when the selected lsn equals
    [last_checkpoint_lsn], so that there is nothing to do, it gives
    true. *)
Theorem log_checkpoint_false_iff (w : world) (b : bool) (w' : world) :
  log_checkpoint w = Returned (b, w') ->
  (b = false <->
   log_buf_pool_get_oldest_modification w <> last_checkpoint_lsn (log_sys w)
   /\ n_pending_checkpoint_writes (log_sys w) <> 0)
  /\ (log_buf_pool_get_oldest_modification w = last_checkpoint_lsn (log_sys w)
      -> b = true).
Proof.
  intros E. apply log_checkpoint_returns in E.
  destruct E as [(Heq & -> & _) | [(Hne & Hpend & -> & _)
                                  | (Hne & Hpend & -> & _)]].
  - split; [split |]; [discriminate | intros (Hne & _); contradiction
                       | reflexivity].
  - split; [split |]; [intros _; split; assumption | reflexivity
                       | intros Heq; contradiction].
  - split; [split |]; [discriminate | intros (_ & Hnz); contradiction
                       | reflexivity].
Qed.

End CheckpointFacts.

(** *** Checkpoints on concrete inputs *)

(** The oldest dirty page is at lsn 5 and the log is at lsn 10, flushed;
    the last checkpoint was at lsn 1. *)
Lemma log_checkpoint_lsn_witness :
  match log_checkpoint
          (example_world (example_log false 10 10 10 1)
             (example_server false 5 0)) with
  | Returned (b, w') => b = true /\ last_checkpoint_lsn (log_sys w') = 5
  | Blocked => False
  | Aborted => False
  end.
Proof.
  destruct (log_checkpoint
              (example_world (example_log false 10 10 10 1)
                 (example_server false 5 0))) as [[b w'] | |] eqn:E.
  - destruct (log_checkpoint_lsn
                (example_world (example_log false 10 10 10 1)
                   (example_server false 5 0)) b w' E) as [H _].
    assert (H1 : (if buf_pool_get_oldest_modification
                       (srv (example_world (example_log false 10 10 10 1)
                               (example_server false 5 0))) =? 0
                  then lsn (log_sys (example_world
                                       (example_log false 10 10 10 1)
                                       (example_server false 5 0)))
                  else buf_pool_get_oldest_modification
                         (srv (example_world (example_log false 10 10 10 1)
                                 (example_server false 5 0))))
                 <> last_checkpoint_lsn
                      (log_sys (example_world (example_log false 10 10 10 1)
                                  (example_server false 5 0))))
      by (vm_compute; discriminate).
    destruct (H H1 eq_refl) as (Hb & Hl & _).
    split; [exact Hb | exact Hl].
  - vm_compute in E. discriminate.
  - vm_compute in E. discriminate.
Defined.

(** C2 as stated fails. With the oldest dirty page at lsn 5 and the log
    at lsn 10, the checkpoint is written and published at lsn 5, not at
    the larger of the two. *)
Lemma log_checkpoint_lsn_counterexample :
  match log_checkpoint
          (example_world (example_log false 10 10 10 1)
             (example_server false 5 0)) with
  | Returned (b, w') =>
      b = true
      /\ last_checkpoint_lsn (log_sys w') = 5
      /\ f_ops (m_main_file (new_redo w'))
         = [Op_write 0 (Redo.checkpoint_record 5 0 1); Op_flush_data]
      /\ last_checkpoint_lsn (log_sys w') <> Z.max 5 10
  | Blocked => False
  | Aborted => False
  end.
Proof.
  vm_compute. repeat split. discriminate.
Qed.

(** A checkpoint write is pending and the log has moved on since the
    last checkpoint: the call gives false. *)
Lemma log_checkpoint_false_iff_witness :
  match log_checkpoint
          (example_world
             (set_n_pending_checkpoint_writes 1
                (example_log false 10 10 10 1))
             (example_server false 0 0)) with
  | Returned (b, _) => b = false
  | Blocked => False
  | Aborted => False
  end.
Proof.
  destruct (log_checkpoint
              (example_world
                 (set_n_pending_checkpoint_writes 1
                    (example_log false 10 10 10 1))
                 (example_server false 0 0))) as [[b w'] | |] eqn:E.
  - destruct (log_checkpoint_false_iff
                (example_world
                   (set_n_pending_checkpoint_writes 1
                      (example_log false 10 10 10 1))
                   (example_server false 0 0)) b w' E) as [[_ H] _].
    apply H. split; vm_compute; discriminate.
  - vm_compute in E. discriminate.
  - vm_compute in E. discriminate.
Defined.

(** C3 as stated fails. Nothing was logged since the last checkpoint, so
    the call makes no progress, and it gives true. *)
Lemma log_checkpoint_false_iff_counterexample :
  log_buf_pool_get_oldest_modification
    (example_world (example_log false 1 1 1 1) (example_server false 0 0))
  = last_checkpoint_lsn
      (log_sys (example_world (example_log false 1 1 1 1)
                  (example_server false 0 0)))
  /\ match log_checkpoint
             (example_world (example_log false 1 1 1 1)
                (example_server false 0 0)) with
     | Returned (b, w') =>
         b = true
         /\ last_checkpoint_lsn (log_sys w') = 1
         /\ f_ops (m_main_file (new_redo w')) = []
     | Blocked => False
     | Aborted => False
     end.
Proof.
  split; [reflexivity |].
  vm_compute. repeat split.
Qed.

(** ** Memory and block headers *)

Section MemoryFacts.

Lemma mem_read_length (m : memory) (a : Z) (n : nat) :
  length (mem_read m a n) = n.
Proof. unfold mem_read. rewrite length_map, length_seq. reflexivity. Qed.

Lemma mem_read_ext (m1 m2 : memory) (a : Z) (n : nat) :
  (forall i, a <= i < a + Z.of_nat n -> m1 i = m2 i) ->
  mem_read m1 a n = mem_read m2 a n.
Proof.
  intros H. unfold mem_read. apply map_ext_in.
  intros i Hi. apply in_seq in Hi. apply H. lia.
Qed.

Lemma mem_read_S (m : memory) (a : Z) (n : nat) :
  mem_read m a (S n) = m a :: mem_read m (a + 1) n.
Proof.
  unfold mem_read. cbn [seq map]. rewrite Z.add_0_r. f_equal.
  rewrite <- seq_shift, map_map.
  apply map_ext. intros i. f_equal. lia.
Qed.

Lemma memcpy_outside (m : memory) (dst : Z) (src : list byte) (a : Z) :
  a < dst \/ dst + zlen src <= a -> memcpy m dst src a = m a.
Proof.
  intros H. unfold memcpy, in_range.
  destruct (Z.leb_spec dst a); destruct (Z.ltb_spec a (dst + zlen src));
    cbn; try reflexivity; lia.
Qed.

Lemma memcpy_inside (m : memory) (dst : Z) (src : list byte) (a : Z) :
  dst <= a < dst + zlen src ->
  memcpy m dst src a = nth (Z.to_nat (a - dst)) src 0.
Proof.
  intros H. unfold memcpy, in_range.
  destruct (Z.leb_spec dst a); destruct (Z.ltb_spec a (dst + zlen src));
    cbn; try reflexivity; lia.
Qed.

Lemma mem_read_memcpy_other
  (m : memory) (dst : Z) (src : list byte) (a : Z) (n : nat) :
  a + Z.of_nat n <= dst \/ dst + zlen src <= a ->
  mem_read (memcpy m dst src) a n = mem_read m a n.
Proof.
  intros H. apply mem_read_ext. intros i Hi.
  apply memcpy_outside. lia.
Qed.

Lemma mem_read_memcpy_same (src : list byte) :
  forall (m : memory) (dst : Z),
    mem_read (memcpy m dst src) dst (length src) = src.
Proof.
  induction src as [| b src IH]; intros m dst.
  - reflexivity.
  - cbn [length]. rewrite mem_read_S. f_equal.
    + rewrite memcpy_inside by (unfold zlen; cbn [length]; lia).
      rewrite Z.sub_diag. reflexivity.
    + transitivity (mem_read (memcpy m (dst + 1) src) (dst + 1) (length src));
        [| apply IH].
      apply mem_read_ext. intros i Hi.
      rewrite !memcpy_inside by (unfold zlen; cbn [length]; lia).
      replace (Z.to_nat (i - dst)) with (S (Z.to_nat (i - (dst + 1))))
        by lia.
      reflexivity.
Qed.

Lemma mach_write_to_length (n : nat) (v : Z) :
  length (mach_write_to n v) = n.
Proof. induction n as [| n IH]; cbn; [| rewrite IH]; reflexivity. Qed.

Lemma mach_read_acc_write (n : nat) :
  forall v acc,
    mach_read_acc (mach_write_to n v) acc
    = acc * 256 ^ Z.of_nat n + v mod 256 ^ Z.of_nat n.
Proof.
  induction n as [| n IH]; intros v acc.
  - cbn. rewrite Z.mod_1_r. lia.
  - cbn [mach_write_to mach_read_acc]. rewrite IH.
    rewrite Nat2Z.inj_succ, Z.pow_succ_r by lia.
    assert (Hp : 0 < 256 ^ Z.of_nat n) by (apply Z.pow_pos_nonneg; lia).
    rewrite (Z.mul_comm 256 (256 ^ Z.of_nat n)).
    rewrite (Z.rem_mul_r v (256 ^ Z.of_nat n) 256) by lia.
    ring.
Qed.

Lemma mach_read_write (n : nat) (v : Z) :
  mach_read_from (mach_write_to n v) = v mod 256 ^ Z.of_nat n.
Proof. unfold mach_read_from. rewrite mach_read_acc_write. lia. Qed.

(** A field read back where it was written. *)
Lemma mem_read_write_same (n : nat) (m : memory) (a v : Z) :
  mem_read_from n (mem_write_to n m a v) a = v mod 256 ^ Z.of_nat n.
Proof.
  unfold mem_read_from, mem_write_to.
  rewrite <- (mach_write_to_length n v) at 2.
  rewrite mem_read_memcpy_same. apply mach_read_write.
Qed.

(** A field is not changed by a write to other bytes. *)
Lemma mem_read_write_other (n n' : nat) (m : memory) (a a' v : Z) :
  a + Z.of_nat n <= a' \/ a' + Z.of_nat n' <= a ->
  mem_read_from n (mem_write_to n' m a' v) a = mem_read_from n m a.
Proof.
  intros H. unfold mem_read_from, mem_write_to.
  rewrite mem_read_memcpy_other; [reflexivity |].
  unfold zlen. rewrite mach_write_to_length. exact H.
Qed.

Lemma mem_read_from_memcpy_other
  (n : nat) (m : memory) (dst : Z) (src : list byte) (a : Z) :
  a + Z.of_nat n <= dst \/ dst + zlen src <= a ->
  mem_read_from n (memcpy m dst src) a = mem_read_from n m a.
Proof.
  intros H. unfold mem_read_from.
  rewrite mem_read_memcpy_other by exact H. reflexivity.
Qed.

Lemma mem_read_write_to_other (n' : nat) (m : memory) (a' v a : Z) (n : nat) :
  a + Z.of_nat n <= a' \/ a' + Z.of_nat n' <= a ->
  mem_read (mem_write_to n' m a' v) a n = mem_read m a n.
Proof.
  intros H. unfold mem_write_to. apply mem_read_memcpy_other.
  unfold zlen. rewrite mach_write_to_length. exact H.
Qed.

Lemma ut_2pow_round_512 (x : Z) :
  ut_2pow_round x OS_FILE_LOG_BLOCK_SIZE = x - x mod OS_FILE_LOG_BLOCK_SIZE.
Proof.
  unfold ut_2pow_round, OS_FILE_LOG_BLOCK_SIZE.
  rewrite <- Z.ldiff_land.
  change (512 - 1) with (Z.ones 9).
  rewrite Z.ldiff_ones_r by lia.
  rewrite Z.shiftr_div_pow2, Z.shiftl_mul_pow2 by lia.
  change (2 ^ 9) with 512.
  pose proof (Z.div_mod x 512). lia.
Qed.

Lemma u64_mod_512 (x : Z) :
  u64 x mod OS_FILE_LOG_BLOCK_SIZE = x mod OS_FILE_LOG_BLOCK_SIZE.
Proof.
  unfold u64, OS_FILE_LOG_BLOCK_SIZE.
  apply Z.mod_mod_divide.
  exists (2 ^ 55). reflexivity.
Qed.

Lemma u64_add_l (a b : Z) : u64 (u64 a + b) = u64 (a + b).
Proof. unfold u64. apply Zplus_mod_idemp_l. Qed.

End MemoryFacts.

(** ** Appending to the log buffer *)

Section LogWriteLowFacts.

Lemma block_geometry (s : log_t) :
  (trailer_offset s = 508 /\ framing_size s = 16)
  \/ (trailer_offset s = 504 /\ framing_size s = 20).
Proof.
  unfold trailer_offset, framing_size.
  destruct (format (log s) =? FORMAT_ENC_10_4); [right | left];
    split; reflexivity.
Qed.

Lemma block_in_use_round (s : log_t) :
  buffer_wf s ->
  ut_2pow_round (buf s + buf_free s) OS_FILE_LOG_BLOCK_SIZE = block_in_use s.
Proof.
  intros (Hbuf & _).
  rewrite ut_2pow_round_512. unfold block_in_use, free_offset_in_block.
  rewrite Z.add_mod, Hbuf, Z.add_0_l, Z.mod_mod
    by (unfold OS_FILE_LOG_BLOCK_SIZE; lia).
  reflexivity.
Qed.

(** The pass of [part_loop] that leaves the block partial. *)
Lemma log_write_low_part_partial (str : list byte) (s : log_t) :
  buffer_wf s ->
  free_offset_in_block s + zlen str < trailer_offset s ->
  log_write_low_part str s
  = ([],
     set_buf_free (u64 (buf_free s + zlen str))
       (set_lsn (u64 (lsn s + zlen str))
          (set_buf_mem
             (LogBlock.log_block_set_data_len
                (memcpy (buf_mem s) (buf s + buf_free s) str)
                (block_in_use s) (free_offset_in_block s + zlen str))
             s))).
Proof.
  intros Hwf Hfit.
  pose proof (block_in_use_round s Hwf) as Hblk.
  destruct Hwf as (Hbuf & Hoff).
  pose proof (zlen_nonneg str) as Hlen.
  unfold log_write_low_part. rewrite Hblk.
  fold (free_offset_in_block s) in *.
  assert (HT : trailer_offset s <= 508)
    by (destruct (block_geometry s) as [(-> & _) | (-> & _)]; lia).
  unfold LOG_BLOCK_HDR_SIZE in Hoff.
  rewrite (u64_small (free_offset_in_block s + zlen str)) by lia.
  destruct (Z.leb_spec (free_offset_in_block s + zlen str)
              (trailer_offset s)) as [_ | Hgt]; [| lia].
  destruct (Z.eqb_spec (free_offset_in_block s + zlen str)
              (trailer_offset s)) as [He | _]; [lia |].
  unfold zlen. rewrite Nat2Z.id, firstn_all, skipn_all. reflexivity.
Qed.

(** The pass of [part_loop] that fills the block. *)
Lemma log_write_low_part_full (str : list byte) (s : log_t) :
  buffer_wf s ->
  zlen str < 2 ^ 63 ->
  free_offset_in_block s + zlen str >= trailer_offset s ->
  let n := trailer_offset s - free_offset_in_block s in
  let lsn' := u64 (lsn s + (n + framing_size s)) in
  log_write_low_part str s
  = (skipn (Z.to_nat n) str,
     set_buf_free (u64 (buf_free s + (n + framing_size s)))
       (set_lsn lsn'
          (set_buf_mem
             (LogBlock.log_block_init
                (LogBlock.log_block_set_checkpoint_no
                   (LogBlock.log_block_set_data_len
                      (LogBlock.log_block_set_data_len
                         (memcpy (buf_mem s) (buf s + buf_free s)
                            (firstn (Z.to_nat n) str))
                         (block_in_use s) (trailer_offset s))
                      (block_in_use s) OS_FILE_LOG_BLOCK_SIZE)
                   (block_in_use s) (next_checkpoint_no s))
                (block_in_use s + OS_FILE_LOG_BLOCK_SIZE) lsn')
             s))).
Proof.
  intros Hwf Hsmall Hfull n lsn'.
  pose proof (block_in_use_round s Hwf) as Hblk.
  destruct Hwf as (Hbuf & Hoff).
  pose proof (zlen_nonneg str) as Hlen.
  unfold log_write_low_part. rewrite Hblk.
  fold (free_offset_in_block s) in *.
  assert (HT : trailer_offset s <= 508 /\ 0 <= framing_size s <= 20)
    by (destruct (block_geometry s) as [(-> & ->) | (-> & ->)]; lia).
  unfold LOG_BLOCK_HDR_SIZE in Hoff.
  assert (Hn : u64 (trailer_offset s - free_offset_in_block s) = n)
    by (apply u64_small; subst n; lia).
  assert (Hnf : u64 (n + framing_size s) = n + framing_size s)
    by (apply u64_small; subst n; lia).
  destruct (Z.leb_spec (u64 (free_offset_in_block s + zlen str))
              (trailer_offset s)) as [Hle | Hgt].
  - (* the string ends exactly at the trailer *)
    rewrite u64_small in Hle |- * by lia.
    assert (He : free_offset_in_block s + zlen str = trailer_offset s)
      by lia.
    rewrite He, Z.eqb_refl.
    replace (zlen str) with n by (subst n; lia).
    rewrite Hnf. reflexivity.
  - rewrite Z.eqb_refl, Hn, Hnf. reflexivity.
Qed.

Lemma free_offset_after (s : log_t) (d : Z) :
  free_offset_in_block (set_buf_free (u64 (buf_free s + d)) s)
  = (free_offset_in_block s + d) mod OS_FILE_LOG_BLOCK_SIZE.
Proof.
  unfold free_offset_in_block. cbn [buf_free set_buf_free].
  rewrite u64_mod_512.
  symmetry. apply Z.add_mod_idemp_l. unfold OS_FILE_LOG_BLOCK_SIZE. lia.
Qed.

(** The whole loop: it ends, and the lsn and the free offset advance by
    the bytes of the string and the framing of each block completed. *)
Lemma log_write_low_loop_result (fuel : nat) :
  forall (str : list byte) (s : log_t),
    (length str < fuel)%nat ->
    buffer_wf s ->
    zlen str < 2 ^ 63 ->
    let k :=
      (free_offset_in_block s - LOG_BLOCK_HDR_SIZE + zlen str)
      / block_payload s in
    exists s',
      log_write_low_loop fuel str s = Some s'
      /\ lsn s' = u64 (lsn s + zlen str + framing_size s * k)
      /\ buf_free s' = u64 (buf_free s + zlen str + framing_size s * k)
      /\ buffer_wf s'.
Proof.
  induction fuel as [| fuel IH]; intros str s Hfuel Hwf Hsmall k; [lia |].
  pose proof (zlen_nonneg str) as Hlen.
  assert (Hgeo : (trailer_offset s = 508 /\ framing_size s = 16)
                 \/ (trailer_offset s = 504 /\ framing_size s = 20))
    by apply block_geometry.
  pose proof Hwf as (Hbuf & Hoff).
  fold (free_offset_in_block s) in Hoff.
  unfold LOG_BLOCK_HDR_SIZE in *.
  assert (HP : 0 < block_payload s
               /\ block_payload s = trailer_offset s - 12).
  { unfold block_payload, LOG_BLOCK_HDR_SIZE.
    destruct Hgeo as [(-> & _) | (-> & _)]; lia. }
  destruct HP as (HP & HPeq).
  cbn [log_write_low_loop].
  destruct (Z.lt_ge_cases (free_offset_in_block s + zlen str)
              (trailer_offset s)) as [Hpart | Hfull].
  - (* the string fits and the block stays partial *)
    rewrite (log_write_low_part_partial str s Hwf Hpart).
    cbn [zlen length Z.of_nat Z.ltb Z.compare].
    assert (Hk : k = 0) by (subst k; apply Z.div_small; lia).
    rewrite Hk, Z.mul_0_r, !Z.add_0_r.
    eexists. split; [reflexivity |].
    split; [reflexivity |]. split; [reflexivity |].
    split; [exact Hbuf |].
    fold (free_offset_in_block
            (set_buf_free (u64 (buf_free s + zlen str))
               (set_lsn (u64 (lsn s + zlen str))
                  (set_buf_mem
                     (LogBlock.log_block_set_data_len
                        (memcpy (buf_mem s) (buf s + buf_free s) str)
                        (block_in_use s)
                        (free_offset_in_block s + zlen str)) s)))).
    change (free_offset_in_block
              (set_buf_free ?v (set_lsn _ (set_buf_mem _ s))))
      with (free_offset_in_block (set_buf_free v s)).
    rewrite free_offset_after.
    change (trailer_offset (set_buf_free _ _)) with (trailer_offset s).
    rewrite Z.mod_small by (unfold OS_FILE_LOG_BLOCK_SIZE;
                            destruct Hgeo as [(HT & _) | (HT & _)]; lia).
    unfold LOG_BLOCK_HDR_SIZE. lia.
  - (* the block becomes full *)
    assert (Hfull' : free_offset_in_block s + zlen str >= trailer_offset s)
      by lia.
    pose proof (log_write_low_part_full str s Hwf Hsmall Hfull') as Hpart.
    cbv zeta in Hpart. rewrite Hpart. clear Hpart.
    set (n := trailer_offset s - free_offset_in_block s) in *.
    assert (Hn : 1 <= n <= zlen str) by (subst n; lia).
    assert (Hrest : zlen (skipn (Z.to_nat n) str) = zlen str - n).
    { unfold zlen in *. rewrite length_skipn. lia. }
    match goal with
    | |- context [set_buf_free ?bf (set_lsn ?l (set_buf_mem ?m s))] =>
        set (s1 := set_buf_free bf (set_lsn l (set_buf_mem m s)))
    end.
    assert (Hwf1 : buffer_wf s1 /\ free_offset_in_block s1 = 12).
    { assert (Hoff1 : free_offset_in_block s1 = 12).
      { change (free_offset_in_block s1)
          with (free_offset_in_block
                  (set_buf_free (u64 (buf_free s + (n + framing_size s))) s)).
        rewrite free_offset_after. subst n.
        unfold OS_FILE_LOG_BLOCK_SIZE.
        destruct Hgeo as [(-> & ->) | (-> & ->)];
          match goal with
          | |- ?x mod 512 = 12 => replace x with 524 by lia
          end; reflexivity. }
      split; [| exact Hoff1].
      split; [exact Hbuf |].
      fold (free_offset_in_block s1). rewrite Hoff1.
      change (trailer_offset s1) with (trailer_offset s).
      unfold LOG_BLOCK_HDR_SIZE.
      destruct Hgeo as [(-> & _) | (-> & _)]; lia. }
    destruct Hwf1 as (Hwf1 & Hoff1).
    assert (Hk : k = 1 + (zlen str - n) / block_payload s).
    { subst k.
      replace (free_offset_in_block s - 12 + zlen str)
        with (1 * block_payload s + (zlen str - n)) by (subst n; lia).
      apply Z.div_add_l. lia. }
    destruct (Z.ltb_spec 0 (zlen (skipn (Z.to_nat n) str))) as [Hmore | Hdone].
    + (* the rest goes to the next block *)
      assert (Hfuel1 : (length (skipn (Z.to_nat n) str) < fuel)%nat).
      { rewrite length_skipn. unfold zlen in *. lia. }
      assert (Hsmall1 : zlen (skipn (Z.to_nat n) str) < 2 ^ 63) by lia.
      destruct (IH _ s1 Hfuel1 Hwf1 Hsmall1)
        as (s' & Hrun & Hlsn & Hfree & Hwf').
      exists s'. split; [exact Hrun |].
      rewrite Hlsn, Hfree, Hoff1, Hrest, Hk.
      change (framing_size s1) with (framing_size s).
      change (block_payload s1) with (block_payload s).
      change (lsn s1) with (u64 (lsn s + (n + framing_size s))).
      change (buf_free s1) with (u64 (buf_free s + (n + framing_size s))).
      unfold LOG_BLOCK_HDR_SIZE.
      rewrite <- !Z.add_assoc, !u64_add_l.
      replace (12 - 12 + (zlen str - n)) with (zlen str - n) by lia.
      split; [f_equal; ring |]. split; [f_equal; ring | exact Hwf'].
    + (* the string ended exactly at the trailer *)
      assert (Hz : zlen str - n = 0) by lia.
      exists s1. split; [reflexivity |].
      rewrite Hk, Hz, Z.div_0_l, Z.add_0_r, Z.mul_1_r by lia.
      replace (zlen str) with n by lia.
      rewrite <- !Z.add_assoc.
      split; [reflexivity |]. split; [reflexivity | exact Hwf1].
Qed.

End LogWriteLowFacts.

(** ** The buffer after the whole of [log_write_low] *)

Ltac hdr_fields :=
  unfold LogBlock.log_block_get_data_len, LogBlock.log_block_get_checkpoint_no,
    LogBlock.log_block_get_first_rec_group, LogBlock.log_block_init,
    LogBlock.log_block_set_hdr_no, LogBlock.log_block_set_data_len,
    LogBlock.log_block_set_first_rec_group,
    LogBlock.log_block_set_checkpoint_no,
    LOG_BLOCK_HDR_NO, LOG_BLOCK_HDR_DATA_LEN, LOG_BLOCK_FIRST_REC_GROUP,
    LOG_BLOCK_CHECKPOINT_NO, LOG_BLOCK_HDR_SIZE, OS_FILE_LOG_BLOCK_SIZE in *.

Ltac away := cbn [Z.of_nat Pos.of_succ_nat Pos.succ]; lia.

Ltac other_fields :=
  repeat first
    [ rewrite mem_read_write_other by away
    | rewrite mem_read_from_memcpy_other by away ].

Lemma mem_write_to_outside (n : nat) (m : memory) (a v a' : Z) :
  a' < a \/ a + Z.of_nat n <= a' ->
  mem_write_to n m a v a' = m a'.
Proof.
  intros H. unfold mem_write_to. apply memcpy_outside.
  unfold zlen. rewrite mach_write_to_length. exact H.
Qed.

Ltac other_writes :=
  repeat first
    [ rewrite mem_write_to_outside by away
    | rewrite memcpy_outside by away ].

Lemma mem_read_from_ext (n : nat) (m1 m2 : memory) (a : Z) :
  (forall i, a <= i < a + Z.of_nat n -> m1 i = m2 i) ->
  mem_read_from n m1 a = mem_read_from n m2 a.
Proof.
  intros H. unfold mem_read_from. f_equal. apply mem_read_ext. exact H.
Qed.

Lemma appended_byte_address_block (s : log_t) (i : Z) :
  buffer_wf s ->
  0 <= i ->
  free_offset_in_block s + i < trailer_offset s ->
  appended_byte_address s i = buf s + buf_free s + i.
Proof.
  intros (_ & Hoff) Hi Hfit. unfold appended_byte_address.
  fold (free_offset_in_block s) in Hoff.
  rewrite Z.div_small; [lia |].
  unfold block_payload. lia.
Qed.

(** The pass that fills the block in use: what it leaves in the buffer. *)
Lemma log_write_low_part_full_buffer (str : list byte) (s : log_t) :
  buffer_wf s ->
  0 <= buf_free s ->
  buf_free s + 32 * zlen str + 512 < 2 ^ 63 ->
  free_offset_in_block s + zlen str >= trailer_offset s ->
  let blk := block_in_use s in
  let off := free_offset_in_block s in
  let n := trailer_offset s - off in
  let s1 := snd (log_write_low_part str s) in
  fst (log_write_low_part str s) = skipn (Z.to_nat n) str
  /\ zlen (skipn (Z.to_nat n) str) = zlen str - n
  /\ 1 <= n <= zlen str
  /\ n + framing_size s = 524 - off
  /\ (buf s1 = buf s
      /\ buf_free s1 = buf_free s + (n + framing_size s)
      /\ lsn s1 = u64 (lsn s + (n + framing_size s))
      /\ next_checkpoint_no s1 = next_checkpoint_no s
      /\ trailer_offset s1 = trailer_offset s
      /\ framing_size s1 = framing_size s
      /\ block_payload s1 = block_payload s)
  /\ (buffer_wf s1
      /\ free_offset_in_block s1 = 12
      /\ block_in_use s1 = blk + 512)
  /\ (forall i, 0 <= i < n ->
      buf_mem s1 (blk + off + i) = nth (Z.to_nat i) str 0)
  /\ (LogBlock.log_block_get_data_len (buf_mem s1) blk = 512
      /\ LogBlock.log_block_get_checkpoint_no (buf_mem s1) blk
         = u32 (next_checkpoint_no s)
      /\ mem_read_from 4 (buf_mem s1) (blk + 512 + LOG_BLOCK_HDR_NO)
         = LogBlock.log_block_convert_lsn_to_no (lsn s1)
      /\ LogBlock.log_block_get_data_len (buf_mem s1) (blk + 512) = 12
      /\ LogBlock.log_block_get_first_rec_group (buf_mem s1) (blk + 512) = 0)
  /\ (forall a, a < blk + off -> ~ blk + 4 <= a < blk + 6 ->
      ~ blk + 8 <= a < blk + 12 ->
      buf_mem s1 a = buf_mem s a)
  /\ (forall a, blk + 520 <= a -> buf_mem s1 a = buf_mem s a)
  /\ (forall a, blk + trailer_offset s <= a < blk + 512 ->
      buf_mem s1 a = buf_mem s a).
Proof.
  intros Hwf Hbf0 Hbound Hfull blk off n s1.
  pose proof (zlen_nonneg str) as Hlen.
  pose proof (block_geometry s) as Hgeo.
  pose proof Hwf as (Hbuf & Hoff).
  fold (free_offset_in_block s) in Hoff. fold off in Hoff.
  unfold LOG_BLOCK_HDR_SIZE in Hoff.
  assert (Haddr : buf s + buf_free s = blk + off)
    by (subst blk off; unfold block_in_use; lia).
  assert (HT : trailer_offset s <= 508)
    by (destruct Hgeo as [(-> & _) | (-> & _)]; lia).
  pose proof (log_write_low_part_full str s Hwf ltac:(lia) Hfull) as Hp.
  cbv zeta in Hp. fold off in Hp. fold n in Hp. fold blk in Hp.
  subst s1. rewrite Hp. clear Hp. cbn [fst snd].
  assert (Hn : 1 <= n <= zlen str) by (subst n; lia).
  assert (Hrest : zlen (skipn (Z.to_nat n) str) = zlen str - n).
  { unfold zlen in *. rewrite length_skipn. lia. }
  assert (Hzf : zlen (firstn (Z.to_nat n) str) = n).
  { unfold zlen in *. rewrite firstn_length_le; lia. }
  assert (HnF : n + framing_size s = 524 - off /\ 16 <= framing_size s <= 20).
  { subst n. destruct Hgeo as [(-> & ->) | (-> & ->)]; lia. }
  destruct HnF as (HnF & HF).
  match goal with
  | |- context [set_buf_free ?bf (set_lsn ?l (set_buf_mem ?m s))] =>
      set (m1 := m);
      set (s1 := set_buf_free bf (set_lsn l (set_buf_mem m1 s)))
  end.
  assert (Hbf1 : buf_free s1 = buf_free s + (n + framing_size s)).
  { change (buf_free s1) with (u64 (buf_free s + (n + framing_size s))).
    apply u64_small. lia. }
  assert (Hoff1 : free_offset_in_block s1 = 12).
  { change (free_offset_in_block s1)
      with (free_offset_in_block
              (set_buf_free (u64 (buf_free s + (n + framing_size s))) s)).
    rewrite free_offset_after. fold off. rewrite HnF.
    replace (off + (524 - off)) with 524 by lia. reflexivity. }
  assert (Hblk1 : block_in_use s1 = blk + 512).
  { unfold block_in_use. rewrite Hoff1, Hbf1.
    change (buf s1) with (buf s). lia. }
  split; [reflexivity |]. split; [exact Hrest |]. split; [exact Hn |].
  split; [exact HnF |].
  split.
  { split; [reflexivity |]. split; [exact Hbf1 |].
    repeat (split; [reflexivity |]). reflexivity. }
  split.
  { split; [| split; [exact Hoff1 | exact Hblk1]].
    split; [exact Hbuf |].
    fold (free_offset_in_block s1). rewrite Hoff1.
    change (trailer_offset s1) with (trailer_offset s).
    unfold LOG_BLOCK_HDR_SIZE.
    destruct Hgeo as [(-> & _) | (-> & _)]; lia. }
  change (buf_mem s1) with m1. subst m1. rewrite Haddr.
  split.
  { intros i Hi. hdr_fields. other_writes.
    rewrite memcpy_inside by (rewrite Hzf; lia).
    replace (blk + off + i - (blk + off)) with i by lia.
    rewrite nth_firstn.
    destruct (Nat.ltb_spec (Z.to_nat i) (Z.to_nat n)); [reflexivity | lia]. }
  split.
  { hdr_fields.
    split; [other_fields; rewrite mem_read_write_same; reflexivity |].
    split; [other_fields; rewrite mem_read_write_same; reflexivity |].
    split.
    { other_fields. rewrite mem_read_write_same.
      apply Z.mod_small.
      unfold LogBlock.log_block_convert_lsn_to_no, OS_FILE_LOG_BLOCK_SIZE.
      match goal with
      | |- context [(?x / 512) mod 2 ^ 31] =>
          pose proof (Z.mod_pos_bound (x / 512) (2 ^ 31) ltac:(lia)) as Hno;
          set (no := (x / 512) mod 2 ^ 31) in *
      end.
      change (256 ^ Z.of_nat 4) with 4294967296.
      change (2 ^ 31) with 2147483648 in Hno. lia. }
    split; [other_fields; rewrite mem_read_write_same; reflexivity |].
    rewrite mem_read_write_same. reflexivity. }
  split; [| split].
  - intros a Ha H1 H2. hdr_fields. other_writes.
    first [reflexivity | apply memcpy_outside; lia].
  - intros a Ha. hdr_fields. other_writes.
    first [reflexivity | apply memcpy_outside; rewrite Hzf; lia].
  - intros a Ha. hdr_fields. other_writes.
    first [reflexivity | apply memcpy_outside; rewrite Hzf; lia].
Qed.

(** The pass that leaves the block in use partial. *)
Lemma log_write_low_part_partial_buffer (str : list byte) (s : log_t) :
  buffer_wf s ->
  0 <= buf_free s ->
  buf_free s + 32 * zlen str + 512 < 2 ^ 63 ->
  free_offset_in_block s + zlen str < trailer_offset s ->
  let blk := block_in_use s in
  let off := free_offset_in_block s in
  let s1 := snd (log_write_low_part str s) in
  fst (log_write_low_part str s) = []
  /\ (buf s1 = buf s
      /\ buf_free s1 = buf_free s + zlen str
      /\ free_offset_in_block s1 = off + zlen str
      /\ block_in_use s1 = blk)
  /\ (forall i, 0 <= i < zlen str ->
      buf_mem s1 (blk + off + i) = nth (Z.to_nat i) str 0)
  /\ LogBlock.log_block_get_data_len (buf_mem s1) blk = off + zlen str
  /\ LogBlock.log_block_get_checkpoint_no (buf_mem s1) blk
     = LogBlock.log_block_get_checkpoint_no (buf_mem s) blk
  /\ (forall a, a < blk + off -> ~ blk + 4 <= a < blk + 6 ->
      buf_mem s1 a = buf_mem s a)
  /\ (forall a, blk + off + zlen str <= a -> buf_mem s1 a = buf_mem s a).
Proof.
  intros Hwf Hbf0 Hbound Hpart blk off s1.
  pose proof (zlen_nonneg str) as Hlen.
  pose proof (block_geometry s) as Hgeo.
  pose proof Hwf as (Hbuf & Hoff).
  fold (free_offset_in_block s) in Hoff. fold off in Hoff.
  unfold LOG_BLOCK_HDR_SIZE in Hoff.
  assert (Haddr : buf s + buf_free s = blk + off)
    by (subst blk off; unfold block_in_use; lia).
  assert (HT : trailer_offset s <= 508)
    by (destruct Hgeo as [(-> & _) | (-> & _)]; lia).
  subst s1. rewrite (log_write_low_part_partial str s Hwf Hpart).
  cbn [fst snd]. fold blk off.
  match goal with
  | |- context [set_buf_free ?bf (set_lsn ?l (set_buf_mem ?m s))] =>
      set (m1 := m);
      set (s1 := set_buf_free bf (set_lsn l (set_buf_mem m1 s)))
  end.
  assert (Hbf1 : buf_free s1 = buf_free s + zlen str).
  { change (buf_free s1) with (u64 (buf_free s + zlen str)).
    apply u64_small. lia. }
  assert (Hoff1 : free_offset_in_block s1 = off + zlen str).
  { change (free_offset_in_block s1)
      with (free_offset_in_block
              (set_buf_free (u64 (buf_free s + zlen str)) s)).
    rewrite free_offset_after. fold off.
    apply Z.mod_small. unfold OS_FILE_LOG_BLOCK_SIZE. lia. }
  split; [reflexivity |].
  split.
  { split; [reflexivity |]. split; [exact Hbf1 |]. split; [exact Hoff1 |].
    unfold block_in_use. rewrite Hoff1, Hbf1.
    change (buf s1) with (buf s). lia. }
  change (buf_mem s1) with m1. subst m1. rewrite Haddr.
  split.
  { intros i Hi. hdr_fields. other_writes.
    rewrite memcpy_inside by lia.
    replace (blk + off + i - (blk + off)) with i by lia. reflexivity. }
  hdr_fields.
  split.
  { rewrite mem_read_write_same. apply Z.mod_small.
    change (256 ^ Z.of_nat 2) with 65536. lia. }
  split; [other_fields; reflexivity |].
  split.
  - intros a Ha H1. other_writes.
    first [reflexivity | apply memcpy_outside; lia].
  - intros a Ha. other_writes.
    first [reflexivity | apply memcpy_outside; lia].
Qed.

(** The buffer after all the passes of [log_write_low]: where the bytes
    of the string lie, the headers of the blocks completed and opened on
    the way and of the block left open, and what is kept. *)
Lemma log_write_low_loop_buffer (fuel : nat) :
  forall (str : list byte) (s s' : log_t),
    buffer_wf s ->
    0 <= buf_free s ->
    buf_free s + 32 * zlen str + 512 < 2 ^ 63 ->
    log_write_low_loop fuel str s = Some s' ->
    let blk := block_in_use s in
    let off := free_offset_in_block s in
    let k := (off - LOG_BLOCK_HDR_SIZE + zlen str) / block_payload s in
    (0 <= k
     /\ buf s' = buf s
     /\ block_in_use s' = blk + OS_FILE_LOG_BLOCK_SIZE * k
     /\ buf_free s <= buf_free s')
    /\ (forall i, 0 <= i < zlen str ->
        buf_mem s' (appended_byte_address s i) = nth (Z.to_nat i) str 0)
    /\ (forall j, 0 <= j < k ->
        LogBlock.log_block_get_data_len (buf_mem s')
          (blk + OS_FILE_LOG_BLOCK_SIZE * j) = OS_FILE_LOG_BLOCK_SIZE
        /\ LogBlock.log_block_get_checkpoint_no (buf_mem s')
             (blk + OS_FILE_LOG_BLOCK_SIZE * j)
           = u32 (next_checkpoint_no s))
    /\ (forall j, 1 <= j <= k ->
        mem_read_from 4 (buf_mem s')
          (blk + OS_FILE_LOG_BLOCK_SIZE * j + LOG_BLOCK_HDR_NO)
        = LogBlock.log_block_convert_lsn_to_no
            (u64 (lsn s + (trailer_offset s - off) + framing_size s
                  + OS_FILE_LOG_BLOCK_SIZE * (j - 1)))
        /\ LogBlock.log_block_get_first_rec_group (buf_mem s')
             (blk + OS_FILE_LOG_BLOCK_SIZE * j) = 0)
    /\ LogBlock.log_block_get_data_len (buf_mem s') (block_in_use s')
       = free_offset_in_block s'
    /\ LogBlock.log_block_get_checkpoint_no (buf_mem s') (block_in_use s')
       = LogBlock.log_block_get_checkpoint_no (buf_mem s) (block_in_use s')
    /\ (forall a, a < buf s + buf_free s ->
        ~ blk + LOG_BLOCK_HDR_DATA_LEN <= a < blk + LOG_BLOCK_FIRST_REC_GROUP ->
        ~ blk + LOG_BLOCK_CHECKPOINT_NO <= a < blk + LOG_BLOCK_HDR_SIZE ->
        buf_mem s' a = buf_mem s a)
    /\ (forall a, buf s' + buf_free s' <= a -> buf_mem s' a = buf_mem s a)
    /\ (forall j a, 0 <= j < k ->
        blk + OS_FILE_LOG_BLOCK_SIZE * j + trailer_offset s <= a
        < blk + OS_FILE_LOG_BLOCK_SIZE * (j + 1) ->
        buf_mem s' a = buf_mem s a).
Proof.
  induction fuel as [| fuel IH]; intros str s s' Hwf Hbf0 Hbound;
    cbn [log_write_low_loop]; [discriminate |].
  pose proof (zlen_nonneg str) as Hlen.
  pose proof (block_geometry s) as Hgeo.
  pose proof Hwf as (Hbuf & Hoff).
  fold (free_offset_in_block s) in Hoff.
  unfold LOG_BLOCK_HDR_SIZE in Hoff.
  intros E. cbv zeta. revert E.
  set (blk := block_in_use s). set (off := free_offset_in_block s).
  set (k := (off - LOG_BLOCK_HDR_SIZE + zlen str) / block_payload s).
  fold off in Hoff.
  assert (Haddr : buf s + buf_free s = blk + off)
    by (subst blk off; unfold block_in_use; lia).
  assert (HP : block_payload s = trailer_offset s - 12 /\ 0 < block_payload s
               /\ block_payload s + framing_size s = 512).
  { unfold block_payload, LOG_BLOCK_HDR_SIZE.
    destruct Hgeo as [(-> & ->) | (-> & ->)]; lia. }
  destruct HP as (HPeq & HP & HPF).
  assert (HT : trailer_offset s <= 508)
    by (destruct Hgeo as [(-> & _) | (-> & _)]; lia).
  unfold LOG_BLOCK_HDR_DATA_LEN, LOG_BLOCK_FIRST_REC_GROUP,
    LOG_BLOCK_CHECKPOINT_NO, LOG_BLOCK_HDR_NO, LOG_BLOCK_HDR_SIZE,
    OS_FILE_LOG_BLOCK_SIZE in *.
  destruct (Z.lt_ge_cases (off + zlen str) (trailer_offset s))
    as [Hpart | Hfull].
  - (* the string fits and the block stays partial *)
    pose proof (log_write_low_part_partial_buffer str s Hwf Hbf0 Hbound Hpart)
      as (P0 & (P1 & P2 & P3 & P4) & P5 & P6 & P7 & P8 & P9).
    fold blk off in P3, P4, P5, P6, P7, P8, P9.
    destruct (log_write_low_part str s) as [rest s1].
    cbn [fst snd] in *. subst rest.
    cbn [zlen length Z.of_nat Z.ltb Z.compare].
    intros E. injection E as <-.
    assert (Hk : k = 0) by (subst k; apply Z.div_small; lia).
    rewrite Hk, P4, P1, P3. rewrite Z.mul_0_r, Z.add_0_r.
    split; [split; [lia |]; split; [reflexivity |]; split; [reflexivity | lia] |].
    split.
    { intros i Hi.
      rewrite (appended_byte_address_block s i Hwf) by (fold off; lia).
      rewrite Haddr. apply P5. exact Hi. }
    split; [intros j Hj; lia |]. split; [intros j Hj; lia |].
    split; [exact P6 |]. split; [exact P7 |].
    split; [| split].
    + intros a Ha H1 _. apply P8; lia.
    + intros a Ha. apply P9. lia.
    + intros j a Hj. lia.
  - (* the block becomes full *)
    assert (Hfull' : off + zlen str >= trailer_offset s) by lia.
    pose proof (log_write_low_part_full_buffer str s Hwf Hbf0 Hbound Hfull')
      as (Q0 & Hrest & Hn & HnF
          & (Q1 & Q2 & Q3 & Q4 & Q5 & Q6 & Q7)
          & (Hwf1 & Hoff1 & Hblk1)
          & Qpay & (Qdl & Qcp & Qno & Qdl1 & Qfrg) & Qlo & Qhi & Qtr).
    fold blk off in Q0, Hrest, Hn, HnF, Q2, Q3, Hblk1, Qpay, Qdl, Qcp, Qno,
      Qdl1, Qfrg, Qlo, Qhi, Qtr.
    unfold LOG_BLOCK_HDR_NO in Qno.
    set (n := trailer_offset s - off) in *.
    destruct (log_write_low_part str s) as [rest s1].
    cbn [fst snd] in *. subst rest.
    assert (Hk : k = 1 + (zlen str - n) / block_payload s).
    { subst k.
      replace (off - 12 + zlen str)
        with (1 * block_payload s + (zlen str - n)) by (subst n; lia).
      apply Z.div_add_l. lia. }
    assert (Hk1 : 0 <= (zlen str - n) / block_payload s)
      by (apply Z.div_pos; lia).
    assert (Hfirst : forall i, 0 <= i < n ->
               appended_byte_address s i = blk + off + i).
    { intros i Hi. rewrite (appended_byte_address_block s i Hwf) by (fold off; lia).
      lia. }
    destruct (Z.ltb_spec 0 (zlen (skipn (Z.to_nat n) str))) as [Hmore | Hdone].
    + (* the rest goes to the next block *)
      intros E.
      apply IH in E; [| exact Hwf1 | lia | rewrite Q2, Hrest; lia].
      cbv zeta in E.
      rewrite Hblk1, Hoff1, Hrest, Q1, Q2, Q3, Q4, Q5, Q6, Q7 in E.
      unfold LOG_BLOCK_HDR_DATA_LEN, LOG_BLOCK_FIRST_REC_GROUP,
        LOG_BLOCK_CHECKPOINT_NO, LOG_BLOCK_HDR_NO, LOG_BLOCK_HDR_SIZE,
        OS_FILE_LOG_BLOCK_SIZE in E.
      replace (12 - 12 + (zlen str - n)) with (zlen str - n) in E by lia.
      set (k1 := (zlen str - n) / block_payload s) in *.
      destruct E
        as ((_ & I1 & I2 & I3) & IA & IB & IC & ID & IE & Ilo & Ihi & Itr).
      rewrite Hk.
      split.
      { split; [lia |]. split; [exact I1 |]. split; [rewrite I2; lia | lia]. }
      split.
      { intros i Hi.
        destruct (Z.lt_ge_cases i n) as [Hin | Hin].
        - rewrite Hfirst by lia.
          rewrite Ilo by lia.
          apply Qpay. lia.
        - specialize (IA (i - n) ltac:(lia)).
          rewrite nth_skipn in IA.
          replace (Z.to_nat n + Z.to_nat (i - n))%nat with (Z.to_nat i)
            in IA by lia.
          rewrite <- IA. f_equal.
          unfold appended_byte_address.
          rewrite Hoff1, Q1, Q2, Q6, Q7. fold off.
          unfold LOG_BLOCK_HDR_SIZE.
          replace (off - 12 + i)
            with (1 * block_payload s + (12 - 12 + (i - n)))
            by (subst n; lia).
          rewrite Z.div_add_l by lia.
          lia. }
      split.
      { intros j Hj.
        destruct (Z.eq_dec j 0) as [-> | Hj0].
        - rewrite Z.mul_0_r, Z.add_0_r.
          unfold LogBlock.log_block_get_data_len,
            LogBlock.log_block_get_checkpoint_no,
            LOG_BLOCK_HDR_DATA_LEN, LOG_BLOCK_CHECKPOINT_NO in *.
          rewrite (mem_read_from_ext 2 (buf_mem s') (buf_mem s1))
            by (intros a Ha; apply Ilo; away).
          rewrite (mem_read_from_ext 4 (buf_mem s') (buf_mem s1))
            by (intros a Ha; apply Ilo; away).
          split; [exact Qdl | exact Qcp].
        - specialize (IB (j - 1) ltac:(lia)).
          replace (blk + 512 + 512 * (j - 1)) with (blk + 512 * j)
            in IB by lia.
          exact IB. }
      split.
      { intros j Hj.
        destruct (Z.eq_dec j 1) as [-> | Hj1].
        - replace (blk + 512 * 1) with (blk + 512) by lia.
          unfold LogBlock.log_block_get_first_rec_group,
            LOG_BLOCK_FIRST_REC_GROUP, LOG_BLOCK_HDR_NO in *.
          rewrite (mem_read_from_ext 4 (buf_mem s') (buf_mem s1))
            by (intros a Ha; apply Ilo; away).
          rewrite (mem_read_from_ext 2 (buf_mem s') (buf_mem s1))
            by (intros a Ha; apply Ilo; away).
          split; [| exact Qfrg].
          rewrite Qno, Q3. f_equal. f_equal. lia.
        - specialize (IC (j - 1) ltac:(lia)).
          replace (blk + 512 + 512 * (j - 1)) with (blk + 512 * j)
            in IC by lia.
          destruct IC as (IC1 & IC2).
          split; [| exact IC2].
          rewrite IC1. f_equal. rewrite <- !Z.add_assoc, u64_add_l.
          f_equal. lia. }
      split; [exact ID |].
      split.
      { rewrite IE. rewrite I2.
        unfold LogBlock.log_block_get_checkpoint_no,
          LOG_BLOCK_CHECKPOINT_NO.
        apply mem_read_from_ext. intros a Ha. apply Qhi. away. }
      split; [| split].
      * intros a Ha H1 H2. rewrite Ilo by lia. apply Qlo; lia.
      * intros a Ha. rewrite Ihi by exact Ha. apply Qhi. lia.
      * intros j a Hj Ha.
        destruct (Z.eq_dec j 0) as [-> | Hj0].
        -- rewrite Ilo by lia. apply Qtr. lia.
        -- rewrite (Itr (j - 1) a) by lia. apply Qhi. lia.
    + (* the string ended exactly at the trailer *)
      intros E. injection E as <-.
      assert (Hz : zlen str = n) by lia.
      assert (Hk' : k = 1).
      { rewrite Hk, Hz, Z.sub_diag, Z.div_0_l by lia. reflexivity. }
      rewrite Hk', Hblk1, Hoff1, Q1, Q2.
      split; [split; [lia |]; split; [reflexivity |];
              split; [reflexivity | lia] |].
      split.
      { intros i Hi. rewrite Hfirst by lia. apply Qpay. lia. }
      split.
      { intros j Hj. assert (j = 0) as -> by lia.
        rewrite Z.mul_0_r, Z.add_0_r. split; [exact Qdl | exact Qcp]. }
      split.
      { intros j Hj. assert (j = 1) as -> by lia.
        replace (blk + 512 * 1) with (blk + 512) by lia.
        split; [| exact Qfrg].
        rewrite Qno, Q3. f_equal. f_equal. lia. }
      split; [exact Qdl1 |].
      split.
      { unfold LogBlock.log_block_get_checkpoint_no, LOG_BLOCK_CHECKPOINT_NO.
        apply mem_read_from_ext. intros a Ha. apply Qhi. away. }
      split; [| split].
      * intros a Ha H1 H2. apply Qlo; lia.
      * intros a Ha. apply Qhi. lia.
      * intros j a Hj Ha. assert (j = 0) as -> by lia. apply Qtr. lia.
Qed.

Section LogWriteLowClaim.

Ltac block_fields :=
  unfold LogBlock.log_block_get_data_len, LogBlock.log_block_get_checkpoint_no,
    LogBlock.log_block_get_first_rec_group, LogBlock.log_block_init,
    LogBlock.log_block_set_hdr_no, LogBlock.log_block_set_data_len,
    LogBlock.log_block_set_first_rec_group,
    LogBlock.log_block_set_checkpoint_no,
    LOG_BLOCK_HDR_NO, LOG_BLOCK_HDR_DATA_LEN, LOG_BLOCK_FIRST_REC_GROUP,
    LOG_BLOCK_CHECKPOINT_NO, LOG_BLOCK_HDR_SIZE, OS_FILE_LOG_BLOCK_SIZE in *.

Ltac apart := cbn [Z.of_nat Pos.of_succ_nat Pos.succ]; lia.

Ltac other_bytes :=
  repeat first
    [ rewrite mem_read_write_other by apart
    | rewrite mem_read_from_memcpy_other by apart
    | rewrite mem_read_write_to_other by apart ].

(** C5. A string appended with [log_write_low] to a well-formed buffer.
    In each pass of the loop: when the string reaches the trailer of the
    block in use, exactly [trailer_offset() - buf_free % 512] of its bytes
    are copied into the block, the block's data length is set to 512 and
    its checkpoint number to [next_checkpoint_no], the lsn and the free
    offset advance by the bytes copied plus [framing_size()], and the
    header of the next block is initialised from the new lsn; when the
    string ends before the trailer, all of it is copied, the data length
    is the new offset in the block, the checkpoint number of the block is
    left as it was, and the lsn and the free offset advance by the length
    of the string. The whole call ends, and the lsn has advanced by the
    length of the string plus [framing_size()] for each block completed.
    After the whole call, as long as the free offset does not wrap: every
    byte of the string lies in the buffer, byte [i] at
    [appended_byte_address s i], so that the bytes fill each block up to
    its trailer and go on after the header of the next one; every block
    completed has data length 512 and the checkpoint number
    [next_checkpoint_no]; every block opened has the block number of the
    lsn reached when it was opened and no first record group; the block
    left open has the free offset as its data length and its checkpoint
    number field as it was before the call; and no other byte of the
    buffer is changed: not before the old free offset, except the data
    length and checkpoint number of the block that was in use, not from
    the new free offset on, and not in the trailer of a completed
    block. *)
Theorem log_write_low_blocks (str : list byte) (s : log_t) :
  buffer_wf s ->
  zlen str < 2 ^ 63 ->
  let T := trailer_offset s in
  let F := framing_size s in
  let off := free_offset_in_block s in
  let blk := block_in_use s in
  let next := blk + OS_FILE_LOG_BLOCK_SIZE in
  let n := T - off in
  let rest := fst (log_write_low_part str s) in
  let s1 := snd (log_write_low_part str s) in
  let completed := (off - LOG_BLOCK_HDR_SIZE + zlen str) / block_payload s in
  (off + zlen str >= T ->
   rest = skipn (Z.to_nat n) str
   /\ zlen rest = zlen str - n
   /\ mem_read (buf_mem s1) (buf s + buf_free s) (Z.to_nat n)
      = firstn (Z.to_nat n) str
   /\ LogBlock.log_block_get_data_len (buf_mem s1) blk
      = OS_FILE_LOG_BLOCK_SIZE
   /\ LogBlock.log_block_get_checkpoint_no (buf_mem s1) blk
      = u32 (next_checkpoint_no s)
   /\ lsn s1 = u64 (lsn s + n + F)
   /\ buf_free s1 = u64 (buf_free s + n + F)
   /\ mem_read_from 4 (buf_mem s1) (next + LOG_BLOCK_HDR_NO)
      = LogBlock.log_block_convert_lsn_to_no (lsn s1)
   /\ LogBlock.log_block_get_data_len (buf_mem s1) next = LOG_BLOCK_HDR_SIZE
   /\ LogBlock.log_block_get_first_rec_group (buf_mem s1) next = 0)
  /\ (off + zlen str < T ->
      rest = []
      /\ mem_read (buf_mem s1) (buf s + buf_free s) (length str) = str
      /\ LogBlock.log_block_get_data_len (buf_mem s1) blk = off + zlen str
      /\ LogBlock.log_block_get_checkpoint_no (buf_mem s1) blk
         = LogBlock.log_block_get_checkpoint_no (buf_mem s) blk
      /\ lsn s1 = u64 (lsn s + zlen str)
      /\ buf_free s1 = u64 (buf_free s + zlen str))
  /\ (exists s',
         log_write_low str s = Some s'
         /\ lsn s' = u64 (lsn s + zlen str + F * completed)
         /\ buf_free s' = u64 (buf_free s + zlen str + F * completed)
         /\ buffer_wf s'
         /\ (0 <= buf_free s ->
             buf_free s + 32 * zlen str + 512 < 2 ^ 63 ->
             block_in_use s' = blk + OS_FILE_LOG_BLOCK_SIZE * completed
             /\ (forall i, 0 <= i < zlen str ->
                 buf_mem s' (appended_byte_address s i)
                 = nth (Z.to_nat i) str 0)
             /\ (forall j, 0 <= j < completed ->
                 LogBlock.log_block_get_data_len (buf_mem s')
                   (blk + OS_FILE_LOG_BLOCK_SIZE * j)
                 = OS_FILE_LOG_BLOCK_SIZE
                 /\ LogBlock.log_block_get_checkpoint_no (buf_mem s')
                      (blk + OS_FILE_LOG_BLOCK_SIZE * j)
                    = u32 (next_checkpoint_no s))
             /\ (forall j, 1 <= j <= completed ->
                 mem_read_from 4 (buf_mem s')
                   (blk + OS_FILE_LOG_BLOCK_SIZE * j + LOG_BLOCK_HDR_NO)
                 = LogBlock.log_block_convert_lsn_to_no
                     (u64 (lsn s + n + F
                           + OS_FILE_LOG_BLOCK_SIZE * (j - 1)))
                 /\ LogBlock.log_block_get_first_rec_group (buf_mem s')
                      (blk + OS_FILE_LOG_BLOCK_SIZE * j) = 0)
             /\ LogBlock.log_block_get_data_len (buf_mem s')
                  (block_in_use s')
                = free_offset_in_block s'
             /\ LogBlock.log_block_get_checkpoint_no (buf_mem s')
                  (block_in_use s')
                = LogBlock.log_block_get_checkpoint_no (buf_mem s)
                    (block_in_use s')
             /\ (forall a, a < buf s + buf_free s ->
                 ~ blk + LOG_BLOCK_HDR_DATA_LEN <= a
                   < blk + LOG_BLOCK_FIRST_REC_GROUP ->
                 ~ blk + LOG_BLOCK_CHECKPOINT_NO <= a
                   < blk + LOG_BLOCK_HDR_SIZE ->
                 buf_mem s' a = buf_mem s a)
             /\ (forall a, buf s' + buf_free s' <= a ->
                 buf_mem s' a = buf_mem s a)
             /\ (forall j a, 0 <= j < completed ->
                 blk + OS_FILE_LOG_BLOCK_SIZE * j + T <= a
                 < blk + OS_FILE_LOG_BLOCK_SIZE * (j + 1) ->
                 buf_mem s' a = buf_mem s a))).
Proof.
  intros Hwf Hsmall T F off blk next n rest s1 completed.
  pose proof (zlen_nonneg str) as Hlen.
  pose proof Hwf as (Hbuf & Hoff).
  fold (free_offset_in_block s) in Hoff. fold off T in Hoff.
  assert (Hgeo : (T = 508 /\ F = 16) \/ (T = 504 /\ F = 20))
    by apply block_geometry.
  assert (Haddr : buf s + buf_free s = blk + off)
    by (subst blk off; unfold block_in_use; lia).
  split; [| split].
  - (* the block becomes full *)
    intros Hfull.
    pose proof (log_write_low_part_full str s Hwf Hsmall Hfull) as Hpart.
    cbv zeta in Hpart. fold T off F in Hpart. fold n in Hpart.
    subst rest s1. rewrite Hpart. clear Hpart.
    cbn [fst snd buf_mem lsn buf_free set_buf_free set_lsn set_buf_mem].
    assert (Hn : 1 <= n <= zlen str)
      by (subst n; unfold LOG_BLOCK_HDR_SIZE in *; lia).
    assert (Hfirst : length (firstn (Z.to_nat n) str) = Z.to_nat n).
    { apply firstn_length_le. unfold zlen in *. lia. }
    rewrite <- !Z.add_assoc.
    split; [reflexivity |].
    split; [unfold zlen in *; rewrite length_skipn; lia |].
    fold blk. subst next. rewrite Haddr.
    block_fields.
    assert (HT : T <= 508) by (destruct Hgeo as [(-> & _) | (-> & _)]; lia).
    split.
    { other_bytes.
      pose proof (mem_read_memcpy_same (firstn (Z.to_nat n) str) (buf_mem s)
                    (blk + off)) as Hrd.
      rewrite Hfirst in Hrd. exact Hrd. }
    split.
    { other_bytes. rewrite mem_read_write_same. reflexivity. }
    split.
    { other_bytes. rewrite mem_read_write_same. reflexivity. }
    split; [reflexivity |]. split; [reflexivity |].
    split.
    { other_bytes. rewrite mem_read_write_same.
      apply Z.mod_small.
      unfold LogBlock.log_block_convert_lsn_to_no, OS_FILE_LOG_BLOCK_SIZE.
      pose proof (Z.mod_pos_bound (u64 (lsn s + (n + F)) / 512) (2 ^ 31)
                    ltac:(lia)) as Hno.
      set (no := (u64 (lsn s + (n + F)) / 512) mod 2 ^ 31) in *.
      change (256 ^ Z.of_nat 4) with 4294967296.
      change (2 ^ 31) with 2147483648 in Hno. lia. }
    split.
    { other_bytes. rewrite mem_read_write_same. reflexivity. }
    rewrite mem_read_write_same. reflexivity.
  - (* the block stays partial *)
    intros Hpartial.
    pose proof (log_write_low_part_partial str s Hwf Hpartial) as Hpart.
    subst rest s1. rewrite Hpart. clear Hpart.
    cbn [fst snd buf_mem lsn buf_free set_buf_free set_lsn set_buf_mem].
    fold blk off. rewrite Haddr.
    block_fields.
    assert (HT : T <= 508) by (destruct Hgeo as [(-> & _) | (-> & _)]; lia).
    split; [reflexivity |].
    split.
    { other_bytes. apply mem_read_memcpy_same. }
    split.
    { rewrite mem_read_write_same. apply Z.mod_small.
      change (256 ^ Z.of_nat 2) with 65536. lia. }
    split.
    { other_bytes. reflexivity. }
    split; reflexivity.
  - (* the whole string *)
    unfold log_write_low.
    destruct (log_write_low_loop_result (length str + 2) str s
                ltac:(lia) Hwf Hsmall)
      as (s' & Hrun & Hlsn & Hfree & Hwf').
    exists s'. split; [exact Hrun |].
    split; [exact Hlsn |]. split; [exact Hfree |]. split; [exact Hwf' |].
    intros Hbf0 Hbound.
    pose proof (log_write_low_loop_buffer _ str s s' Hwf Hbf0 Hbound Hrun)
      as ((_ & _ & B1 & _) & B2 & B3 & B4 & B5 & B6 & B7 & B8 & B9).
    split; [exact B1 |]. split; [exact B2 |]. split; [exact B3 |].
    split; [exact B4 |]. split; [exact B5 |]. split; [exact B6 |].
    split; [exact B7 |]. split; [exact B8 | exact B9].
Qed.

End LogWriteLowClaim.

(** *** Appending on a concrete input *)

(** 500 bytes appended at offset 12 of an empty block of 496 payload
    bytes: the block is completed and four bytes go to the next one,
    after its header at address 524; the completed block has data length
    512 and the open one 16. *)
Lemma log_write_low_blocks_witness :
  buffer_wf (example_log false 8204 8204 8204 8204)
  /\ zlen (repeat 7 500) < 2 ^ 63
  /\ lsn (snd (log_write_low_part (repeat 7 500)
                 (example_log false 8204 8204 8204 8204))) = 8716
  /\ appended_byte_address (example_log false 8204 8204 8204 8204) 495 = 507
  /\ appended_byte_address (example_log false 8204 8204 8204 8204) 496 = 524
  /\ exists s',
       log_write_low (repeat 7 500) (example_log false 8204 8204 8204 8204)
       = Some s'
       /\ lsn s' = 8720
       /\ buf_mem s' 507 = 7
       /\ buf_mem s' 524 = 7
       /\ LogBlock.log_block_get_data_len (buf_mem s') 0 = 512
       /\ LogBlock.log_block_get_data_len (buf_mem s') 512 = 16.
Proof.
  assert (H1 : buffer_wf (example_log false 8204 8204 8204 8204)).
  { unfold buffer_wf. split; [reflexivity |]. vm_compute.
    split; discriminate || reflexivity. }
  assert (H2 : zlen (repeat 7 500) < 2 ^ 63) by (vm_compute; reflexivity).
  assert (A1 : appended_byte_address
                 (example_log false 8204 8204 8204 8204) 495 = 507)
    by (vm_compute; reflexivity).
  assert (A2 : appended_byte_address
                 (example_log false 8204 8204 8204 8204) 496 = 524)
    by (vm_compute; reflexivity).
  split; [exact H1 |]. split; [exact H2 |].
  destruct (log_write_low_blocks (repeat 7 500)
              (example_log false 8204 8204 8204 8204) H1 H2)
    as (Hfull & _ & s' & Hrun & Hlsn & Hfree & _ & Hbuffer).
  split.
  { assert (H3 : free_offset_in_block (example_log false 8204 8204 8204 8204)
                 + zlen (repeat 7 500)
                 >= trailer_offset (example_log false 8204 8204 8204 8204))
      by (vm_compute; discriminate).
    destruct (Hfull H3) as (_ & _ & _ & _ & _ & Hl & _).
    rewrite Hl. vm_compute. reflexivity. }
  split; [exact A1 |]. split; [exact A2 |].
  exists s'. split; [exact Hrun |].
  split; [rewrite Hlsn; vm_compute; reflexivity |].
  assert (B0 : 0 <= buf_free (example_log false 8204 8204 8204 8204))
    by (vm_compute; discriminate).
  assert (B1 : buf_free (example_log false 8204 8204 8204 8204)
               + 32 * zlen (repeat 7 500) + 512 < 2 ^ 63)
    by (vm_compute; reflexivity).
  destruct (Hbuffer B0 B1) as (Hblk & Hbytes & Hdone & _ & Hopen & _).
  assert (I1 : 0 <= 495 < zlen (repeat 7 500))
    by (vm_compute; split; [discriminate | reflexivity]).
  assert (I2 : 0 <= 496 < zlen (repeat 7 500))
    by (vm_compute; split; [discriminate | reflexivity]).
  pose proof (Hbytes 495 I1) as Y1. rewrite A1 in Y1.
  pose proof (Hbytes 496 I2) as Y2. rewrite A2 in Y2.
  split; [rewrite Y1; vm_compute; reflexivity |].
  split; [rewrite Y2; vm_compute; reflexivity |].
  assert (J0 : 0 <= 0
               < (free_offset_in_block (example_log false 8204 8204 8204 8204)
                  - LOG_BLOCK_HDR_SIZE + zlen (repeat 7 500))
                 / block_payload (example_log false 8204 8204 8204 8204))
    by (vm_compute; split; [discriminate | reflexivity]).
  destruct (Hdone 0 J0) as (D1 & _).
  split; [exact D1 |].
  assert (Hb' : block_in_use s' = 512)
    by (rewrite Hblk; vm_compute; reflexivity).
  assert (Ho' : free_offset_in_block s' = 16).
  { unfold free_offset_in_block. rewrite Hfree. vm_compute. reflexivity. }
  rewrite Hb', Ho' in Hopen. exact Hopen.
Defined.

(** ** The model on known values *)

(** The check value of CRC-32C: the checksum of the ASCII digits 1 to 9. *)
Example ut_crc32_check_value :
  ut_crc32 [49; 50; 51; 52; 53; 54; 55; 56; 57] = 0xE3069283.
Proof. vm_compute. reflexivity. Qed.

Example mach_write_to_4_bytes :
  mach_write_to 4 0x50485953 = [0x50; 0x48; 0x59; 0x53].
Proof. reflexivity. Qed.

(** A checkpoint record is [CHECKPOINT_SIZE] bytes long. *)
Example checkpoint_record_size :
  zlen (Redo.checkpoint_record 8204 256 1) = Redo.CHECKPOINT_SIZE.
Proof. vm_compute. reflexivity. Qed.

(** An append that ends exactly at the end of the file resets the cursor
    and keeps the sequence bit. *)
Example append_wrapped_exact_end :
  let r' := snd (Redo.append_wrapped (repeat 0 512) (example_redo 1536 1)) in
  m_data_file_position r' = 0 /\ m_sequence_bit r' = 1.
Proof. vm_compute. split; reflexivity. Qed.

(** An append that crosses the end of the file by one byte. *)
Example append_wrapped_one_byte_over :
  let r' := snd (Redo.append_wrapped (repeat 0 513) (example_redo 1536 1)) in
  m_data_file_position r' = 1
  /\ m_sequence_bit r' = 0
  /\ f_ops (m_data_file r')
     = [Op_write 1536 (repeat 0 512); Op_write 0 [0]].
Proof. vm_compute. repeat split; reflexivity. Qed.

(** The first write of an append fails: nothing is written and the
    cursor stays. *)
Example append_wrapped_failed_write :
  Redo.append_wrapped [1; 2; 3]
    (mk_redo (example_file false) 0 (mk_log_file false [] [true]) 100 2048 1)
  = (DB_ERROR,
     mk_redo (example_file false) 0 (mk_log_file false [] []) 100 2048 1).
Proof. reflexivity. Qed.

(** A log file too small for the threads is refused. *)
Example log_set_capacity_too_small :
  fst (log_set_capacity 1000000
         (example_world (example_log false 1 1 1 1)
            (example_server false 0 0))) = false.
Proof. vm_compute. reflexivity. Qed.

(** A second oversized margin within 15 seconds of the first prints
    nothing. *)
Example log_margin_checkpoint_age_twice :
  match log_margin_checkpoint_age 5000
          (example_world (example_log false 1 1 1 1)
             (example_server false 0 100)) with
  | Returned w1 =>
      match log_margin_checkpoint_age 6000
              (mk_world (log_sys w1) (write_lock w1) (flush_lock w1)
                 (new_redo w1) (log_has_printed_chkp_margine_warning w1)
                 (log_last_margine_warning_time w1)
                 (example_server false 0 110) (trace w1)) with
      | Returned w2 => trace w2 = [Ev_error_margin 5000 0]
      | Blocked => False
      | Aborted => False
      end
  | Blocked => False
  | Aborted => False
  end.
Proof. vm_compute. reflexivity. Qed.

(** A caller whose lsn is not yet flushed finds the flush lock held by
    another thread: it waits. *)
Example log_write_up_to_waits :
  log_write_up_to 10 true
    (mk_world (example_log false 10 10 1 1) (free_lock 10)
       (mk_group_commit_lock 1 10 true) (example_redo 0 1) false 0
       (example_server false 0 0) [])
  = Blocked.
Proof. reflexivity. Qed.
(** ** The read side of the circular data file *)

Lemma consume_no_faults (f : log_file_t) :
  f_faults f = [] -> File.consume f = f.
Proof.
  destruct f as [d ops faults]; cbn; intros ->; reflexivity.
Qed.

Lemma log_file_read_no_faults (offset : Z) (buf : list byte) (f : log_file_t) :
  f_faults f = [] ->
  log_file_read offset buf f
  = (DB_SUCCESS, mem_read (file_contents f) offset (length buf), f).
Proof.
  intros Hf. unfold log_file_read, File.next_call_fails.
  rewrite Hf, (consume_no_faults f Hf). reflexivity.
Qed.

Lemma set_data_file_same (r : redo_t) : Redo.set_data_file (m_data_file r) r = r.
Proof. destruct r; reflexivity. Qed.

Lemma firstn_length_le_Z {A : Type} (k : Z) (l : list A) :
  0 <= k <= zlen l -> length (firstn (Z.to_nat k) l) = Z.to_nat k.
Proof.
  unfold zlen; intros H. rewrite length_firstn. lia.
Qed.

(** What [read_wrapped] returns from a file without faults: one read, or
    the tail of the file followed by its start. *)
Lemma read_wrapped_no_faults (offset : Z) (dst : list byte) (r : redo_t) :
  f_faults (m_data_file r) = [] ->
  0 <= offset < m_data_file_size r ->
  m_data_file_size r <= 2 ^ 47 ->
  zlen dst <= m_data_file_size r ->
  let c := file_contents (m_data_file r) in
  let n := m_data_file_size r in
  read_wrapped offset dst r
  = (DB_SUCCESS,
     (if offset + zlen dst >? n
      then mem_read c offset (Z.to_nat (n - offset))
             ++ mem_read c 0 (Z.to_nat (offset + zlen dst - n))
      else mem_read c offset (length dst)),
     r).
Proof.
  intros Hf Hoff Hsize Hlen c n. subst c n.
  pose proof pow2_47_lt_64 as H47.
  pose proof (zlen_nonneg dst) as Hnn.
  unfold read_wrapped.
  rewrite (u64_small (offset + zlen dst)) by lia.
  destruct (offset + zlen dst >? m_data_file_size r) eqn:Hw.
  - apply Z.gtb_lt in Hw.
    rewrite (u64_small (m_data_file_size r - offset)) by lia.
    rewrite (u64_small (zlen dst - (m_data_file_size r - offset))) by lia.
    rewrite (log_file_read_no_faults _ _ _ Hf).
    rewrite (log_file_read_no_faults _ _ _ Hf).
    rewrite set_data_file_same.
    rewrite subspan_front, subspan_back by lia.
    rewrite firstn_length_le_Z by lia.
    rewrite length_skipn.
    do 4 f_equal. unfold zlen in *. lia.
  - rewrite (log_file_read_no_faults _ _ _ Hf), set_data_file_same.
    reflexivity.
Qed.

Lemma file_contents_ops (f f' : log_file_t) (extra : list file_op) :
  f_ops f' = f_ops f ++ extra ->
  file_contents f'
  = fold_left
      (fun m op =>
         match op with
         | Op_write offset data => memcpy m offset data
         | Op_flush_data => m
         end)
      extra (file_contents f).
Proof.
  intros H. unfold file_contents. rewrite H, fold_left_app. reflexivity.
Qed.

Lemma map_seq_from {A : Type} (f : nat -> A) (n : nat) :
  forall a, map f (seq a n) = map (fun i => f (a + i)%nat) (seq 0 n).
Proof.
  induction n as [| n IH]; intros a; cbn [seq map].
  - reflexivity.
  - f_equal.
    + now rewrite Nat.add_0_r.
    + rewrite (IH (S a)), <- (seq_shift n 0), map_map.
      apply map_ext. intros i. f_equal. lia.
Qed.

Lemma mem_read_map (m : memory) (a : Z) (n : nat) :
  mem_read m a n = map (fun i => m (a + Z.of_nat i)) (seq 0 n).
Proof. reflexivity. Qed.

Lemma append_wrapped_faults (buf : list byte) (r r' : redo_t) :
  Redo.append_wrapped buf r = (DB_SUCCESS, r') ->
  f_faults (m_data_file r) = [] ->
  f_faults (m_data_file r') = [].
Proof.
  intros H Hf. unfold Redo.append_wrapped, Redo.append_at_cursor in H.
  unfold File.write, File.next_call_fails, File.consume, File.record,
    Redo.flip_sequence_bit in H.
  cbn in H. rewrite ?Hf in H. cbn in H. rewrite ?Hf in H.
  repeat match type of H with
         | context [if ?b then _ else _] => destruct b; cbn in H
         end;
    inversion H; subst; reflexivity.
Qed.

(** X1. With no read fault, [read_wrapped] returns the window of the
    ring that starts at [offset]: byte [i] of the result is the byte of
    the data file at [(offset + i) mod size], and the call changes
    neither the file nor the cursor. *)
Theorem read_wrapped_window (offset : Z) (dst : list byte) (r : redo_t) :
  f_faults (m_data_file r) = [] ->
  0 <= offset < m_data_file_size r ->
  m_data_file_size r <= 2 ^ 47 ->
  zlen dst <= m_data_file_size r ->
  read_wrapped offset dst r
  = (DB_SUCCESS,
     map (fun i =>
            file_contents (m_data_file r)
              ((offset + Z.of_nat i) mod m_data_file_size r))
         (seq 0 (length dst)),
     r).
Proof.
  intros Hf Hoff Hsize Hlen.
  rewrite (read_wrapped_no_faults offset dst r Hf Hoff Hsize Hlen).
  cbv zeta. do 2 f_equal.
  pose proof (zlen_nonneg dst) as Hnn. unfold zlen in *.
  set (n := m_data_file_size r) in *.
  set (c := file_contents (m_data_file r)).
  destruct (offset + Z.of_nat (length dst) >? n) eqn:Hw.
  - apply Z.gtb_lt in Hw.
    assert (Hseq : seq 0 (length dst)
                   = seq 0 (Z.to_nat (n - offset))
                       ++ seq (0 + Z.to_nat (n - offset))
                            (Z.to_nat (offset + Z.of_nat (length dst) - n))).
    { rewrite <- seq_app. f_equal. lia. }
    rewrite Hseq, map_app. f_equal.
    + rewrite mem_read_map. apply map_ext_in. intros i Hi.
      apply in_seq in Hi. rewrite Z.mod_small by lia. reflexivity.
    + rewrite mem_read_map, (map_seq_from _ _ (0 + Z.to_nat (n - offset))).
      apply map_ext_in. intros i Hi.
      apply in_seq in Hi.
      replace (offset + Z.of_nat (0 + Z.to_nat (n - offset) + i))
        with (Z.of_nat i + 1 * n) by lia.
      rewrite Z.mod_add, Z.mod_small by lia. reflexivity.
  - assert (offset + Z.of_nat (length dst) <= n) by
      (destruct (Z.gtb_spec (offset + Z.of_nat (length dst)) n); [discriminate | lia]).
    rewrite mem_read_map. apply map_ext_in. intros i Hi.
    apply in_seq in Hi. rewrite Z.mod_small by lia. reflexivity.
Qed.

(** X2. Round trip through the ring: after a successful [append_wrapped]
    of [buf] at cursor [p], reading [|buf|] bytes at [p] with
    [read_wrapped] gives [buf] back, whether or not the append went round
    the end of the file. *)
Theorem read_wrapped_after_append (buf dst : list byte) (r r' : redo_t) :
  redo_wf r ->
  zlen buf < m_data_file_size r ->
  length dst = length buf ->
  Redo.append_wrapped buf r = (DB_SUCCESS, r') ->
  f_faults (m_data_file r') = [] ->
  read_wrapped (m_data_file_position r) dst r' = (DB_SUCCESS, buf, r').
Proof.
  intros Hwf Hlen Hdst Happ Hf'.
  pose proof (append_wrapped_success buf r r' Hwf Hlen Happ)
    as (Hsize & _ & _ & Hcase).
  cbv zeta in Hcase. destruct Hwf as [Hpos H47].
  pose proof (zlen_nonneg buf) as Hnn.
  assert (Hzl : zlen dst = zlen buf) by (unfold zlen; congruence).
  rewrite read_wrapped_no_faults; rewrite ?Hsize, ?Hzl; try lia; try assumption.
  cbv zeta. rewrite ?Hsize, ?Hzl. do 2 f_equal.
  set (p := m_data_file_position r) in *.
  set (n := m_data_file_size r) in *.
  destruct (p + zlen buf >? n) eqn:Hw.
  - apply Z.gtb_lt in Hw. destruct Hcase as (Hops & _ & _).
    rewrite (file_contents_ops _ _ _ Hops). cbn [fold_left].
    set (c := file_contents (m_data_file r)).
    set (k := Z.to_nat (n - p)) in *.
    assert (Hk : length (firstn k buf) = k).
    { rewrite length_firstn. unfold zlen in *. lia. }
    assert (Hk' : length (skipn k buf) = Z.to_nat (p + zlen buf - n)).
    { rewrite length_skipn. unfold zlen in *. lia. }
    rewrite mem_read_memcpy_other
      by (right; unfold zlen at 1; rewrite Hk'; lia).
    pose proof (mem_read_memcpy_same (firstn k buf) c p) as H1.
    rewrite Hk in H1. rewrite H1.
    pose proof (mem_read_memcpy_same (skipn k buf)
                  (memcpy c p (firstn k buf)) 0) as H2.
    rewrite Hk' in H2. rewrite H2.
    apply firstn_skipn.
  - destruct Hcase as (Hops & _ & _).
    rewrite (file_contents_ops _ _ _ Hops). cbn [fold_left].
    rewrite Hdst. apply mem_read_memcpy_same.
Qed.

Lemma read_wrapped_window_witness :
  f_faults (m_data_file example_redo_wrapped) = []
  /\ 0 <= 2000 < m_data_file_size example_redo_wrapped
  /\ m_data_file_size example_redo_wrapped <= 2 ^ 47
  /\ zlen (repeat 0 100) <= m_data_file_size example_redo_wrapped
  /\ snd (fst (read_wrapped 2000 (repeat 0 100) example_redo_wrapped))
     = repeat 7 100.
Proof.
  assert (H1 : f_faults (m_data_file example_redo_wrapped) = [])
    by (vm_compute; reflexivity).
  assert (H2 : 0 <= 2000 < m_data_file_size example_redo_wrapped)
    by (vm_compute; split; [discriminate | reflexivity]).
  assert (H3 : m_data_file_size example_redo_wrapped <= 2 ^ 47)
    by (vm_compute; discriminate).
  assert (H4 : zlen (repeat 0 100) <= m_data_file_size example_redo_wrapped)
    by (vm_compute; discriminate).
  split; [exact H1 |]. split; [exact H2 |]. split; [exact H3 |].
  split; [exact H4 |].
  rewrite (read_wrapped_window 2000 (repeat 0 100) example_redo_wrapped
             H1 H2 H3 H4).
  vm_compute. reflexivity.
Defined.

Lemma read_wrapped_after_append_witness :
  redo_wf (example_redo 2000 1)
  /\ zlen (repeat 7 100) < m_data_file_size (example_redo 2000 1)
  /\ length (repeat 0 100) = length (repeat 7 100)
  /\ Redo.append_wrapped (repeat 7 100) (example_redo 2000 1)
     = (DB_SUCCESS, example_redo_wrapped)
  /\ f_faults (m_data_file example_redo_wrapped) = []
  /\ read_wrapped 2000 (repeat 0 100) example_redo_wrapped
     = (DB_SUCCESS, repeat 7 100, example_redo_wrapped).
Proof.
  assert (H1 : redo_wf (example_redo 2000 1)) by (unfold redo_wf; cbn; lia).
  assert (H2 : zlen (repeat 7 100) < m_data_file_size (example_redo 2000 1))
    by (vm_compute; reflexivity).
  assert (H3 : length (repeat 0 100) = length (repeat 7 100))
    by (vm_compute; reflexivity).
  assert (H4 : Redo.append_wrapped (repeat 7 100) (example_redo 2000 1)
               = (DB_SUCCESS, example_redo_wrapped))
    by (vm_compute; reflexivity).
  assert (H5 : f_faults (m_data_file example_redo_wrapped) = [])
    by (vm_compute; reflexivity).
  split; [exact H1 |]. split; [exact H2 |]. split; [exact H3 |].
  split; [exact H4 |]. split; [exact H5 |].
  exact (read_wrapped_after_append (repeat 7 100) (repeat 0 100)
           (example_redo 2000 1) example_redo_wrapped H1 H2 H3 H4 H5).
Defined.
(** ** The main file: file operations and checkpoints *)

(** X3. [append_file_operations_durable] writes [buf] at the tail of the
    main file and, unless writes are durable, flushes; only a call where
    both succeed moves the tail, by [|buf|]. A failed call leaves the
    tail where it was, and no call touches the data file, its cursor or
    the sequence bit. *)
Theorem append_file_operations_durable_tail (buf : list byte) (r : redo_t) :
  let res := append_file_operations_durable buf r in
  let r' := snd res in
  (m_data_file r' = m_data_file r
   /\ m_data_file_position r' = m_data_file_position r
   /\ m_data_file_size r' = m_data_file_size r
   /\ m_sequence_bit r' = m_sequence_bit r)
  /\ (fst res = DB_SUCCESS ->
      m_main_file_size r' = u64 (m_main_file_size r + zlen buf)
      /\ f_ops (m_main_file r')
         = f_ops (m_main_file r)
             ++ Op_write (m_main_file_size r) buf
                :: (if File.writes_are_durable (m_main_file r)
                    then [] else [Op_flush_data]))
  /\ (fst res = DB_ERROR -> m_main_file_size r' = m_main_file_size r)
  /\ (f_faults (m_main_file r) = [] -> fst res = DB_SUCCESS).
Proof.
  cbv zeta. unfold append_file_operations_durable, File.write,
    File.flush_data_only, File.writes_are_durable, File.next_call_fails,
    File.consume, File.record.
  destruct r as [[d ops faults] tail df p n b].
  cbn [m_main_file m_main_file_size f_faults f_ops m_durable_writes tl].
  destruct faults as [| [|] faults]; cbn [tl];
    destruct d; cbn [tl];
    try (destruct faults as [| [|] faults]; cbn [tl]);
    cbn; repeat split; intros; try reflexivity; try discriminate;
    rewrite <- app_assoc; reflexivity.
Qed.

Section CheckpointRecords.
Context {C : Collaborators}.

Lemma checkpoint_record_length (lsn_v offset bit : Z) :
  zlen (Redo.checkpoint_record lsn_v offset bit) = Redo.CHECKPOINT_SIZE.
Proof.
  unfold Redo.checkpoint_record, zlen.
  rewrite !length_app, !mach_write_to_length. reflexivity.
Qed.

(** X4. Checkpoint records are laid end to end: a successful
    [append_checkpoint_durable] puts one write of exactly
    [CHECKPOINT_SIZE] bytes at the old tail of the main file and moves
    the tail to the end of those bytes; a failed one leaves the tail
    where it was. The data file, its cursor and the sequence bit are not
    touched. *)
Theorem append_checkpoint_durable_tail (lsn_v : Z) (r : redo_t) :
  let res := Redo.append_checkpoint_durable lsn_v r in
  let r' := snd res in
  let record :=
    Redo.checkpoint_record lsn_v (m_data_file_position r) (m_sequence_bit r)
  in
  (m_data_file r' = m_data_file r
   /\ m_data_file_position r' = m_data_file_position r
   /\ m_data_file_size r' = m_data_file_size r
   /\ m_sequence_bit r' = m_sequence_bit r)
  /\ (fst res = DB_SUCCESS ->
      m_main_file_size r' = u64 (m_main_file_size r + zlen record)
      /\ zlen record = Redo.CHECKPOINT_SIZE
      /\ f_ops (m_main_file r')
         = f_ops (m_main_file r)
             ++ Op_write (m_main_file_size r) record
                :: (if File.writes_are_durable (m_main_file r)
                    then [] else [Op_flush_data]))
  /\ (fst res = DB_ERROR -> m_main_file_size r' = m_main_file_size r).
Proof.
  cbv zeta. rewrite checkpoint_record_length.
  unfold Redo.append_checkpoint_durable, Redo.append_checkpoint_durable_impl,
    File.write, File.flush_data_only, File.writes_are_durable,
    File.next_call_fails, File.consume, File.record.
  destruct r as [[d ops faults] tail df p n b].
  cbn [m_main_file m_main_file_size m_data_file_position m_sequence_bit
       f_faults f_ops m_durable_writes tl].
  destruct faults as [| [|] faults]; cbn [tl];
    destruct d; cbn [tl];
    try (destruct faults as [| [|] faults]; cbn [tl]);
    cbn [fst snd m_main_file m_main_file_size m_data_file
         m_data_file_position m_data_file_size m_sequence_bit
         Redo.set_main_file Redo.set_main_file_size f_ops f_faults
         m_durable_writes tl];
    repeat split; intros; try reflexivity; try discriminate;
    rewrite <- app_assoc; reflexivity.
Qed.

End CheckpointRecords.
(** ** Checksums and the layout of a checkpoint record *)

Lemma lxor_range (k a b : Z) :
  0 <= k -> 0 <= a < 2 ^ k -> 0 <= b < 2 ^ k -> 0 <= Z.lxor a b < 2 ^ k.
Proof.
  intros Hk Ha Hb.
  assert (Hnn : 0 <= Z.lxor a b) by (apply Z.lxor_nonneg; lia).
  split; [exact Hnn |].
  destruct (Z.eq_dec (Z.lxor a b) 0) as [-> | Hne]; [lia |].
  apply Z.log2_lt_pow2; [lia |].
  eapply Z.le_lt_trans; [apply Z.log2_lxor; lia |].
  apply Z.max_lub_lt.
  - destruct (Z.eq_dec a 0) as [-> | Ha0].
    + cbn. destruct (Z.eq_dec k 0) as [-> | Hk0]; [| lia].
      assert (b = 0) by (cbn in Hb; lia). subst b. cbn in Hne. lia.
    + apply Z.log2_lt_pow2; lia.
  - destruct (Z.eq_dec b 0) as [-> | Hb0].
    + cbn. destruct (Z.eq_dec k 0) as [-> | Hk0]; [| lia].
      assert (a = 0) by (cbn in Ha; lia). subst a. cbn in Hne. lia.
    + apply Z.log2_lt_pow2; lia.
Qed.

Lemma lor_range (k a b : Z) :
  0 <= k -> 0 <= a < 2 ^ k -> 0 <= b < 2 ^ k -> 0 <= Z.lor a b < 2 ^ k.
Proof.
  intros Hk Ha Hb.
  assert (Hnn : 0 <= Z.lor a b) by (apply Z.lor_nonneg; lia).
  split; [exact Hnn |].
  destruct (Z.eq_dec (Z.lor a b) 0) as [-> | Hne]; [lia |].
  apply Z.log2_lt_pow2; [lia |].
  rewrite Z.log2_lor by lia.
  apply Z.max_lub_lt.
  - destruct (Z.eq_dec a 0) as [-> | Ha0].
    + cbn. destruct (Z.eq_dec k 0) as [-> | Hk0]; [| lia].
      assert (b = 0) by (cbn in Hb; lia). subst b. cbn in Hne. lia.
    + apply Z.log2_lt_pow2; lia.
  - destruct (Z.eq_dec b 0) as [-> | Hb0].
    + cbn. destruct (Z.eq_dec k 0) as [-> | Hk0]; [| lia].
      assert (a = 0) by (cbn in Ha; lia). subst a. cbn in Hne. lia.
    + apply Z.log2_lt_pow2; lia.
Qed.

Lemma crc32c_shift_range (n : nat) :
  forall crc, 0 <= crc < 2 ^ 32 -> 0 <= crc32c_shift n crc < 2 ^ 32.
Proof.
  induction n as [| n IH]; intros crc Hc; cbn [crc32c_shift].
  - exact Hc.
  - apply IH.
    assert (Hs : 0 <= Z.shiftr crc 1 < 2 ^ 32).
    { rewrite Z.shiftr_div_pow2 by lia. change (2 ^ 1) with 2.
      split; [apply Z.div_pos; lia |].
      apply Z.div_lt_upper_bound; lia. }
    destruct (Z.testbit crc 0); [| exact Hs].
    apply lxor_range; [lia | exact Hs | lia].
Qed.

Lemma crc32c_fold_range (buf : list byte) :
  bytes_wf buf ->
  forall crc, 0 <= crc < 2 ^ 32 ->
    0 <= fold_left crc32c_update buf crc < 2 ^ 32.
Proof.
  induction 1 as [| b buf Hb _ IH]; intros crc Hc; cbn [fold_left].
  - exact Hc.
  - apply IH. unfold crc32c_update. apply crc32c_shift_range.
    apply lxor_range; lia.
Qed.

Lemma ut_crc32_range (buf : list byte) :
  bytes_wf buf -> 0 <= ut_crc32 buf < 2 ^ 32.
Proof.
  intros H. unfold ut_crc32. apply lxor_range; [lia | | lia].
  apply crc32c_fold_range; [exact H | lia].
Qed.

Lemma mach_write_to_bytes (n : nat) (v : Z) : bytes_wf (mach_write_to n v).
Proof.
  induction n as [| n IH]; cbn [mach_write_to]; constructor.
  - apply Z.mod_pos_bound. lia.
  - exact IH.
Qed.

Lemma subspan_middle {A : Type} (a b c : list A) :
  subspan (zlen a) (zlen b) (a ++ b ++ c) = b.
Proof.
  unfold subspan, zlen. rewrite !Nat2Z.id.
  rewrite skipn_app, skipn_all, Nat.sub_diag. cbn [skipn app].
  rewrite firstn_app, firstn_all, Nat.sub_diag. cbn [firstn].
  apply app_nil_r.
Qed.

Lemma lor_high_bit (bit offset : Z) :
  bit = 0 \/ bit = 1 ->
  0 <= offset < 2 ^ 47 ->
  Z.lor (u64 (Z.shiftl bit 47)) offset = bit * 2 ^ 47 + offset.
Proof.
  intros [-> | ->] Hoff.
  - reflexivity.
  - change (u64 (Z.shiftl 1 47)) with (2 ^ 47). rewrite Z.mul_1_l.
    assert (Hland : Z.land (2 ^ 47) offset = 0).
    { apply Z.bits_inj'. intros i Hi. rewrite Z.land_spec, Z.bits_0.
      rewrite Z.pow2_bits_eqb by lia.
      destruct (Z.eqb_spec 47 i) as [<- | Hne]; [| reflexivity].
      cbn [andb].
      destruct (Z.eq_dec offset 0) as [-> | H0]; [apply Z.bits_0 |].
      apply Z.bits_above_log2; [lia |].
      apply Z.log2_lt_pow2; lia. }
    rewrite <- Z.lxor_lor by exact Hland.
    symmetry. apply Z.add_nocarry_lxor. exact Hland.
Qed.

Section CheckpointLayout.
Context {C : Collaborators}.

(** X5. A checkpoint record can be decoded: its 19 bytes are the type
    byte, the lsn as 8 big-endian bytes, then 6 bytes whose value holds
    the sequence bit in bit 47 and the cursor of the data file below it,
    and the CRC-32C of these 15 bytes as 4 big-endian bytes. *)
Theorem checkpoint_record_layout (lsn_v offset bit : Z) :
  0 <= FILE_CHECKPOINT < 256 ->
  0 <= lsn_v < 2 ^ 64 ->
  0 <= offset < 2 ^ 47 ->
  bit = 0 \/ bit = 1 ->
  let record := Redo.checkpoint_record lsn_v offset bit in
  let field := mach_read_from (subspan 9 6 record) in
  zlen record = Redo.CHECKPOINT_SIZE
  /\ subspan 0 1 record = [Z.lor FILE_CHECKPOINT (8 + 6)]
  /\ mach_read_from (subspan 1 8 record) = lsn_v
  /\ field / 2 ^ 47 = bit
  /\ field mod 2 ^ 47 = offset
  /\ mach_read_from (subspan 15 4 record) = ut_crc32 (subspan 0 15 record).
Proof.
  intros HFC Hlsn Hoff Hbit record field.
  split; [apply checkpoint_record_length |].
  subst field record. unfold Redo.checkpoint_record.
  set (b0 := [Z.lor FILE_CHECKPOINT (8 + 6)]).
  set (l8 := mach_write_to 8 lsn_v).
  set (x := Z.lor (u64 (Z.shiftl bit 47)) offset).
  set (l6 := mach_write_to 6 x).
  set (head := b0 ++ l8 ++ l6).
  set (l4 := mach_write_to 4 (ut_crc32 head)).
  assert (Hx : x = bit * 2 ^ 47 + offset) by (apply lor_high_bit; assumption).
  assert (E0 : subspan 0 1 (head ++ l4) = b0).
  { unfold head. rewrite <- !app_assoc.
    exact (subspan_middle [] b0 (l8 ++ l6 ++ l4)). }
  assert (E1 : subspan 1 8 (head ++ l4) = l8).
  { unfold head. rewrite <- !app_assoc.
    exact (subspan_middle b0 l8 (l6 ++ l4)). }
  assert (E2 : subspan 9 6 (head ++ l4) = l6).
  { unfold head. rewrite <- !app_assoc.
    exact (subspan_middle (b0 ++ l8) l6 l4). }
  assert (E3 : subspan 15 4 (head ++ l4) = l4).
  { pose proof (subspan_middle head l4 []) as H.
    rewrite app_nil_r in H. exact H. }
  assert (E4 : subspan 0 15 (head ++ l4) = head).
  { exact (subspan_middle [] head l4). }
  cbv delta [byte] in *.
  rewrite E0, E1, E2, E3, E4.
  split; [reflexivity |].
  unfold l8, l6, l4. rewrite !mach_read_write.
  split.
  { apply Z.mod_small. change (256 ^ Z.of_nat 8) with (2 ^ 64). exact Hlsn. }
  assert (Hxr : 0 <= x < 256 ^ Z.of_nat 6).
  { change (256 ^ Z.of_nat 6) with (2 ^ 48). rewrite Hx.
    change (2 ^ 48) with (2 * 2 ^ 47). destruct Hbit as [-> | ->]; lia. }
  rewrite (Z.mod_small x) by exact Hxr.
  split.
  { rewrite Hx, Z.add_comm, Z.div_add by lia.
    rewrite Z.div_small by lia. reflexivity. }
  split.
  { rewrite Hx, Z.add_comm, Z.mod_add by lia. apply Z.mod_small. lia. }
  apply Z.mod_small. change (256 ^ Z.of_nat 4) with (2 ^ 32).
  apply ut_crc32_range. unfold head, bytes_wf.
  rewrite !Forall_app. repeat split.
  - constructor; [| constructor].
    change 256 with (2 ^ 8). apply lor_range; lia.
  - apply mach_write_to_bytes.
  - apply mach_write_to_bytes.
Qed.

End CheckpointLayout.

Lemma checkpoint_record_layout_witness :
  0 <= FILE_CHECKPOINT < 256
  /\ 0 <= 8204 < 2 ^ 64
  /\ 0 <= 256 < 2 ^ 47
  /\ (1 = 0 \/ 1 = 1)
  /\ mach_read_from (subspan 1 8 (Redo.checkpoint_record 8204 256 1)) = 8204
  /\ mach_read_from (subspan 9 6 (Redo.checkpoint_record 8204 256 1))
     = 2 ^ 47 + 256.
Proof.
  assert (H1 : 0 <= FILE_CHECKPOINT < 256) by (cbn; lia).
  assert (H2 : 0 <= 8204 < 2 ^ 64) by lia.
  assert (H3 : 0 <= 256 < 2 ^ 47) by lia.
  assert (H4 : 1 = 0 \/ 1 = 1) by (right; reflexivity).
  split; [exact H1 |]. split; [exact H2 |]. split; [exact H3 |].
  split; [exact H4 |].
  split.
  - exact (proj1 (proj2 (proj2
             (checkpoint_record_layout 8204 256 1 H1 H2 H3 H4)))).
  - vm_compute. reflexivity.
Defined.
(** ** From lsn to file offset *)

Lemma calc_lsn_offset_mod (f : log_t_file) (x : Z) :
  0 < file_size f < 2 ^ 63 ->
  0 <= file_lsn f < 2 ^ 63 ->
  0 <= file_lsn_offset f < 2 ^ 63 ->
  0 <= x < 2 ^ 63 ->
  calc_lsn_offset f x = (x - file_lsn f + file_lsn_offset f) mod file_size f.
Proof.
  intros Hsize Hlsn Hoff Hx. unfold calc_lsn_offset.
  set (size := file_size f) in *.
  set (L := file_lsn f) in *.
  set (O := file_lsn_offset f) in *.
  assert (H63 : 2 ^ 64 = 2 * 2 ^ 63) by reflexivity.
  destruct (Z_lt_le_dec x L) as [Hlt | Hge].
  - assert (Hu : u64 (x - L) = 2 ^ 64 + (x - L)).
    { unfold u64. rewrite <- (Z.mod_add (x - L) 1 (2 ^ 64)) by lia.
      rewrite Z.mod_small by lia. lia. }
    rewrite Hu.
    destruct (Z.leb_spec (2 ^ 63) (2 ^ 64 + (x - L))) as [_ | Hbad]; [| lia].
    replace (2 ^ 64 - (2 ^ 64 + (x - L))) with (L - x) by lia.
    rewrite (u64_small (L - x)) by lia.
    pose proof (Z.mod_pos_bound (L - x) size ltac:(lia)) as Hm.
    rewrite (u64_small (size - (L - x) mod size)) by lia.
    rewrite (u64_small (size - (L - x) mod size + O)) by lia.
    replace (size - (L - x) mod size + O)
      with ((O - (L - x) mod size) + 1 * size) by lia.
    rewrite Z.mod_add by lia.
    rewrite Zminus_mod_idemp_r. f_equal. lia.
  - rewrite (u64_small (x - L)) by lia.
    destruct (Z.leb_spec (2 ^ 63) (x - L)) as [Hbad | _]; [lia |].
    rewrite (u64_small (x - L + O)) by lia. reflexivity.
Qed.

(** X6. [calc_lsn_offset] maps lsns onto the file as a ring: the offset
    of [x] is [(x - lsn + lsn_offset) mod file_size], it lies inside the
    file, and an lsn [d] bytes further lies [d] bytes further round the
    ring. This holds on both sides of the anchor lsn. *)
Theorem calc_lsn_offset_ring (f : log_t_file) (x d : Z) :
  0 < file_size f < 2 ^ 63 ->
  0 <= file_lsn f < 2 ^ 63 ->
  0 <= file_lsn_offset f < 2 ^ 63 ->
  0 <= x < 2 ^ 63 ->
  0 <= x + d < 2 ^ 63 ->
  calc_lsn_offset f x = (x - file_lsn f + file_lsn_offset f) mod file_size f
  /\ 0 <= calc_lsn_offset f x < file_size f
  /\ calc_lsn_offset f (x + d) = (calc_lsn_offset f x + d) mod file_size f.
Proof.
  intros Hsize Hlsn Hoff Hx Hxd.
  rewrite !calc_lsn_offset_mod by assumption.
  split; [reflexivity |].
  split; [apply Z.mod_pos_bound; lia |].
  rewrite Zplus_mod_idemp_l. f_equal. lia.
Qed.

Lemma calc_lsn_offset_ring_witness :
  0 < file_size (log (example_log false 8204 8204 8204 8204)) < 2 ^ 63
  /\ 0 <= file_lsn (log (example_log false 8204 8204 8204 8204)) < 2 ^ 63
  /\ 0 <= file_lsn_offset (log (example_log false 8204 8204 8204 8204))
       < 2 ^ 63
  /\ 0 <= 65000 < 2 ^ 63
  /\ 0 <= 65000 + 1000 < 2 ^ 63
  /\ calc_lsn_offset (log (example_log false 8204 8204 8204 8204))
       (65000 + 1000) = 464.
Proof.
  assert (H1 : 0 < file_size (log (example_log false 8204 8204 8204 8204))
               < 2 ^ 63) by (cbn; lia).
  assert (H2 : 0 <= file_lsn (log (example_log false 8204 8204 8204 8204))
               < 2 ^ 63) by (cbn; lia).
  assert (H3 : 0 <= file_lsn_offset
                      (log (example_log false 8204 8204 8204 8204))
               < 2 ^ 63) by (cbn; lia).
  assert (H4 : 0 <= 65000 < 2 ^ 63) by lia.
  assert (H5 : 0 <= 65000 + 1000 < 2 ^ 63) by lia.
  split; [exact H1 |]. split; [exact H2 |]. split; [exact H3 |].
  split; [exact H4 |]. split; [exact H5 |].
  rewrite (proj2 (proj2 (calc_lsn_offset_ring
                           (log (example_log false 8204 8204 8204 8204))
                           65000 1000 H1 H2 H3 H4 H5))).
  vm_compute. reflexivity.
Defined.

(** X7. [set_fields] moves the anchor of the mapping without changing
    the mapping: after [set_fields(l)] every lsn has the offset it had
    before, and the new anchor offset lies inside the file. *)
Theorem set_fields_keeps_offsets (f : log_t_file) (l x : Z) :
  0 < file_size f < 2 ^ 63 ->
  0 <= file_lsn f < 2 ^ 63 ->
  0 <= file_lsn_offset f < 2 ^ 63 ->
  0 <= l < 2 ^ 63 ->
  0 <= x < 2 ^ 63 ->
  calc_lsn_offset (set_fields l f) x = calc_lsn_offset f x
  /\ file_lsn (set_fields l f) = l
  /\ 0 <= file_lsn_offset (set_fields l f) < file_size f
  /\ file_size (set_fields l f) = file_size f.
Proof.
  intros Hsize Hlsn Hoff Hl Hx.
  assert (Hnew : file_lsn_offset (set_fields l f) = calc_lsn_offset f l)
    by reflexivity.
  assert (Hr : 0 <= calc_lsn_offset f l < file_size f).
  { rewrite calc_lsn_offset_mod by assumption.
    apply Z.mod_pos_bound. lia. }
  split.
  - rewrite (calc_lsn_offset_mod (set_fields l f))
      by (rewrite ?Hnew; cbn [set_fields set_file_lsn set_file_lsn_offset
                              file_size file_lsn]; lia).
    rewrite Hnew. cbn [set_fields set_file_lsn set_file_lsn_offset
                       file_size file_lsn].
    rewrite !calc_lsn_offset_mod by assumption.
    rewrite Zplus_mod_idemp_r. f_equal. lia.
  - split; [reflexivity |]. split; [rewrite Hnew; exact Hr | reflexivity].
Qed.

Lemma set_fields_keeps_offsets_witness :
  0 < file_size (log (example_log false 8204 8204 8204 8204)) < 2 ^ 63
  /\ 0 <= file_lsn (log (example_log false 8204 8204 8204 8204)) < 2 ^ 63
  /\ 0 <= file_lsn_offset (log (example_log false 8204 8204 8204 8204))
       < 2 ^ 63
  /\ 0 <= 70000 < 2 ^ 63
  /\ 0 <= 8204 < 2 ^ 63
  /\ calc_lsn_offset
       (set_fields 70000 (log (example_log false 8204 8204 8204 8204))) 8204
     = calc_lsn_offset (log (example_log false 8204 8204 8204 8204)) 8204
  /\ file_lsn_offset
       (set_fields 70000 (log (example_log false 8204 8204 8204 8204)))
     = 4464.
Proof.
  assert (H1 : 0 < file_size (log (example_log false 8204 8204 8204 8204))
               < 2 ^ 63) by (cbn; lia).
  assert (H2 : 0 <= file_lsn (log (example_log false 8204 8204 8204 8204))
               < 2 ^ 63) by (cbn; lia).
  assert (H3 : 0 <= file_lsn_offset
                      (log (example_log false 8204 8204 8204 8204))
               < 2 ^ 63) by (cbn; lia).
  assert (H4 : 0 <= 70000 < 2 ^ 63) by lia.
  assert (H5 : 0 <= 8204 < 2 ^ 63) by lia.
  split; [exact H1 |]. split; [exact H2 |]. split; [exact H3 |].
  split; [exact H4 |]. split; [exact H5 |].
  split.
  - exact (proj1 (set_fields_keeps_offsets
                    (log (example_log false 8204 8204 8204 8204))
                    70000 8204 H1 H2 H3 H4 H5)).
  - vm_compute. reflexivity.
Defined.
(** ** Block checksums and the write to the data file *)

Lemma mem_read_bytes (m : memory) (addr : Z) (n : nat) :
  region_wf m addr (Z.of_nat n) -> bytes_wf (mem_read m addr n).
Proof.
  intros H. unfold bytes_wf, mem_read. apply Forall_forall.
  intros b Hb. apply in_map_iff in Hb. destruct Hb as (i & <- & Hi).
  apply in_seq in Hi. apply H. lia.
Qed.

Lemma log_block_store_checksum_outside (m : memory) (block a : Z) :
  a < block + (OS_FILE_LOG_BLOCK_SIZE - LOG_BLOCK_CHECKSUM)
  \/ block + OS_FILE_LOG_BLOCK_SIZE <= a ->
  LogBlock.log_block_store_checksum m block a = m a.
Proof.
  intros H. unfold LogBlock.log_block_store_checksum,
    LogBlock.log_block_set_checksum, mem_write_to.
  apply memcpy_outside. unfold zlen. rewrite mach_write_to_length.
  unfold OS_FILE_LOG_BLOCK_SIZE, LOG_BLOCK_CHECKSUM in *. cbn. lia.
Qed.

Lemma block_checksum_ok_ext (m m' : memory) (block : Z) :
  (forall a, block <= a < block + OS_FILE_LOG_BLOCK_SIZE -> m' a = m a) ->
  block_checksum_ok m block -> block_checksum_ok m' block.
Proof.
  unfold block_checksum_ok, LogBlock.log_block_calc_checksum_crc32,
    mem_read_from, OS_FILE_LOG_BLOCK_SIZE, LOG_BLOCK_CHECKSUM.
  intros Hext Hok.
  rewrite (mem_read_ext m' m (block + 512 - 4) 4)
    by (intros i Hi; apply Hext; cbn in Hi; lia).
  rewrite (mem_read_ext m' m block (Z.to_nat (512 - 4)))
    by (intros i Hi; apply Hext; cbn in Hi; lia).
  exact Hok.
Qed.

Lemma log_block_store_checksum_ok (m : memory) (block : Z) :
  region_wf m block (OS_FILE_LOG_BLOCK_SIZE - LOG_BLOCK_CHECKSUM) ->
  block_checksum_ok (LogBlock.log_block_store_checksum m block) block.
Proof.
  intros Hwf. unfold block_checksum_ok.
  assert (Hsame : LogBlock.log_block_calc_checksum_crc32
                    (LogBlock.log_block_store_checksum m block) block
                  = LogBlock.log_block_calc_checksum_crc32 m block).
  { unfold LogBlock.log_block_calc_checksum_crc32. f_equal.
    apply mem_read_ext. intros i Hi.
    apply log_block_store_checksum_outside. left.
    unfold OS_FILE_LOG_BLOCK_SIZE, LOG_BLOCK_CHECKSUM in *. lia. }
  rewrite Hsame.
  unfold LogBlock.log_block_store_checksum, LogBlock.log_block_set_checksum.
  rewrite mem_read_write_same. apply Z.mod_small.
  change (256 ^ Z.of_nat 4) with (2 ^ 32).
  unfold LogBlock.log_block_calc_checksum_crc32.
  apply ut_crc32_range, mem_read_bytes.
  intros a Ha. apply Hwf.
  unfold OS_FILE_LOG_BLOCK_SIZE, LOG_BLOCK_CHECKSUM in *. lia.
Qed.


(** X8. After [log_block_store_checksum] the block verifies: its last
    four bytes, read big-endian, are the CRC-32C of the 508 bytes before
    them, and no byte outside these four has changed. *)
Theorem log_block_store_checksum_verifies (m : memory) (block : Z) :
  region_wf m block (OS_FILE_LOG_BLOCK_SIZE - LOG_BLOCK_CHECKSUM) ->
  let m' := LogBlock.log_block_store_checksum m block in
  block_checksum_ok m' block
  /\ LogBlock.log_block_calc_checksum_crc32 m' block
     = LogBlock.log_block_calc_checksum_crc32 m block
  /\ (forall a,
         a < block + (OS_FILE_LOG_BLOCK_SIZE - LOG_BLOCK_CHECKSUM)
         \/ block + OS_FILE_LOG_BLOCK_SIZE <= a ->
         m' a = m a).
Proof.
  intros Hwf m'. subst m'.
  split; [apply log_block_store_checksum_ok; exact Hwf |].
  split.
  - unfold LogBlock.log_block_calc_checksum_crc32. f_equal.
    apply mem_read_ext. intros i Hi.
    apply log_block_store_checksum_outside. left.
    unfold OS_FILE_LOG_BLOCK_SIZE, LOG_BLOCK_CHECKSUM in *. lia.
  - intros a Ha. apply log_block_store_checksum_outside. exact Ha.
Qed.

Lemma log_block_store_checksum_verifies_witness :
  region_wf (buf_mem (example_log false 8204 8204 8204 8204)) 0
    (OS_FILE_LOG_BLOCK_SIZE - LOG_BLOCK_CHECKSUM)
  /\ block_checksum_ok
       (LogBlock.log_block_store_checksum
          (buf_mem (example_log false 8204 8204 8204 8204)) 0) 0.
Proof.
  assert (H1 : region_wf (buf_mem (example_log false 8204 8204 8204 8204)) 0
                 (OS_FILE_LOG_BLOCK_SIZE - LOG_BLOCK_CHECKSUM)).
  { intros a _. cbn. lia. }
  split; [exact H1 |].
  exact (proj1 (log_block_store_checksum_verifies
                  (buf_mem (example_log false 8204 8204 8204 8204)) 0 H1)).
Defined.

Lemma store_checksums_outside (m : memory) (addr a : Z) (n : nat) :
  a < addr \/ addr + Z.of_nat n * OS_FILE_LOG_BLOCK_SIZE <= a ->
  store_checksums m addr n a = m a.
Proof.
  unfold store_checksums. induction n as [| n IH]; intros Ha.
  - reflexivity.
  - rewrite seq_S, fold_left_app. cbn [fold_left Nat.add].
    rewrite log_block_store_checksum_outside
      by (unfold OS_FILE_LOG_BLOCK_SIZE, LOG_BLOCK_CHECKSUM in *; lia).
    apply IH. unfold OS_FILE_LOG_BLOCK_SIZE in *. lia.
Qed.

Lemma mem_read_app (m : memory) (a : Z) (n1 n2 : nat) :
  mem_read m a (n1 + n2)
  = mem_read m a n1 ++ mem_read m (a + Z.of_nat n1) n2.
Proof.
  unfold mem_read. rewrite seq_app, map_app. f_equal.
  rewrite (map_seq_from _ n2 (0 + n1)). apply map_ext. intros i.
  f_equal. lia.
Qed.

Lemma data_write_ops (offset : Z) (data : list byte) (s s' : log_t) :
  data_write offset data s = Returned s' ->
  f_ops (data_fd (log s'))
  = f_ops (data_fd (log s)) ++ [Op_write offset data]
  /\ buf_mem s' = buf_mem s
  /\ file_size (log s') = file_size (log s).
Proof.
  unfold data_write, File.write, File.record, File.consume.
  destruct (File.next_call_fails (data_fd (log s))); [discriminate |].
  intros H. injection H as <-. repeat split.
Qed.

Lemma log_write_buf_loop_writes (fuel : nat) :
  forall (buf_addr len start_lsn : Z) (s s' : log_t),
    0 <= len < 2 ^ 63 ->
    0 < file_size (log s) < 2 ^ 63 ->
    log_write_buf_loop fuel buf_addr len start_lsn s = Returned s' ->
    exists ops,
      f_ops (data_fd (log s')) = f_ops (data_fd (log s)) ++ ops
      /\ writes_within (file_size (log s)) ops
      /\ File.written ops = mem_read (buf_mem s') buf_addr (Z.to_nat len)
      /\ (forall a, a < buf_addr \/ buf_addr + len <= a ->
                    buf_mem s' a = buf_mem s a).
Proof.
  induction fuel as [| fuel IH]; intros buf_addr len start_lsn s s' Hlen Hsize;
    cbn [log_write_buf_loop].
  - destruct (Z.eqb_spec len 0) as [-> | Hne]; [| discriminate].
    intros H. injection H as <-. exists [].
    rewrite app_nil_r. repeat split. constructor.
  - destruct (Z.eqb_spec len 0) as [-> | Hne].
    { intros H. injection H as <-. exists [].
      rewrite app_nil_r. repeat split. constructor. }
    destruct (Z.eqb_spec (file_size (log s)) 0) as [H0 | _]; [lia |].
    set (size := file_size (log s)) in *.
    set (no := calc_lsn_offset (log s) start_lsn).
    assert (Hno : 0 <= no < size).
    { subst no. unfold calc_lsn_offset. apply Z.mod_pos_bound.
      fold size. lia. }
    rewrite (Z.mod_small no size) by exact Hno.
    rewrite (u64_small (no + len)) by lia.
    rewrite (u64_small (size - no)) by lia.
    set (wl := if no + len >? size then size - no else len).
    assert (Hwl : 0 <= wl <= len /\ no + wl <= size
                  /\ (wl <? len) = (no + len >? size)).
    { subst wl. destruct (Z.gtb_spec (no + len) size).
      - split; [lia |]. split; [lia |]. apply Z.ltb_lt. lia.
      - split; [lia |]. split; [lia |]. apply Z.ltb_irrefl. }
    destruct Hwl as (Hwl1 & Hwl2 & Hwl3).
    set (n := Z.to_nat (wl / OS_FILE_LOG_BLOCK_SIZE)).
    assert (Hn : Z.of_nat n * OS_FILE_LOG_BLOCK_SIZE <= wl).
    { subst n. unfold OS_FILE_LOG_BLOCK_SIZE.
      rewrite Z2Nat.id by (apply Z.div_pos; lia).
      pose proof (Z.mul_div_le wl 512 ltac:(lia)). lia. }
    set (m1 := store_checksums (buf_mem s) buf_addr n).
    set (s1 := set_n_log_ios (u64 (n_log_ios s + 1)) (set_buf_mem m1 s)).
    set (data := mem_read (buf_mem s1) buf_addr (Z.to_nat wl)).
    destruct (data_write no data s1) as [s2 | |] eqn:Hdw; cbn [bind];
      try discriminate.
    apply data_write_ops in Hdw. destruct Hdw as (Hops & Hmem & Hfs).
    change (buf_mem s1) with m1 in Hmem.
    change (file_size (log s1)) with size in Hfs.
    change (f_ops (data_fd (log s1))) with (f_ops (data_fd (log s))) in Hops.
    assert (Hw1 : writes_within size [Op_write no data]).
    { constructor; [| constructor]. subst data. unfold zlen.
      rewrite mem_read_length. lia. }
    rewrite Hwl3. destruct (Z.gtb_spec (no + len) size) as [Hwrap | Hfit].
    + assert (Hwl' : wl = size - no).
      { subst wl. destruct (Z.gtb_spec (no + len) size); lia. }
      rewrite (u64_small (len - wl)) by lia.
      intros Hrec.
      apply IH in Hrec; [| lia | rewrite Hfs; lia].
      destruct Hrec as (ops & Hops' & Hwithin & Hwritten & Hframe).
      exists (Op_write no data :: ops).
      split; [rewrite Hops', Hops, <- app_assoc; reflexivity |].
      split; [constructor; [inversion Hw1; assumption |
                            rewrite Hfs in Hwithin; exact Hwithin] |].
      split.
      * cbn [File.written]. rewrite Hwritten.
        replace (Z.to_nat len) with (Z.to_nat wl + Z.to_nat (len - wl))%nat
          by lia.
        rewrite mem_read_app, Z2Nat.id by lia. f_equal.
        subst data. apply mem_read_ext. intros i Hi.
        change (buf_mem s1) with m1. rewrite <- Hmem. symmetry.
        apply Hframe. lia.
      * intros a Ha. rewrite Hframe by lia. rewrite Hmem. subst m1.
        apply store_checksums_outside. lia.
    + assert (Hwl' : wl = len).
      { subst wl. destruct (Z.gtb_spec (no + len) size); lia. }
      intros H. injection H as <-.
      exists [Op_write no data].
      split; [exact Hops |]. split; [exact Hw1 |].
      split.
      * cbn [File.written]. rewrite app_nil_r, Hmem. subst data.
        rewrite Hwl'. reflexivity.
      * intros a Ha. rewrite Hmem. subst m1.
        apply store_checksums_outside. lia.
Qed.

(** X9. [log_write_buf] sends the [len] bytes of the log buffer at
    [buf_addr], as they stand once the block checksums are stored, to the
    data file in order; every write lies inside the file (a write that
    would pass the end is cut there and continued), and no buffer byte
    outside these [len] bytes changes. Lengths and start lsns that are
    not multiples of the block size end the process. *)
Theorem log_write_buf_writes (buf_addr len start_lsn : Z) (s s' : log_t) :
  0 <= len < 2 ^ 63 ->
  0 < file_size (log s) < 2 ^ 63 ->
  log_write_buf buf_addr len start_lsn s = Returned s' ->
  len mod OS_FILE_LOG_BLOCK_SIZE = 0
  /\ start_lsn mod OS_FILE_LOG_BLOCK_SIZE = 0
  /\ exists ops,
      f_ops (data_fd (log s')) = f_ops (data_fd (log s)) ++ ops
      /\ writes_within (file_size (log s)) ops
      /\ File.written ops = mem_read (buf_mem s') buf_addr (Z.to_nat len)
      /\ (forall a, a < buf_addr \/ buf_addr + len <= a ->
                    buf_mem s' a = buf_mem s a).
Proof.
  intros Hlen Hsize. unfold log_write_buf.
  destruct (Z.eqb_spec (len mod OS_FILE_LOG_BLOCK_SIZE) 0) as [H1 | _];
    cbn [negb]; [| discriminate].
  destruct (Z.eqb_spec (start_lsn mod OS_FILE_LOG_BLOCK_SIZE) 0) as [H2 | _];
    cbn [negb]; [| discriminate].
  intros H. split; [exact H1 |]. split; [exact H2 |].
  exact (log_write_buf_loop_writes _ _ _ _ _ _ Hlen Hsize H).
Qed.

Lemma log_write_buf_writes_witness :
  0 <= 1024 < 2 ^ 63
  /\ 0 < file_size (log (example_log false 8204 8204 8204 8204)) < 2 ^ 63
  /\ exists s',
       log_write_buf 0 1024 65024 (example_log false 8204 8204 8204 8204)
       = Returned s'
       /\ exists ops,
            f_ops (data_fd (log s')) = ops
            /\ writes_within
                 (file_size (log (example_log false 8204 8204 8204 8204)))
                 ops
            /\ length ops = 2%nat.
Proof.
  assert (H1 : 0 <= 1024 < 2 ^ 63) by lia.
  assert (H2 : 0 < file_size (log (example_log false 8204 8204 8204 8204))
               < 2 ^ 63) by (cbn; lia).
  split; [exact H1 |]. split; [exact H2 |].
  assert (Hc : match log_write_buf 0 1024 65024
                       (example_log false 8204 8204 8204 8204) with
               | Returned s' => length (f_ops (data_fd (log s'))) = 2%nat
               | Blocked => False
               | Aborted => False
               end) by (vm_compute; reflexivity).
  revert Hc.
  destruct (log_write_buf 0 1024 65024
              (example_log false 8204 8204 8204 8204)) as [s' | |] eqn:E;
    intros Hc; [| contradiction | contradiction].
  exists s'. split; [reflexivity |].
  destruct (log_write_buf_writes 0 1024 65024
              (example_log false 8204 8204 8204 8204) s' H1 H2 E)
    as (_ & _ & ops & Hops & Hwithin & _).
  exists ops. split; [exact Hops |]. split; [exact Hwithin |].
  rewrite Hops in Hc. exact Hc.
Defined.

Lemma store_checksums_S (m : memory) (addr : Z) (n : nat) :
  store_checksums m addr (S n)
  = LogBlock.log_block_store_checksum (store_checksums m addr n)
      (addr + Z.of_nat n * OS_FILE_LOG_BLOCK_SIZE).
Proof.
  unfold store_checksums. rewrite seq_S, fold_left_app. reflexivity.
Qed.

Lemma store_checksums_ok (m : memory) (addr : Z) (n : nat) :
  region_wf m addr (Z.of_nat n * OS_FILE_LOG_BLOCK_SIZE) ->
  forall j, 0 <= j < Z.of_nat n ->
    block_checksum_ok (store_checksums m addr n)
      (addr + j * OS_FILE_LOG_BLOCK_SIZE).
Proof.
  induction n as [| n IH]; intros Hwf j Hj; [lia |].
  rewrite store_checksums_S.
  destruct (Z.eq_dec j (Z.of_nat n)) as [-> | Hne].
  - apply log_block_store_checksum_ok. intros a Ha.
    rewrite store_checksums_outside
      by (unfold OS_FILE_LOG_BLOCK_SIZE, LOG_BLOCK_CHECKSUM in *; lia).
    apply Hwf. unfold OS_FILE_LOG_BLOCK_SIZE, LOG_BLOCK_CHECKSUM in *. lia.
  - apply (block_checksum_ok_ext (store_checksums m addr n)).
    + intros a Ha. apply log_block_store_checksum_outside.
      unfold OS_FILE_LOG_BLOCK_SIZE, LOG_BLOCK_CHECKSUM in *. lia.
    + apply IH; [| lia]. intros a Ha. apply Hwf.
      unfold OS_FILE_LOG_BLOCK_SIZE in *. lia.
Qed.

Lemma data_write_anchor (offset : Z) (data : list byte) (s s' : log_t) :
  data_write offset data s = Returned s' ->
  file_lsn (log s') = file_lsn (log s)
  /\ file_lsn_offset (log s') = file_lsn_offset (log s).
Proof.
  unfold data_write, File.write, File.record, File.consume.
  destruct (File.next_call_fails (data_fd (log s))); [discriminate |].
  intros H. injection H as <-. split; reflexivity.
Qed.

Lemma log_write_buf_loop_checksums (fuel : nat) :
  forall (buf_addr len start_lsn : Z) (s s' : log_t),
    0 < file_size (log s) < 2 ^ 63 ->
    file_size (log s) mod OS_FILE_LOG_BLOCK_SIZE = 0 ->
    0 <= file_lsn (log s) < 2 ^ 63 ->
    0 <= file_lsn_offset (log s) < 2 ^ 63 ->
    (file_lsn_offset (log s) - file_lsn (log s)) mod OS_FILE_LOG_BLOCK_SIZE
    = 0 ->
    0 <= start_lsn ->
    0 <= len ->
    start_lsn + len < 2 ^ 63 ->
    len mod OS_FILE_LOG_BLOCK_SIZE = 0 ->
    start_lsn mod OS_FILE_LOG_BLOCK_SIZE = 0 ->
    region_wf (buf_mem s) buf_addr len ->
    log_write_buf_loop fuel buf_addr len start_lsn s = Returned s' ->
    forall j, 0 <= j < len / OS_FILE_LOG_BLOCK_SIZE ->
      block_checksum_ok (buf_mem s')
        (buf_addr + j * OS_FILE_LOG_BLOCK_SIZE).
Proof.
  induction fuel as [| fuel IH];
    intros buf_addr len start_lsn s s' Hsize Hsz512 HL HO HLO Hstart Hlen
      Hend Hlen512 Hst512 Hwf;
    cbn [log_write_buf_loop].
  - destruct (Z.eqb_spec len 0) as [-> | Hne]; [| discriminate].
    intros _ j Hj. cbn in Hj. lia.
  - destruct (Z.eqb_spec len 0) as [-> | Hne].
    { intros _ j Hj. cbn in Hj. lia. }
    destruct (Z.eqb_spec (file_size (log s)) 0) as [H0 | _]; [lia |].
    set (size := file_size (log s)) in *.
    set (no := calc_lsn_offset (log s) start_lsn).
    assert (Hnoeq : no = (start_lsn - file_lsn (log s)
                          + file_lsn_offset (log s)) mod size).
    { subst no. apply calc_lsn_offset_mod; try assumption; lia. }
    assert (Hno : 0 <= no < size).
    { rewrite Hnoeq. apply Z.mod_pos_bound. lia. }
    assert (Hno512 : no mod OS_FILE_LOG_BLOCK_SIZE = 0).
    { rewrite Hnoeq. unfold OS_FILE_LOG_BLOCK_SIZE in *.
      rewrite Z.mod_mod_divide
        by (apply Z.mod_divide; [lia | exact Hsz512]).
      replace (start_lsn - file_lsn (log s) + file_lsn_offset (log s))
        with (start_lsn + (file_lsn_offset (log s) - file_lsn (log s)))
        by lia.
      rewrite Z.add_mod, Hst512, HLO by lia. reflexivity. }
    rewrite (Z.mod_small no size) by exact Hno.
    rewrite (u64_small (no + len)) by lia.
    rewrite (u64_small (size - no)) by lia.
    set (wl := if no + len >? size then size - no else len).
    assert (Hwl : 0 <= wl <= len /\ (wl <? len) = (no + len >? size)
                  /\ wl mod OS_FILE_LOG_BLOCK_SIZE = 0).
    { subst wl. destruct (Z.gtb_spec (no + len) size).
      - split; [lia |]. split; [apply Z.ltb_lt; lia |].
        unfold OS_FILE_LOG_BLOCK_SIZE in *.
        rewrite Zminus_mod, Hsz512, Hno512. reflexivity.
      - split; [lia |]. split; [apply Z.ltb_irrefl | exact Hlen512]. }
    destruct Hwl as (Hwl1 & Hwl3 & Hwl512).
    set (n := Z.to_nat (wl / OS_FILE_LOG_BLOCK_SIZE)).
    assert (Hn : Z.of_nat n * OS_FILE_LOG_BLOCK_SIZE = wl).
    { subst n. unfold OS_FILE_LOG_BLOCK_SIZE in *.
      rewrite Z2Nat.id by (apply Z.div_pos; lia).
      pose proof (Z.div_mod wl 512 ltac:(lia)). lia. }
    set (m1 := store_checksums (buf_mem s) buf_addr n).
    set (s1 := set_n_log_ios (u64 (n_log_ios s + 1)) (set_buf_mem m1 s)).
    set (data := mem_read (buf_mem s1) buf_addr (Z.to_nat wl)).
    destruct (data_write no data s1) as [s2 | |] eqn:Hdw; cbn [bind];
      try discriminate.
    pose proof (data_write_anchor _ _ _ _ Hdw) as (HL2 & HO2).
    change (file_lsn (log s1)) with (file_lsn (log s)) in HL2.
    change (file_lsn_offset (log s1)) with (file_lsn_offset (log s)) in HO2.
    apply data_write_ops in Hdw. destruct Hdw as (Hops & Hmem & Hfs).
    change (buf_mem s1) with m1 in Hmem.
    change (file_size (log s1)) with size in Hfs.
    assert (Hfirst : forall j, 0 <= j < Z.of_nat n ->
                block_checksum_ok m1 (buf_addr + j * OS_FILE_LOG_BLOCK_SIZE)).
    { apply store_checksums_ok. intros a Ha. apply Hwf. lia. }
    assert (Hdiv : len / OS_FILE_LOG_BLOCK_SIZE
                   = Z.of_nat n + (len - wl) / OS_FILE_LOG_BLOCK_SIZE).
    { unfold OS_FILE_LOG_BLOCK_SIZE in *.
      replace len with ((len - wl) + Z.of_nat n * 512) at 1 by lia.
      rewrite Z.div_add by lia. lia. }
    rewrite Hwl3. destruct (Z.gtb_spec (no + len) size) as [Hwrap | Hfit].
    + assert (Hwl' : wl = size - no).
      { subst wl. destruct (Z.gtb_spec (no + len) size); lia. }
      rewrite (u64_small (len - wl)) by lia.
      rewrite (u64_small (start_lsn + wl)) by lia.
      intros Hrec j Hj.
      assert (Hr1 : 0 <= len - wl < 2 ^ 63) by lia.
      assert (Hr2 : 0 < file_size (log s2) < 2 ^ 63) by (rewrite Hfs; lia).
      pose proof (log_write_buf_loop_writes fuel (buf_addr + wl) (len - wl)
                    (start_lsn + wl) s2 s' Hr1 Hr2 Hrec)
        as (ops & _ & _ & _ & Hframe).
      destruct (Z_lt_le_dec j (Z.of_nat n)) as [Hjn | Hjn].
      * apply (block_checksum_ok_ext m1).
        -- intros a Ha. rewrite Hframe, Hmem; [reflexivity |].
           left. unfold OS_FILE_LOG_BLOCK_SIZE in *. lia.
        -- apply Hfirst. lia.
      * replace (buf_addr + j * OS_FILE_LOG_BLOCK_SIZE)
          with (buf_addr + wl + (j - Z.of_nat n) * OS_FILE_LOG_BLOCK_SIZE)
          by lia.
        apply (IH (buf_addr + wl) (len - wl) (start_lsn + wl) s2 s');
          rewrite ?Hfs, ?HL2, ?HO2; try assumption; try lia.
        -- unfold OS_FILE_LOG_BLOCK_SIZE in *.
           rewrite Zminus_mod, Hlen512, Hwl512. reflexivity.
        -- unfold OS_FILE_LOG_BLOCK_SIZE in *.
           rewrite Z.add_mod, Hst512, Hwl512 by lia. reflexivity.
        -- intros a Ha. rewrite Hmem. subst m1.
           rewrite store_checksums_outside by lia. apply Hwf. lia.
    + assert (Hwl' : wl = len).
      { subst wl. destruct (Z.gtb_spec (no + len) size); lia. }
      intros H j Hj. injection H as <-. rewrite Hmem.
      apply Hfirst. rewrite Hdiv, Hwl', Z.sub_diag, Z.div_0_l in Hj; [lia |].
      unfold OS_FILE_LOG_BLOCK_SIZE. lia.
Qed.

(** X10. Every block that [log_write_buf] sends to the data file
    carries the checksum of its contents: with the file and the request
    aligned to the block size, each of the [len / 512] blocks of the
    written area verifies in the buffer as it was written. *)
Theorem log_write_buf_checksums (buf_addr len start_lsn : Z) (s s' : log_t) :
  0 < file_size (log s) < 2 ^ 63 ->
  file_size (log s) mod OS_FILE_LOG_BLOCK_SIZE = 0 ->
  0 <= file_lsn (log s) < 2 ^ 63 ->
  0 <= file_lsn_offset (log s) < 2 ^ 63 ->
  (file_lsn_offset (log s) - file_lsn (log s)) mod OS_FILE_LOG_BLOCK_SIZE
  = 0 ->
  0 <= start_lsn ->
  0 <= len ->
  start_lsn + len < 2 ^ 63 ->
  region_wf (buf_mem s) buf_addr len ->
  log_write_buf buf_addr len start_lsn s = Returned s' ->
  File.written
    (skipn (length (f_ops (data_fd (log s)))) (f_ops (data_fd (log s'))))
  = mem_read (buf_mem s') buf_addr (Z.to_nat len)
  /\ forall j, 0 <= j < len / OS_FILE_LOG_BLOCK_SIZE ->
       block_checksum_ok (buf_mem s')
         (buf_addr + j * OS_FILE_LOG_BLOCK_SIZE).
Proof.
  intros Hsize Hsz512 HL HO HLO Hstart Hlen Hend Hwf. unfold log_write_buf.
  destruct (Z.eqb_spec (len mod OS_FILE_LOG_BLOCK_SIZE) 0) as [H1 | _];
    cbn [negb]; [| discriminate].
  destruct (Z.eqb_spec (start_lsn mod OS_FILE_LOG_BLOCK_SIZE) 0) as [H2 | _];
    cbn [negb]; [| discriminate].
  intros H. split.
  - assert (Hr : 0 <= len < 2 ^ 63) by lia.
    pose proof (log_write_buf_loop_writes _ _ _ _ _ _ Hr Hsize H)
      as (ops & Hops & _ & Hwritten & _).
    rewrite Hops, skipn_app, skipn_all, Nat.sub_diag. exact Hwritten.
  - intros j Hj.
    exact (log_write_buf_loop_checksums _ _ _ _ _ _ Hsize Hsz512 HL HO HLO
             Hstart Hlen Hend H1 H2 Hwf H j Hj).
Qed.

Lemma log_write_buf_checksums_witness :
  0 < file_size (log (example_log false 8204 8204 8204 8204)) < 2 ^ 63
  /\ file_size (log (example_log false 8204 8204 8204 8204))
       mod OS_FILE_LOG_BLOCK_SIZE = 0
  /\ 0 <= file_lsn (log (example_log false 8204 8204 8204 8204)) < 2 ^ 63
  /\ 0 <= file_lsn_offset (log (example_log false 8204 8204 8204 8204))
       < 2 ^ 63
  /\ (file_lsn_offset (log (example_log false 8204 8204 8204 8204))
       - file_lsn (log (example_log false 8204 8204 8204 8204)))
      mod OS_FILE_LOG_BLOCK_SIZE = 0
  /\ 0 <= 65024
  /\ 0 <= 1024
  /\ 65024 + 1024 < 2 ^ 63
  /\ region_wf (buf_mem (example_log false 8204 8204 8204 8204)) 0 1024
  /\ exists s',
       log_write_buf 0 1024 65024 (example_log false 8204 8204 8204 8204)
       = Returned s'
       /\ block_checksum_ok (buf_mem s') (0 + 1 * OS_FILE_LOG_BLOCK_SIZE).
Proof.
  assert (H1 : 0 < file_size (log (example_log false 8204 8204 8204 8204))
               < 2 ^ 63) by (cbn; lia).
  assert (H2 : file_size (log (example_log false 8204 8204 8204 8204))
               mod OS_FILE_LOG_BLOCK_SIZE = 0) by reflexivity.
  assert (H3 : 0 <= file_lsn (log (example_log false 8204 8204 8204 8204))
               < 2 ^ 63) by (cbn; lia).
  assert (H4 : 0 <= file_lsn_offset
                      (log (example_log false 8204 8204 8204 8204))
               < 2 ^ 63) by (cbn; lia).
  assert (H5 : (file_lsn_offset (log (example_log false 8204 8204 8204 8204))
                - file_lsn (log (example_log false 8204 8204 8204 8204)))
               mod OS_FILE_LOG_BLOCK_SIZE = 0) by reflexivity.
  assert (H6 : 0 <= 65024) by lia.
  assert (H7 : 0 <= 1024) by lia.
  assert (H8 : 65024 + 1024 < 2 ^ 63) by lia.
  assert (H9 : region_wf (buf_mem (example_log false 8204 8204 8204 8204))
                 0 1024).
  { intros a _. cbn. lia. }
  split; [exact H1 |]. split; [exact H2 |]. split; [exact H3 |].
  split; [exact H4 |]. split; [exact H5 |]. split; [exact H6 |].
  split; [exact H7 |]. split; [exact H8 |]. split; [exact H9 |].
  assert (Hc : match log_write_buf 0 1024 65024
                       (example_log false 8204 8204 8204 8204) with
               | Returned _ => True
               | Blocked => False
               | Aborted => False
               end) by (vm_compute; exact I).
  revert Hc.
  destruct (log_write_buf 0 1024 65024
              (example_log false 8204 8204 8204 8204)) as [s' | |] eqn:E;
    intros Hc; [| contradiction | contradiction].
  exists s'. split; [reflexivity |].
  apply (proj2 (log_write_buf_checksums 0 1024 65024
                  (example_log false 8204 8204 8204 8204) s'
                  H1 H2 H3 H4 H5 H6 H7 H8 H9 E)).
  vm_compute. split; [discriminate | reflexivity].
Defined.
(** ** Switching the halves of the log buffer *)

Lemma ut_calc_align_512 (n : Z) :
  0 <= n < 2 ^ 63 ->
  ut_calc_align n OS_FILE_LOG_BLOCK_SIZE
  = n + 511 - (n + 511) mod OS_FILE_LOG_BLOCK_SIZE.
Proof.
  intros Hn. unfold ut_calc_align.
  change (Z.land (u64 (n + OS_FILE_LOG_BLOCK_SIZE - 1))
            (Z.lnot (OS_FILE_LOG_BLOCK_SIZE - 1)))
    with (ut_2pow_round (u64 (n + OS_FILE_LOG_BLOCK_SIZE - 1))
            OS_FILE_LOG_BLOCK_SIZE).
  rewrite ut_2pow_round_512, u64_mod_512.
  unfold OS_FILE_LOG_BLOCK_SIZE. rewrite u64_small by lia.
  replace (n + 512 - 1) with (n + 511) by lia. reflexivity.
Qed.

Lemma area_end_of_open_block (s : log_t) :
  buffer_wf s ->
  0 <= buf_free s < 2 ^ 63 ->
  buf s + ut_calc_align (buf_free s) OS_FILE_LOG_BLOCK_SIZE
  - OS_FILE_LOG_BLOCK_SIZE
  = block_in_use s.
Proof.
  intros (_ & Hoff) Hbf. rewrite ut_calc_align_512 by exact Hbf.
  unfold block_in_use, free_offset_in_block.
  pose proof (block_geometry s) as Hgeo.
  unfold OS_FILE_LOG_BLOCK_SIZE, LOG_BLOCK_HDR_SIZE in *.
  set (off := buf_free s mod 512) in *.
  assert (Hm : (buf_free s + 511) mod 512 = off - 1).
  { pose proof (Z.div_mod (buf_free s) 512 ltac:(lia)) as Hdm. fold off in Hdm.
    replace (buf_free s + 511)
      with ((off - 1) + (buf_free s / 512 + 1) * 512) by lia.
    rewrite Z.mod_add by lia. apply Z.mod_small. lia. }
  rewrite Hm. lia.
Qed.

Lemma log_buffer_switch_result (v : server_t) (s : log_t) :
  buffer_wf s ->
  srv_log_buffer_size v mod OS_FILE_LOG_BLOCK_SIZE = 0 ->
  let s' := log_buffer_switch v s in
  buffer_wf s'
  /\ first_in_use s' = negb (first_in_use s)
  /\ buf s'
     = (if first_in_use s then buf s + srv_log_buffer_size v
        else buf s - srv_log_buffer_size v)
  /\ buf_free s' = free_offset_in_block s
  /\ buf_next_to_write s' = buf_free s'.
Proof.
  intros (Hbuf & Hoff) Hsz s'.
  assert (Hb' : buf s'
                = if first_in_use s then buf s + srv_log_buffer_size v
                  else buf s - srv_log_buffer_size v).
  { subst s'. unfold log_buffer_switch. destruct (first_in_use s); reflexivity. }
  assert (Hf' : buf_free s' = free_offset_in_block s).
  { subst s'. unfold log_buffer_switch. destruct (first_in_use s); reflexivity. }
  assert (Ht' : trailer_offset s' = trailer_offset s).
  { subst s'. unfold log_buffer_switch, trailer_offset.
    destruct (first_in_use s); reflexivity. }
  split.
  { unfold buffer_wf. rewrite Hb', Hf', Ht'. unfold free_offset_in_block.
    rewrite Z.mod_mod by (unfold OS_FILE_LOG_BLOCK_SIZE; lia).
    split; [| exact Hoff].
    unfold OS_FILE_LOG_BLOCK_SIZE in *.
    destruct (first_in_use s).
    - rewrite Z.add_mod, Hbuf, Hsz by lia. reflexivity.
    - rewrite Zminus_mod, Hbuf, Hsz. reflexivity. }
  split.
  { subst s'. unfold log_buffer_switch. destruct (first_in_use s); reflexivity. }
  split; [exact Hb' |]. split; [exact Hf' |].
  subst s'. unfold log_buffer_switch. destruct (first_in_use s); reflexivity.
Qed.

(** X11. [log_buffer_switch] carries the open block over: the other half
    of the doubled buffer comes into use, its first block is a copy of
    the block that held the free offset, the free offset keeps its place
    in the block and nothing is left to write; no byte outside that first
    block changes, the buffer stays well formed, and a second switch
    returns to the first half. *)
Theorem log_buffer_switch_carries_block (v : server_t) (s : log_t) :
  buffer_wf s ->
  0 <= buf_free s < 2 ^ 63 ->
  srv_log_buffer_size v mod OS_FILE_LOG_BLOCK_SIZE = 0 ->
  let s' := log_buffer_switch v s in
  buffer_wf s'
  /\ first_in_use s' = negb (first_in_use s)
  /\ buf s'
     = (if first_in_use s then buf s + srv_log_buffer_size v
        else buf s - srv_log_buffer_size v)
  /\ buf_free s' = free_offset_in_block s
  /\ buf_next_to_write s' = buf_free s'
  /\ mem_read (buf_mem s') (buf s') (Z.to_nat OS_FILE_LOG_BLOCK_SIZE)
     = mem_read (buf_mem s) (block_in_use s) (Z.to_nat OS_FILE_LOG_BLOCK_SIZE)
  /\ (forall a, a < buf s' \/ buf s' + OS_FILE_LOG_BLOCK_SIZE <= a ->
                buf_mem s' a = buf_mem s a)
  /\ buf (log_buffer_switch v s') = buf s
  /\ first_in_use (log_buffer_switch v s') = first_in_use s.
Proof.
  intros Hwf Hbf Hsz s'.
  pose proof (area_end_of_open_block s Hwf Hbf) as Harea.
  pose proof (log_buffer_switch_result v s Hwf Hsz)
    as (Hwf' & Hu' & Hb' & Hf' & Hn').
  cbv zeta in Hwf', Hu', Hb', Hf', Hn'. fold s' in Hwf', Hu', Hb', Hf', Hn'.
  assert (Hm' : buf_mem s'
                = memcpy (buf_mem s) (buf s')
                    (mem_read (buf_mem s) (block_in_use s)
                       (Z.to_nat OS_FILE_LOG_BLOCK_SIZE))).
  { rewrite <- Harea. subst s'. unfold log_buffer_switch.
    destruct (first_in_use s); reflexivity. }
  split; [exact Hwf' |]. split; [exact Hu' |]. split; [exact Hb' |].
  split; [exact Hf' |]. split; [exact Hn' |].
  split.
  { rewrite Hm'.
    pose proof (mem_read_memcpy_same
                  (mem_read (buf_mem s) (block_in_use s)
                     (Z.to_nat OS_FILE_LOG_BLOCK_SIZE))
                  (buf_mem s) (buf s')) as H.
    rewrite mem_read_length in H. exact H. }
  split.
  { intros a Ha. rewrite Hm'. apply memcpy_outside.
    unfold zlen. rewrite mem_read_length.
    unfold OS_FILE_LOG_BLOCK_SIZE in *.
    change (Z.of_nat (Z.to_nat 512)) with 512. lia. }
  pose proof (log_buffer_switch_result v s' Hwf' Hsz)
    as (_ & Hu'' & Hb'' & _).
  cbv zeta in Hu'', Hb''.
  rewrite Hb'', Hu'', Hu', Hb'.
  destruct (first_in_use s); cbn [negb]; split; try reflexivity; lia.
Qed.

Lemma log_buffer_switch_carries_block_witness :
  buffer_wf (example_log_appended false)
  /\ 0 <= buf_free (example_log_appended false) < 2 ^ 63
  /\ srv_log_buffer_size (example_server false 0 0)
       mod OS_FILE_LOG_BLOCK_SIZE = 0
  /\ buf (log_buffer_switch (example_server false 0 0)
            (example_log_appended false)) = 8192
  /\ buf_free (log_buffer_switch (example_server false 0 0)
                 (example_log_appended false))
     = free_offset_in_block (example_log_appended false).
Proof.
  assert (H1 : buffer_wf (example_log_appended false)).
  { vm_compute. repeat split; discriminate. }
  assert (H2 : 0 <= buf_free (example_log_appended false) < 2 ^ 63).
  { vm_compute. split; [discriminate | reflexivity]. }
  assert (H3 : srv_log_buffer_size (example_server false 0 0)
               mod OS_FILE_LOG_BLOCK_SIZE = 0) by reflexivity.
  split; [exact H1 |]. split; [exact H2 |]. split; [exact H3 |].
  split.
  - vm_compute. reflexivity.
  - exact (proj1 (proj2 (proj2 (proj2
             (log_buffer_switch_carries_block (example_server false 0 0)
                (example_log_appended false) H1 H2 H3))))).
Defined.

(** ** Writing the buffer ([log_write]) *)

Section LogWriteFacts.
Context {C : Collaborators}.

Lemma data_write_buffer (offset : Z) (data : list byte) (s s' : log_t) :
  data_write offset data s = Returned s' ->
  buf s' = buf s
  /\ buf_free s' = buf_free s
  /\ buf_next_to_write s' = buf_next_to_write s
  /\ first_in_use s' = first_in_use s
  /\ format (log s') = format (log s).
Proof.
  unfold data_write, File.write.
  destruct (File.next_call_fails _); [discriminate |].
  intros E. injection E as <-. repeat split.
Qed.

Lemma log_write_buf_loop_buffer (fuel : nat) :
  forall (buf_addr n start_lsn : Z) (s s' : log_t),
    log_write_buf_loop fuel buf_addr n start_lsn s = Returned s' ->
    buf s' = buf s
    /\ buf_free s' = buf_free s
    /\ buf_next_to_write s' = buf_next_to_write s
    /\ first_in_use s' = first_in_use s
    /\ format (log s') = format (log s).
Proof.
  induction fuel as [| fuel IH]; intros buf_addr n start_lsn s s';
    cbn [log_write_buf_loop].
  - destruct (n =? 0); [| discriminate].
    intros E. injection E as <-. repeat split.
  - destruct (n =? 0).
    { intros E. injection E as <-. repeat split. }
    destruct (file_size (log s) =? 0); [discriminate |].
    unfold bind.
    destruct (data_write _ _ _) as [s2 | |] eqn:Ew; try discriminate.
    apply data_write_buffer in Ew.
    destruct Ew as (E1 & E2 & E3 & E4 & E5).
    cbn [buf buf_free buf_next_to_write first_in_use log format
         set_n_log_ios set_buf_mem] in E1, E2, E3, E4, E5.
    destruct (_ <? n).
    + intros E. apply IH in E. destruct E as (F1 & F2 & F3 & F4 & F5).
      rewrite F1, F2, F3, F4, F5. repeat split; assumption.
    + intros E. injection E as <-. repeat split; assumption.
Qed.

Lemma log_write_buf_buffer (buf_addr n start_lsn : Z) (s s' : log_t) :
  log_write_buf buf_addr n start_lsn s = Returned s' ->
  buf s' = buf s
  /\ buf_free s' = buf_free s
  /\ buf_next_to_write s' = buf_next_to_write s
  /\ first_in_use s' = first_in_use s
  /\ format (log s') = format (log s).
Proof.
  unfold log_write_buf.
  destruct (negb _); [discriminate |].
  destruct (negb _); [discriminate |].
  apply log_write_buf_loop_buffer.
Qed.

Lemma buffer_wf_fields (s s' : log_t) :
  buf s' = buf s ->
  buf_free s' = buf_free s ->
  format (log s') = format (log s) ->
  buffer_wf s -> buffer_wf s'.
Proof.
  unfold buffer_wf, trailer_offset. intros -> -> ->. exact (fun H => H).
Qed.

(** A [log_write] that has something to write, on the buffer. *)
Lemma log_write_open_block (v : server_t) (s s' : log_t) :
  buffer_wf s ->
  srv_log_buffer_size v mod OS_FILE_LOG_BLOCK_SIZE = 0 ->
  buf_free s <> buf_next_to_write s ->
  log_write v s = Returned s' ->
  buffer_wf s'
  /\ first_in_use s' = negb (first_in_use s)
  /\ buf_free s' = free_offset_in_block s
  /\ buf_next_to_write s' = buf_free s'
  /\ write_lsn s' = lsn s
  /\ lsn s' = lsn s.
Proof.
  intros Hwf Hsz Hne Hw.
  pose proof (log_write_result v s s' Hw) as (Hst & Hres).
  destruct Hres as [(Heq & _) | (Hwl & _)]; [contradiction |].
  pose proof (stable_fields_inv _ _ Hst) as (Hlsn & _).
  unfold log_write in Hw.
  destruct (Z.eqb_spec (buf_free s) (buf_next_to_write s)) as [Heq | _];
    [contradiction |].
  match type of Hw with
  | context [log_buffer_switch v ?s0] =>
      pose proof (log_buffer_switch_result v s0
                    (buffer_wf_fields s s0 eq_refl eq_refl eq_refl Hwf) Hsz)
        as (Hwf1 & Hu1 & _ & Hf1 & Hn1);
      cbv zeta in Hwf1, Hu1, Hf1, Hn1;
      change (first_in_use s0) with (first_in_use s) in Hu1;
      change (free_offset_in_block s0) with (free_offset_in_block s) in Hf1;
      set (s1 := log_buffer_switch v s0) in *
  end.
  destruct (file_size (log s1) =? 0); [discriminate |].
  unfold bind in Hw.
  destruct (log_write_buf _ _ _ _) as [s3 | |] eqn:Ew; try discriminate.
  apply log_write_buf_buffer in Ew.
  destruct Ew as (E1 & E2 & E3 & E4 & E5).
  cbn [buf buf_free buf_next_to_write first_in_use log format
       set_buf_mem set_log] in E1, E2, E3, E4, E5.
  change (format (set_fields (write_lsn s1) (log s1)))
    with (format (log s1)) in E5.
  assert (Hwf3 : buffer_wf s3) by (exact (buffer_wf_fields s1 s3 E1 E2 E5 Hwf1)).
  assert (Hfinal :
            buf s' = buf s3 /\ buf_free s' = buf_free s3
            /\ buf_next_to_write s' = buf_next_to_write s3
            /\ first_in_use s' = first_in_use s3
            /\ format (log s') = format (log s3)).
  { destruct (File.writes_are_durable _);
      injection Hw as <-; repeat split. }
  destruct Hfinal as (G1 & G2 & G3 & G4 & G5).
  assert (Hnw : buf_next_to_write s' = buf_free s') by congruence.
  split; [exact (buffer_wf_fields s3 s' G1 G2 G5 Hwf3) |].
  split; [congruence |]. split; [congruence |]. split; [exact Hnw |].
  split; [exact Hwl | exact Hlsn].
Qed.


(** X12. A [log_write] that has something to write leaves only the open
    block in the buffer: the halves are switched, the free offset is cut
    down to its place in the block, nothing is left to write, [write_lsn]
    has caught up with [lsn], and the buffer is well formed again; a
    second [log_write] then does nothing. *)
Theorem log_write_leaves_open_block (v : server_t) (s s' : log_t) :
  buffer_wf s ->
  srv_log_buffer_size v mod OS_FILE_LOG_BLOCK_SIZE = 0 ->
  buf_free s <> buf_next_to_write s ->
  log_write v s = Returned s' ->
  buffer_wf s'
  /\ first_in_use s' = negb (first_in_use s)
  /\ buf_free s' = free_offset_in_block s
  /\ buf_next_to_write s' = buf_free s'
  /\ write_lsn s' = lsn s
  /\ lsn s' = lsn s
  /\ log_write v s' = Returned s'.
Proof.
  intros Hwf Hsz Hne Hw.
  pose proof (log_write_open_block v s s' Hwf Hsz Hne Hw)
    as (H1 & H2 & H3 & H4 & H5 & H6).
  repeat (split; [assumption |]).
  unfold log_write. rewrite H4, Z.eqb_refl. reflexivity.
Qed.

End LogWriteFacts.

Lemma log_write_leaves_open_block_witness :
  buffer_wf (example_log_appended false)
  /\ srv_log_buffer_size (example_server false 0 0)
       mod OS_FILE_LOG_BLOCK_SIZE = 0
  /\ buf_free (example_log_appended false)
     <> buf_next_to_write (example_log_appended false)
  /\ exists s',
       log_write (example_server false 0 0) (example_log_appended false)
       = Returned s'
       /\ buf_next_to_write s' = buf_free s'
       /\ log_write (example_server false 0 0) s' = Returned s'.
Proof.
  assert (H1 : buffer_wf (example_log_appended false)).
  { vm_compute. repeat split; discriminate. }
  assert (H2 : srv_log_buffer_size (example_server false 0 0)
               mod OS_FILE_LOG_BLOCK_SIZE = 0) by reflexivity.
  assert (H3 : buf_free (example_log_appended false)
               <> buf_next_to_write (example_log_appended false)).
  { vm_compute. discriminate. }
  split; [exact H1 |]. split; [exact H2 |]. split; [exact H3 |].
  assert (Hc : match log_write (example_server false 0 0)
                       (example_log_appended false) with
               | Returned _ => True
               | Blocked => False
               | Aborted => False
               end) by (vm_compute; exact I).
  revert Hc.
  destruct (log_write (example_server false 0 0)
              (example_log_appended false)) as [s' | |] eqn:E;
    intros Hc; [| contradiction | contradiction].
  exists s'. split; [reflexivity |].
  destruct (log_write_leaves_open_block (example_server false 0 0)
              (example_log_appended false) s' H1 H2 H3 E)
    as (_ & _ & _ & Hn & _ & _ & Hidem).
  split; [exact Hn | exact Hidem].
Defined.
(** ** Progress of [log_write_up_to] and of its callers *)

Section WriteUpToProgress.
Context {C : Collaborators}.

(** The four ways in which [log_write_up_to] returns. *)
Lemma log_write_up_to_cases
  (lsn_arg : Z) (flush_to_disk : bool) (w w' : world) :
  log_write_up_to lsn_arg flush_to_disk w = Returned w' ->
  (recv_no_ibuf_operations (srv w) = true /\ w' = w)
  \/ (recv_no_ibuf_operations (srv w) = false
      /\ flush_to_disk = true
      /\ lsn_arg <= GroupCommit.value (flush_lock w)
      /\ w' = w)
  \/ (recv_no_ibuf_operations (srv w) = false
      /\ flush_to_disk = true
      /\ GroupCommit.value (flush_lock w) < lsn_arg
      /\ exists l w1,
          GroupCommit.value l = GroupCommit.value (flush_lock w)
          /\ log_write_up_to_write lsn_arg (set_flush_lock l w) = Returned w1
          /\ log_write_up_to_flush w1 = Returned w')
  \/ (recv_no_ibuf_operations (srv w) = false
      /\ flush_to_disk = false
      /\ log_write_up_to_write lsn_arg w = Returned w').
Proof.
  unfold log_write_up_to.
  destruct (recv_no_ibuf_operations (srv w)).
  { intros E. injection E as <-. left. split; reflexivity. }
  intros E. right. revert E. destruct flush_to_disk.
  - unfold GroupCommit.acquire.
    destruct (Z.leb_spec lsn_arg (GroupCommit.value (flush_lock w)))
      as [Hcov | Hnot].
    { intros E. injection E as <-. left. repeat split. exact Hcov. }
    destruct (m_lock (flush_lock w)); [discriminate |].
    unfold bind.
    destruct (log_write_up_to_write _ _) as [w1 | |] eqn:Ew; try discriminate.
    intros Ef. right. left. repeat split; [exact Hnot |].
    eexists _, w1. split; [| split; [exact Ew | exact Ef]]. reflexivity.
  - intros Ew. right. right. repeat split. exact Ew.
Qed.

(** The write phase never moves a published position backwards. *)
Lemma log_write_up_to_write_progress (lsn_arg : Z) (w w' : world) :
  locks_consistent w ->
  log_write_up_to_write lsn_arg w = Returned w' ->
  flushed_to_disk_lsn (log_sys w) <= flushed_to_disk_lsn (log_sys w')
  /\ GroupCommit.value (write_lock w) <= GroupCommit.value (write_lock w')
  /\ flush_lock w' = flush_lock w
  /\ lsn (log_sys w') = lsn (log_sys w)
  /\ (lsn_arg <= GroupCommit.value (write_lock w')
      \/ GroupCommit.value (write_lock w') = lsn (log_sys w)).
Proof.
  intros (H1 & H2 & H3 & H4) Ew.
  apply log_write_up_to_write_result in Ew.
  destruct Ew as (Hst & Hfl & _ & _ & _ & Hw).
  pose proof (stable_fields_inv _ _ Hst) as (Hlsn & _).
  destruct Hw as [(Hcov & ->) | (Hval & Hpub & Hres)].
  - split; [lia |]. split; [lia |]. split; [reflexivity |].
    split; [reflexivity |]. left. exact Hcov.
  - rewrite Hval. split.
    + destruct Hres as [-> | ->]; [lia |].
      destruct (File.writes_are_durable _); lia.
    + split; [lia |]. split; [exact Hfl |]. split; [exact Hlsn |].
      right. reflexivity.
Qed.

Lemma log_write_up_to_progress
  (lsn_arg : Z) (flush_to_disk : bool) (w w' : world) :
  locks_consistent w ->
  log_write_up_to lsn_arg flush_to_disk w = Returned w' ->
  flushed_to_disk_lsn (log_sys w) <= flushed_to_disk_lsn (log_sys w')
  /\ GroupCommit.value (write_lock w) <= GroupCommit.value (write_lock w')
  /\ GroupCommit.value (flush_lock w) <= GroupCommit.value (flush_lock w').
Proof.
  intros Hinv E.
  destruct (log_write_up_to_cases _ _ _ _ E)
    as [(_ & ->) | [(_ & _ & _ & ->) | [(_ & _ & Hnot & l & w1 & Hl & Ew & Ef)
                                       | (_ & _ & Ew)]]];
    try (repeat split; lia).
  - assert (Hinv0 : locks_consistent (set_flush_lock l w)).
    { destruct Hinv as (H1 & H2 & H3 & H4). unfold locks_consistent.
      cbn [log_sys set_flush_lock flush_lock write_lock]. rewrite Hl.
      repeat split; try assumption; apply H4; assumption. }
    pose proof (log_write_up_to_write_progress _ _ _ Hinv0 Ew)
      as (P1 & P2 & P3 & P4 & P5).
    cbn [log_sys set_flush_lock flush_lock write_lock] in P1, P2, P3, P4, P5.
    apply log_write_up_to_flush_result in Ef.
    destruct Ef as (Hwl & Hval & _ & _ & Hfl & Hge & _).
    rewrite Hwl, Hval, Hfl.
    destruct Hinv as (H1 & H2 & H3 & H4).
    split; [| split; [exact P2 |]].
    + destruct (File.writes_are_durable (data_fd (log (log_sys w1))));
        [exact P1 |].
      specialize (Hge eq_refl). lia.
    + destruct P5 as [P5 | P5]; lia.
  - pose proof (log_write_up_to_write_progress _ _ _ Hinv Ew)
      as (P1 & P2 & P3 & _).
    rewrite P3. repeat split; try assumption; lia.
Qed.

(** X13. [log_write_up_to] only moves forward: whatever its arguments,
    a call that returns leaves [flushed_to_disk_lsn] and the values
    published by the write lock and the flush lock at least where they
    were, does not change [lsn], and keeps the locks in agreement with the
    log system. *)
Theorem log_write_up_to_monotone
  (lsn_arg : Z) (flush_to_disk : bool) (w w' : world) :
  locks_consistent w ->
  log_write_up_to lsn_arg flush_to_disk w = Returned w' ->
  flushed_to_disk_lsn (log_sys w) <= flushed_to_disk_lsn (log_sys w')
  /\ GroupCommit.value (write_lock w) <= GroupCommit.value (write_lock w')
  /\ GroupCommit.value (flush_lock w) <= GroupCommit.value (flush_lock w')
  /\ lsn (log_sys w') = lsn (log_sys w)
  /\ locks_consistent w'.
Proof.
  intros Hinv E.
  pose proof (log_write_up_to_progress _ _ _ _ Hinv E) as (P1 & P2 & P3).
  pose proof (log_write_up_to_frame _ _ _ _ E) as (Hst & _).
  pose proof (stable_fields_inv _ _ Hst) as (Hlsn & _).
  split; [exact P1 |]. split; [exact P2 |]. split; [exact P3 |].
  split; [exact Hlsn |].
  exact (log_write_up_to_consistent _ _ _ _ Hinv E).
Qed.

(** Outside recovery a flushing call reaches the lsn it was given. *)
Lemma log_write_up_to_flush_reaches (lsn_arg : Z) (w w' : world) :
  recv_no_ibuf_operations (srv w) = false ->
  lsn_arg <= lsn (log_sys w) ->
  locks_consistent w ->
  log_write_up_to lsn_arg true w = Returned w' ->
  lsn_arg <= flushed_to_disk_lsn (log_sys w').
Proof.
  intros Hrecv Hreached Hinv E.
  destruct (log_write_up_to_cases _ _ _ _ E)
    as [(Hr & _) | [(_ & _ & Hcov & ->) | [(_ & _ & Hnot & l & w1 & Hl & Ew & Ef)
                                          | (_ & Hf & _)]]];
    try congruence.
  - destruct Hinv as (H1 & _). lia.
  - assert (Hinv0 : locks_consistent (set_flush_lock l w)).
    { destruct Hinv as (H1 & H2 & H3 & H4). unfold locks_consistent.
      cbn [log_sys set_flush_lock flush_lock write_lock]. rewrite Hl.
      repeat split; try assumption; apply H4; assumption. }
    assert (Hinv1 : locks_consistent w1).
    { apply (log_write_up_to_consistent lsn_arg false (set_flush_lock l w));
        [exact Hinv0 |].
      unfold log_write_up_to. cbn [srv set_flush_lock]. rewrite Hrecv.
      exact Ew. }
    pose proof (log_write_up_to_write_progress _ _ _ Hinv0 Ew)
      as (_ & _ & _ & _ & P5).
    cbn [log_sys set_flush_lock] in P5.
    apply (log_write_up_to_flush_covers lsn_arg w1 w' Hinv1); [| exact Ef].
    destruct P5 as [P5 | P5]; lia.
Qed.

(** X14. The write-only guarantee: outside recovery, for an lsn that the
    log has reached and locks that have published nothing beyond
    [write_lsn], a call [log_write_up_to(lsn, flush_to_disk)] that returns
    leaves [write_lsn >= lsn], with or without the flush, and the locks
    still publish nothing beyond [write_lsn]. *)
Theorem log_write_up_to_writes
  (lsn_arg : Z) (flush_to_disk : bool) (w w' : world) :
  recv_no_ibuf_operations (srv w) = false ->
  lsn_arg <= lsn (log_sys w) ->
  write_published w ->
  log_write_up_to lsn_arg flush_to_disk w = Returned w' ->
  lsn_arg <= write_lsn (log_sys w') /\ write_published w'.
Proof.
  intros Hrecv Hreached Hpub E.
  assert (Hwrite : forall w0 w1,
             write_published w0 ->
             lsn_arg <= lsn (log_sys w0) ->
             log_write_up_to_write lsn_arg w0 = Returned w1 ->
             lsn_arg <= write_lsn (log_sys w1) /\ write_published w1).
  { intros w0 w1 (Q1 & Q2 & Q3) Hr Ew.
    apply log_write_up_to_write_result in Ew.
    destruct Ew as (Hst & Hfl & _ & _ & _ & Hw).
    pose proof (stable_fields_inv _ _ Hst) as (Hlsn & _).
    destruct Hw as [(Hcov & ->) | (Hval & Hwr & _)].
    - split; [lia | repeat split; assumption].
    - unfold write_published. rewrite Hval, Hwr, Hfl, Hlsn.
      repeat split; lia. }
  destruct (log_write_up_to_cases _ _ _ _ E)
    as [(Hr & _) | [(_ & _ & Hcov & ->) | [(_ & _ & Hnot & l & w1 & Hl & Ew & Ef)
                                          | (_ & _ & Ew)]]];
    try congruence.
  - destruct Hpub as (Q1 & Q2 & Q3). split; [lia | repeat split; assumption].
  - assert (Hpub0 : write_published (set_flush_lock l w)).
    { destruct Hpub as (Q1 & Q2 & Q3). unfold write_published.
      cbn [log_sys set_flush_lock flush_lock write_lock]. rewrite Hl.
      repeat split; assumption. }
    destruct (Hwrite _ _ Hpub0 Hreached Ew) as (R1 & (Q1 & Q2 & Q3)).
    apply log_write_up_to_flush_result in Ef.
    destruct Ef as (Hwl & Hval & Hst & Hwr & _).
    pose proof (stable_fields_inv _ _ Hst) as (Hlsn & _).
    unfold write_published. rewrite Hwl, Hval, Hwr, Hlsn.
    repeat split; lia.
  - exact (Hwrite _ _ Hpub Hreached Ew).
Qed.

(** X15. The flushing callers leave everything on disk: outside recovery
    and with locks that agree with the log system,
    [log_buffer_flush_to_disk(true)] and
    [log_buffer_sync_in_background(true)], when they return, leave
    [flushed_to_disk_lsn = lsn], do not change [lsn], and keep the locks in
    agreement. *)
Theorem log_buffer_flush_to_disk_all (w w' : world) :
  recv_no_ibuf_operations (srv w) = false ->
  locks_consistent w ->
  log_buffer_flush_to_disk true w = Returned w'
  \/ log_buffer_sync_in_background true w = Returned w' ->
  flushed_to_disk_lsn (log_sys w') = lsn (log_sys w')
  /\ lsn (log_sys w') = lsn (log_sys w)
  /\ locks_consistent w'.
Proof.
  intros Hrecv Hinv E.
  assert (Hcall : log_write_up_to (lsn (log_sys w)) true w = Returned w' ->
                  flushed_to_disk_lsn (log_sys w') = lsn (log_sys w')
                  /\ lsn (log_sys w') = lsn (log_sys w)
                  /\ locks_consistent w').
  { intros Ecall.
    pose proof (log_write_up_to_flush_reaches _ _ _ Hrecv (Z.le_refl _)
                  Hinv Ecall) as Hge.
    pose proof (log_write_up_to_consistent _ _ _ _ Hinv Ecall) as Hinv'.
    pose proof (log_write_up_to_frame _ _ _ _ Ecall) as (Hst & _).
    pose proof (stable_fields_inv _ _ Hst) as (Hlsn & _).
    pose proof Hinv' as (H1 & H2 & _).
    split; [lia |]. split; [exact Hlsn | exact Hinv']. }
  destruct E as [E | E].
  - exact (Hcall E).
  - unfold log_buffer_sync_in_background in E. cbn [andb] in E.
    destruct (Z.geb_spec (flushed_to_disk_lsn (log_sys w)) (lsn (log_sys w)))
      as [Hge | Hlt].
    + injection E as <-. pose proof Hinv as (H1 & H2 & _).
      split; [lia |]. split; [reflexivity | exact Hinv].
    + exact (Hcall E).
Qed.

End WriteUpToProgress.

Lemma example_world_appended_consistent :
  locks_consistent example_world_appended.
Proof.
  unfold locks_consistent.
  split; [vm_compute; discriminate |].
  split; [vm_compute; discriminate |].
  split; [vm_compute; discriminate |].
  intros Hd. vm_compute in Hd. discriminate.
Defined.

Lemma log_write_up_to_monotone_witness :
  locks_consistent example_world_appended
  /\ match log_write_up_to 8207 false example_world_appended with
     | Returned w' =>
         GroupCommit.value (write_lock example_world_appended)
         <= GroupCommit.value (write_lock w')
         /\ GroupCommit.value (write_lock w') = 8207
     | Blocked => False
     | Aborted => False
     end.
Proof.
  split; [exact example_world_appended_consistent |].
  assert (Hc : match log_write_up_to 8207 false example_world_appended with
               | Returned w' => GroupCommit.value (write_lock w') = 8207
               | Blocked => False
               | Aborted => False
               end) by (vm_compute; reflexivity).
  revert Hc.
  destruct (log_write_up_to 8207 false example_world_appended)
    as [w' | |] eqn:E; intros Hc; [| contradiction | contradiction].
  split; [| exact Hc].
  exact (proj1 (proj2 (log_write_up_to_monotone 8207 false
                         example_world_appended w'
                         example_world_appended_consistent E))).
Defined.

Lemma log_write_up_to_writes_witness :
  recv_no_ibuf_operations (srv example_world_appended) = false
  /\ 8207 <= lsn (log_sys example_world_appended)
  /\ write_published example_world_appended
  /\ match log_write_up_to 8207 false example_world_appended with
     | Returned w' => 8207 <= write_lsn (log_sys w')
     | Blocked => False
     | Aborted => False
     end.
Proof.
  assert (H1 : recv_no_ibuf_operations (srv example_world_appended) = false)
    by reflexivity.
  assert (H2 : 8207 <= lsn (log_sys example_world_appended))
    by (vm_compute; discriminate).
  assert (H3 : write_published example_world_appended).
  { unfold write_published.
    split; [vm_compute; discriminate |].
    split; vm_compute; discriminate. }
  split; [exact H1 |]. split; [exact H2 |]. split; [exact H3 |].
  assert (Hc : match log_write_up_to 8207 false example_world_appended with
               | Returned _ => True
               | Blocked => False
               | Aborted => False
               end) by (vm_compute; exact I).
  revert Hc.
  destruct (log_write_up_to 8207 false example_world_appended)
    as [w' | |] eqn:E; intros Hc; [| contradiction | contradiction].
  exact (proj1 (log_write_up_to_writes 8207 false example_world_appended
                  w' H1 H2 H3 E)).
Defined.

Lemma log_buffer_flush_to_disk_all_witness :
  recv_no_ibuf_operations (srv example_world_appended) = false
  /\ locks_consistent example_world_appended
  /\ match log_buffer_flush_to_disk true example_world_appended with
     | Returned w' =>
         flushed_to_disk_lsn (log_sys w') = lsn (log_sys w')
         /\ lsn (log_sys w') = 8207
     | Blocked => False
     | Aborted => False
     end.
Proof.
  assert (H1 : recv_no_ibuf_operations (srv example_world_appended) = false)
    by reflexivity.
  split; [exact H1 |].
  split; [exact example_world_appended_consistent |].
  assert (Hc : match log_buffer_flush_to_disk true example_world_appended
               with
               | Returned _ => True
               | Blocked => False
               | Aborted => False
               end) by (vm_compute; exact I).
  revert Hc.
  destruct (log_buffer_flush_to_disk true example_world_appended)
    as [w' | |] eqn:E; intros Hc; [| contradiction | contradiction].
  destruct (log_buffer_flush_to_disk_all example_world_appended w' H1
              example_world_appended_consistent (or_introl E))
    as (Hall & Hlsn & _).
  split; [exact Hall |]. rewrite Hlsn. vm_compute. reflexivity.
Defined.
(** ** Room in the log buffer *)

Section BufferRoom.
Context {C : Collaborators}.

(** The write phase, seen from the log buffer: it leaves the buffer as it
    was or as [log_write] leaves it. *)
Lemma log_write_up_to_write_buffer (lsn_arg : Z) (w w' : world) :
  log_write_up_to_write lsn_arg w = Returned w' ->
  srv w' = srv w
  /\ ((lsn_arg <= GroupCommit.value (write_lock w) /\ w' = w)
      \/ (GroupCommit.value (write_lock w) < lsn_arg
          /\ log_write (srv w) (log_sys w) = Returned (log_sys w'))).
Proof.
  unfold log_write_up_to_write, GroupCommit.acquire.
  destruct (Z.leb_spec lsn_arg (GroupCommit.value (write_lock w)))
    as [Hcov | Hnot].
  { intros E. injection E as <-. split; [reflexivity |].
    left. split; [assumption | reflexivity]. }
  destruct (m_lock (write_lock w)); [discriminate |].
  unfold bind. cbn [log_sys srv set_write_lock write_lock].
  destruct (log_write (srv w) (log_sys w)) as [s | |] eqn:Ew;
    try discriminate.
  cbn [log_sys set_log_sys set_write_lock write_lock].
  destruct (write_lsn s =? lsn (log_sys w)); [| discriminate].
  intros E. injection E as <-. split; [reflexivity |].
  right. split; [assumption | reflexivity].
Qed.

Lemma log_write_keeps_buffer (v : server_t) (s s' : log_t) :
  buffer_wf s ->
  srv_log_buffer_size v mod OS_FILE_LOG_BLOCK_SIZE = 0 ->
  0 <= buf_free s ->
  log_write v s = Returned s' ->
  buffer_wf s'
  /\ 0 <= buf_free s' <= buf_free s
  /\ (buf_free s' < OS_FILE_LOG_BLOCK_SIZE
      \/ buf_free s' = buf_next_to_write s).
Proof.
  intros Hwf Hsz Hbf Hw.
  destruct (Z.eq_dec (buf_free s) (buf_next_to_write s)) as [Heq | Hne].
  - unfold log_write in Hw. rewrite Heq, Z.eqb_refl in Hw.
    injection Hw as <-. split; [exact Hwf |]. split; [lia |].
    right. exact Heq.
  - pose proof (log_write_open_block v s s' Hwf Hsz Hne Hw)
      as (Hwf' & _ & Hf' & _).
    unfold free_offset_in_block in Hf'.
    pose proof (Z.mod_pos_bound (buf_free s) OS_FILE_LOG_BLOCK_SIZE
                  ltac:(unfold OS_FILE_LOG_BLOCK_SIZE; lia)) as Hm.
    pose proof (Z.mod_le (buf_free s) OS_FILE_LOG_BLOCK_SIZE Hbf
                  ltac:(unfold OS_FILE_LOG_BLOCK_SIZE; lia)) as Hle.
    split; [exact Hwf' |]. split; [lia |]. left. lia.
Qed.


Lemma log_buffer_sync_in_background_buffer (w w1 : world) :
  buffer_wf (log_sys w) ->
  srv_log_buffer_size (srv w) mod OS_FILE_LOG_BLOCK_SIZE = 0 ->
  0 <= buf_free (log_sys w) ->
  log_buffer_sync_in_background false w = Returned w1 ->
  srv w1 = srv w
  /\ lsn (log_sys w1) = lsn (log_sys w)
  /\ buffer_wf (log_sys w1)
  /\ 0 <= buf_free (log_sys w1) <= buf_free (log_sys w).
Proof.
  intros Hwf Hsz Hbf E. unfold log_buffer_sync_in_background in E.
  cbn [andb] in E.
  pose proof (log_write_up_to_frame _ _ _ _ E) as (Hst & _ & Hsrv).
  pose proof (stable_fields_inv _ _ Hst) as (Hlsn & _).
  split; [exact Hsrv |]. split; [exact Hlsn |].
  destruct (log_write_up_to_cases _ _ _ _ E)
    as [(_ & ->) | [(_ & Hf & _) | [(_ & Hf & _) | (_ & _ & Ew)]]];
    try discriminate.
  - split; [exact Hwf | lia].
  - apply log_write_up_to_write_buffer in Ew.
    destruct Ew as (_ & [(_ & ->) | (_ & Ew)]); [split; [exact Hwf | lia] |].
    pose proof (log_write_keeps_buffer _ _ _ Hwf Hsz Hbf Ew)
      as (Hwf' & Hr & _).
    split; [exact Hwf' | exact Hr].
Qed.

Lemma log_reserve_and_open_returns (fuel : nat) (len : Z) :
  forall (w w' : world) (lsn_v : Z),
    buffer_wf (log_sys w) ->
    srv_log_buffer_size (srv w) mod OS_FILE_LOG_BLOCK_SIZE = 0 ->
    0 <= buf_free (log_sys w) ->
    log_reserve_and_open fuel len w = Returned (lsn_v, w') ->
    lsn_v = lsn (log_sys w)
    /\ lsn (log_sys w') = lsn_v
    /\ srv w' = srv w
    /\ buffer_wf (log_sys w')
    /\ 0 <= buf_free (log_sys w') <= buf_free (log_sys w)
    /\ u64 (buf_free (log_sys w') + len_upper_limit len (srv w))
       <= srv_log_buffer_size (srv w).
Proof.
  induction fuel as [| fuel IH]; intros w w' lsn_v Hwf Hsz Hbf;
    cbn [log_reserve_and_open].
  - destruct (Z.gtb_spec
                (u64 (buf_free (log_sys w) + len_upper_limit len (srv w)))
                (srv_log_buffer_size (srv w))) as [Hgt | Hle];
      [discriminate |].
    intros E. injection E as <- <-.
    split; [reflexivity |]. split; [reflexivity |]. split; [reflexivity |].
    split; [exact Hwf |]. split; [lia | exact Hle].
  - destruct (Z.gtb_spec
                (u64 (buf_free (log_sys w) + len_upper_limit len (srv w)))
                (srv_log_buffer_size (srv w))) as [Hgt | Hle].
    + unfold bind.
      destruct (log_buffer_sync_in_background false w) as [w1 | |] eqn:Es;
        try discriminate.
      intros E.
      pose proof (log_buffer_sync_in_background_buffer _ _ Hwf Hsz Hbf Es)
        as (Hsrv & Hlsn & Hwf1 & Hbf1).
      apply IH in E; [| exact Hwf1 | rewrite Hsrv; exact Hsz | lia].
      destruct E as (E1 & E2 & E3 & E4 & E5 & E6).
      rewrite Hsrv in E3, E6. rewrite Hlsn in E1.
      split; [exact E1 |]. split; [exact E2 |]. split; [exact E3 |].
      split; [exact E4 |]. split; [lia | exact E6].
    + intros E. injection E as <- <-.
      split; [reflexivity |]. split; [reflexivity |]. split; [reflexivity |].
      split; [exact Hwf |]. split; [lia | exact Hle].
Qed.

(** X17. [log_reserve_and_open] reserves enough: it returns the lsn of
    the log, unchanged by the buffer writes it may have driven, and once
    it has returned for a length [len] an append of [len] bytes with
    [log_write_low], block framing included, ends with the free offset
    inside the buffer size. *)
Theorem log_reserve_and_open_room
  (fuel : nat) (str : list byte) (w w' : world) (lsn_v : Z) :
  buffer_wf (log_sys w) ->
  srv_log_buffer_size (srv w) mod OS_FILE_LOG_BLOCK_SIZE = 0 ->
  0 <= buf_free (log_sys w) < 2 ^ 62 ->
  zlen str < 2 ^ 60 ->
  0 <= srv_log_write_ahead_size (srv w) < 2 ^ 62 ->
  log_reserve_and_open fuel (zlen str) w = Returned (lsn_v, w') ->
  lsn_v = lsn (log_sys w)
  /\ lsn (log_sys w') = lsn_v
  /\ srv w' = srv w
  /\ exists s'',
      log_write_low str (log_sys w') = Some s''
      /\ buf_free (log_sys w') + zlen str <= buf_free s''
      /\ buf_free s'' <= srv_log_buffer_size (srv w).
Proof.
  intros Hwf Hsz Hbf Hlen Hwa E.
  pose proof (log_reserve_and_open_returns _ _ _ _ _ Hwf Hsz
                ltac:(lia) E) as (E1 & E2 & E3 & Hwf' & Hbf' & Hroom).
  split; [exact E1 |]. split; [exact E2 |]. split; [exact E3 |].
  pose proof (zlen_nonneg str) as Hnn.
  assert (Hfuel : (length str < length str + 2)%nat) by lia.
  pose proof (log_write_low_loop_result (length str + 2) str (log_sys w')
                Hfuel Hwf' ltac:(lia)) as Hres.
  cbv zeta in Hres. destruct Hres as (s'' & Hlow & Hlsn'' & Hbf'' & _).
  exists s''. split; [exact Hlow |].
  assert (Hup : len_upper_limit (zlen str) (srv w)
                = 2048 + srv_log_write_ahead_size (srv w)
                  + (5 * zlen str) / 4).
  { unfold len_upper_limit, LOG_BUF_WRITE_MARGIN, OS_FILE_LOG_BLOCK_SIZE.
    change (u32 (4 * 512)) with 2048.
    rewrite (u64_small (2048 + _)) by lia.
    rewrite (u64_small (5 * zlen str)) by lia.
    apply u64_small.
    pose proof (Z.div_pos (5 * zlen str) 4 ltac:(lia) ltac:(lia)).
    pose proof (Z.div_le_upper_bound (5 * zlen str) 4 (2 ^ 61)
                  ltac:(lia) ltac:(lia)).
    lia. }
  rewrite Hup in Hroom.
  pose proof (Z.div_pos (5 * zlen str) 4 ltac:(lia) ltac:(lia)) as Hq0.
  pose proof (Z.div_le_upper_bound (5 * zlen str) 4 (2 ^ 61)
                ltac:(lia) ltac:(lia)) as Hq1.
  rewrite u64_small in Hroom by lia.
  destruct Hwf' as (_ & Hoff).
  unfold free_offset_in_block, block_payload in *.
  set (off := buf_free (log_sys w') mod OS_FILE_LOG_BLOCK_SIZE) in *.
  set (k := (off - LOG_BLOCK_HDR_SIZE + zlen str)
            / (trailer_offset (log_sys w') - LOG_BLOCK_HDR_SIZE)) in *.
  assert (Hk : 0 <= framing_size (log_sys w') * k
               /\ 4 * (framing_size (log_sys w') * k) <= 84 + zlen str).
  { subst k. unfold LOG_BLOCK_HDR_SIZE in *.
    destruct (block_geometry (log_sys w')) as [(Ht & Hf) | (Ht & Hf)];
      rewrite Ht, Hf in *.
    - change (508 - 12) with 496.
      pose proof (Z.div_mod (off - 12 + zlen str) 496 ltac:(lia)) as Hdm.
      pose proof (Z.mod_pos_bound (off - 12 + zlen str) 496 ltac:(lia)).
      lia.
    - change (504 - 12) with 492.
      pose proof (Z.div_mod (off - 12 + zlen str) 492 ltac:(lia)) as Hdm.
      pose proof (Z.mod_pos_bound (off - 12 + zlen str) 492 ltac:(lia)).
      lia. }
  pose proof (Z.mul_div_le (5 * zlen str) 4 ltac:(lia)) as Hq2.
  pose proof (Z.mod_pos_bound (5 * zlen str) 4 ltac:(lia)) as Hq3.
  pose proof (Z.div_mod (5 * zlen str) 4 ltac:(lia)) as Hq4.
  rewrite u64_small in Hbf'' by lia.
  rewrite Hbf''. split; lia.
Qed.

End BufferRoom.


Lemma log_reserve_and_open_room_witness :
  buffer_wf (log_sys example_world_full)
  /\ srv_log_buffer_size (srv example_world_full)
       mod OS_FILE_LOG_BLOCK_SIZE = 0
  /\ 0 <= buf_free (log_sys example_world_full) < 2 ^ 62
  /\ zlen [1; 2; 3] < 2 ^ 60
  /\ 0 <= srv_log_write_ahead_size (srv example_world_full) < 2 ^ 62
  /\ log_reserve_and_open 0 (zlen [1; 2; 3]) example_world_full = Blocked
  /\ match log_reserve_and_open 1 (zlen [1; 2; 3]) example_world_full with
     | Returned (lsn_v, w') =>
         lsn_v = 9740
         /\ exists s'',
              log_write_low [1; 2; 3] (log_sys w') = Some s''
              /\ buf_free s'' <= 4096
     | Blocked => False
     | Aborted => False
     end.
Proof.
  assert (H1 : buffer_wf (log_sys example_world_full)).
  { vm_compute. repeat split; discriminate. }
  assert (H2 : srv_log_buffer_size (srv example_world_full)
               mod OS_FILE_LOG_BLOCK_SIZE = 0) by reflexivity.
  assert (H3 : 0 <= buf_free (log_sys example_world_full) < 2 ^ 62).
  { vm_compute. split; [discriminate | reflexivity]. }
  assert (H4 : zlen [1; 2; 3] < 2 ^ 60) by (vm_compute; reflexivity).
  assert (H5 : 0 <= srv_log_write_ahead_size (srv example_world_full)
               < 2 ^ 62).
  { vm_compute. split; [discriminate | reflexivity]. }
  split; [exact H1 |]. split; [exact H2 |]. split; [exact H3 |].
  split; [exact H4 |]. split; [exact H5 |].
  split; [vm_compute; reflexivity |].
  assert (Hc : match log_reserve_and_open 1 (zlen [1; 2; 3])
                       example_world_full with
               | Returned _ => True
               | Blocked => False
               | Aborted => False
               end) by (vm_compute; exact I).
  revert Hc.
  destruct (log_reserve_and_open 1 (zlen [1; 2; 3]) example_world_full)
    as [[lsn_v w'] | |] eqn:E; intros Hc; [| contradiction | contradiction].
  destruct (log_reserve_and_open_room 1 [1; 2; 3] example_world_full w'
              lsn_v H1 H2 H3 H4 H5 E)
    as (Hlsn & _ & _ & s'' & Hlow & _ & Hroom).
  split; [exact Hlsn |].
  exists s''. split; [exact Hlow | exact Hroom].
Defined.
(** ** Closing an append ([log_close]) *)

(** What [log_close] leaves alone: everything but the first-record-group
    field of the open block and the flag. *)
Lemma log_close_frame (v : server_t) (st : chkp_warning_t) (s : log_t) :
  let s' := snd (log_close v st s) in
  fst (fst (fst (log_close v st s))) = lsn s
  /\ lsn s' = lsn s
  /\ buf s' = buf s
  /\ buf_free s' = buf_free s
  /\ buf_next_to_write s' = buf_next_to_write s
  /\ log s' = log s
  /\ last_checkpoint_lsn s' = last_checkpoint_lsn s
  /\ buf_mem s'
     = (if LogBlock.log_block_get_first_rec_group (buf_mem s)
             (ut_2pow_round (buf s + buf_free s) OS_FILE_LOG_BLOCK_SIZE) =? 0
        then LogBlock.log_block_set_first_rec_group (buf_mem s)
               (ut_2pow_round (buf s + buf_free s) OS_FILE_LOG_BLOCK_SIZE)
               (LogBlock.log_block_get_data_len (buf_mem s)
                  (ut_2pow_round (buf s + buf_free s) OS_FILE_LOG_BLOCK_SIZE))
        else buf_mem s).
Proof.
  cbv zeta. unfold log_close.
  repeat match goal with
         | |- context [if ?b then _ else _] => destruct b
         end;
    cbn; repeat split.
Qed.

(** The flag after [log_close]. *)
Lemma log_close_flag (v : server_t) (st : chkp_warning_t) (s : log_t) :
  let age := u64 (lsn s - last_checkpoint_lsn s) in
  let oldest_lsn := buf_pool_get_oldest_modification v in
  check_flush_or_checkpoint (snd (log_close v st s))
  = check_flush_or_checkpoint s
    || (buf_free s >? max_buf_free s)
    || (negb (age <=? max_modified_age_sync s)
        && ((oldest_lsn =? 0)
            || (u64 (lsn s - oldest_lsn) >? max_modified_age_sync s)
            || (age >? max_checkpoint_age_async s))).
Proof.
  cbv zeta. unfold log_close.
  set (age := u64 (lsn s - last_checkpoint_lsn s)).
  destruct (LogBlock.log_block_get_first_rec_group _ _ =? 0);
    cbn -[u64 Z.leb Z.gtb Z.geb Z.eqb difftime]; fold age;
    destruct (buf_free s >? max_buf_free s);
    cbn -[u64 Z.leb Z.gtb Z.geb Z.eqb difftime]; fold age;
    set (d := (buf_pool_get_oldest_modification v =? 0)
              || (u64 (lsn s - buf_pool_get_oldest_modification v)
                  >? max_modified_age_sync s)
              || (age >? max_checkpoint_age_async s));
    destruct (age <=? max_modified_age_sync s);
    cbn -[u64 Z.leb Z.gtb Z.geb Z.eqb difftime];
    destruct d;
    cbn -[u64 Z.leb Z.gtb Z.geb Z.eqb difftime];
    destruct (check_flush_or_checkpoint s);
    reflexivity.
Qed.

(** X18. [log_close] returns the lsn of the log and only ever raises
    [check_flush_or_checkpoint]: the flag stays set if it was set, it is
    set when the free offset has passed [max_buf_free], and, with the
    thresholds in their order, it is set whenever the age of the last
    checkpoint exceeds [max_checkpoint_age] (the invariant that log0log.h
    requires of the flag). *)
Theorem log_close_raises_flag (v : server_t) (st : chkp_warning_t) (s : log_t) :
  let s' := snd (log_close v st s) in
  let age := u64 (lsn s - last_checkpoint_lsn s) in
  fst (fst (fst (log_close v st s))) = lsn s
  /\ lsn s' = lsn s
  /\ buf_free s' = buf_free s
  /\ (check_flush_or_checkpoint s = true ->
      check_flush_or_checkpoint s' = true)
  /\ (buf_free s > max_buf_free s -> check_flush_or_checkpoint s' = true)
  /\ (max_modified_age_sync s <= max_checkpoint_age_async s ->
      age > max_checkpoint_age_async s ->
      check_flush_or_checkpoint s' = true)
  /\ (max_modified_age_sync s <= max_checkpoint_age_async s ->
      max_checkpoint_age_async s <= max_checkpoint_age s ->
      age > max_checkpoint_age s ->
      check_flush_or_checkpoint s' = true)
  /\ (age <= max_modified_age_sync s ->
      buf_free s <= max_buf_free s ->
      check_flush_or_checkpoint s' = check_flush_or_checkpoint s).
Proof.
  cbv zeta.
  pose proof (log_close_frame v st s) as (F1 & F2 & _ & F4 & _).
  cbv zeta in F2, F4.
  split; [exact F1 |]. split; [exact F2 |]. split; [exact F4 |].
  rewrite log_close_flag. cbv zeta.
  set (age := u64 (lsn s - last_checkpoint_lsn s)).
  destruct (Z.leb_spec age (max_modified_age_sync s)) as [Hyoung | Hold];
    destruct (Z.gtb_spec (buf_free s) (max_buf_free s)) as [Hfull | Hroom];
    destruct (Z.gtb_spec age (max_checkpoint_age_async s)) as [Hasync | Hno];
    destruct (check_flush_or_checkpoint s);
    cbn [negb andb orb]; rewrite ?Bool.orb_true_r;
    repeat split; intros; try reflexivity; try assumption; try lia.
Qed.

(** X19. The warning of [log_close] is rate limited: it is logged, and
    the statics updated, only when the age of the last checkpoint has
    reached the capacity and no warning was logged before or the last
    one is more than 15 seconds old; a [log_close] within 15 seconds of a
    logged warning logs nothing. *)
Theorem log_close_warning (v : server_t) (st : chkp_warning_t) (s : log_t) :
  let msgs := snd (fst (fst (log_close v st s))) in
  let st' := snd (fst (log_close v st s)) in
  let age := u64 (lsn s - last_checkpoint_lsn s) in
  (age >= log_capacity s ->
   log_has_printed_chkp_warning st = false
   \/ time_now v - log_last_warning_time st > 15 ->
   msgs = [Msg_error_checkpoint_age age (log_capacity s)]
   /\ st' = mk_chkp_warning true (time_now v))
  /\ (age < log_capacity s
      \/ (log_has_printed_chkp_warning st = true
          /\ time_now v - log_last_warning_time st <= 15) ->
      msgs = [] /\ st' = st)
  /\ (msgs <> [] ->
      forall (v2 : server_t) (s2 : log_t),
        time_now v2 - time_now v <= 15 ->
        snd (fst (fst (log_close v2 st' s2))) = []).
Proof.
  cbv zeta.
  assert (Hshape : forall v0 st0 s0,
             let age0 := u64 (lsn s0 - last_checkpoint_lsn s0) in
             let warn :=
               (age0 >=? log_capacity s0)
               && (negb (log_has_printed_chkp_warning st0)
                   || (difftime (time_now v0) (log_last_warning_time st0)
                       >? 15)) in
             snd (fst (fst (log_close v0 st0 s0)))
             = (if warn
                then [Msg_error_checkpoint_age age0 (log_capacity s0)]
                else [])
             /\ snd (fst (log_close v0 st0 s0))
                = (if warn then mk_chkp_warning true (time_now v0) else st0)).
  { intros v0 st0 s0. cbv zeta. unfold log_close.
    destruct (LogBlock.log_block_get_first_rec_group _ _ =? 0);
      cbn -[u64 Z.leb Z.gtb Z.geb Z.eqb difftime];
      destruct (buf_free s0 >? max_buf_free s0);
      cbn -[u64 Z.leb Z.gtb Z.geb Z.eqb difftime];
      destruct (u64 (lsn s0 - last_checkpoint_lsn s0)
                <=? max_modified_age_sync s0);
      cbn -[u64 Z.leb Z.gtb Z.geb Z.eqb difftime];
      try destruct (_ || _ || _);
      split; reflexivity. }
  pose proof (Hshape v st s) as (Hm & Hst). cbv zeta in Hm, Hst.
  rewrite Hm, Hst. unfold difftime.
  set (age := u64 (lsn s - last_checkpoint_lsn s)).
  split; [| split].
  - intros Hage Hdue.
    destruct (Z.geb_spec age (log_capacity s)) as [_ | Hlt]; [| lia].
    destruct Hdue as [-> | Hlate]; cbn [negb orb andb];
      [split; reflexivity |].
    destruct (Z.gtb_spec (time_now v - log_last_warning_time st) 15)
      as [_ | Hno]; [| lia].
    rewrite Bool.orb_true_r. split; reflexivity.
  - intros [Hyoung | (Hprinted & Hsoon)].
    + destruct (Z.geb_spec age (log_capacity s)) as [Hge | _]; [lia |].
      split; reflexivity.
    + rewrite Hprinted. cbn [negb orb].
      destruct (Z.gtb_spec (time_now v - log_last_warning_time st) 15)
        as [Hlate | _]; [lia |].
      rewrite Bool.andb_false_r. split; reflexivity.
  - intros Hlogged v2 s2 Hsoon.
    destruct ((age >=? log_capacity s)
              && (negb (log_has_printed_chkp_warning st)
                  || (time_now v - log_last_warning_time st >? 15)));
      [| contradiction].
    pose proof (Hshape v2 (mk_chkp_warning true (time_now v)) s2) as (Hm2 & _).
    cbv zeta in Hm2. rewrite Hm2.
    cbn [log_has_printed_chkp_warning log_last_warning_time negb orb].
    unfold difftime.
    destruct (Z.gtb_spec (time_now v2 - time_now v) 15) as [Hlate | _];
      [lia |].
    rewrite Bool.andb_false_r. reflexivity.
Qed.
(** ** Extending the log buffer ([log_buffer_extend]) *)

Lemma ut_calc_align_pow2 (n k : Z) :
  0 <= k ->
  0 <= n ->
  n + 2 ^ k - 1 < 2 ^ 64 ->
  n <= ut_calc_align n (2 ^ k) < n + 2 ^ k
  /\ ut_calc_align n (2 ^ k) mod 2 ^ k = 0.
Proof.
  intros Hk Hn Hsmall.
  assert (Hpos : 0 < 2 ^ k) by (apply Z.pow_pos_nonneg; lia).
  unfold ut_calc_align. rewrite u64_small by lia.
  rewrite <- Z.ldiff_land.
  replace (2 ^ k - 1) with (Z.ones k) by (rewrite Z.ones_equiv; lia).
  rewrite Z.ldiff_ones_r by lia.
  rewrite Z.shiftr_div_pow2, Z.shiftl_mul_pow2 by lia.
  pose proof (Z.div_mod (n + 2 ^ k - 1) (2 ^ k) ltac:(lia)) as Hdm.
  pose proof (Z.mod_pos_bound (n + 2 ^ k - 1) (2 ^ k) Hpos) as Hm.
  split; [lia |]. apply Z.mod_mul. lia.
Qed.

Lemma srv_page_size_pow2 (v : server_t) :
  0 <= srv_page_size_shift v <= 16 ->
  srv_page_size v = 2 ^ srv_page_size_shift v
  /\ 0 < 2 ^ srv_page_size_shift v <= 2 ^ 16.
Proof.
  intros Hs. unfold srv_page_size.
  rewrite Z.shiftl_mul_pow2, Z.mul_1_l by lia.
  assert (Hpos : 0 < 2 ^ srv_page_size_shift v)
    by (apply Z.pow_pos_nonneg; lia).
  assert (Hle : 2 ^ srv_page_size_shift v <= 2 ^ 16)
    by (apply Z.pow_le_mono_r; lia).
  split; [apply u64_small; lia | lia].
Qed.

(** X20. [log_buffer_extend] does nothing when the buffer already holds
    [len] bytes. Otherwise the new buffer size is [len] rounded up to the
    page size, so at least [len] and larger than the old size; the first
    half of the new buffer is in use and starts with the [buf_free] bytes
    of the old half in use; the lsn, the free offset and the write offset
    are unchanged and [max_buf_free] is recomputed from the new size. *)
Theorem log_buffer_extend_grows
  (len : Z) (fresh : memory) (v : server_t) (s : log_t) :
  0 <= srv_page_size_shift v <= 16 ->
  0 <= len < 2 ^ 62 ->
  let r := log_buffer_extend len fresh v s in
  let v' := snd (fst r) in
  let s' := snd r in
  (len <= srv_log_buffer_size v -> r = ([], v, s))
  /\ (srv_log_buffer_size v < len ->
      len <= srv_log_buffer_size v' < len + srv_page_size v
      /\ srv_log_buffer_size v' mod srv_page_size v = 0
      /\ srv_log_buffer_size v < srv_log_buffer_size v'
      /\ v' = set_srv_log_buffer_size (srv_log_buffer_size v') v
      /\ first_in_use s' = true
      /\ mem_read (buf_mem s') (buf s') (Z.to_nat (buf_free s'))
         = mem_read (buf_mem s) (buf s) (Z.to_nat (buf_free s))
      /\ buf_free s' = buf_free s
      /\ buf_next_to_write s' = buf_next_to_write s
      /\ lsn s' = lsn s
      /\ max_buf_free s'
         = u64 (srv_log_buffer_size v' / LOG_BUF_FLUSH_RATIO
                - LOG_BUF_FLUSH_MARGIN v)).
Proof.
  intros Hshift Hlen. cbv zeta. unfold log_buffer_extend.
  pose proof (srv_page_size_pow2 v Hshift) as (Hps & Hpos).
  destruct (Z.leb_spec len (srv_log_buffer_size v)) as [Hle | Hgt].
  - split; [reflexivity | lia].
  - split; [lia |]. intros _.
    cbn [fst snd srv_log_buffer_size set_srv_log_buffer_size].
    rewrite Hps.
    pose proof (ut_calc_align_pow2 len (srv_page_size_shift v)
                  ltac:(lia) ltac:(lia) ltac:(lia)) as (Hr & Hm).
    split; [exact Hr |]. split; [exact Hm |]. split; [lia |].
    split; [reflexivity |]. split; [reflexivity |].
    split.
    { cbn [buf_mem buf buf_free set_max_buf_free set_buf_mem set_first_in_use
           set_buf].
      pose proof (mem_read_memcpy_same
                    (mem_read (buf_mem s) (buf s) (Z.to_nat (buf_free s)))
                    fresh 0) as H.
      rewrite mem_read_length in H. exact H. }
    repeat split.
Qed.

Lemma log_buffer_extend_grows_witness :
  0 <= srv_page_size_shift (example_server false 0 0) <= 16
  /\ 0 <= 20000 < 2 ^ 62
  /\ 20000
     <= srv_log_buffer_size
          (snd (fst (log_buffer_extend 20000 (fun _ => 255)
                       (example_server false 0 0)
                       (example_log_appended false))))
     < 20000 + srv_page_size (example_server false 0 0)
  /\ srv_log_buffer_size
       (snd (fst (log_buffer_extend 20000 (fun _ => 255)
                    (example_server false 0 0)
                    (example_log_appended false)))) = 32768
  /\ mem_read
       (buf_mem (snd (log_buffer_extend 20000 (fun _ => 255)
                        (example_server false 0 0)
                        (example_log_appended false))))
       12 3
     = [1; 2; 3].
Proof.
  assert (H1 : 0 <= srv_page_size_shift (example_server false 0 0) <= 16)
    by (cbn; lia).
  assert (H2 : 0 <= 20000 < 2 ^ 62) by lia.
  assert (H3 : srv_log_buffer_size (example_server false 0 0) < 20000)
    by (cbn; lia).
  split; [exact H1 |]. split; [exact H2 |].
  split.
  - exact (proj1 (proj2 (log_buffer_extend_grows 20000 (fun _ => 255)
                           (example_server false 0 0)
                           (example_log_appended false) H1 H2) H3)).
  - split; vm_compute; reflexivity.
Defined.
(** ** The order of the capacity thresholds *)

(** X21. A successful [log_set_capacity] leaves the thresholds in
    order, [0 <= max_modified_age_async <= max_modified_age_sync <=
    max_checkpoint_age_async <= max_checkpoint_age < log_capacity <=
    file_size], and logs nothing; a failed one logs the error and leaves
    the log system as it was. *)
Theorem log_set_capacity_ordering (file_size_arg : Z) (w : world) :
  0 <= file_size_arg < 2 ^ 64 ->
  0 <= srv_page_size_shift (srv w) <= 16 ->
  0 <= srv_thread_concurrency (srv w) < 2 ^ 32 ->
  let r := log_set_capacity file_size_arg w in
  let s' := log_sys (snd r) in
  (fst r = true ->
   0 <= max_modified_age_async s'
   /\ max_modified_age_async s' <= max_modified_age_sync s'
   /\ max_modified_age_sync s' <= max_checkpoint_age_async s'
   /\ max_checkpoint_age_async s' <= max_checkpoint_age s'
   /\ max_checkpoint_age s' < log_capacity s'
   /\ log_capacity s' <= file_size_arg
   /\ trace (snd r) = trace w)
  /\ (fst r = false ->
      s' = log_sys w
      /\ trace (snd r)
         = trace w
             ++ [Ev_error_log_too_small (srv_thread_concurrency (srv w))]).
Proof.
  intros Hf Hshift Hthreads. cbv zeta.
  destruct (capacity_free_value (srv w) Hshift Hthreads) as [Hfree Hfb].
  assert (Hfpos : 0 < capacity_free (srv w)).
  { rewrite Hfree.
    assert (0 < 2 ^ srv_page_size_shift (srv w))
      by (apply Z.pow_pos_nonneg; lia).
    nia. }
  unfold log_set_capacity.
  assert (Hcap : capacity_smallest file_size_arg
                 = file_size_arg - file_size_arg / 10).
  { unfold capacity_smallest. apply u64_small.
    pose proof (Z.div_pos file_size_arg 10).
    pose proof (Z.div_le_upper_bound file_size_arg 10 file_size_arg).
    lia. }
  destruct (Z.geb_spec (capacity_free (srv w))
              (capacity_smallest file_size_arg / 2)) as [Hge | Hlt].
  { cbn [fst snd]. split; [discriminate |]. intros _.
    split; reflexivity. }
  cbn [fst snd]. split; [| discriminate]. intros _.
  cbn [log_sys set_log_sys log_capacity max_modified_age_async
       max_modified_age_sync max_checkpoint_age_async max_checkpoint_age
       set_log_capacity set_max_modified_age_async set_max_modified_age_sync
       set_max_checkpoint_age_async set_max_checkpoint_age trace].
  set (c := capacity_smallest file_size_arg) in *.
  assert (Hc : 0 <= c <= file_size_arg).
  { rewrite Hcap. pose proof (Z.div_pos file_size_arg 10).
    pose proof (Z.div_le_upper_bound file_size_arg 10 file_size_arg).
    lia. }
  assert (Hhalf : c / 2 <= c) by (apply Z.div_le_upper_bound; lia).
  assert (Hm0 : capacity_margin file_size_arg (srv w)
                = (c - capacity_free (srv w))
                  - (c - capacity_free (srv w)) / 10).
  { unfold capacity_margin. fold c.
    rewrite (u64_small (c - _)) by lia.
    apply u64_small.
    pose proof (Z.div_pos (c - capacity_free (srv w)) 10).
    pose proof (Z.div_le_upper_bound (c - capacity_free (srv w)) 10
                  (c - capacity_free (srv w))).
    lia. }
  rewrite Hm0.
  set (m := (c - capacity_free (srv w)) - (c - capacity_free (srv w)) / 10).
  assert (Hm : 0 <= m < c).
  { subst m.
    pose proof (Z.div_pos (c - capacity_free (srv w)) 10).
    pose proof (Z.div_le_upper_bound (c - capacity_free (srv w)) 10
                  (c - capacity_free (srv w))).
    lia. }
  assert (Hdiv : forall d, 0 < d -> u64 (m - m / d) = m - m / d).
  { intros d Hd. apply u64_small.
    pose proof (Z.div_pos m d).
    pose proof (Z.div_le_upper_bound m d m).
    nia. }
  unfold LOG_POOL_PREFLUSH_RATIO_ASYNC, LOG_POOL_PREFLUSH_RATIO_SYNC,
    LOG_POOL_CHECKPOINT_RATIO_ASYNC.
  rewrite !Hdiv by lia.
  repeat split; try reflexivity; try lia;
    Z.div_mod_to_equations; lia.
Qed.

Lemma log_set_capacity_ordering_witness :
  0 <= 2000000 < 2 ^ 64
  /\ 0 <= srv_page_size_shift (example_server false 0 0) <= 16
  /\ 0 <= srv_thread_concurrency (example_server false 0 0) < 2 ^ 32
  /\ fst (log_set_capacity 2000000
            (example_world (example_log false 1 1 1 1)
               (example_server false 0 0))) = true
  /\ max_modified_age_sync
       (log_sys (snd (log_set_capacity 2000000
                        (example_world (example_log false 1 1 1 1)
                           (example_server false 0 0)))))
     <= max_checkpoint_age_async
          (log_sys (snd (log_set_capacity 2000000
                           (example_world (example_log false 1 1 1 1)
                              (example_server false 0 0))))).
Proof.
  assert (H1 : 0 <= 2000000 < 2 ^ 64) by lia.
  assert (H2 : 0 <= srv_page_size_shift (example_server false 0 0) <= 16)
    by (cbn; lia).
  assert (H3 : 0 <= srv_thread_concurrency (example_server false 0 0)
               < 2 ^ 32) by (cbn; lia).
  assert (H4 : fst (log_set_capacity 2000000
                      (example_world (example_log false 1 1 1 1)
                         (example_server false 0 0))) = true)
    by (vm_compute; reflexivity).
  split; [exact H1 |]. split; [exact H2 |]. split; [exact H3 |].
  split; [exact H4 |].
  exact (proj1 (proj2 (proj2
           (proj1 (log_set_capacity_ordering 2000000
                     (example_world (example_log false 1 1 1 1)
                        (example_server false 0 0)) H1 H2 H3) H4)))).
Defined.
(** ** Checkpoints and the write-ahead rule *)

Section CheckpointOrder.
Context {C : Collaborators}.

Lemma log_checkpoint_write_frame (flush_lsn : Z) (w : world) :
  let w' := log_checkpoint_write flush_lsn w in
  lsn (log_sys w') = lsn (log_sys w)
  /\ write_lsn (log_sys w') = write_lsn (log_sys w)
  /\ flushed_to_disk_lsn (log_sys w') = flushed_to_disk_lsn (log_sys w)
  /\ data_fd (log (log_sys w')) = data_fd (log (log_sys w))
  /\ write_lock w' = write_lock w
  /\ flush_lock w' = flush_lock w
  /\ srv w' = srv w.
Proof. repeat split. Qed.

(** X22. [log_checkpoint] keeps the write-ahead rule: outside recovery,
    with the oldest modification not beyond [lsn] and locks that agree
    with the log system, a call that returns leaves the log on disk up to
    [last_checkpoint_lsn], whether it wrote a checkpoint or not, and the
    locks still agree with the log system. *)
Theorem log_checkpoint_write_ahead (w : world) (b : bool) (w' : world) :
  recv_no_ibuf_operations (srv w) = false ->
  buf_pool_get_oldest_modification (srv w) <= lsn (log_sys w) ->
  locks_consistent w ->
  checkpoint_durable w ->
  log_checkpoint w = Returned (b, w') ->
  checkpoint_durable w' /\ locks_consistent w'.
Proof.
  intros Hrecv Hold Hinv Hwal E.
  destruct (log_checkpoint_prepare_frame w) as (Ps & Pv & _ & Pw & Pf).
  assert (Hinv0 : locks_consistent (log_checkpoint_prepare w)).
  { unfold locks_consistent. rewrite Ps, Pw, Pf. exact Hinv. }
  assert (Hreach : log_buf_pool_get_oldest_modification w <= lsn (log_sys w)).
  { unfold log_buf_pool_get_oldest_modification.
    destruct (_ =? 0); lia. }
  unfold checkpoint_durable in *.
  destruct (log_checkpoint_returns w b w' E)
    as [(_ & _ & ->) | [(_ & _ & _ & Ew) | (_ & _ & _ & w3 & Ew & ->)]].
  - rewrite Ps. split; [exact Hwal | exact Hinv0].
  - pose proof (log_write_up_to_progress _ _ _ _ Hinv0 Ew) as (P1 & _).
    pose proof (log_write_up_to_frame _ _ _ _ Ew) as (Hst & _).
    pose proof (stable_fields_inv _ _ Hst) as (_ & Hck & _).
    rewrite Ps in P1, Hck.
    split; [lia |].
    exact (log_write_up_to_consistent _ _ _ _ Hinv0 Ew).
  - assert (Hr0 : recv_no_ibuf_operations (srv (log_checkpoint_prepare w))
                  = false) by (rewrite Pv; exact Hrecv).
    assert (Hreach0 : log_buf_pool_get_oldest_modification w
                      <= lsn (log_sys (log_checkpoint_prepare w)))
      by (rewrite Ps; exact Hreach).
    pose proof (log_write_up_to_flush_reaches _ _ _ Hr0 Hreach0 Hinv0 Ew)
      as Hge.
    pose proof (log_write_up_to_consistent _ _ _ _ Hinv0 Ew) as Hinv3.
    split; [exact Hge |].
    exact Hinv3.
Qed.

(** X23. A checkpoint that succeeded needs no repeating: after
    [log_checkpoint] has returned [true], with the buffer pool unchanged a
    second [log_checkpoint] returns [true] at once; it writes nothing to
    the log files and leaves the log system as it is. *)
Theorem log_checkpoint_twice (w w' : world) :
  log_checkpoint w = Returned (true, w') ->
  log_checkpoint w' = Returned (true, log_checkpoint_prepare w')
  /\ log_sys (log_checkpoint_prepare w') = log_sys w'
  /\ new_redo (log_checkpoint_prepare w') = new_redo w'.
Proof.
  intros E.
  destruct (log_checkpoint_prepare_frame w) as (Ps & Pv & _).
  destruct (log_checkpoint_prepare_frame w') as (Ps' & Pv' & Pr' & _).
  split; [| split; [exact Ps' | exact Pr']].
  assert (Hdone : log_buf_pool_get_oldest_modification w'
                  = last_checkpoint_lsn (log_sys w')).
  { destruct (log_checkpoint_returns w true w' E)
      as [(Heq & _ & ->) | [(_ & _ & Hb & _) | (_ & _ & _ & w3 & Ew & ->)]];
      [| discriminate |].
    - rewrite log_checkpoint_selects, Ps. exact Heq.
    - pose proof (log_write_up_to_frame _ _ _ _ Ew) as (Hst & _ & Hsrv).
      pose proof (stable_fields_inv _ _ Hst) as (Hlsn & _).
      unfold log_buf_pool_get_oldest_modification at 1.
      change (srv (log_checkpoint_write _ w3)) with (srv w3).
      change (lsn (log_sys (log_checkpoint_write _ w3)))
        with (lsn (log_sys w3)).
      rewrite Hsrv, Pv, Hlsn, Ps. reflexivity. }
  unfold log_checkpoint. cbv zeta.
  rewrite log_checkpoint_selects, Ps', Hdone, Z.eqb_refl. reflexivity.
Qed.

End CheckpointOrder.

Lemma log_checkpoint_write_ahead_witness :
  recv_no_ibuf_operations (srv example_world_appended) = false
  /\ buf_pool_get_oldest_modification (srv example_world_appended)
     <= lsn (log_sys example_world_appended)
  /\ locks_consistent example_world_appended
  /\ checkpoint_durable example_world_appended
  /\ match log_checkpoint example_world_appended with
     | Returned (b, w') =>
         b = true
         /\ last_checkpoint_lsn (log_sys w') = 8207
         /\ checkpoint_durable w'
     | Blocked => False
     | Aborted => False
     end.
Proof.
  assert (H1 : recv_no_ibuf_operations (srv example_world_appended) = false)
    by reflexivity.
  assert (H2 : buf_pool_get_oldest_modification (srv example_world_appended)
               <= lsn (log_sys example_world_appended))
    by (vm_compute; discriminate).
  assert (H4 : checkpoint_durable example_world_appended)
    by (vm_compute; discriminate).
  split; [exact H1 |]. split; [exact H2 |].
  split; [exact example_world_appended_consistent |].
  split; [exact H4 |].
  assert (Hc : match log_checkpoint example_world_appended with
               | Returned (b, w') =>
                   b = true /\ last_checkpoint_lsn (log_sys w') = 8207
               | Blocked => False
               | Aborted => False
               end) by (vm_compute; split; reflexivity).
  revert Hc.
  destruct (log_checkpoint example_world_appended) as [[b w'] | |] eqn:E;
    intros Hc; [| contradiction | contradiction].
  destruct Hc as (Hb & Hlast).
  split; [exact Hb |]. split; [exact Hlast |].
  exact (proj1 (log_checkpoint_write_ahead example_world_appended b w'
                  H1 H2 example_world_appended_consistent H4 E)).
Defined.

Lemma log_checkpoint_twice_witness :
  n_pending_checkpoint_writes (log_sys example_world_appended) = 0
  /\ match log_checkpoint example_world_appended with
     | Returned (b, w') =>
         b = true
         /\ log_checkpoint w' = Returned (true, log_checkpoint_prepare w')
     | Blocked => False
     | Aborted => False
     end.
Proof.
  split; [reflexivity |].
  assert (Hc : match log_checkpoint example_world_appended with
               | Returned (b, _) => b = true
               | Blocked => False
               | Aborted => False
               end) by (vm_compute; reflexivity).
  revert Hc.
  destruct (log_checkpoint example_world_appended) as [[b w'] | |] eqn:E;
    intros Hc; [| contradiction | contradiction].
  split; [exact Hc |]. subst b.
  exact (proj1 (log_checkpoint_twice example_world_appended w' E)).
Defined.
(** ** Appending in pieces *)

Lemma log_write_low_part_log (str : list byte) (s : log_t) :
  log (snd (log_write_low_part str s)) = log s
  /\ buf (snd (log_write_low_part str s)) = buf s.
Proof.
  unfold log_write_low_part.
  repeat match goal with
         | |- context [if ?b then _ else _] => destruct b
         end;
    split; reflexivity.
Qed.

Lemma log_write_low_loop_log (fuel : nat) :
  forall (str : list byte) (s s' : log_t),
    log_write_low_loop fuel str s = Some s' ->
    log s' = log s /\ buf s' = buf s.
Proof.
  induction fuel as [| fuel IH]; intros str s s'; cbn [log_write_low_loop];
    [discriminate |].
  pose proof (log_write_low_part_log str s) as (Hl & Hb).
  destruct (log_write_low_part str s) as [rest s1]. cbn [snd] in Hl, Hb.
  destruct (0 <? zlen rest).
  - intros E. apply IH in E. destruct E as (-> & ->). split; assumption.
  - intros E. injection E as <-. split; assumption.
Qed.

(** X24. The lsn does not depend on how a record is cut up: appending
    [a] and then [b] with [log_write_low] ends at the same lsn and the
    same free offset as appending [a ++ b] in one call, the framing of the
    blocks completed on the way included. *)
Theorem log_write_low_in_pieces (a b : list byte) (s : log_t) :
  buffer_wf s ->
  zlen a + zlen b < 2 ^ 60 ->
  0 <= lsn s < 2 ^ 62 ->
  0 <= buf_free s < 2 ^ 62 ->
  exists s1 s2 s12,
    log_write_low a s = Some s1
    /\ log_write_low b s1 = Some s2
    /\ log_write_low (a ++ b) s = Some s12
    /\ lsn s2 = lsn s12
    /\ buf_free s2 = buf_free s12
    /\ zlen a + zlen b <= lsn s12 - lsn s.
Proof.
  intros Hwf Hlen Hlsn Hbf.
  pose proof (zlen_nonneg a) as Ha. pose proof (zlen_nonneg b) as Hb.
  assert (Hab : zlen (a ++ b) = zlen a + zlen b) by apply zlen_app.
  unfold log_write_low.
  destruct (log_write_low_loop_result (length a + 2) a s
              ltac:(lia) Hwf ltac:(lia))
    as (s1 & E1 & L1 & B1 & Hwf1).
  destruct (log_write_low_loop_result (length b + 2) b s1
              ltac:(lia) Hwf1 ltac:(lia))
    as (s2 & E2 & L2 & B2 & _).
  destruct (log_write_low_loop_result (length (a ++ b) + 2) (a ++ b) s
              ltac:(lia) Hwf ltac:(lia))
    as (s12 & E12 & L12 & B12 & _).
  exists s1, s2, s12.
  split; [exact E1 |]. split; [exact E2 |]. split; [exact E12 |].
  pose proof (log_write_low_loop_log _ _ _ _ E1) as (Hlog & _).
  assert (HT : trailer_offset s1 = trailer_offset s)
    by (unfold trailer_offset; rewrite Hlog; reflexivity).
  assert (HF : framing_size s1 = framing_size s)
    by (unfold framing_size; rewrite Hlog; reflexivity).
  unfold block_payload, free_offset_in_block in *.
  rewrite HT, HF in *. rewrite Hab in *.
  destruct Hwf as (_ & Hoff).
  unfold LOG_BLOCK_HDR_SIZE, OS_FILE_LOG_BLOCK_SIZE in *.
  set (off := buf_free s mod 512) in *.
  set (P := trailer_offset s - 12) in *.
  set (F := framing_size s) in *.
  assert (Hgeo : (P = 496 /\ F = 16) \/ (P = 492 /\ F = 20)).
  { subst P F.
    destruct (block_geometry s) as [(-> & ->) | (-> & ->)]; [left | right];
      split; reflexivity. }
  set (k1 := (off - 12 + zlen a) / P) in *.
  set (k12 := (off - 12 + (zlen a + zlen b)) / P) in *.
  assert (Hk1 : 0 <= k1 /\ P * k1 <= off - 12 + zlen a < P * k1 + P).
  { subst k1. destruct Hgeo as [(-> & _) | (-> & _)];
      Z.div_mod_to_equations; lia. }
  assert (Hk12 : 0 <= k12
                 /\ P * k12 <= off - 12 + (zlen a + zlen b) < P * k12 + P).
  { subst k12. destruct Hgeo as [(-> & _) | (-> & _)];
      Z.div_mod_to_equations; lia. }
  assert (HFk1 : 0 <= F * k1 <= zlen a + 512)
    by (destruct Hgeo as [(HP & ->) | (HP & ->)]; rewrite HP in *; lia).
  assert (HFk12 : 0 <= F * k12 <= zlen a + zlen b + 512)
    by (destruct Hgeo as [(HP & ->) | (HP & ->)]; rewrite HP in *; lia).
  rewrite u64_small in L1, B1 by lia.
  rewrite u64_small in L12, B12 by lia.
  assert (Hoff1 : buf_free s1 mod 512 = 12 + (off - 12 + zlen a - P * k1)).
  { rewrite B1.
    pose proof (Z.div_mod (buf_free s) 512 ltac:(lia)) as Hdm. fold off in Hdm.
    replace (buf_free s + zlen a + F * k1)
      with (12 + (off - 12 + zlen a - P * k1)
            + (buf_free s / 512 + k1) * 512)
      by (destruct Hgeo as [(-> & ->) | (-> & ->)]; lia).
    rewrite Z.mod_add by lia. apply Z.mod_small.
    destruct Hgeo as [(HP & _) | (HP & _)]; rewrite HP in *; lia. }
  rewrite Hoff1 in L2, B2.
  set (k2 := (12 + (off - 12 + zlen a - P * k1) - 12 + zlen b) / P) in *.
  assert (Hk2 : k1 + k2 = k12).
  { subst k2. destruct Hgeo as [(HP & _) | (HP & _)]; rewrite HP in *;
      Z.div_mod_to_equations; lia. }
  assert (HFk2 : F * k1 + F * k2 = F * k12) by (rewrite <- Hk2; lia).
  rewrite u64_small in L2, B2 by lia.
  rewrite L2, B2, L1, B1, L12, B12. split; [lia |]. split; lia.
Qed.

Lemma log_write_low_in_pieces_witness :
  buffer_wf (example_log false 8204 8204 8204 8204)
  /\ zlen (repeat 7 300) + zlen (repeat 9 300) < 2 ^ 60
  /\ 0 <= lsn (example_log false 8204 8204 8204 8204) < 2 ^ 62
  /\ 0 <= buf_free (example_log false 8204 8204 8204 8204) < 2 ^ 62
  /\ exists s1 s2 s12,
       log_write_low (repeat 7 300) (example_log false 8204 8204 8204 8204)
       = Some s1
       /\ log_write_low (repeat 9 300) s1 = Some s2
       /\ log_write_low (repeat 7 300 ++ repeat 9 300)
            (example_log false 8204 8204 8204 8204) = Some s12
       /\ lsn s2 = lsn s12.
Proof.
  assert (H1 : buffer_wf (example_log false 8204 8204 8204 8204)).
  { vm_compute. repeat split; discriminate. }
  assert (H2 : zlen (repeat 7 300) + zlen (repeat 9 300) < 2 ^ 60)
    by (vm_compute; reflexivity).
  assert (H3 : 0 <= lsn (example_log false 8204 8204 8204 8204) < 2 ^ 62)
    by (cbn; lia).
  assert (H4 : 0 <= buf_free (example_log false 8204 8204 8204 8204)
               < 2 ^ 62).
  { vm_compute. split; [discriminate | reflexivity]. }
  split; [exact H1 |]. split; [exact H2 |]. split; [exact H3 |].
  split; [exact H4 |].
  destruct (log_write_low_in_pieces (repeat 7 300) (repeat 9 300)
              (example_log false 8204 8204 8204 8204) H1 H2 H3 H4)
    as (s1 & s2 & s12 & E1 & E2 & E12 & Hlsn & _).
  exists s1, s2, s12.
  split; [exact E1 |]. split; [exact E2 |]. split; [exact E12 | exact Hlsn].
Defined.
(** ** An append followed by [log_close] *)

Ltac header_fields :=
  unfold LogBlock.log_block_get_data_len,
    LogBlock.log_block_get_first_rec_group, LogBlock.log_block_init,
    LogBlock.log_block_set_hdr_no, LogBlock.log_block_set_data_len,
    LogBlock.log_block_set_first_rec_group,
    LogBlock.log_block_set_checkpoint_no,
    LOG_BLOCK_HDR_NO, LOG_BLOCK_HDR_DATA_LEN, LOG_BLOCK_FIRST_REC_GROUP,
    LOG_BLOCK_CHECKPOINT_NO, LOG_BLOCK_HDR_SIZE, OS_FILE_LOG_BLOCK_SIZE in *.

Ltac far := cbn [Z.of_nat Pos.of_succ_nat Pos.succ]; lia.

Ltac skip_writes :=
  repeat first
    [ rewrite mem_read_write_other by far
    | rewrite mem_read_from_memcpy_other by far ].

Lemma block_in_use_after (s : log_t) (d : Z) :
  0 <= buf_free s ->
  buf_free s + d < 2 ^ 64 ->
  0 <= d ->
  block_in_use (set_buf_free (u64 (buf_free s + d)) s)
  = buf s + buf_free s + d
    - (free_offset_in_block s + d) mod OS_FILE_LOG_BLOCK_SIZE.
Proof.
  intros H0 Hsmall Hd. unfold block_in_use.
  rewrite free_offset_after.
  cbn [buf buf_free set_buf_free]. rewrite u64_small by lia. lia.
Qed.

(** The header of the open block after the passes of [log_write_low]:
    its data length is the free offset, a block that was already open
    keeps its first-record-group field, and a block opened on the way
    has none yet. *)
Lemma log_write_low_loop_header (fuel : nat) :
  forall (str : list byte) (s s' : log_t),
    buffer_wf s ->
    0 <= buf_free s ->
    buf_free s + 32 * zlen str + 512 < 2 ^ 63 ->
    log_write_low_loop fuel str s = Some s' ->
    LogBlock.log_block_get_data_len (buf_mem s') (block_in_use s')
    = free_offset_in_block s'
    /\ block_in_use s <= block_in_use s'
    /\ (block_in_use s' = block_in_use s ->
        LogBlock.log_block_get_first_rec_group (buf_mem s') (block_in_use s')
        = LogBlock.log_block_get_first_rec_group (buf_mem s) (block_in_use s))
    /\ (block_in_use s' <> block_in_use s ->
        LogBlock.log_block_get_first_rec_group (buf_mem s') (block_in_use s')
        = 0).
Proof.
  induction fuel as [| fuel IH]; intros str s s' Hwf Hbf0 Hbound;
    cbn [log_write_low_loop]; [discriminate |].
  pose proof (zlen_nonneg str) as Hlen.
  pose proof (block_geometry s) as Hgeo.
  pose proof Hwf as (Hbuf & Hoff).
  fold (free_offset_in_block s) in Hoff.
  unfold LOG_BLOCK_HDR_SIZE in Hoff.
  set (off := free_offset_in_block s) in *.
  set (blk := block_in_use s) in *.
  assert (Haddr : buf s + buf_free s = blk + off)
    by (subst blk off; unfold block_in_use; lia).
  assert (HT : trailer_offset s <= 508)
    by (destruct Hgeo as [(-> & _) | (-> & _)]; lia).
  destruct (Z.lt_ge_cases (off + zlen str) (trailer_offset s))
    as [Hpart | Hfull].
  - (* the string fits and the block stays partial *)
    rewrite (log_write_low_part_partial str s Hwf Hpart).
    cbn [zlen length Z.of_nat Z.ltb Z.compare].
    intros E. injection E as <-.
    match goal with
    | |- context [set_buf_free ?bf (set_lsn ?l (set_buf_mem ?m s))] =>
        set (s1 := set_buf_free bf (set_lsn l (set_buf_mem m s)))
    end.
    assert (Hoff1 : free_offset_in_block s1 = off + zlen str).
    { change (free_offset_in_block s1)
        with (free_offset_in_block
                (set_buf_free (u64 (buf_free s + zlen str)) s)).
      rewrite free_offset_after. fold off.
      apply Z.mod_small. unfold OS_FILE_LOG_BLOCK_SIZE. lia. }
    assert (Hblk1 : block_in_use s1 = blk).
    { change (block_in_use s1)
        with (block_in_use (set_buf_free (u64 (buf_free s + zlen str)) s)).
      rewrite block_in_use_after by lia. fold off.
      rewrite (Z.mod_small (off + zlen str))
        by (unfold OS_FILE_LOG_BLOCK_SIZE; lia).
      lia. }
    rewrite Hblk1, Hoff1.
    change (buf_mem s1)
      with (LogBlock.log_block_set_data_len
              (memcpy (buf_mem s) (buf s + buf_free s) str) blk
              (off + zlen str)).
    rewrite Haddr. header_fields.
    split.
    { rewrite mem_read_write_same. apply Z.mod_small.
      change (256 ^ Z.of_nat 2) with 65536. lia. }
    split; [lia |]. split; [| intros Hc; contradiction].
    intros _. skip_writes. reflexivity.
  - (* the block becomes full *)
    assert (Hfull' : off + zlen str >= trailer_offset s) by lia.
    pose proof (log_write_low_part_full str s Hwf ltac:(lia) Hfull') as Hp.
    cbv zeta in Hp. fold off in Hp. rewrite Hp. clear Hp.
    set (n := trailer_offset s - off) in *.
    assert (Hn : 1 <= n <= zlen str) by (subst n; lia).
    assert (Hrest : zlen (skipn (Z.to_nat n) str) = zlen str - n).
    { unfold zlen in *. rewrite length_skipn. lia. }
    match goal with
    | |- context [set_buf_free ?bf (set_lsn ?l (set_buf_mem ?m s))] =>
        set (m1 := m);
        set (s1 := set_buf_free bf (set_lsn l (set_buf_mem m1 s)))
    end.
    assert (HnF : n + framing_size s = 524 - off /\ 16 <= framing_size s <= 20).
    { subst n. destruct Hgeo as [(-> & ->) | (-> & ->)]; lia. }
    destruct HnF as (HnF & HF).
    assert (Hoff1 : free_offset_in_block s1 = 12).
    { change (free_offset_in_block s1)
        with (free_offset_in_block
                (set_buf_free (u64 (buf_free s + (n + framing_size s))) s)).
      rewrite free_offset_after. fold off. rewrite HnF.
      replace (off + (524 - off)) with 524 by lia. reflexivity. }
    assert (Hblk1 : block_in_use s1 = blk + 512).
    { change (block_in_use s1)
        with (block_in_use
                (set_buf_free (u64 (buf_free s + (n + framing_size s))) s)).
      rewrite block_in_use_after by lia. fold off. rewrite HnF.
      replace (off + (524 - off)) with 524 by lia.
      change (524 mod OS_FILE_LOG_BLOCK_SIZE) with 12. lia. }
    assert (Hwf1 : buffer_wf s1).
    { split; [exact Hbuf |].
      fold (free_offset_in_block s1). rewrite Hoff1.
      change (trailer_offset s1) with (trailer_offset s).
      unfold LOG_BLOCK_HDR_SIZE.
      destruct Hgeo as [(-> & _) | (-> & _)]; lia. }
    assert (Hhdr1 : LogBlock.log_block_get_data_len (buf_mem s1) (blk + 512)
                    = 12
                    /\ LogBlock.log_block_get_first_rec_group (buf_mem s1)
                         (blk + 512) = 0).
    { change (buf_mem s1) with m1. subst m1. fold blk. header_fields.
      split.
      - skip_writes. rewrite mem_read_write_same. reflexivity.
      - rewrite mem_read_write_same. reflexivity. }
    destruct Hhdr1 as (Hdl1 & Hfrg1).
    assert (Hbf1 : buf_free s1 = buf_free s + (n + framing_size s)).
    { change (buf_free s1) with (u64 (buf_free s + (n + framing_size s))).
      apply u64_small. lia. }
    destruct (Z.ltb_spec 0 (zlen (skipn (Z.to_nat n) str))) as [Hmore | Hdone].
    + intros E.
      apply IH in E; [| exact Hwf1 | lia | rewrite Hbf1, Hrest; lia].
      destruct E as (E1 & E2 & E3 & E4).
      rewrite Hblk1 in E2, E3, E4.
      split; [exact E1 |]. split; [lia |].
      split; [intros Hc; lia |]. intros _.
      destruct (Z.eq_dec (block_in_use s') (blk + 512)) as [Heq | Hne].
      * rewrite (E3 Heq). exact Hfrg1.
      * exact (E4 Hne).
    + intros E. injection E as <-.
      rewrite Hblk1, Hoff1.
      split; [exact Hdl1 |]. split; [lia |].
      split; [intros Hc; lia |]. intros _. exact Hfrg1.
Qed.

(** X25. [log_close] after [log_write_low] marks where the next record
    group starts: in the open block the data length is the free offset,
    and when the append opened that block its first-record-group field,
    which [log_block_init] left at 0, is set to the free offset; a block
    that was open before and had a first record group keeps it. *)
Theorem log_close_after_append
  (v : server_t) (st : chkp_warning_t) (str : list byte) (s s1 : log_t) :
  buffer_wf s ->
  0 <= buf_free s < 2 ^ 62 ->
  zlen str < 2 ^ 56 ->
  log_write_low str s = Some s1 ->
  let s2 := snd (log_close v st s1) in
  block_in_use s2 = block_in_use s1
  /\ buffer_wf s2
  /\ LogBlock.log_block_get_data_len (buf_mem s2) (block_in_use s2)
     = free_offset_in_block s2
  /\ (block_in_use s1 <> block_in_use s ->
      LogBlock.log_block_get_first_rec_group (buf_mem s2) (block_in_use s2)
      = free_offset_in_block s2)
  /\ (block_in_use s1 = block_in_use s ->
      LogBlock.log_block_get_first_rec_group (buf_mem s) (block_in_use s)
      <> 0 ->
      LogBlock.log_block_get_first_rec_group (buf_mem s2) (block_in_use s2)
      = LogBlock.log_block_get_first_rec_group (buf_mem s) (block_in_use s)).
Proof.
  intros Hwf Hbf Hlen Hlow s2.
  pose proof (zlen_nonneg str) as Hnn.
  unfold log_write_low in Hlow.
  destruct (log_write_low_loop_result (length str + 2) str s
              ltac:(lia) Hwf ltac:(lia)) as (s1' & E1 & _ & _ & Hwf1).
  rewrite Hlow in E1. injection E1 as <-.
  assert (Hb0 : 0 <= buf_free s) by lia.
  assert (Hb1 : buf_free s + 32 * zlen str + 512 < 2 ^ 63) by lia.
  pose proof (log_write_low_loop_header (length str + 2) str s s1
                Hwf Hb0 Hb1 Hlow) as (Hdl & _ & Hsame & Hnew).
  pose proof (log_close_frame v st s1) as (_ & _ & Fb & Ff & _ & Fl & _ & Fm).
  cbv zeta in Fb, Ff, Fl, Fm. fold s2 in Fb, Ff, Fl, Fm.
  rewrite (block_in_use_round s1 Hwf1) in Fm.
  assert (Hblk2 : block_in_use s2 = block_in_use s1)
    by (unfold block_in_use, free_offset_in_block; rewrite Fb, Ff; reflexivity).
  assert (Hoff2 : free_offset_in_block s2 = free_offset_in_block s1)
    by (unfold free_offset_in_block; rewrite Ff; reflexivity).
  assert (Hwf2 : buffer_wf s2).
  { apply (buffer_wf_fields s1 s2 Fb Ff); [rewrite Fl; reflexivity | exact Hwf1]. }
  split; [exact Hblk2 |]. split; [exact Hwf2 |].
  rewrite Hblk2, Hoff2, Fm.
  set (blk := block_in_use s1) in *.
  destruct Hwf1 as (_ & Hoff1). fold (free_offset_in_block s1) in Hoff1.
  pose proof (block_geometry s1) as Hgeo.
  assert (Hoffr : 12 <= free_offset_in_block s1 < 508).
  { unfold LOG_BLOCK_HDR_SIZE in Hoff1.
    destruct Hgeo as [(HT & _) | (HT & _)]; rewrite HT in Hoff1; lia. }
  destruct (Z.eqb_spec
              (LogBlock.log_block_get_first_rec_group (buf_mem s1) blk) 0)
    as [Hz | Hnz].
  - header_fields. split.
    { skip_writes. exact Hdl. }
    split.
    + intros _. rewrite mem_read_write_same, Hdl. apply Z.mod_small.
      change (256 ^ Z.of_nat 2) with 65536. lia.
    + intros Heq Hfrg. rewrite (Hsame Heq) in Hz. contradiction.
  - split; [exact Hdl |]. split.
    + intros Hne. rewrite (Hnew Hne) in Hnz. contradiction.
    + intros Heq _. exact (Hsame Heq).
Qed.

Lemma log_close_after_append_witness :
  buffer_wf (example_log false 8204 8204 8204 8204)
  /\ 0 <= buf_free (example_log false 8204 8204 8204 8204) < 2 ^ 62
  /\ zlen (repeat 7 500) < 2 ^ 56
  /\ log_write_low (repeat 7 500) (example_log false 8204 8204 8204 8204)
     = Some example_log_block_opened
  /\ block_in_use example_log_block_opened
     <> block_in_use (example_log false 8204 8204 8204 8204)
  /\ LogBlock.log_block_get_first_rec_group
       (buf_mem (snd (log_close (example_server false 0 0)
                        (mk_chkp_warning false 0) example_log_block_opened)))
       (block_in_use
          (snd (log_close (example_server false 0 0)
                  (mk_chkp_warning false 0) example_log_block_opened)))
     = 16.
Proof.
  assert (H1 : buffer_wf (example_log false 8204 8204 8204 8204)).
  { vm_compute. repeat split; discriminate. }
  assert (H2 : 0 <= buf_free (example_log false 8204 8204 8204 8204)
               < 2 ^ 62).
  { vm_compute. split; [discriminate | reflexivity]. }
  assert (H3 : zlen (repeat 7 500) < 2 ^ 56) by (vm_compute; reflexivity).
  assert (H4 : log_write_low (repeat 7 500)
                 (example_log false 8204 8204 8204 8204)
               = Some example_log_block_opened)
    by (vm_compute; reflexivity).
  assert (H5 : block_in_use example_log_block_opened
               <> block_in_use (example_log false 8204 8204 8204 8204))
    by (vm_compute; discriminate).
  split; [exact H1 |]. split; [exact H2 |]. split; [exact H3 |].
  split; [exact H4 |]. split; [exact H5 |].
  rewrite (proj1 (proj2 (proj2 (proj2
             (log_close_after_append (example_server false 0 0)
                (mk_chkp_warning false 0) (repeat 7 500)
                (example_log false 8204 8204 8204 8204)
                example_log_block_opened H1 H2 H3 H4)))) H5).
  vm_compute. reflexivity.
Defined.
(** ** Waiting *)

Section Waiting.
Context {C : Collaborators}.

(** X26. With both group-commit locks free no caller waits: neither
    [log_write_up_to] nor [log_buffer_flush_to_disk],
    [log_buffer_sync_in_background], [log_flush_margin], [log_checkpoint]
    or [log_margin_checkpoint_age] ends waiting for another thread. *)
Theorem no_wait_with_free_locks (w : world) :
  m_lock (flush_lock w) = false ->
  m_lock (write_lock w) = false ->
  0 <= file_size (log (log_sys w)) < 2 ^ 64 ->
  (forall lsn_arg flush_to_disk,
      log_write_up_to lsn_arg flush_to_disk w <> Blocked)
  /\ (forall sync, log_buffer_flush_to_disk sync w <> Blocked)
  /\ (forall flush, log_buffer_sync_in_background flush w <> Blocked)
  /\ log_flush_margin w <> Blocked
  /\ log_checkpoint w <> Blocked
  /\ (forall margin, log_margin_checkpoint_age margin w <> Blocked).
Proof.
  intros Hf Hw Hsize.
  assert (Hfree : forall w0 lsn_arg flush_to_disk,
             m_lock (flush_lock w0) = false ->
             m_lock (write_lock w0) = false ->
             0 <= file_size (log (log_sys w0)) < 2 ^ 64 ->
             log_write_up_to lsn_arg flush_to_disk w0 <> Blocked).
  { intros w0 lsn_arg flush_to_disk Hf0 Hw0 Hs0 E.
    destruct (log_write_up_to_blocked _ _ _ Hs0 E); congruence. }
  assert (Hckpt : forall w0,
             m_lock (flush_lock w0) = false ->
             m_lock (write_lock w0) = false ->
             0 <= file_size (log (log_sys w0)) < 2 ^ 64 ->
             log_checkpoint w0 <> Blocked).
  { intros w0 Hf0 Hw0 Hs0. unfold log_checkpoint. cbv zeta.
    destruct (_ =? _); [discriminate |].
    destruct (log_checkpoint_prepare_frame w0) as (Ps & _ & _ & Pw & Pf).
    destruct (log_write_up_to _ true (log_checkpoint_prepare w0))
      as [w3 | |] eqn:E; cbn [bind].
    - destruct (_ || _); discriminate.
    - exfalso. revert E. apply Hfree; rewrite ?Pf, ?Pw, ?Ps; assumption.
    - discriminate. }
  split; [intros; apply Hfree; assumption |].
  split; [intros; apply Hfree; assumption |].
  split.
  { intros flush. unfold log_buffer_sync_in_background.
    destruct (_ && _); [discriminate | apply Hfree; assumption]. }
  split.
  { unfold log_flush_margin.
    destruct (negb _); [apply Hfree; assumption | discriminate]. }
  split; [apply Hckpt; assumption |].
  intros margin. unfold log_margin_checkpoint_age.
  destruct (margin >? _).
  { destruct (_ || _); discriminate. }
  destruct (_ >? _); [| discriminate].
  match goal with
  | |- (r <- log_checkpoint ?w2 ;; _) <> Blocked =>
      pose proof (Hckpt w2) as Hw2; destruct (log_checkpoint w2)
  end; cbn [bind]; try discriminate.
  exfalso. apply Hw2; [| | | reflexivity];
    destruct (_ <=? _); assumption.
Qed.

End Waiting.

Lemma no_wait_with_free_locks_witness :
  m_lock (flush_lock example_world_appended) = false
  /\ m_lock (write_lock example_world_appended) = false
  /\ 0 <= file_size (log (log_sys example_world_appended)) < 2 ^ 64
  /\ log_checkpoint example_world_appended <> Blocked.
Proof.
  assert (H1 : m_lock (flush_lock example_world_appended) = false)
    by reflexivity.
  assert (H2 : m_lock (write_lock example_world_appended) = false)
    by reflexivity.
  assert (H3 : 0 <= file_size (log (log_sys example_world_appended))
               < 2 ^ 64).
  { vm_compute. split; [discriminate | reflexivity]. }
  split; [exact H1 |]. split; [exact H2 |]. split; [exact H3 |].
  exact (proj1 (proj2 (proj2 (proj2 (proj2
           (no_wait_with_free_locks example_world_appended H1 H2 H3)))))).
Defined.
(** ** Paths of the log files *)

Lemma last_map_app {A B : Type} (f : A -> B) (l : list A) (c : A) (d : B) :
  last (map f (l ++ [c])) d = f c.
Proof. rewrite map_app. cbn [map]. apply last_last. Qed.

(** X27. [get_log_file_path] returns the log directory with every
    alternative separator replaced by the separator, followed by one
    separator unless the directory already ends with a separator of
    either kind, followed by the file name. So a directory whose last
    character [c] is a separator gets none added (one that ends with two
    separators keeps both), and any other directory gets exactly one.
    For an empty directory, where [path.back()] is undefined, the result
    is the file name, preceded by a separator unless the character that
    [path.back()] yields is the separator. The result is at most one
    character longer than the directory and the file name, so the
    reserved size suffices, and the directory part of the result holds no
    alternative separator. *)
Theorem get_log_file_path_joins
  (sep alt back_of_empty : byte) (filename : list byte) :
  (forall (dir : list byte) (c : byte),
      get_log_file_path sep alt back_of_empty (dir ++ [c]) filename
      = map (fun x => if x =? alt then sep else x) dir
        ++ (if (c =? sep) || (c =? alt) then [sep] else [c; sep])
        ++ filename)
  /\ get_log_file_path sep alt back_of_empty [] filename
     = (if back_of_empty =? sep then [] else [sep]) ++ filename
  /\ (forall dir : list byte,
         (length (get_log_file_path sep alt back_of_empty dir filename)
          <= length dir + 1 + length filename)%nat)
  /\ (forall dir : list byte,
         alt <> sep ->
         exists d,
           get_log_file_path sep alt back_of_empty dir filename
           = d ++ filename
           /\ ~ In alt d).
Proof.
  set (f := fun x => if x =? alt then sep else x).
  assert (Hnoalt : forall dir, alt <> sep -> ~ In alt (map f dir)).
  { intros dir Hne Hin. apply in_map_iff in Hin.
    destruct Hin as (x & Hx & _). subst f. cbn beta in Hx.
    destruct (Z.eqb_spec x alt); congruence. }
  split; [| split; [| split]].
  - intros dir c. unfold get_log_file_path. fold f.
    rewrite last_map_app. rewrite map_app. cbn [map].
    assert (Hfc : f c = if (c =? sep) || (c =? alt) then sep else c).
    { subst f. cbn beta.
      destruct (Z.eqb_spec c alt) as [-> | Hca];
        [rewrite Bool.orb_true_r; reflexivity |].
      destruct (Z.eqb_spec c sep) as [-> | Hcs]; reflexivity. }
    rewrite Hfc.
    destruct ((c =? sep) || (c =? alt)) eqn:Hsep.
    + rewrite Z.eqb_refl. cbn [negb]. rewrite <- app_assoc. reflexivity.
    + apply Bool.orb_false_iff in Hsep. destruct Hsep as (Hcs & _).
      rewrite Hcs. cbn [negb]. rewrite <- !app_assoc. reflexivity.
  - unfold get_log_file_path. cbn [map last].
    destruct (back_of_empty =? sep); reflexivity.
  - intros dir. unfold get_log_file_path. fold f.
    destruct (negb _); repeat rewrite length_app; rewrite length_map;
      cbn [length]; cbv delta [byte] in *; lia.
  - intros dir Hne. unfold get_log_file_path. fold f.
    destruct (negb _).
    + exists (map f dir ++ [sep]). split; [reflexivity |].
      intros Hin. apply in_app_or in Hin.
      destruct Hin as [Hin | [Heq | []]];
        [exact (Hnoalt dir Hne Hin) | congruence].
    + exists (map f dir). split; [reflexivity | exact (Hnoalt dir Hne)].
Qed.

(** ** The assertions of the write path *)

Lemma mod_512_of_mod (x size : Z) :
  0 < size ->
  size mod OS_FILE_LOG_BLOCK_SIZE = 0 ->
  (x mod size) mod OS_FILE_LOG_BLOCK_SIZE = x mod OS_FILE_LOG_BLOCK_SIZE.
Proof.
  intros Hpos Hsz. unfold OS_FILE_LOG_BLOCK_SIZE in *.
  apply Z.mod_mod_divide. apply Z.mod_divide; [lia | exact Hsz].
Qed.

(** [calc_lsn_offset] modulo the block size, whatever the lsn. *)
Lemma calc_lsn_offset_mod_512 (f : log_t_file) (x : Z) :
  0 < file_size f ->
  file_size f mod OS_FILE_LOG_BLOCK_SIZE = 0 ->
  calc_lsn_offset f x mod OS_FILE_LOG_BLOCK_SIZE
  = (x - file_lsn f + file_lsn_offset f) mod OS_FILE_LOG_BLOCK_SIZE.
Proof.
  intros Hpos Hsz. unfold calc_lsn_offset.
  rewrite (mod_512_of_mod _ _ Hpos Hsz), u64_mod_512.
  rewrite <- Zplus_mod_idemp_l.
  rewrite <- (Zplus_mod_idemp_l (x - file_lsn f)).
  f_equal. f_equal.
  destruct (2 ^ 63 <=? u64 (x - file_lsn f)).
  - rewrite u64_mod_512, Zminus_mod, Hsz.
    rewrite (mod_512_of_mod _ _ Hpos Hsz), u64_mod_512.
    rewrite (Zminus_mod (2 ^ 64)), u64_mod_512.
    change (2 ^ 64 mod OS_FILE_LOG_BLOCK_SIZE) with 0.
    unfold OS_FILE_LOG_BLOCK_SIZE.
    pose proof (Z.mod_pos_bound (x - file_lsn f) 512 ltac:(lia)) as Hb.
    set (t := (x - file_lsn f) mod 512) in *.
    Z.div_mod_to_equations. lia.
  - apply u64_mod_512.
Qed.

Lemma ut_2pow_round_aligned (x : Z) :
  ut_2pow_round x OS_FILE_LOG_BLOCK_SIZE mod OS_FILE_LOG_BLOCK_SIZE = 0.
Proof.
  rewrite ut_2pow_round_512. unfold OS_FILE_LOG_BLOCK_SIZE.
  rewrite Zminus_mod, Z.mod_mod, Z.sub_diag by lia. reflexivity.
Qed.

Lemma ut_calc_align_aligned (x : Z) :
  ut_calc_align x OS_FILE_LOG_BLOCK_SIZE mod OS_FILE_LOG_BLOCK_SIZE = 0.
Proof.
  exact (ut_2pow_round_aligned (u64 (x + OS_FILE_LOG_BLOCK_SIZE - 1))).
Qed.

Lemma u64_sub_aligned (a b : Z) :
  a mod OS_FILE_LOG_BLOCK_SIZE = 0 ->
  b mod OS_FILE_LOG_BLOCK_SIZE = 0 ->
  u64 (a - b) mod OS_FILE_LOG_BLOCK_SIZE = 0.
Proof.
  intros Ha Hb. rewrite u64_mod_512. unfold OS_FILE_LOG_BLOCK_SIZE in *.
  rewrite Zminus_mod, Ha, Hb. reflexivity.
Qed.

Lemma u64_add_aligned (a b : Z) :
  a mod OS_FILE_LOG_BLOCK_SIZE = 0 ->
  b mod OS_FILE_LOG_BLOCK_SIZE = 0 ->
  u64 (a + b) mod OS_FILE_LOG_BLOCK_SIZE = 0.
Proof.
  intros Ha Hb. rewrite u64_mod_512. unfold OS_FILE_LOG_BLOCK_SIZE in *.
  rewrite Z.add_mod, Ha, Hb by lia. reflexivity.
Qed.

Lemma data_write_no_faults (offset : Z) (data : list byte) (s : log_t) :
  f_faults (data_fd (log s)) = [] ->
  exists s',
    data_write offset data s = Returned s'
    /\ f_faults (data_fd (log s')) = []
    /\ file_size (log s') = file_size (log s).
Proof.
  intros Hf. unfold data_write, File.write, File.next_call_fails.
  rewrite Hf. eexists. split; [reflexivity |].
  cbn. rewrite Hf. split; reflexivity.
Qed.

Lemma log_write_buf_loop_no_abort (fuel : nat) :
  forall (buf_addr len start_lsn : Z) (s : log_t),
    f_faults (data_fd (log s)) = [] ->
    file_size (log s) <> 0 ->
    log_write_buf_loop fuel buf_addr len start_lsn s <> Aborted.
Proof.
  induction fuel as [| fuel IH]; intros buf_addr len start_lsn s Hf Hs;
    cbn [log_write_buf_loop].
  - destruct (len =? 0); discriminate.
  - destruct (len =? 0); [discriminate |].
    destruct (Z.eqb_spec (file_size (log s)) 0) as [H0 | _]; [contradiction |].
    match goal with
    | |- context [data_write ?o ?d ?s1] =>
        destruct (data_write_no_faults o d s1 Hf) as (s2 & E & Hf2 & Hs2)
    end.
    rewrite E. cbn [bind].
    destruct (_ <? len); [| discriminate].
    apply IH; [exact Hf2 |].
    rewrite Hs2. exact Hs.
Qed.

Lemma log_write_buf_loop_faults (fuel : nat) :
  forall (buf_addr len start_lsn : Z) (s s' : log_t),
    f_faults (data_fd (log s)) = [] ->
    log_write_buf_loop fuel buf_addr len start_lsn s = Returned s' ->
    f_faults (data_fd (log s')) = []
    /\ file_lsn (log s') = file_lsn (log s)
    /\ file_lsn_offset (log s') = file_lsn_offset (log s).
Proof.
  induction fuel as [| fuel IH]; intros buf_addr len start_lsn s s' Hf;
    cbn [log_write_buf_loop].
  - destruct (len =? 0); [| discriminate].
    intros E. injection E as <-. repeat split. exact Hf.
  - destruct (len =? 0).
    { intros E. injection E as <-. repeat split. exact Hf. }
    destruct (file_size (log s) =? 0); [discriminate |].
    match goal with
    | |- context [data_write ?o ?d ?s1] =>
        destruct (data_write_no_faults o d s1 Hf) as (s2 & E & Hf2 & Hs2);
        pose proof (data_write_anchor o d s1 s2 E) as (HL & HO)
    end.
    rewrite E. cbn [bind].
    cbn [log file_lsn file_lsn_offset set_n_log_ios set_buf_mem] in HL, HO.
    destruct (_ <? len).
    + intros Er. apply IH in Er; [| exact Hf2].
      destruct Er as (R1 & R2 & R3). rewrite R2, R3. repeat split; assumption.
    + intros Er. injection Er as <-. repeat split; assumption.
Qed.

Lemma log_buffer_switch_log (v : server_t) (s : log_t) :
  log (log_buffer_switch v s) = log s.
Proof. unfold log_buffer_switch. destruct (first_in_use s); reflexivity. Qed.

Section WritePathAssertions.
Context {C : Collaborators}.

(** A [log_write] that returns leaves the data file and the sizes as it
    found them. *)
Lemma log_write_keeps_aligned (v : server_t) (s s' : log_t) :
  f_faults (data_fd (log s)) = [] ->
  log_aligned v s ->
  log_write v s = Returned s' ->
  f_faults (data_fd (log s')) = [] /\ log_aligned v s'.
Proof.
  intros Hf (Hsize & Hsz & Hanchor & Hwa0 & Hwa & Hbs) E.
  pose proof (log_write_result v s s' E) as (Hst & _).
  pose proof (stable_fields_file_size _ _ Hst) as Hfs.
  revert E. unfold log_write.
  destruct (Z.eqb_spec (buf_free s) (buf_next_to_write s)) as [Heq | Hne].
  { intros E. injection E as <-.
    split; [exact Hf |]. repeat split; assumption || lia. }
  destruct (file_size (log (log_buffer_switch v _)) =? 0); [discriminate |].
  unfold bind.
  destruct (log_write_buf _ _ _ _) as [s3 | |] eqn:Ew; try discriminate.
  intros E.
  unfold log_write_buf in Ew.
  destruct (negb _); [discriminate |].
  destruct (negb _); [discriminate |].
  apply log_write_buf_loop_faults in Ew.
  + destruct Ew as (Hf3 & HL3 & HO3).
    assert (Hfinal : f_faults (data_fd (log s')) = f_faults (data_fd (log s3))
                     /\ file_lsn (log s') = file_lsn (log s3)
                     /\ file_lsn_offset (log s') = file_lsn_offset (log s3)).
    { destruct (File.writes_are_durable _); injection E as <-; repeat split. }
    destruct Hfinal as (G1 & G2 & G3).
    split; [rewrite G1; exact Hf3 |].
    unfold log_aligned. rewrite Hfs, G2, G3, HL3, HO3.
    split; [exact Hsize |]. split; [exact Hsz |].
    split; [| repeat split; assumption].
    match goal with
    | |- (file_lsn_offset (log (set_buf_mem _ (set_log (set_fields ?l ?f) _)))
          - _) mod _ = 0 =>
        change ((calc_lsn_offset f l - l) mod OS_FILE_LOG_BLOCK_SIZE = 0);
        set (l0 := l)
    end.
    rewrite log_buffer_switch_log. cbn [log set_buf_mem].
    pose proof (calc_lsn_offset_mod_512 (log s) l0 ltac:(lia) Hsz) as Hcalc.
    set (o := calc_lsn_offset (log s) l0) in *.
    unfold OS_FILE_LOG_BLOCK_SIZE in *.
    rewrite Zminus_mod, Hcalc, <- Zminus_mod.
    match goal with
    | |- (?l - ?L + ?O - ?l) mod 512 = 0 =>
        replace (l - L + O - l) with (O - L) by lia
    end.
    exact Hanchor.
  + cbn [log data_fd set_buf_mem set_log set_fields set_file_lsn
         set_file_lsn_offset].
    rewrite log_buffer_switch_log. exact Hf.
Qed.

(** With aligned sizes and a data file that takes every call no assertion
    of [log_write] fails. *)
Lemma log_write_not_aborted (v : server_t) (s : log_t) :
  f_faults (data_fd (log s)) = [] ->
  log_aligned v s ->
  log_write v s <> Aborted.
Proof.
  intros Hf (Hsize & Hsz & Hanchor & Hwa0 & Hwa & Hbs).
  unfold log_write.
  destruct (Z.eqb_spec (buf_free s) (buf_next_to_write s)) as [Heq | Hne];
    [discriminate |].
  match goal with
  | |- context [log_buffer_switch v (set_buf_mem ?m s)] =>
      pose proof (log_buffer_switch_log v (set_buf_mem m s)) as Hlog;
      set (s1 := log_buffer_switch v (set_buf_mem m s)) in *
  end.
  cbn [log set_buf_mem] in Hlog.
  assert (Hs1 : file_size (log s1) = file_size (log s))
    by (rewrite Hlog; reflexivity).
  assert (HL1 : file_lsn (log s1) = file_lsn (log s))
    by (rewrite Hlog; reflexivity).
  assert (HO1 : file_lsn_offset (log s1) = file_lsn_offset (log s))
    by (rewrite Hlog; reflexivity).
  assert (Hf1 : f_faults (data_fd (log s1)) = [])
    by (rewrite Hlog; exact Hf).
  destruct (Z.eqb_spec (file_size (log s1)) 0) as [H0 | _]; [lia |].
  unfold bind.
  match goal with
  | |- context [log_write_buf ?a ?l ?st ?s0] =>
      assert (Hna : log_write_buf a l st s0 <> Aborted);
      [| destruct (log_write_buf a l st s0);
         [destruct (File.writes_are_durable _); discriminate
         | discriminate | contradiction] ]
  end.
  unfold log_write_buf.
  set (s2 := set_log (set_fields (write_lsn s1) (log s1)) s1).
  assert (Hcalc2 : forall x,
             x mod OS_FILE_LOG_BLOCK_SIZE = 0 ->
             calc_lsn_offset (log s2) x mod OS_FILE_LOG_BLOCK_SIZE = 0).
  { intros x Hx.
    rewrite calc_lsn_offset_mod_512
      by (cbn [log s2 set_log set_fields set_file_lsn set_file_lsn_offset
               file_size]; rewrite ?Hs1; lia || exact Hsz).
    change (file_lsn (log s2)) with (write_lsn s1).
    change (file_lsn_offset (log s2))
      with (calc_lsn_offset (log s1) (write_lsn s1)).
    pose proof (calc_lsn_offset_mod_512 (log s1) (write_lsn s1)
                  ltac:(rewrite Hs1; lia) ltac:(rewrite Hs1; exact Hsz))
      as Hc1.
    rewrite HL1, HO1 in Hc1.
    unfold OS_FILE_LOG_BLOCK_SIZE in *.
    rewrite Z.add_mod, Hc1, <- Z.add_mod by lia.
    match goal with
    | |- (?x - ?l + (?l - ?L + ?O)) mod 512 = 0 =>
        replace (x - l + (l - L + O)) with (x + (O - L)) by lia
    end.
    rewrite Z.add_mod, Hx, Hanchor by lia. reflexivity. }
  match goal with
  | |- context [negb (?len mod OS_FILE_LOG_BLOCK_SIZE =? 0)] =>
      assert (Hlen : len mod OS_FILE_LOG_BLOCK_SIZE = 0)
  end.
  { apply u64_add_aligned.
    - apply u64_sub_aligned;
        [apply ut_calc_align_aligned | apply ut_2pow_round_aligned].
    - match goal with
      | |- (if ?b then _ else 0) mod _ = 0 => destruct b; [| reflexivity]
      end.
      apply Z.min_case.
      + apply u64_sub_aligned; [exact Hwa |].
        rewrite (mod_512_of_mod _ (srv_log_write_ahead_size v) Hwa0 Hwa).
        apply Hcalc2. apply ut_calc_align_aligned.
      + apply u64_sub_aligned; [exact Hbs | apply ut_calc_align_aligned]. }
  rewrite Hlen. cbn [Z.eqb negb].
  rewrite ut_2pow_round_aligned. cbn [Z.eqb negb].
  apply log_write_buf_loop_no_abort.
  + exact Hf1.
  + change (file_size (log s1) <> 0). rewrite Hs1. lia.
Qed.

Lemma log_write_returns (v : server_t) (s : log_t) :
  f_faults (data_fd (log s)) = [] ->
  log_aligned v s ->
  exists s',
    log_write v s = Returned s'
    /\ f_faults (data_fd (log s')) = []
    /\ log_aligned v s'.
Proof.
  intros Hf Hal.
  destruct (log_write v s) as [s' | |] eqn:E.
  - exists s'. split; [reflexivity |].
    exact (log_write_keeps_aligned v s s' Hf Hal E).
  - exfalso. revert E. apply log_write_ends.
    destruct Hal as (Hsize & _). lia.
  - exfalso. exact (log_write_not_aborted v s Hf Hal E).
Qed.

(** X28. With a data file that takes every call and sizes that are
    multiples of the block size, the assertions of [log_write] and
    [log_write_buf] hold: [log_write] returns, whatever the buffer holds,
    and it leaves the file and the sizes as it needs them, so that it can
    run again. *)
Theorem log_write_assertions_hold (v : server_t) (s : log_t) :
  f_faults (data_fd (log s)) = [] ->
  log_aligned v s ->
  exists s',
    log_write v s = Returned s'
    /\ f_faults (data_fd (log s')) = []
    /\ log_aligned v s'.
Proof.
  intros Hf Hal.
  pose proof (log_write_not_aborted v s Hf Hal) as Hna.
  pose proof (log_write_ends v s) as Hnb.
  destruct (log_write v s) as [s' | |] eqn:E.
  - exists s'. split; [reflexivity |].
    exact (log_write_keeps_aligned v s s' Hf Hal E).
  - exfalso. apply Hnb; [| reflexivity].
    destruct Hal as (Hsize & _). lia.
  - exfalso. apply Hna. reflexivity.
Qed.

Lemma set_flush_lock_consistent (l : group_commit_lock) (w : world) :
  GroupCommit.value l = GroupCommit.value (flush_lock w) ->
  locks_consistent w ->
  locks_consistent (set_flush_lock l w).
Proof.
  intros Hl (H1 & H2 & H3 & H4). unfold locks_consistent.
  cbn [log_sys set_flush_lock flush_lock write_lock]. rewrite Hl.
  split; [exact H1 |]. split; [exact H2 |]. split; [exact H3 | exact H4].
Qed.

(** The write phase from a ready state. *)
Lemma log_write_up_to_write_returns (lsn_arg : Z) (w : world) :
  recv_no_ibuf_operations (srv w) = false ->
  locks_consistent w ->
  flushed_to_disk_lsn (log_sys w) <= GroupCommit.value (write_lock w) ->
  (buf_free (log_sys w) = buf_next_to_write (log_sys w) ->
   write_lsn (log_sys w) = lsn (log_sys w)) ->
  m_lock (write_lock w) = false ->
  f_faults (data_fd (log (log_sys w))) = [] ->
  log_aligned (srv w) (log_sys w) ->
  exists w',
    log_write_up_to_write lsn_arg w = Returned w'
    /\ locks_consistent w'
    /\ flushed_to_disk_lsn (log_sys w') <= GroupCommit.value (write_lock w')
    /\ (buf_free (log_sys w') = buf_next_to_write (log_sys w') ->
        write_lsn (log_sys w') = lsn (log_sys w'))
    /\ m_lock (write_lock w') = false
    /\ f_faults (data_fd (log (log_sys w'))) = []
    /\ log_aligned (srv w') (log_sys w')
    /\ flush_lock w' = flush_lock w.
Proof.
  intros Hrecv Hinv Hfl H3 Hm Hf Hal.
  assert (Hret : exists w',
             log_write_up_to_write lsn_arg w = Returned w'
             /\ (buf_free (log_sys w') = buf_next_to_write (log_sys w') ->
                 write_lsn (log_sys w') = lsn (log_sys w'))
             /\ m_lock (write_lock w') = false
             /\ f_faults (data_fd (log (log_sys w'))) = []
             /\ log_aligned (srv w') (log_sys w')).
  { unfold log_write_up_to_write, GroupCommit.acquire.
    destruct (lsn_arg <=? GroupCommit.value (write_lock w)).
    { exists w. split; [reflexivity |]. split; [exact H3 |].
      split; [exact Hm |]. split; [exact Hf | exact Hal]. }
    rewrite Hm. cbn [log_sys srv set_write_lock write_lock].
    destruct (log_write_returns (srv w) (log_sys w) Hf Hal)
      as (s' & E & Hf' & Hal').
    rewrite E. cbn [bind log_sys set_log_sys].
    pose proof (log_write_result _ _ _ E) as (Hst & Hres).
    pose proof (stable_fields_inv _ _ Hst) as (Hlsn & _).
    assert (Hw : write_lsn s' = lsn (log_sys w)).
    { destruct Hres as [(Heq & ->) | (Hwl & _)];
        [apply H3; exact Heq | exact Hwl]. }
    rewrite Hw, Z.eqb_refl.
    eexists. split; [reflexivity |].
    cbn [log_sys srv set_log_sys set_write_lock write_lock m_lock
         GroupCommit.release].
    split; [intros _; rewrite Hw, Hlsn; reflexivity |].
    split; [reflexivity |]. split; [exact Hf' | exact Hal']. }
  destruct Hret as (w' & E & H3' & Hm' & Hf' & Hal').
  exists w'. split; [exact E |].
  assert (Ec : log_write_up_to lsn_arg false w = Returned w')
    by (unfold log_write_up_to; rewrite Hrecv; exact E).
  pose proof (log_write_up_to_consistent _ _ _ _ Hinv Ec) as Hinv'.
  split; [exact Hinv' |].
  pose proof (log_write_up_to_write_result _ _ _ E)
    as (_ & Hflock & _ & _ & _ & Hres).
  split.
  { destruct Hres as [(_ & ->) | (Hval & _)]; [exact Hfl |].
    destruct Hinv' as (_ & Hle & _).
    pose proof (log_write_up_to_frame _ _ _ _ Ec) as (Hst & _).
    pose proof (stable_fields_inv _ _ Hst) as (Hlsn & _).
    rewrite Hval, <- Hlsn. exact Hle. }
  split; [exact H3' |]. split; [exact Hm' |]. split; [exact Hf' |].
  split; [exact Hal' | exact Hflock].
Qed.

(** The flush phase from a state whose data file takes every call. *)
Lemma log_write_up_to_flush_returns (w : world) :
  flushed_to_disk_lsn (log_sys w) <= GroupCommit.value (write_lock w) ->
  (buf_free (log_sys w) = buf_next_to_write (log_sys w) ->
   write_lsn (log_sys w) = lsn (log_sys w)) ->
  f_faults (data_fd (log (log_sys w))) = [] ->
  log_aligned (srv w) (log_sys w) ->
  exists w',
    log_write_up_to_flush w = Returned w'
    /\ flushed_to_disk_lsn (log_sys w') <= GroupCommit.value (write_lock w')
    /\ (buf_free (log_sys w') = buf_next_to_write (log_sys w') ->
        write_lsn (log_sys w') = lsn (log_sys w'))
    /\ m_lock (write_lock w') = m_lock (write_lock w)
    /\ m_lock (flush_lock w') = false
    /\ f_faults (data_fd (log (log_sys w'))) = []
    /\ log_aligned (srv w') (log_sys w').
Proof.
  intros Hfl H3 Hf Hal.
  unfold log_write_up_to_flush.
  cbn [log_sys set_flush_lock].
  destruct (File.writes_are_durable (data_fd (log (log_sys w))));
    cbn [negb bind].
  - eexists. split; [reflexivity |].
    split; [exact Hfl |]. split; [exact H3 |].
    split; [reflexivity |]. split; [reflexivity |].
    split; [exact Hf | exact Hal].
  - unfold log_write_flush_to_disk_low, data_flush_data_only,
      File.flush_data_only, File.next_call_fails, bind.
    cbn [log data_fd set_pending_flushes]. rewrite Hf.
    cbn [flushed_to_disk_lsn set_flushes set_pending_flushes set_log].
    destruct (Z.geb_spec (GroupCommit.value (write_lock w))
                (flushed_to_disk_lsn (log_sys w))) as [_ | Hlt]; [| lia].
    eexists. split; [reflexivity |].
    split; [cbn; lia |]. split; [exact H3 |].
    split; [reflexivity |]. split; [reflexivity |].
    split; [cbn; rewrite Hf; reflexivity | exact Hal].
Qed.

(** X29. From a ready state (no thread in a group-commit lock, the locks
    in agreement with the log system, nothing on disk beyond what the
    write lock published, a data file that takes every call, aligned
    sizes) every call of [log_write_up_to] returns: it does not wait and
    none of its assertions fails; and it leaves a ready state, so the
    next call returns as well. *)
Theorem log_write_up_to_ready
  (lsn_arg : Z) (flush_to_disk : bool) (w : world) :
  write_up_to_ready w ->
  exists w',
    log_write_up_to lsn_arg flush_to_disk w = Returned w'
    /\ write_up_to_ready w'.
Proof.
  intros Hready.
  pose proof Hready as (Hinv & Hfl & H3 & Hmw & Hmf & Hf & Hal).
  unfold log_write_up_to.
  destruct (recv_no_ibuf_operations (srv w)) eqn:Hrecv.
  { exists w. split; [reflexivity | exact Hready]. }
  destruct flush_to_disk.
  - unfold GroupCommit.acquire.
    destruct (lsn_arg <=? GroupCommit.value (flush_lock w)).
    { exists w. split; [reflexivity | exact Hready]. }
    rewrite Hmf.
    set (l := mk_group_commit_lock _ _ true).
    assert (Hl : GroupCommit.value l = GroupCommit.value (flush_lock w))
      by reflexivity.
    destruct (log_write_up_to_write_returns lsn_arg (set_flush_lock l w)
                Hrecv (set_flush_lock_consistent l w Hl Hinv) Hfl H3 Hmw Hf
                Hal)
      as (w1 & Ew & Hinv1 & Hfl1 & H31 & Hmw1 & Hf1 & Hal1 & _).
    destruct (log_write_up_to_flush_returns w1 Hfl1 H31 Hf1 Hal1)
      as (w' & Ef & Hfl' & H3' & Hmw' & Hmf' & Hf' & Hal').
    exists w'. rewrite Ew. cbn [bind]. split; [exact Ef |].
    assert (Ec : log_write_up_to lsn_arg false (set_flush_lock l w)
                 = Returned w1)
      by (unfold log_write_up_to; cbn [srv set_flush_lock];
          rewrite Hrecv; exact Ew).
    assert (Hinv' : locks_consistent w').
    { apply log_write_up_to_flush_result in Ef.
      destruct Ef as (Hwl & Hval & Hst & Hwr & Hfd & Hge & _).
      pose proof (stable_fields_inv _ _ Hst) as (Hlsn & _ & _ & _ & Hd).
      destruct Hinv1 as (I1 & I2 & I3 & I4).
      unfold locks_consistent. rewrite Hwl, Hval, Hlsn, Hd, Hwr, Hfd.
      destruct (File.writes_are_durable (data_fd (log (log_sys w1)))).
      - destruct (I4 eq_refl) as (J1 & J2).
        split; [lia |]. split; [lia |]. split; [lia |].
        intros _. split; assumption.
      - split; [lia |]. split; [lia |]. split; [lia |].
        intros Hd'. discriminate. }
    split; [exact Hinv' |]. split; [exact Hfl' |]. split; [exact H3' |].
    split; [rewrite Hmw'; exact Hmw1 |]. split; [exact Hmf' |].
    split; [exact Hf' | exact Hal'].
  - destruct (log_write_up_to_write_returns lsn_arg w
                Hrecv Hinv Hfl H3 Hmw Hf Hal)
      as (w' & Ew & Hinv' & Hfl' & H3' & Hmw' & Hf' & Hal' & Hflock).
    exists w'. split; [exact Ew |].
    split; [exact Hinv' |]. split; [exact Hfl' |]. split; [exact H3' |].
    split; [exact Hmw' |]. split; [rewrite Hflock; exact Hmf |].
    split; [exact Hf' | exact Hal'].
Qed.

End WritePathAssertions.

Lemma example_log_appended_aligned :
  log_aligned (example_server false 0 0) (example_log_appended false).
Proof.
  unfold log_aligned.
  split; [split; vm_compute; reflexivity |].
  split; [vm_compute; reflexivity |].
  split; [vm_compute; reflexivity |].
  split; [vm_compute; reflexivity |].
  split; vm_compute; reflexivity.
Defined.

Lemma log_write_assertions_hold_witness :
  f_faults (data_fd (log (example_log_appended false))) = []
  /\ log_aligned (example_server false 0 0) (example_log_appended false)
  /\ exists s',
      log_write (example_server false 0 0) (example_log_appended false)
      = Returned s'
      /\ f_faults (data_fd (log s')) = []
      /\ log_aligned (example_server false 0 0) s'.
Proof.
  assert (H1 : f_faults (data_fd (log (example_log_appended false))) = [])
    by (vm_compute; reflexivity).
  split; [exact H1 |].
  split; [exact example_log_appended_aligned |].
  exact (log_write_assertions_hold (example_server false 0 0)
           (example_log_appended false) H1 example_log_appended_aligned).
Defined.

Lemma example_world_appended_ready :
  write_up_to_ready example_world_appended.
Proof.
  unfold write_up_to_ready.
  split; [exact example_world_appended_consistent |].
  split; [vm_compute; discriminate |].
  split; [intros H; vm_compute in H; discriminate |].
  split; [reflexivity |].
  split; [reflexivity |].
  split; [vm_compute; reflexivity |].
  exact example_log_appended_aligned.
Defined.

Lemma log_write_up_to_ready_witness :
  write_up_to_ready example_world_appended
  /\ exists w',
      log_write_up_to 8207 true example_world_appended = Returned w'
      /\ write_up_to_ready w'.
Proof.
  split; [exact example_world_appended_ready |].
  exact (log_write_up_to_ready 8207 true example_world_appended
           example_world_appended_ready).
Defined.


(** ** I/O errors of the data file *)

Lemma firstn_plus {A : Type} (k1 k2 : nat) (l : list A) :
  firstn (k1 + k2) l = firstn k1 l ++ firstn k2 (skipn k1 l).
Proof.
  revert l. induction k1 as [| k1 IH]; intros l; [reflexivity |].
  destruct l as [| x l]; cbn.
  - destruct k2; reflexivity.
  - rewrite IH. reflexivity.
Qed.

Lemma skipn_plus {A : Type} (k1 k2 : nat) (l : list A) :
  skipn (k1 + k2) l = skipn k2 (skipn k1 l).
Proof.
  revert l. induction k1 as [| k1 IH]; intros l; [reflexivity |].
  destruct l as [| x l]; cbn.
  - destruct k2; reflexivity.
  - apply IH.
Qed.

Lemma calls_succeeded_refl (f : log_file_t) : calls_succeeded 0 f f.
Proof.
  unfold calls_succeeded. split; [constructor |]. split; [reflexivity |].
  split; [| reflexivity].
  exists []. split; [rewrite app_nil_r; reflexivity | reflexivity].
Qed.

Lemma calls_succeeded_trans (k1 k2 : nat) (f f1 f2 : log_file_t) :
  calls_succeeded k1 f f1 ->
  calls_succeeded k2 f1 f2 ->
  calls_succeeded (k1 + k2) f f2.
Proof.
  intros (A1 & A2 & (o1 & A3 & A4) & A5) (B1 & B2 & (o2 & B3 & B4) & B5).
  unfold calls_succeeded.
  split.
  { rewrite firstn_plus. apply Forall_app. split; [exact A1 |].
    rewrite <- A2. exact B1. }
  split; [rewrite skipn_plus, <- A2; exact B2 |].
  split; [| rewrite B5; exact A5].
  exists (o1 ++ o2). split.
  - rewrite B3, A3, app_assoc. reflexivity.
  - rewrite length_app, A4, B4. reflexivity.
Qed.

(** A call that the file takes. *)
Lemma call_succeeded (op : file_op) (f : log_file_t) :
  File.next_call_fails f = false ->
  calls_succeeded 1 f (File.record op (File.consume f)).
Proof.
  unfold File.next_call_fails, calls_succeeded, File.record, File.consume.
  cbn [f_faults f_ops m_durable_writes]. intros Hn.
  split.
  { destruct (f_faults f) as [| b rest]; [constructor |].
    cbn. constructor; [exact Hn | constructor]. }
  split; [destruct (f_faults f); reflexivity |].
  split; [| reflexivity].
  exists [op]. split; reflexivity.
Qed.

(** With a failure as the next answer no call was taken. *)
Lemma calls_succeeded_none (k : nat) (f f' : log_file_t) :
  File.next_call_fails f = true ->
  calls_succeeded k f f' ->
  f' = f.
Proof.
  unfold File.next_call_fails.
  intros Hn (A1 & A2 & (ops & A3 & A4) & A5).
  destruct (f_faults f) as [| b rest] eqn:Hf; [discriminate |].
  subst b.
  destruct k as [| k].
  - destruct ops; [| discriminate].
    rewrite app_nil_r in A3. cbn in A2.
    destruct f as [d o fl], f' as [d' o' fl']. cbn in *.
    subst. reflexivity.
  - cbn in A1. inversion A1. discriminate.
Qed.

Lemma data_write_calls (offset : Z) (data : list byte) (s s' : log_t) :
  data_write offset data s = Returned s' ->
  calls_succeeded 1 (data_fd (log s)) (data_fd (log s')).
Proof.
  unfold data_write, File.write.
  destruct (File.next_call_fails (data_fd (log s))) eqn:Hn; [discriminate |].
  intros E. injection E as <-.
  exact (call_succeeded _ _ Hn).
Qed.

Lemma log_write_buf_loop_calls (fuel : nat) :
  forall (buf_addr len start_lsn : Z) (s s' : log_t),
    log_write_buf_loop fuel buf_addr len start_lsn s = Returned s' ->
    exists k, calls_succeeded k (data_fd (log s)) (data_fd (log s')).
Proof.
  induction fuel as [| fuel IH]; intros buf_addr len start_lsn s s';
    cbn [log_write_buf_loop].
  - destruct (len =? 0); [| discriminate].
    intros E. injection E as <-. exists 0%nat. apply calls_succeeded_refl.
  - destruct (len =? 0).
    { intros E. injection E as <-. exists 0%nat. apply calls_succeeded_refl. }
    destruct (file_size (log s) =? 0); [discriminate |].
    unfold bind.
    destruct (data_write _ _ _) as [s2 | |] eqn:Ew; try discriminate.
    apply data_write_calls in Ew.
    cbn [log set_n_log_ios set_buf_mem] in Ew.
    destruct (_ <? len).
    + intros Er. apply IH in Er. destruct Er as (k & Hk).
      exists (1 + k)%nat. exact (calls_succeeded_trans _ _ _ _ _ Ew Hk).
    + intros Er. injection Er as <-. exists 1%nat. exact Ew.
Qed.

Section IOErrors.
Context {C : Collaborators}.

Lemma log_write_calls (v : server_t) (s s' : log_t) :
  log_write v s = Returned s' ->
  exists k, calls_succeeded k (data_fd (log s)) (data_fd (log s')).
Proof.
  unfold log_write.
  destruct (buf_free s =? buf_next_to_write s).
  { intros E. injection E as <-. exists 0%nat. apply calls_succeeded_refl. }
  destruct (file_size (log (log_buffer_switch v _)) =? 0); [discriminate |].
  unfold bind.
  destruct (log_write_buf _ _ _ _) as [s3 | |] eqn:Ew; try discriminate.
  unfold log_write_buf in Ew.
  destruct (negb _); [discriminate |].
  destruct (negb _); [discriminate |].
  apply log_write_buf_loop_calls in Ew. destruct Ew as (k & Hk).
  cbn [log data_fd set_buf_mem set_log set_fields set_file_lsn
       set_file_lsn_offset] in Hk.
  rewrite log_buffer_switch_log in Hk. cbn [log set_buf_mem] in Hk.
  intros E. exists k.
  destruct (File.writes_are_durable _); injection E as <-; exact Hk.
Qed.

Lemma log_write_up_to_write_calls (lsn_arg : Z) (w w' : world) :
  log_write_up_to_write lsn_arg w = Returned w' ->
  exists k,
    calls_succeeded k (data_fd (log (log_sys w))) (data_fd (log (log_sys w'))).
Proof.
  unfold log_write_up_to_write, GroupCommit.acquire.
  destruct (lsn_arg <=? _).
  { intros E. injection E as <-. exists 0%nat. apply calls_succeeded_refl. }
  destruct (m_lock (write_lock w)); [discriminate |].
  unfold bind. cbn [log_sys srv set_write_lock write_lock].
  destruct (log_write (srv w) (log_sys w)) as [s | |] eqn:Ew;
    try discriminate.
  cbn [log_sys set_log_sys set_write_lock write_lock].
  destruct (write_lsn s =? lsn (log_sys w)); [| discriminate].
  intros E. injection E as <-.
  exact (log_write_calls _ _ _ Ew).
Qed.

Lemma log_write_up_to_flush_calls (w w' : world) :
  log_write_up_to_flush w = Returned w' ->
  exists k,
    calls_succeeded k (data_fd (log (log_sys w))) (data_fd (log (log_sys w'))).
Proof.
  unfold log_write_up_to_flush.
  cbn [log_sys set_flush_lock].
  destruct (File.writes_are_durable (data_fd (log (log_sys w))));
    cbn [negb bind].
  - intros E. injection E as <-. exists 0%nat. apply calls_succeeded_refl.
  - unfold log_write_flush_to_disk_low, data_flush_data_only,
      File.flush_data_only, bind.
    cbn [log data_fd set_pending_flushes].
    destruct (File.next_call_fails (data_fd (log (log_sys w)))) eqn:Hn;
      [discriminate |].
    cbn [flushed_to_disk_lsn set_flushes set_pending_flushes set_log].
    destruct (_ >=? _); [| discriminate].
    intros E. injection E as <-. exists 1%nat.
    exact (call_succeeded _ _ Hn).
Qed.

(** X30. An I/O error of the data file is fatal: when [log_write_up_to]
    returns, every call it made on the data file (the writes of
    [log_write_buf], the flush of [log_write_flush_to_disk_low]) was
    answered with success, and as many operations were recorded as answers
    were used up. So a call that returns although the next answer of the
    file is a failure has not touched the file. *)
Theorem log_write_up_to_no_error
  (lsn_arg : Z) (flush_to_disk : bool) (w w' : world) :
  log_write_up_to lsn_arg flush_to_disk w = Returned w' ->
  (exists k,
      calls_succeeded k (data_fd (log (log_sys w)))
        (data_fd (log (log_sys w'))))
  /\ (File.next_call_fails (data_fd (log (log_sys w))) = true ->
      data_fd (log (log_sys w')) = data_fd (log (log_sys w))).
Proof.
  intros E.
  assert (Hcalls : exists k,
             calls_succeeded k (data_fd (log (log_sys w)))
               (data_fd (log (log_sys w')))).
  { destruct (log_write_up_to_cases _ _ _ _ E)
      as [(_ & ->) | [(_ & _ & _ & ->) | [(_ & _ & _ & l & w1 & _ & Ew & Ef)
                                         | (_ & _ & Ew)]]].
    - exists 0%nat. apply calls_succeeded_refl.
    - exists 0%nat. apply calls_succeeded_refl.
    - apply log_write_up_to_write_calls in Ew. destruct Ew as (k1 & H1).
      apply log_write_up_to_flush_calls in Ef. destruct Ef as (k2 & H2).
      exists (k1 + k2)%nat.
      exact (calls_succeeded_trans _ _ _ _ _ H1 H2).
    - exact (log_write_up_to_write_calls _ _ _ Ew). }
  split; [exact Hcalls |].
  intros Hn. destruct Hcalls as (k & Hk).
  exact (calls_succeeded_none _ _ _ Hn Hk).
Qed.

End IOErrors.

Lemma log_write_up_to_no_error_witness :
  File.next_call_fails (data_fd (log (log_sys example_world_appended)))
  = false
  /\ match log_write_up_to 8207 true example_world_appended with
     | Returned w' =>
         exists k,
           calls_succeeded k
             (data_fd (log (log_sys example_world_appended)))
             (data_fd (log (log_sys w')))
     | Blocked => False
     | Aborted => False
     end.
Proof.
  split; [vm_compute; reflexivity |].
  assert (Hc : match log_write_up_to 8207 true example_world_appended with
               | Returned _ => True
               | Blocked => False
               | Aborted => False
               end) by (vm_compute; exact I).
  revert Hc.
  destruct (log_write_up_to 8207 true example_world_appended)
    as [w' | |] eqn:E; intros Hc; [| contradiction | contradiction].
  exact (proj1 (log_write_up_to_no_error 8207 true example_world_appended
                  w' E)).
Defined.

(** ** A call of [log_write_up_to] among other threads *)

Lemma log_write_low_part_published (str : list byte) (s : log_t) :
  flushed_to_disk_lsn (snd (log_write_low_part str s)) = flushed_to_disk_lsn s
  /\ write_lsn (snd (log_write_low_part str s)) = write_lsn s.
Proof.
  unfold log_write_low_part.
  repeat match goal with
         | |- context [if ?b then _ else _] => destruct b
         end;
    split; reflexivity.
Qed.

Lemma log_write_low_loop_published (fuel : nat) :
  forall (str : list byte) (s s' : log_t),
    log_write_low_loop fuel str s = Some s' ->
    flushed_to_disk_lsn s' = flushed_to_disk_lsn s
    /\ write_lsn s' = write_lsn s.
Proof.
  induction fuel as [| fuel IH]; intros str s s'; cbn [log_write_low_loop];
    [discriminate |].
  pose proof (log_write_low_part_published str s) as (Hf & Hw).
  destruct (log_write_low_part str s) as [rest s1]. cbn [snd] in Hf, Hw.
  destruct (0 <? zlen rest).
  - intros E. apply IH in E. destruct E as (-> & ->). split; assumption.
  - intros E. injection E as <-. split; assumption.
Qed.

(** An append that does not wrap the lsn moves it forward. *)
Lemma log_write_low_lsn_grows (str : list byte) (s s' : log_t) :
  buffer_wf s ->
  0 <= lsn s ->
  lsn s + 2 * zlen str + 32 < 2 ^ 64 ->
  log_write_low str s = Some s' ->
  lsn s <= lsn s'.
Proof.
  intros Hwf H0 Hbound E.
  pose proof (zlen_nonneg str) as Hlen.
  assert (Hsmall : zlen str < 2 ^ 63) by lia.
  destruct (log_write_low_loop_result (length str + 2) str s
              ltac:(lia) Hwf Hsmall) as (s2 & Hrun & Hlsn & _).
  unfold log_write_low in E. rewrite E in Hrun. injection Hrun as <-.
  rewrite Hlsn.
  destruct Hwf as (_ & Hoff). fold (free_offset_in_block s) in Hoff.
  unfold LOG_BLOCK_HDR_SIZE in *.
  set (k := (free_offset_in_block s - 12 + zlen str) / block_payload s).
  assert (Hk : 0 <= k /\ block_payload s * k
                         <= free_offset_in_block s - 12 + zlen str).
  { assert (HP : 0 < block_payload s).
    { unfold block_payload, LOG_BLOCK_HDR_SIZE.
      destruct (block_geometry s) as [(-> & _) | (-> & _)]; lia. }
    split; [apply Z.div_pos; lia | apply Z.mul_div_le; lia]. }
  destruct Hk as (Hk0 & Hk).
  unfold block_payload, LOG_BLOCK_HDR_SIZE in Hk.
  destruct (block_geometry s) as [(HT & HF) | (HT & HF)];
    rewrite HT in *; rewrite HF;
    rewrite u64_small by lia; lia.
Qed.

Section RunFacts.
Context {C : Collaborators}.

(** The write phase of [log_write_up_to] is the [acquire] and then the
    steps of the owner. *)
Lemma log_write_up_to_write_split (lsn_arg : Z) (w : world) :
  log_write_up_to_write lsn_arg w
  = match GroupCommit.acquire lsn_arg (write_lock w) with
    | None => Blocked
    | Some (WAITING_COVERED, _) => Returned w
    | Some (ACQUIRED, l) => log_write_up_to_write_owned (set_write_lock l w)
    end.
Proof.
  unfold log_write_up_to_write.
  destruct (GroupCommit.acquire lsn_arg (write_lock w)) as [[[|] l] |];
    reflexivity.
Qed.

(** The steps of the caller, with no other thread in between, are
    [log_write_up_to]. *)
Lemma call_steps_log_write_up_to
  (lsn_arg : Z) (flush_to_disk : bool) (w : world) :
  call_steps lsn_arg flush_to_disk 5 At_enter w
  = (w' <- log_write_up_to lsn_arg flush_to_disk w ;;
     Returned (At_return, w')).
Proof.
  unfold log_write_up_to. cbn [call_steps call_step].
  destruct (recv_no_ibuf_operations (srv w)); [reflexivity |].
  destruct flush_to_disk; cbn [bind fst snd call_step].
  - destruct (GroupCommit.acquire lsn_arg (flush_lock w)) as [[[|] l] |];
      cbn [bind fst snd call_step]; try reflexivity.
    rewrite log_write_up_to_write_split.
    destruct (GroupCommit.acquire lsn_arg (write_lock (set_flush_lock l w)))
      as [[[|] l'] |]; cbn [bind fst snd call_step]; try reflexivity.
    + destruct (log_write_up_to_write_owned _) as [w1 | |];
        cbn [bind fst snd call_step]; try reflexivity.
      destruct (log_write_up_to_flush w1) as [w2 | |]; reflexivity.
    + destruct (log_write_up_to_flush _) as [w2 | |]; reflexivity.
  - rewrite log_write_up_to_write_split.
    destruct (GroupCommit.acquire lsn_arg (write_lock w)) as [[[|] l'] |];
      cbn [bind fst snd call_step]; try reflexivity.
    destruct (log_write_up_to_write_owned _) as [w1 | |]; reflexivity.
Qed.

Lemma call_steps_run
  (lsn_arg : Z) (flush_to_disk : bool) (n : nat) :
  forall (pc : call_point) (w w' : world),
    call_steps lsn_arg flush_to_disk n pc w = Returned (At_return, w') ->
    log_write_up_to_run lsn_arg flush_to_disk pc w w'.
Proof.
  induction n as [| n IH]; intros pc w w'; cbn [call_steps].
  - intros E. injection E as -> ->. apply Run_returned.
  - destruct (call_step lsn_arg flush_to_disk pc w) as [[pc1 w1] | |] eqn:Es;
      cbn [bind fst snd]; try discriminate.
    intros E. apply (Run_caller _ _ _ _ _ _ _ Es). apply IH. exact E.
Qed.

(** A call that returns without waiting is a run. *)
Lemma log_write_up_to_is_run
  (lsn_arg : Z) (flush_to_disk : bool) (w w' : world) :
  log_write_up_to lsn_arg flush_to_disk w = Returned w' ->
  log_write_up_to_run lsn_arg flush_to_disk At_enter w w'.
Proof.
  intros E. apply (call_steps_run _ _ 5).
  rewrite call_steps_log_write_up_to, E. reflexivity.
Qed.

(** What the owner of the write lock publishes. *)
Lemma log_write_up_to_write_owned_result (w w' : world) :
  log_write_up_to_write_owned w = Returned w' ->
  stable_fields (log_sys w') = stable_fields (log_sys w)
  /\ flush_lock w' = flush_lock w
  /\ srv w' = srv w
  /\ GroupCommit.value (write_lock w') = lsn (log_sys w)
  /\ write_lsn (log_sys w') = lsn (log_sys w)
  /\ (log_sys w' = log_sys w
      \/ flushed_to_disk_lsn (log_sys w')
         = if File.writes_are_durable (data_fd (log (log_sys w)))
           then lsn (log_sys w)
           else flushed_to_disk_lsn (log_sys w)).
Proof.
  unfold log_write_up_to_write_owned, bind.
  cbn [log_sys srv set_write_lock write_lock].
  destruct (log_write (srv w) (log_sys w)) as [s | |] eqn:Ew;
    try discriminate.
  cbn [log_sys set_log_sys set_write_lock write_lock].
  destruct (Z.eqb_spec (write_lsn s) (lsn (log_sys w))) as [Hpub | Hne];
    [| discriminate].
  intros E. injection E as <-.
  apply log_write_result in Ew. destruct Ew as (Hst & Hres).
  cbn. split; [exact Hst |]. split; [reflexivity |]. split; [reflexivity |].
  split; [reflexivity |]. split; [exact Hpub |].
  destruct Hres as [(_ & ->) | (_ & Hfl)]; [left; reflexivity |].
  right. exact Hfl.
Qed.

Lemma log_write_up_to_write_owned_keeps (w w' : world) :
  locks_consistent w ->
  log_write_up_to_write_owned w = Returned w' ->
  locks_consistent w'
  /\ srv w' = srv w
  /\ lsn (log_sys w') = lsn (log_sys w)
  /\ GroupCommit.value (write_lock w') = lsn (log_sys w)
  /\ flushed_to_disk_lsn (log_sys w) <= flushed_to_disk_lsn (log_sys w').
Proof.
  intros (H1 & H2 & H3 & H4) E.
  apply log_write_up_to_write_owned_result in E.
  destruct E as (Hst & Hfl & Hsrv & Hval & Hpub & Hres).
  pose proof (stable_fields_inv _ _ Hst) as (Hlsn & _ & _ & _ & Hd).
  assert (Hflushed :
            flushed_to_disk_lsn (log_sys w) <= flushed_to_disk_lsn (log_sys w')
            <= lsn (log_sys w)
            /\ (File.writes_are_durable (data_fd (log (log_sys w))) = true ->
                lsn (log_sys w) <= flushed_to_disk_lsn (log_sys w'))).
  { destruct Hres as [Hsame | Hnew].
    - rewrite Hsame in *. split; [lia |]. intros Hdur.
      destruct (H4 Hdur). lia.
    - rewrite Hnew.
      destruct (File.writes_are_durable (data_fd (log (log_sys w)))).
      + split; [lia |]. intros _. lia.
      + split; [lia |]. intros Hdur. discriminate. }
  destruct Hflushed as (Hf1 & Hf2).
  split.
  { unfold locks_consistent. rewrite Hfl, Hlsn, Hd, Hval, Hpub.
    split; [lia |]. split; [lia |]. split; [lia |].
    intros Hdur. specialize (Hf2 Hdur). lia. }
  split; [exact Hsrv |]. split; [exact Hlsn |]. split; [exact Hval |]. lia.
Qed.

Lemma log_write_up_to_flush_keeps (w w' : world) :
  locks_consistent w ->
  log_write_up_to_flush w = Returned w' ->
  locks_consistent w'
  /\ srv w' = srv w
  /\ lsn (log_sys w') = lsn (log_sys w)
  /\ write_lock w' = write_lock w
  /\ flushed_to_disk_lsn (log_sys w) <= flushed_to_disk_lsn (log_sys w')
  /\ GroupCommit.value (write_lock w) <= flushed_to_disk_lsn (log_sys w').
Proof.
  intros (H1 & H2 & H3 & H4) E.
  apply log_write_up_to_flush_result in E.
  destruct E as (Hwl & Hval & Hst & Hwr & Hfd & Hge & _ & Hsrv & _).
  pose proof (stable_fields_inv _ _ Hst) as (Hlsn & _ & _ & _ & Hd).
  assert (Hflushed :
            flushed_to_disk_lsn (log_sys w) <= flushed_to_disk_lsn (log_sys w')
            /\ GroupCommit.value (write_lock w)
               <= flushed_to_disk_lsn (log_sys w') <= lsn (log_sys w)
            /\ GroupCommit.value (flush_lock w')
               <= flushed_to_disk_lsn (log_sys w')).
  { rewrite Hfd, Hval.
    destruct (File.writes_are_durable (data_fd (log (log_sys w)))).
    - destruct (H4 eq_refl). lia.
    - specialize (Hge eq_refl). lia. }
  destruct Hflushed as (Hf1 & Hf2 & Hf3).
  split.
  { unfold locks_consistent. rewrite Hwl, Hlsn, Hd, Hwr.
    split; [lia |]. split; [lia |]. split; [lia |].
    intros Hdur. destruct (H4 Hdur). lia. }
  split; [exact Hsrv |]. split; [exact Hlsn |]. split; [exact Hwl |]. lia.
Qed.

(** The steps of other threads keep the locks in agreement with the log
    system and move nothing backwards. *)
Lemma other_thread_step_keeps (w w1 : world) :
  other_thread_step w w1 ->
  locks_consistent w ->
  locks_consistent w1
  /\ srv w1 = srv w
  /\ lsn (log_sys w) <= lsn (log_sys w1)
  /\ GroupCommit.value (write_lock w) <= GroupCommit.value (write_lock w1)
  /\ flushed_to_disk_lsn (log_sys w) <= flushed_to_disk_lsn (log_sys w1).
Proof.
  intros Hstep Hinv.
  destruct Hstep as [num l w Ha | num l w Ha | w w1 _ Ew | w w1 _ Ef
                    | str s1 w Hwf H0 Hbound Ea].
  - unfold GroupCommit.acquire in Ha.
    destruct (num <=? _); [discriminate |].
    destruct (m_lock (flush_lock w)); [discriminate |].
    injection Ha as <-.
    destruct Hinv as (H1 & H2 & H3 & H4).
    split; [split; [exact H1 |]; split; [exact H2 |];
            split; [exact H3 | exact H4] |].
    cbn. split; [reflexivity |]. lia.
  - unfold GroupCommit.acquire in Ha.
    destruct (num <=? _); [discriminate |].
    destruct (m_lock (write_lock w)); [discriminate |].
    injection Ha as <-.
    destruct Hinv as (H1 & H2 & H3 & H4).
    split; [split; [exact H1 |]; split; [exact H2 |];
            split; [exact H3 | exact H4] |].
    cbn. unfold GroupCommit.value. split; [reflexivity |]. lia.
  - destruct (log_write_up_to_write_owned_keeps _ _ Hinv Ew)
      as (K1 & K2 & K3 & K4 & K5).
    destruct Hinv as (_ & _ & H3 & _).
    split; [exact K1 |]. split; [exact K2 |]. lia.
  - destruct (log_write_up_to_flush_keeps _ _ Hinv Ef)
      as (K1 & K2 & K3 & K4 & K5 & _).
    split; [exact K1 |]. split; [exact K2 |]. rewrite K4. lia.
  - pose proof (log_write_low_lsn_grows _ _ _ Hwf H0 Hbound Ea) as Hgrow.
    unfold log_write_low in Ea.
    pose proof (log_write_low_loop_published _ _ _ _ Ea) as (Hf & Hw).
    pose proof (log_write_low_loop_log _ _ _ _ Ea) as (Hl & _).
    destruct Hinv as (H1 & H2 & H3 & H4).
    cbn [log_sys set_log_sys write_lock flush_lock srv].
    split.
    { unfold locks_consistent.
      cbn [log_sys set_log_sys write_lock flush_lock].
      rewrite Hf, Hw, Hl.
      split; [lia |]. split; [lia |]. split; [lia | exact H4]. }
    split; [reflexivity |]. lia.
Qed.

(** A step of the caller of a flushing call keeps what it has reached. *)
Lemma call_step_reached
  (lsn_arg : Z) (pc pc' : call_point) (w w1 : world) :
  reached lsn_arg pc w ->
  call_step lsn_arg true pc w = Returned (pc', w1) ->
  reached lsn_arg pc' w1.
Proof.
  intros (Hrecv & Hlsn & Hinv & Hpc).
  pose proof Hinv as (H1 & H2 & H3 & H4).
  destruct pc; cbn [call_step].
  - (* the recovery guard *)
    rewrite Hrecv. intros E. injection E as <- <-.
    split; [exact Hrecv |]. split; [exact Hlsn |]. split; [exact Hinv |].
    exact I.
  - (* flush_lock.acquire(lsn) *)
    unfold GroupCommit.acquire.
    destruct (Z.leb_spec lsn_arg (GroupCommit.value (flush_lock w)))
      as [Hcov | Hnot].
    + intros E. injection E as <- <-.
      split; [exact Hrecv |]. split; [exact Hlsn |]. split; [exact Hinv |].
      cbn. lia.
    + destruct (m_lock (flush_lock w)); [discriminate |].
      intros E. injection E as <- <-.
      split; [exact Hrecv |]. split; [exact Hlsn |].
      split; [| exact I].
      split; [exact H1 |]. split; [exact H2 |]. split; [exact H3 | exact H4].
  - (* write_lock.acquire(lsn) *)
    unfold GroupCommit.acquire.
    destruct (Z.leb_spec lsn_arg (GroupCommit.value (write_lock w)))
      as [Hcov | Hnot].
    + intros E. injection E as <- <-.
      split; [exact Hrecv |]. split; [exact Hlsn |]. split; [exact Hinv |].
      exact Hcov.
    + destruct (m_lock (write_lock w)); [discriminate |].
      intros E. injection E as <- <-.
      split; [exact Hrecv |]. split; [exact Hlsn |].
      split; [| exact I].
      split; [exact H1 |]. split; [exact H2 |]. split; [exact H3 | exact H4].
  - (* the owner of the write lock writes *)
    unfold bind.
    destruct (log_write_up_to_write_owned w) as [w2 | |] eqn:Ew;
      try discriminate.
    intros E. injection E as <- <-.
    destruct (log_write_up_to_write_owned_keeps _ _ Hinv Ew)
      as (K1 & K2 & K3 & K4 & _).
    split; [rewrite K2; exact Hrecv |]. split; [rewrite K3; exact Hlsn |].
    split; [exact K1 |]. cbn. rewrite K4. exact Hlsn.
  - (* the flush *)
    unfold bind.
    destruct (log_write_up_to_flush w) as [w2 | |] eqn:Ef; try discriminate.
    intros E. injection E as <- <-.
    destruct (log_write_up_to_flush_keeps _ _ Hinv Ef)
      as (K1 & K2 & K3 & _ & _ & K6).
    split; [rewrite K2; exact Hrecv |]. split; [rewrite K3; exact Hlsn |].
    split; [exact K1 |]. cbn in Hpc |- *. lia.
  - intros E. injection E as <- <-.
    split; [exact Hrecv |]. split; [exact Hlsn |]. split; [exact Hinv |].
    exact Hpc.
Qed.

(** So does a step of another thread. *)
Lemma other_thread_step_reached
  (lsn_arg : Z) (pc : call_point) (w w1 : world) :
  reached lsn_arg pc w ->
  other_thread_step w w1 ->
  reached lsn_arg pc w1.
Proof.
  intros (Hrecv & Hlsn & Hinv & Hpc) Hstep.
  destruct (other_thread_step_keeps _ _ Hstep Hinv)
    as (K1 & K2 & K3 & K4 & K5).
  split; [rewrite K2; exact Hrecv |]. split; [lia |].
  split; [exact K1 |].
  destruct pc; try exact I; cbn in Hpc |- *; lia.
Qed.

Lemma log_write_up_to_run_reached
  (lsn_arg : Z) (pc : call_point) (w w' : world) :
  log_write_up_to_run lsn_arg true pc w w' ->
  reached lsn_arg pc w ->
  reached lsn_arg At_return w'.
Proof.
  intros Hrun.
  induction Hrun as [w | pc pc' w w1 w' Es _ IH | pc w w1 w' Ho _ IH];
    intros Hr.
  - exact Hr.
  - apply IH. exact (call_step_reached _ _ _ _ _ Hr Es).
  - apply IH. exact (other_thread_step_reached _ _ _ _ Hr Ho).
Qed.

(** C1, amended. Outside recovery, for an lsn that the log has reached
    ([lsn <= log_sys.lsn] at the call) and group-commit locks that agree
    with [log_sys], a return from [log_write_up_to(lsn,
    flush_to_disk=true)] leaves [flushed_to_disk_lsn >= lsn], whether the
    caller became the owner of the write and of the flush or was covered
    by a concurrent wave. This holds for a call that returns without
    waiting and for every run of the call among other threads: the
    caller may be queued on the flush lock or on the write lock while
    other threads take the locks, write, flush and append, and go on once
    the lock covers its lsn or is free. *)
Theorem log_write_up_to_flushes (lsn_arg : Z) (w w' : world) :
  recv_no_ibuf_operations (srv w) = false ->
  lsn_arg <= lsn (log_sys w) ->
  locks_consistent w ->
  log_write_up_to lsn_arg true w = Returned w'
  \/ log_write_up_to_run lsn_arg true At_enter w w' ->
  lsn_arg <= flushed_to_disk_lsn (log_sys w').
Proof.
  intros Hrecv Hreached Hinv Hcall.
  assert (Hrun : log_write_up_to_run lsn_arg true At_enter w w').
  { destruct Hcall as [E | Hrun]; [| exact Hrun].
    exact (log_write_up_to_is_run _ _ _ _ E). }
  assert (Hstart : reached lsn_arg At_enter w).
  { split; [exact Hrecv |]. split; [exact Hreached |].
    split; [exact Hinv | exact I]. }
  destruct (log_write_up_to_run_reached _ _ _ _ Hrun Hstart)
    as (_ & _ & _ & Hdone).
  exact Hdone.
Qed.

End RunFacts.

(** *** A caller queued behind a wave *)

Lemma example_wave_written_step :
  log_write_up_to_write_owned example_wave_write_lock
  = Returned example_wave_written.
Proof.
  assert (Hc : match log_write_up_to_write_owned example_wave_write_lock with
               | Returned _ => True
               | Blocked => False
               | Aborted => False
               end) by (vm_compute; exact I).
  unfold example_wave_written. revert Hc.
  destruct (log_write_up_to_write_owned example_wave_write_lock);
    intros Hc; [reflexivity | contradiction | contradiction].
Qed.

Lemma example_wave_flushed_step :
  log_write_up_to_flush example_wave_written = Returned example_wave_flushed.
Proof.
  assert (Hc : match log_write_up_to_flush example_wave_written with
               | Returned _ => True
               | Blocked => False
               | Aborted => False
               end) by (vm_compute; exact I).
  unfold example_wave_flushed. revert Hc.
  destruct (log_write_up_to_flush example_wave_written);
    intros Hc; [reflexivity | contradiction | contradiction].
Qed.

(** The caller asks for lsn 8207 while another thread holds the flush
    lock: it is queued; the other thread takes the write lock, writes,
    flushes and releases the flush lock at lsn 8207; the caller finds its
    lsn covered and returns. *)
Lemma example_wave_run :
  log_write_up_to_run 8207 true At_enter example_world_appended
    example_wave_flushed.
Proof.
  apply (Run_caller 8207 true At_enter At_flush_lock example_world_appended
           example_world_appended example_wave_flushed); [reflexivity |].
  apply (Run_others 8207 true At_flush_lock example_world_appended
           example_wave_flush_lock example_wave_flushed).
  { exact (Other_takes_flush_lock 8207 (mk_group_commit_lock 8204 8204 true)
             example_world_appended eq_refl). }
  apply (Run_others 8207 true At_flush_lock example_wave_flush_lock
           example_wave_write_lock example_wave_flushed).
  { exact (Other_takes_write_lock 8207 (mk_group_commit_lock 8204 8204 true)
             example_wave_flush_lock eq_refl). }
  apply (Run_others 8207 true At_flush_lock example_wave_write_lock
           example_wave_written example_wave_flushed).
  { apply Other_writes; [reflexivity | exact example_wave_written_step]. }
  apply (Run_others 8207 true At_flush_lock example_wave_written
           example_wave_flushed example_wave_flushed).
  { apply Other_flushes; [vm_compute; reflexivity
                         | exact example_wave_flushed_step]. }
  apply (Run_caller 8207 true At_flush_lock At_return example_wave_flushed
           example_wave_flushed example_wave_flushed);
    [| apply Run_returned].
  assert (Hv : (8207 <=? GroupCommit.value (flush_lock example_wave_flushed))
               = true) by (vm_compute; reflexivity).
  unfold call_step, GroupCommit.acquire. rewrite Hv. reflexivity.
Qed.

(** Three bytes wait in the buffer at lsn 8207. A call that finds the
    locks free writes the block and flushes it. A call that finds the
    flush lock taken is queued, and returns once the wave of the other
    thread has flushed lsn 8207. *)
Lemma log_write_up_to_flushes_witness :
  recv_no_ibuf_operations (srv example_world_appended) = false
  /\ 8207 <= lsn (log_sys example_world_appended)
  /\ locks_consistent example_world_appended
  /\ call_step 8207 true At_flush_lock example_wave_flush_lock = Blocked
  /\ log_write_up_to_run 8207 true At_enter example_world_appended
       example_wave_flushed
  /\ 8207 <= flushed_to_disk_lsn (log_sys example_wave_flushed)
  /\ match log_write_up_to 8207 true example_world_appended with
     | Returned w' => 8207 <= flushed_to_disk_lsn (log_sys w')
     | Blocked => False
     | Aborted => False
     end.
Proof.
  assert (H1 : recv_no_ibuf_operations (srv example_world_appended) = false)
    by reflexivity.
  assert (H2 : 8207 <= lsn (log_sys example_world_appended))
    by (vm_compute; discriminate).
  split; [exact H1 |]. split; [exact H2 |].
  split; [exact example_world_appended_consistent |].
  split; [reflexivity |].
  split; [exact example_wave_run |].
  split.
  { exact (log_write_up_to_flushes 8207 example_world_appended
             example_wave_flushed H1 H2 example_world_appended_consistent
             (or_intror example_wave_run)). }
  assert (Hc : match log_write_up_to 8207 true example_world_appended with
               | Returned _ => True
               | Blocked => False
               | Aborted => False
               end) by (vm_compute; exact I).
  revert Hc.
  destruct (log_write_up_to 8207 true example_world_appended)
    as [w' | |] eqn:E; intros Hc; [| contradiction | contradiction].
  exact (log_write_up_to_flushes 8207 example_world_appended w' H1 H2
           example_world_appended_consistent (or_introl E)).
Defined.

(** C1 as stated fails. During recovery the call returns at once and
    [flushed_to_disk_lsn] stays at 1, below the lsn 100 that was asked
    for. Outside recovery, asked for lsn 20 when the log has only reached
    lsn 10, the call flushes what there is and returns with
    [flushed_to_disk_lsn = 10]. *)
Lemma log_write_up_to_flushes_counterexample :
  (log_write_up_to 100 true
     (example_world (example_log false 100 1 1 1) (example_server true 0 0))
   = Returned (example_world (example_log false 100 1 1 1)
                 (example_server true 0 0))
   /\ flushed_to_disk_lsn
        (log_sys (example_world (example_log false 100 1 1 1)
                    (example_server true 0 0))) = 1)
  /\ match log_write_up_to 20 true
             (example_world (example_log false 10 10 1 1)
                (example_server false 0 0)) with
     | Returned w' => flushed_to_disk_lsn (log_sys w') = 10
     | Blocked => False
     | Aborted => False
     end.
Proof.
  split; [split; reflexivity |].
  vm_compute. reflexivity.
Qed.
